(** * SkillWisp [scripts/sync-stats.js]: a shallow embedding and its properties

    The script scans [skills/@source/<skill-id>/SKILL.md], extracts the
    frontmatter of every marker file, reconciles the scan with the CLI
    registry ([index.yaml], [i18n/zh-CN.yaml]) and, under [--fix], rewrites
    four count phrases of [README.md] and [docs/skills.md].

    Modelling conventions.
    - A JavaScript string is the list of its UTF-16 code units ([list N]).
    - A regular expression is a term of [re], run by a backtracking matcher
      that tries the alternatives in the order of the ECMAScript semantics
      (greedy: longest first, lazy: shortest first).  Every quantifier of the
      script is applied to a single-character class, and [re] has exactly
      those.
    - The file system is a tree of named nodes, each a regular file or a
      directory (no symbolic links); a path is the list of its components,
      and the [fs] calls that throw return [Throw].
    - What [main] prints is summarised by the record [report]; colours and
      padding are left out.
    - An object used as a dictionary is the association list of its own
      properties in insertion order.  Members inherited from
      [Object.prototype] (a key such as [constructor]) and the numeric-key
      reordering of [Object.keys] are outside the model.
    - Counts are natural numbers below 2^53, where [parseInt] and the
      template literal [${n}] are exact. *)

From Stdlib Require Import String Ascii.
From Stdlib Require Import List NArith Lia Bool Arith Permutation.
Import ListNotations.

Set Implicit Arguments.
Set Warnings "-register-all".

(* ================================================================== *)
(** ** Strings *)

Definition char := N.
Definition jsstring := list char.

(** An ASCII literal of the script as a list of code units. *)
Definition lit (s : string) : jsstring :=
  map N_of_ascii (list_ascii_of_string s).

Definition char_eqb (a b : char) : bool := N.eqb a b.

Fixpoint str_eqb (a b : jsstring) : bool :=
  match a, b with
  | [], [] => true
  | x :: a', y :: b' => char_eqb x y && str_eqb a' b'
  | _, _ => false
  end.

(** [s.startsWith(p)] *)
Fixpoint startsWith (p s : jsstring) : bool :=
  match p, s with
  | [], _ => true
  | x :: p', y :: s' => char_eqb x y && startsWith p' s'
  | _ :: _, [] => false
  end.

(** [s.endsWith(p)] *)
Definition endsWith (p s : jsstring) : bool := startsWith (rev p) (rev s).

(** ECMAScript character classes. *)
Definition is_digit (c : char) : bool := (48 <=? c)%N && (c <=? 57)%N.

Definition is_line_terminator (c : char) : bool :=
  (c =? 10)%N || (c =? 13)%N || (c =? 0x2028)%N || (c =? 0x2029)%N.

(** [\s]: WhiteSpace and LineTerminator code points. *)
Definition is_space (c : char) : bool :=
  ((9 <=? c)%N && (c <=? 13)%N) || (c =? 32)%N || (c =? 0xA0)%N
  || (c =? 0x1680)%N || ((0x2000 <=? c)%N && (c <=? 0x200A)%N)
  || (c =? 0x2028)%N || (c =? 0x2029)%N || (c =? 0x202F)%N
  || (c =? 0x205F)%N || (c =? 0x3000)%N || (c =? 0xFEFF)%N.

(** [.] without the [s] flag. *)
Definition is_dot (c : char) : bool := negb (is_line_terminator c).

(** [[\s\S]] *)
Definition is_any (c : char) : bool := true.

(** The class of the two quote characters, double and single. *)
Definition is_quote (c : char) : bool := (c =? 34)%N || (c =? 39)%N.

Definition is_lower (c : char) : bool := (97 <=? c)%N && (c <=? 122)%N.

(** [[a-z0-9-]] *)
Definition is_src_char (c : char) : bool :=
  is_lower c || is_digit c || (c =? 45)%N.

(** [[a-z0-9.-]] *)
Definition is_id_char (c : char) : bool :=
  is_lower c || is_digit c || (c =? 46)%N || (c =? 45)%N.

Fixpoint dropWhile (p : char -> bool) (s : jsstring) : jsstring :=
  match s with
  | c :: s' => if p c then dropWhile p s' else s
  | [] => []
  end.

Fixpoint takeWhile (p : char -> bool) (s : jsstring) : jsstring :=
  match s with
  | c :: s' => if p c then c :: takeWhile p s' else []
  | [] => []
  end.

(** [s.trim()] *)
Definition trim (s : jsstring) : jsstring :=
  rev (dropWhile is_space (rev (dropWhile is_space s))).

(** [s.slice(1)] *)
Definition slice1 (s : jsstring) : jsstring := tl s.

(** [s.slice(1, -1)] *)
Definition slice_1_m1 (s : jsstring) : jsstring := removelast (tl s).

(** [s.split(sep)] for a one-character separator. *)
Fixpoint split_on (sep : char) (s : jsstring) : list jsstring :=
  match s with
  | [] => [[]]
  | c :: s' =>
      if char_eqb c sep then [] :: split_on sep s'
      else match split_on sep s' with
           | l :: ls => (c :: l) :: ls
           | [] => [[c]]
           end
  end.

(** [parseInt(s)] on a string of decimal digits, as the count patterns
    capture them; [None] is [NaN]. *)
Definition digits_value (ds : jsstring) : N :=
  fold_left (fun a c => (10 * a + (c - 48))%N) ds 0%N.

Definition parseInt (s : jsstring) : option N :=
  match takeWhile is_digit s with
  | [] => None
  | ds => Some (digits_value ds)
  end.

(** [String(n)] of a non-negative integer: its decimal digits. *)
Fixpoint digits_fuel (fuel : nat) (n : N) (acc : jsstring) : jsstring :=
  match fuel with
  | O => acc
  | S f =>
      let acc' := (48 + n mod 10)%N :: acc in
      if (n <? 10)%N then acc' else digits_fuel f (n / 10)%N acc'
  end.

Definition to_string (n : N) : jsstring :=
  digits_fuel (S (N.to_nat (N.log2 n))) n [].

(* ================================================================== *)
(** ** Regular expressions *)

Inductive re : Type :=
| Eps
| Bol                                   (* ^ *)
| Eol                                   (* $ *)
| Chr (c : char)                        (* a literal character *)
| Cls (p : char -> bool)                (* a class, once *)
| Opt (p : char -> bool)                (* class?, greedy *)
| Star (greedy : bool) (p : char -> bool)  (* class* and class*? *)
| Grp (r : re)                          (* ( r ) *)
| Seq (r1 r2 : re).

Definition Plus (greedy : bool) (p : char -> bool) : re :=
  Seq (Cls p) (Star greedy p).

Fixpoint Str (s : jsstring) : re :=
  match s with
  | [] => Eps
  | c :: s' => Seq (Chr c) (Str s')
  end.

(** The matcher, in continuation-passing style.  [acc] holds the characters
    consumed since the attempt started, last first; [before] is the character
    in front of the attempt, [None] at the start of the input. *)
Section Matcher.
Variable A : Type.
Variable multiline : bool.
Variable before : option char.

Definition cont : Type := jsstring -> jsstring -> list jsstring -> option A.

Definition at_bol (acc : jsstring) : bool :=
  match acc with
  | c :: _ => multiline && is_line_terminator c
  | [] => match before with
          | None => true
          | Some c => multiline && is_line_terminator c
          end
  end.

Definition at_eol (s : jsstring) : bool :=
  match s with
  | [] => true
  | c :: _ => multiline && is_line_terminator c
  end.

Fixpoint star_greedy (p : char -> bool) (acc s : jsstring)
    (caps : list jsstring) (k : cont) : option A :=
  match s with
  | c :: s' =>
      if p c then
        match star_greedy p (c :: acc) s' caps k with
        | Some r => Some r
        | None => k acc s caps
        end
      else k acc s caps
  | [] => k acc s caps
  end.

Fixpoint star_lazy (p : char -> bool) (acc s : jsstring)
    (caps : list jsstring) (k : cont) : option A :=
  match k acc s caps with
  | Some r => Some r
  | None =>
      match s with
      | c :: s' => if p c then star_lazy p (c :: acc) s' caps k else None
      | [] => None
      end
  end.

Fixpoint mt (r : re) (acc s : jsstring) (caps : list jsstring) (k : cont)
    : option A :=
  match r with
  | Eps => k acc s caps
  | Bol => if at_bol acc then k acc s caps else None
  | Eol => if at_eol s then k acc s caps else None
  | Chr c =>
      match s with
      | x :: s' => if char_eqb x c then k (x :: acc) s' caps else None
      | [] => None
      end
  | Cls p =>
      match s with
      | x :: s' => if p x then k (x :: acc) s' caps else None
      | [] => None
      end
  | Opt p =>
      match s with
      | x :: s' =>
          if p x then
            match k (x :: acc) s' caps with
            | Some r => Some r
            | None => k acc s caps
            end
          else k acc s caps
      | [] => k acc s caps
      end
  | Star g p =>
      if g then star_greedy p acc s caps k else star_lazy p acc s caps k
  | Grp r1 =>
      mt r1 acc s caps
        (fun acc' s' caps' =>
           k acc' s'
             (caps' ++ [rev (firstn (length acc' - length acc) acc')]))
  | Seq r1 r2 =>
      mt r1 acc s caps (fun acc' s' caps' => mt r2 acc' s' caps' k)
  end.
End Matcher.

(** One attempt at the current position: the matched text and the captures. *)
Definition exec_at (multiline : bool) (before : option char) (r : re)
    (s : jsstring) : option (jsstring * list jsstring) :=
  mt multiline before r [] s [] (fun acc _ caps => Some (rev acc, caps)).

(** [s.match(r)] for a regex without the [g] flag: the leftmost attempt that
    succeeds. *)
Fixpoint search_from (multiline : bool) (before : option char) (r : re)
    (s : jsstring) : option (jsstring * list jsstring) :=
  match exec_at multiline before r s with
  | Some m => Some m
  | None =>
      match s with
      | c :: s' => search_from multiline (Some c) r s'
      | [] => None
      end
  end.

Definition js_match (multiline : bool) (r : re) (s : jsstring)
    : option (jsstring * list jsstring) :=
  search_from multiline None r s.

(** [match[1]] *)
Definition group1 (caps : list jsstring) : jsstring := nth 0 caps [].

(** The successive matches of a [g] regex over a string, with the characters
    in between: what [String.prototype.replace] walks through. *)
Inductive segment : Type :=
| Keep (c : char)
| Hit (m : jsstring) (caps : list jsstring).

Fixpoint scan (multiline : bool) (r : re) (skip : nat) (before : option char)
    (s : jsstring) : list segment :=
  match skip with
  | S n =>
      match s with
      | c :: s' => scan multiline r n (Some c) s'
      | [] => []
      end
  | O =>
      match exec_at multiline before r s with
      | Some (m, caps) =>
          match s with
          | [] => [Hit m caps]
          | c :: s' =>
              match m with
              | [] => Hit m caps :: Keep c :: scan multiline r 0 (Some c) s'
              | _ :: m' => Hit m caps :: scan multiline r (length m') (Some c) s'
              end
          end
      | None =>
          match s with
          | [] => []
          | c :: s' => Keep c :: scan multiline r 0 (Some c) s'
          end
      end
  end.

(** [s.replace(r, callback)] for a [g] regex.  The callback returns the
    replacement and whether it set the enclosing [modified] flag. *)
Definition seg_text (f : jsstring -> list jsstring -> jsstring * bool)
    (g : segment) : jsstring :=
  match g with
  | Keep c => [c]
  | Hit m caps => fst (f m caps)
  end.

Definition seg_flag (f : jsstring -> list jsstring -> jsstring * bool)
    (g : segment) : bool :=
  match g with
  | Keep _ => false
  | Hit m caps => snd (f m caps)
  end.

Definition replace_g (r : re)
    (f : jsstring -> list jsstring -> jsstring * bool) (s : jsstring)
    : jsstring * bool :=
  let segs := scan false r 0 None s in
  (flat_map (seg_text f) segs, existsb (seg_flag f) segs).

(* ================================================================== *)
(** ** The file system and [path] *)

Inductive node : Type :=
| File (content : jsstring)
| Dir (entries : list (jsstring * node)).

Definition path := list jsstring.

(** The exceptions of the file system calls, and the [TypeError] of a call of
    something that is no function. *)
Inductive error : Type := ENOENT | ENOTDIR | EISDIR | TypeError.

Inductive result (A : Type) : Type :=
| Ok (a : A)
| Throw (e : error).

Arguments Ok {A} a.
Arguments Throw {A} e.

Definition bind {A B : Type} (m : result A) (f : A -> result B) : result B :=
  match m with
  | Ok a => f a
  | Throw e => Throw e
  end.

Notation "x <- m ;; k" := (bind m (fun x => k))
  (at level 61, m at next level, right associativity).

(** A loop whose body may throw. *)
Fixpoint foldM {A B : Type} (f : A -> B -> result A) (l : list B) (a : A)
    : result A :=
  match l with
  | [] => Ok a
  | b :: l' => a' <- f a b ;; foldM f l' a'
  end.

Fixpoint assoc_node (name : jsstring) (es : list (jsstring * node))
    : option node :=
  match es with
  | [] => None
  | (x, n) :: es' => if str_eqb x name then Some n else assoc_node name es'
  end.

Fixpoint lookup (n : node) (p : path) {struct p} : option node :=
  match p with
  | [] => Some n
  | c :: p' =>
      match n with
      | File _ => None
      | Dir es =>
          match assoc_node c es with
          | Some n' => lookup n' p'
          | None => None
          end
      end
  end.

(** [fs.existsSync(p)] *)
Definition existsSync (fs : node) (p : path) : bool :=
  match lookup fs p with
  | Some _ => true
  | None => false
  end.

(** A [Dirent] of [fs.readdirSync(p, { withFileTypes: true })]. *)
Record dirent : Type := { d_name : jsstring; d_isDirectory : bool }.

Definition dirent_of (e : jsstring * node) : dirent :=
  {| d_name := fst e;
     d_isDirectory := match snd e with Dir _ => true | File _ => false end |}.

Definition readdirSync (fs : node) (p : path) : result (list dirent) :=
  match lookup fs p with
  | None => Throw ENOENT
  | Some (File _) => Throw ENOTDIR
  | Some (Dir es) => Ok (map dirent_of es)
  end.

(** [fs.readFileSync(p, 'utf-8')] *)
Definition readFileSync (fs : node) (p : path) : result jsstring :=
  match lookup fs p with
  | None => Throw ENOENT
  | Some (Dir _) => Throw EISDIR
  | Some (File c) => Ok c
  end.

Fixpoint replace_entry (name : jsstring) (n' : node)
    (es : list (jsstring * node)) : list (jsstring * node) :=
  match es with
  | [] => []
  | (x, n) :: es' =>
      if str_eqb x name then (x, n') :: es'
      else (x, n) :: replace_entry name n' es'
  end.

(** [fs.writeFileSync(p, content, 'utf-8')]: the file system afterwards. *)
Fixpoint writeFileSync (fs : node) (p : path) (content : jsstring) {struct p}
    : result node :=
  match p with
  | [] =>
      match fs with
      | File _ => Ok (File content)
      | Dir _ => Throw EISDIR
      end
  | c :: p' =>
      match fs with
      | File _ => Throw ENOTDIR
      | Dir es =>
          match assoc_node c es with
          | Some child =>
              child' <- writeFileSync child p' content ;;
              Ok (Dir (replace_entry c child' es))
          | None =>
              match p' with
              | [] => Ok (Dir (es ++ [(c, File content)]))
              | _ :: _ => Throw ENOENT
              end
          end
      end
  end.

(** [path.join]: every argument is cut at the separator and the components
    are normalised one by one. *)
Definition slash : char := 47%N.

Definition push_component (p : path) (c : jsstring) : path :=
  if str_eqb c [] || str_eqb c (lit ".") then p
  else if str_eqb c (lit "..") then removelast p
  else p ++ [c].

Definition path_join (base : path) (args : list jsstring) : path :=
  fold_left push_component (flat_map (split_on slash) args) base.

(** [path.relative(from, to).split(path.sep)] *)
Fixpoint relative_parts (from to : path) : list jsstring :=
  match from, to with
  | f :: from', t :: to' =>
      if str_eqb f t then relative_parts from' to'
      else map (fun _ => lit "..") from ++ to
  | [], _ => to
  | _ :: _, [] => map (fun _ => lit "..") from
  end.

Definition path_relative_split (from to : path) : list jsstring :=
  match relative_parts from to with
  | [] => [[]]
  | parts => parts
  end.

(** [path.dirname] and [path.basename] *)
Definition dirname (p : path) : path := removelast p.
Definition basename (p : path) : jsstring := last p [].

(* ================================================================== *)
(** ** Objects used as dictionaries *)

Definition obj (V : Type) : Type := list (jsstring * V).

Fixpoint obj_get {V : Type} (k : jsstring) (o : obj V) : option V :=
  match o with
  | [] => None
  | (x, v) :: o' => if str_eqb x k then Some v else obj_get k o'
  end.

(** [o[k] = v] for a key other than [__proto__]: an existing key keeps its
    place, a new one is added behind the others. *)
Fixpoint obj_set {V : Type} (k : jsstring) (v : V) (o : obj V) : obj V :=
  match o with
  | [] => [(k, v)]
  | (x, w) :: o' =>
      if str_eqb x k then (x, v) :: o' else (x, w) :: obj_set k v o'
  end.

Definition obj_keys {V : Type} (o : obj V) : list jsstring := map fst o.

(** [o[k] || []] *)
Definition get_or_empty {V : Type} (k : jsstring) (o : obj (list V))
    : list V :=
  match obj_get k o with
  | Some l => l
  | None => []
  end.

(** The names every plain object inherits from [Object.prototype]. *)
Definition proto_key : jsstring := lit "__proto__".

Definition proto_names : list jsstring :=
  [lit "constructor"; lit "__defineGetter__"; lit "__defineSetter__";
   lit "hasOwnProperty"; lit "__lookupGetter__"; lit "__lookupSetter__";
   lit "isPrototypeOf"; lit "propertyIsEnumerable"; lit "toString";
   lit "valueOf"; proto_key; lit "toLocaleString"].

Definition inherited (k : jsstring) : bool := existsb (str_eqb k) proto_names.

(** [o[k]] on a plain object: an own property; or a member of
    [Object.prototype], which is a function or, at [__proto__], the prototype
    itself, hence truthy and neither an array nor a dictionary of the script;
    or [undefined]. *)
Inductive member (V : Type) : Type :=
| Own (v : V)
| Proto
| Undefined.

Arguments Own {V} v.
Arguments Proto {V}.
Arguments Undefined {V}.

Definition js_get {V : Type} (k : jsstring) (o : obj V) : member V :=
  match obj_get k o with
  | Some v => Own v
  | None => if inherited k then Proto else Undefined
  end.

(** An array index: the decimal numeral, without leading zeros, of an integer
    below [2^32 - 1]. *)
Definition array_index (k : jsstring) : option N :=
  let n := digits_value k in
  if str_eqb (to_string n) k && (n <=? 4294967294)%N then Some n else None.

Definition is_index (k : jsstring) : bool :=
  match array_index k with
  | Some _ => true
  | None => false
  end.

(** The order in which [Object.keys] and [Object.entries] list the own
    properties: the array indices first, ascending, then the other keys in
    the order in which they were added. *)
Fixpoint insert_index {A : Type} (n : N) (a : A) (l : list (N * A))
    : list (N * A) :=
  match l with
  | [] => [(n, a)]
  | (m, b) :: l' =>
      if (n <? m)%N then (n, a) :: l else (m, b) :: insert_index n a l'
  end.

Definition own_order {A : Type} (key : A -> jsstring) (l : list A) : list A :=
  map snd
    (fold_right
       (fun a acc =>
          match array_index (key a) with
          | Some n => insert_index n a acc
          | None => acc
          end) [] l)
  ++ filter (fun a => negb (is_index (key a))) l.

(** [Object.entries(o)] and [Object.keys(o)] *)
Definition js_entries {V : Type} (o : obj V) : list (jsstring * V) :=
  own_order fst o.

Definition js_keys {V : Type} (o : obj V) : list jsstring :=
  map fst (js_entries o).

(* ================================================================== *)
(** ** scanSkillDirs *)

Definition at_sign : jsstring := lit "@".
Definition SKILL_md : jsstring := lit "SKILL.md".

Record broken_dir : Type :=
  { b_source : jsstring; b_id : jsstring; b_dir : path }.

Definition scan_acc : Type := (list path * list broken_dir)%type.

(** The body of the inner loop. *)
Definition scan_skill (fs : node) (sourceName : jsstring) (sourceDir : path)
    (acc : scan_acc) (skillEntry : dirent) : scan_acc :=
  if negb (d_isDirectory skillEntry) then acc
  else
    let skillDir := path_join sourceDir [d_name skillEntry] in
    let entryPath := path_join skillDir [SKILL_md] in
    if negb (existsSync fs entryPath) then
      (fst acc,
       snd acc ++ [{| b_source := slice1 sourceName;
                      b_id := d_name skillEntry;
                      b_dir := skillDir |}])
    else (fst acc ++ [entryPath], snd acc).

(** The body of the outer loop. *)
Definition scan_source (fs : node) (skillsDir : path) (acc : scan_acc)
    (sourceEntry : dirent) : result scan_acc :=
  if negb (d_isDirectory sourceEntry) then Ok acc
  else if negb (startsWith at_sign (d_name sourceEntry)) then Ok acc
  else
    let sourceDir := path_join skillsDir [d_name sourceEntry] in
    skillEntries <- readdirSync fs sourceDir ;;
    Ok (fold_left (scan_skill fs (d_name sourceEntry) sourceDir)
          skillEntries acc).

Definition scanSkillDirs (fs : node) (skillsDir : path) : result scan_acc :=
  if negb (existsSync fs skillsDir) then Ok ([], [])
  else
    sourceEntries <- readdirSync fs skillsDir ;;
    foldM (scan_source fs skillsDir) sourceEntries ([], []).

(* ================================================================== *)
(** ** parseSkillMetadata *)

Definition LF : char := 10%N.

(** [/^---\n([\s\S]*?)\n---/] *)
Definition frontmatter_re : re :=
  Seq Bol
   (Seq (Str (lit "---" ++ [LF]))
     (Seq (Grp (Star false is_any))
          (Str (LF :: lit "---")))).

(** [/^name:\s*(.+)$/m] *)
Definition name_re : re :=
  Seq Bol
   (Seq (Str (lit "name:"))
     (Seq (Star true is_space)
       (Seq (Grp (Plus true is_dot)) Eol))).

(** [/^description:\s*Q?(.+?)Q?\s*$/m], [Q] being the class of the two
    quote characters. *)
Definition description_re : re :=
  Seq Bol
   (Seq (Str (lit "description:"))
     (Seq (Star true is_space)
       (Seq (Opt is_quote)
         (Seq (Grp (Plus false is_dot))
           (Seq (Opt is_quote)
             (Seq (Star true is_space) Eol)))))).

Record metadata : Type := { m_name : jsstring; m_description : jsstring }.

(** The part of [parseSkillMetadata] after the file is read. *)
Definition metadata_of_text (filePath : path) (content : jsstring)
    : metadata :=
  match js_match false frontmatter_re content with
  | None =>
      {| m_name := basename (dirname filePath); m_description := [] |}
  | Some (_, caps) =>
      let frontmatter := group1 caps in
      let nameMatch := js_match true name_re frontmatter in
      let descMatch := js_match true description_re frontmatter in
      {| m_name := match nameMatch with
                   | Some (_, c) => trim (group1 c)
                   | None => basename (dirname filePath)
                   end;
         m_description := match descMatch with
                          | Some (_, c) => trim (group1 c)
                          | None => []
                          end |}
  end.

Definition parseSkillMetadata (fs : node) (filePath : path)
    : result metadata :=
  content <- readFileSync fs filePath ;;
  Ok (metadata_of_text filePath content).

(* ================================================================== *)
(** ** collectStats *)

Record skill : Type :=
  { s_id : jsstring; s_path : path;
    s_name : jsstring; s_description : jsstring }.

Notation stats := (obj (list skill)) (only parsing).

(** The body of the loop over the scanned marker files.  For a source that is
    the name of a member of [Object.prototype] the test finds that member,
    nothing is assigned, and [push] is no method of it: the argument is
    evaluated, then the call raises. *)
Definition collect_file (fs : node) (SKILLS_DIR : path) (statsBySource : stats)
    (filePath : path) : result stats :=
  let parts := path_relative_split SKILLS_DIR filePath in
  if negb (length parts =? 3)%nat then Ok statsBySource
  else if negb (startsWith at_sign (nth 0 parts [])) then Ok statsBySource
  else if negb (str_eqb (nth 2 parts []) SKILL_md) then Ok statsBySource
  else
    let source := slice1 (nth 0 parts []) in
    let skillId := nth 1 parts [] in
    let found := js_get source statsBySource in
    let stats1 :=
      match found with
      | Undefined => obj_set source [] statsBySource
      | _ => statsBySource
      end in
    md <- parseSkillMetadata fs filePath ;;
    match found with
    | Proto => Throw TypeError
    | _ =>
        Ok (obj_set source
              (get_or_empty source stats1
               ++ [{| s_id := skillId; s_path := filePath;
                      s_name := m_name md;
                      s_description := m_description md |}])
              stats1)
    end.

Definition collectStats (fs : node) (SKILLS_DIR : path)
    : result (stats * list broken_dir) :=
  sc <- scanSkillDirs fs SKILLS_DIR ;;
  statsBySource <- foldM (collect_file fs SKILLS_DIR) (fst sc) [] ;;
  Ok (statsBySource, snd sc).

(** [Object.keys(statsBySource).sort()]: code-unit order. *)
Fixpoint str_leb (a b : jsstring) : bool :=
  match a, b with
  | [], _ => true
  | _ :: _, [] => false
  | x :: a', y :: b' =>
      if (x <? y)%N then true
      else if (y <? x)%N then false
      else str_leb a' b'
  end.

Fixpoint insert_sorted (x : jsstring) (l : list jsstring) : list jsstring :=
  match l with
  | [] => [x]
  | y :: l' => if str_leb x y then x :: l else y :: insert_sorted x l'
  end.

Definition sort_keys (l : list jsstring) : list jsstring :=
  fold_right insert_sorted [] l.

(** [sourceCount] and [totalCount] as [main] computes them. *)
Definition sourceCount_of (statsBySource : stats) : nat :=
  length (sort_keys (js_keys statsBySource)).

Definition totalCount_of (statsBySource : stats) : nat :=
  fold_left
    (fun total source =>
       (total + length (get_or_empty source statsBySource))%nat)
    (sort_keys (js_keys statsBySource)) 0%nat.

(* ================================================================== *)
(** ** updateStatsInFile *)

Definition cp_gong : char := 0x5171%N.  (* U+5171 *)
Definition cp_ge : char := 0x4E2A%N.    (* U+4E2A *)
Definition cp_lai : char := 0x6765%N.   (* U+6765 *)
Definition cp_zi : char := 0x81EA%N.    (* U+81EA *)
Definition cp_yuan : char := 0x6E90%N.  (* U+6E90 *)
Definition cp_cha : char := 0x67E5%N.   (* U+67E5 *)
Definition cp_kan : char := 0x770B%N.   (* U+770B *)
Definition cp_quan : char := 0x5168%N.  (* U+5168 *)
Definition cp_bu : char := 0x90E8%N.    (* U+90E8 *)
Definition star_c : char := 42%N.

(** The tail [(\d+)\s*<U+4E2A>\s*Skills] shared by three patterns. *)
Definition count_of_skills : re :=
  Seq (Grp (Plus true is_digit))
   (Seq (Star true is_space)
     (Seq (Chr cp_ge)
       (Seq (Star true is_space) (Str (lit "Skills"))))).

(** [/<U+5171>\s*(\d+)\s*<U+4E2A>\s*Skills/g] *)
Definition skillCountPattern : re :=
  Seq (Chr cp_gong) (Seq (Star true is_space) count_of_skills).

(** [/<U+6765><U+81EA>\s*(\d+)\s*<U+4E2A><U+6E90>/g] *)
Definition sourceCountPattern : re :=
  Seq (Chr cp_lai)
   (Seq (Chr cp_zi)
     (Seq (Star true is_space)
       (Seq (Grp (Plus true is_digit))
         (Seq (Star true is_space) (Str [cp_ge; cp_yuan]))))).

(** [/\*\*(\d+)\s*<U+4E2A>\s*Skills\*\*/g] *)
Definition boldCountPattern : re :=
  Seq (Chr star_c)
   (Seq (Chr star_c)
     (Seq count_of_skills (Str [star_c; star_c]))).

(** [/<U+67E5><U+770B><U+5168><U+90E8>\s*(\d+)\s*<U+4E2A>\s*Skills/g] *)
Definition viewAllPattern : re :=
  Seq (Chr cp_cha)
   (Seq (Str [cp_kan; cp_quan; cp_bu])
     (Seq (Star true is_space) count_of_skills)).

(** The four callbacks: [parseInt(num) !== count] sets [modified] and
    returns the phrase rebuilt around the count. *)
Definition differs (num : jsstring) (count : N) : bool :=
  match parseInt num with
  | Some v => negb (v =? count)%N
  | None => true
  end.

Definition count_callback (pre post : jsstring) (count : N)
    (m : jsstring) (caps : list jsstring) : jsstring * bool :=
  if differs (group1 caps) count
  then (pre ++ to_string count ++ post, true)
  else (m, false).

Definition sp : char := 32%N.

Definition skillCount_cb (totalCount : N) :=
  count_callback [cp_gong; sp] (sp :: cp_ge :: sp :: lit "Skills") totalCount.

Definition sourceCount_cb (sourceCount : N) :=
  count_callback [cp_lai; cp_zi; sp] [sp; cp_ge; cp_yuan] sourceCount.

Definition boldCount_cb (totalCount : N) :=
  count_callback [star_c; star_c]
    (sp :: cp_ge :: sp :: lit "Skills" ++ [star_c; star_c]) totalCount.

Definition viewAll_cb (totalCount : N) :=
  count_callback [cp_cha; cp_kan; cp_quan; cp_bu; sp]
    (sp :: cp_ge :: sp :: lit "Skills") totalCount.

(** The four replacements in their order, with the [modified] flag. *)
Definition rewrite_counts (totalCount sourceCount : N) (content : jsstring)
    : jsstring * bool :=
  let r1 := replace_g skillCountPattern (skillCount_cb totalCount) content in
  let r2 := replace_g sourceCountPattern (sourceCount_cb sourceCount) (fst r1) in
  let r3 := replace_g boldCountPattern (boldCount_cb totalCount) (fst r2) in
  let r4 := replace_g viewAllPattern (viewAll_cb totalCount) (fst r3) in
  (fst r4, snd r1 || snd r2 || snd r3 || snd r4).

(** [updateStatsInFile]: the file system afterwards and the value returned. *)
Definition updateStatsInFile (fs : node) (filePath : path)
    (totalCount sourceCount : N) : node * result bool :=
  if negb (existsSync fs filePath) then (fs, Ok false)
  else
    match readFileSync fs filePath with
    | Throw e => (fs, Throw e)
    | Ok content =>
        let r := rewrite_counts totalCount sourceCount content in
        if snd r then
          match writeFileSync fs filePath (fst r) with
          | Ok fs' => (fs', Ok true)
          | Throw e => (fs, Throw e)
          end
        else (fs, Ok false)
    end.

(* ================================================================== *)
(** ** parseTranslations *)

Definition colon : char := 58%N.

(** A source line: two spaces, a group of one [[a-z]] and any number of
    [[a-z0-9-]], a colon, the end. *)
Definition source_line_re : re :=
  Seq Bol
   (Seq (Str (lit "  "))
     (Seq (Grp (Seq (Cls is_lower) (Star true is_src_char)))
       (Seq (Chr colon) Eol))).

(** A skill line: four spaces, a group of one [[a-z]] and any number of
    [[a-z0-9.-]], a colon, the end. *)
Definition skill_line_re : re :=
  Seq Bol
   (Seq (Str (lit "    "))
     (Seq (Grp (Seq (Cls is_lower) (Star true is_id_char)))
       (Seq (Chr colon) Eol))).

Notation translations := (obj (obj unit)) (only parsing).

(** The loop state: [translations] and [currentSource]. *)
Definition tr_state : Type := (translations * option jsstring)%type.

Definition translation_line (st : tr_state) (line : jsstring) : tr_state :=
  match js_match false source_line_re line with
  | Some (_, caps) =>
      let currentSource := group1 caps in
      (obj_set currentSource [] (fst st), Some currentSource)
  | None =>
      match js_match false skill_line_re line, snd st with
      | Some (_, caps), Some currentSource =>
          let currentSkill := group1 caps in
          (obj_set currentSource
             (obj_set currentSkill tt (get_or_empty currentSource (fst st)))
             (fst st),
           snd st)
      | _, _ => st
      end
  end.

Definition translations_of_text (content : jsstring) : translations :=
  fst (fold_left translation_line (split_on LF content) ([], None)).

Definition parseTranslations (fs : node) (filePath : path)
    : result translations :=
  if negb (existsSync fs filePath) then Ok []
  else
    content <- readFileSync fs filePath ;;
    Ok (translations_of_text content).

(* ================================================================== *)
(** ** parseIndex *)

Record index_entry : Type :=
  { e_id : jsstring; e_source : jsstring; e_path : jsstring }.

Definition dquote : jsstring := [34%N].
Definition squote : jsstring := [39%N].

Definition unquote (value : jsstring) : jsstring :=
  let v := trim value in
  if (startsWith dquote v && endsWith dquote v)
     || (startsWith squote v && endsWith squote v)
  then slice_1_m1 v
  else v.

(** [/^\s*-\s*id:\s*(.+)\s*$/] *)
Definition id_line_re : re :=
  Seq Bol
   (Seq (Star true is_space)
     (Seq (Chr 45%N)
       (Seq (Star true is_space)
         (Seq (Str (lit "id:"))
           (Seq (Star true is_space)
             (Seq (Grp (Plus true is_dot))
               (Seq (Star true is_space) Eol))))))).

(** [/^\s*KEY:\s*(.+)\s*$/] for [source] and [path]. *)
Definition field_line_re (key : jsstring) : re :=
  Seq Bol
   (Seq (Star true is_space)
     (Seq (Str (key ++ [colon]))
       (Seq (Star true is_space)
         (Seq (Grp (Plus true is_dot))
           (Seq (Star true is_space) Eol))))).

Definition truthy (s : jsstring) : bool :=
  match s with
  | [] => false
  | _ :: _ => true
  end.

(** [current && current.id && current.source && current.path] *)
Definition complete (current : option index_entry) : bool :=
  match current with
  | Some c => truthy (e_id c) && truthy (e_source c) && truthy (e_path c)
  | None => false
  end.

Definition flush (entries : list index_entry) (current : option index_entry)
    : list index_entry :=
  match current with
  | Some c => if complete current then entries ++ [c] else entries
  | None => entries
  end.

(** The loop state: [entries] and [current]. *)
Definition ix_state : Type := (list index_entry * option index_entry)%type.

Definition index_line (st : ix_state) (line : jsstring) : ix_state :=
  match js_match false id_line_re line with
  | Some (_, caps) =>
      (flush (fst st) (snd st),
       Some {| e_id := unquote (group1 caps); e_source := []; e_path := [] |})
  | None =>
      match snd st with
      | None => st
      | Some current =>
          match js_match false (field_line_re (lit "source")) line with
          | Some (_, caps) =>
              (fst st,
               Some {| e_id := e_id current;
                       e_source := unquote (group1 caps);
                       e_path := e_path current |})
          | None =>
              match js_match false (field_line_re (lit "path")) line with
              | Some (_, caps) =>
                  (fst st,
                   Some {| e_id := e_id current;
                           e_source := e_source current;
                           e_path := unquote (group1 caps) |})
              | None => st
              end
          end
      end
  end.

Definition entries_of_text (content : jsstring) : list index_entry :=
  let st := fold_left index_line (split_on LF content) ([], None) in
  flush (fst st) (snd st).

Record index : Type :=
  { ix_entries : list index_entry;
    ix_bySource : obj (list index_entry);
    ix_byPath : obj index_entry }.

(** The body of the loop that fills the two tables.  For a source that is the
    name of a member of [Object.prototype] the test finds that member, and
    [push] is no method of it.  [byPath['__proto__'] = e] runs the setter of
    [Object.prototype]: the record becomes the prototype of [byPath] and no
    key is added; [byPath] is read at keys that begin with an at sign only,
    which neither a record nor [Object.prototype] has. *)
Definition index_add (ix : obj (list index_entry) * obj index_entry)
    (e : index_entry) : result (obj (list index_entry) * obj index_entry) :=
  let found := js_get (e_source e) (fst ix) in
  let bySource1 :=
    match found with
    | Undefined => obj_set (e_source e) [] (fst ix)
    | _ => fst ix
    end in
  match found with
  | Proto => Throw TypeError
  | _ =>
      Ok (obj_set (e_source e) (get_or_empty (e_source e) bySource1 ++ [e])
            bySource1,
          if str_eqb (e_path e) proto_key then snd ix
          else obj_set (e_path e) e (snd ix))
  end.

Definition build_index (entries : list index_entry) : result index :=
  ix <- foldM index_add entries ([], []) ;;
  Ok {| ix_entries := entries; ix_bySource := fst ix; ix_byPath := snd ix |}.

(** The value returned when [index.yaml] is missing is an empty object, whose
    three members [verifyTranslations] replaces by empty defaults. *)
Definition empty_index : index :=
  {| ix_entries := []; ix_bySource := []; ix_byPath := [] |}.

Definition parseIndex (fs : node) (filePath : path) : result index :=
  if negb (existsSync fs filePath) then Ok empty_index
  else
    content <- readFileSync fs filePath ;;
    build_index (entries_of_text content).

(* ================================================================== *)
(** ** verifyTranslations *)

Inductive mtype : Type :=
| T_index | T_translation | T_skillDir | T_missingSkillMd.

Record finding : Type :=
  { f_source : jsstring; f_id : jsstring; f_type : mtype;
    f_path : option jsstring }.

(** [`@${source}/${id}`] *)
Definition expected_path (source id : jsstring) : jsstring :=
  at_sign ++ source ++ [slash] ++ id.

(** [Object.prototype[source][id]] for the name [source] of a member of
    [Object.prototype]: the members of [Object.prototype] itself, whose own
    [__proto__] is [null].  What a built-in function holds besides them is
    the engine's and is not listed; [collectStats] raises on such a source,
    so that [main] passes no statistics with one, and the properties of
    pass 1 are stated for the other sources. *)
Definition builtin_member (source id : jsstring) : bool :=
  inherited id && negb (str_eqb source proto_key && str_eqb id proto_key).

(** [translations[source] && translations[source][id]] *)
Definition hasTranslation (tr : translations) (source id : jsstring) : bool :=
  match js_get source tr with
  | Own ids => match js_get id ids with
               | Undefined => false
               | _ => true
               end
  | Proto => builtin_member source id
  | Undefined => false
  end.

(** Pass 1, one scanned skill.  The key [expectedPath] begins with an at sign,
    so that [indexByPath[expectedPath]] is an own property or [undefined]. *)
Definition check_skill (tr : translations) (indexByPath : obj index_entry)
    (source : jsstring) (missing : list finding) (sk : skill) : list finding :=
  let expectedPath := expected_path source (s_id sk) in
  match obj_get expectedPath indexByPath with
  | None =>
      missing ++ [{| f_source := source; f_id := s_id sk; f_type := T_index;
                     f_path := Some expectedPath |}]
  | Some indexEntry =>
      if negb (hasTranslation tr source (e_id indexEntry)) then
        missing ++ [{| f_source := source; f_id := e_id indexEntry;
                       f_type := T_translation;
                       f_path := Some expectedPath |}]
      else missing
  end.

(** Pass 1 over the entries [Object.entries(statsBySource)]. *)
Definition pass_scanned (tr : translations) (indexByPath : obj index_entry)
    (entries : list (jsstring * list skill)) (missing : list finding)
    : list finding :=
  fold_left
    (fun m (kv : jsstring * list skill) =>
       fold_left (check_skill tr indexByPath (fst kv)) (snd kv) m)
    entries missing.

(** Pass 2, one index entry. *)
Definition check_entry (fs : node) (SKILLS_DIR : path)
    (missing : list finding) (entry : index_entry) : list finding :=
  let entryFile := path_join SKILLS_DIR [e_path entry; SKILL_md] in
  if negb (existsSync fs entryFile) then
    missing ++ [{| f_source := e_source entry; f_id := e_id entry;
                   f_type := T_skillDir; f_path := Some (e_path entry) |}]
  else missing.

(** Pass 3, the ids of one source checked against the set [valid]. *)
Definition check_ids (valid : list jsstring) (source : jsstring)
    (ids : list jsstring) (orphaned : list finding) : list finding :=
  fold_left
    (fun o id =>
       if negb (existsb (str_eqb id) valid) then
         o ++ [{| f_source := source; f_id := id; f_type := T_translation;
                  f_path := None |}]
       else o)
    ids orphaned.

(** Pass 3, one source of the translation file.  For a source that is the
    name of a member of [Object.prototype], [indexBySource[source]] is that
    member, and [map] is no method of it. *)
Definition check_source (indexBySource : obj (list index_entry))
    (orphaned : list finding) (kv : jsstring * obj unit)
    : result (list finding) :=
  match js_get (fst kv) indexBySource with
  | Proto => Throw TypeError
  | Own es => Ok (check_ids (map e_id es) (fst kv) (js_keys (snd kv)) orphaned)
  | Undefined => Ok (check_ids [] (fst kv) (js_keys (snd kv)) orphaned)
  end.

(** Pass 4, one broken directory. *)
Definition check_broken (missing : list finding) (item : broken_dir)
    : list finding :=
  missing ++ [{| f_source := b_source item; f_id := b_id item;
                 f_type := T_missingSkillMd; f_path := None |}].

Record verification : Type :=
  { v_missing : list finding; v_orphaned : list finding;
    v_translations : translations; v_indexEntries : list index_entry }.

(** The four passes over the parsed registry. *)
Definition reconcile (fs : node) (SKILLS_DIR : path) (statsBySource : stats)
    (broken : list broken_dir) (tr : translations) (ix : index)
    : result verification :=
  let m1 := pass_scanned tr (ix_byPath ix) (js_entries statsBySource) [] in
  let m2 := fold_left (check_entry fs SKILLS_DIR) (ix_entries ix) m1 in
  orphaned <- foldM (check_source (ix_bySource ix)) (js_entries tr) [] ;;
  let m4 := fold_left check_broken broken m2 in
  Ok {| v_missing := m4; v_orphaned := orphaned;
        v_translations := tr; v_indexEntries := ix_entries ix |}.

Definition verifyTranslations (fs : node) (SKILLS_DIR : path)
    (statsBySource : stats) (broken : list broken_dir)
    (cliRegistryPath : path) : result verification :=
  let i18nPath := path_join cliRegistryPath [lit "i18n"; lit "zh-CN.yaml"] in
  let indexPath := path_join cliRegistryPath [lit "index.yaml"] in
  tr <- parseTranslations fs i18nPath ;;
  ix <- parseIndex fs indexPath ;;
  reconcile fs SKILLS_DIR statsBySource broken tr ix.

(* ================================================================== *)
(** ** main *)

Definition fix_flag : jsstring := lit "--fix".

Record report : Type :=
  { r_totalCount : nat;
    r_sourceCount : nat;
    r_registry : option verification;
    r_updated : list (path * bool) }.

(** The loop over the two documents; it stops at the first exception. *)
Fixpoint update_files (fs : node) (files : list path)
    (totalCount sourceCount : N) (done : list (path * bool))
    : node * result (list (path * bool)) :=
  match files with
  | [] => (fs, Ok done)
  | file :: files' =>
      match updateStatsInFile fs file totalCount sourceCount with
      | (fs', Ok updated) =>
          update_files fs' files' totalCount sourceCount
            (done ++ [(file, updated)])
      | (fs', Throw e) => (fs', Throw e)
      end
  end.

(** [main]: the file system when the process ends, and the report printed or
    the uncaught exception. *)
Definition main (ROOT_DIR : path) (args : list jsstring) (fs : node)
    : node * result report :=
  let SKILLS_DIR := path_join ROOT_DIR [lit "skills"] in
  let README_PATH := path_join ROOT_DIR [lit "README.md"] in
  let SKILLS_MD_PATH := path_join ROOT_DIR [lit "docs"; lit "skills.md"] in
  let shouldFix := existsb (str_eqb fix_flag) args in
  match collectStats fs SKILLS_DIR with
  | Throw e => (fs, Throw e)
  | Ok (statsBySource, broken) =>
      let sourceCount := sourceCount_of statsBySource in
      let totalCount := totalCount_of statsBySource in
      let cliRegistryPath :=
        path_join ROOT_DIR [lit ".."; lit "skillwisp-cli"; lit "registry"] in
      let registry :=
        if existsSync fs cliRegistryPath then
          v <- verifyTranslations fs SKILLS_DIR statsBySource broken
                 cliRegistryPath ;;
          Ok (Some v)
        else Ok None in
      match registry with
      | Throw e => (fs, Throw e)
      | Ok reg =>
          if negb shouldFix then
            (fs, Ok {| r_totalCount := totalCount;
                       r_sourceCount := sourceCount;
                       r_registry := reg; r_updated := [] |})
          else
            match update_files fs [README_PATH; SKILLS_MD_PATH]
                    (N.of_nat totalCount) (N.of_nat sourceCount) [] with
            | (fs', Ok done) =>
                (fs', Ok {| r_totalCount := totalCount;
                            r_sourceCount := sourceCount;
                            r_registry := reg; r_updated := done |})
            | (fs', Throw e) => (fs', Throw e)
            end
      end
  end.

(* ================================================================== *)
(** ** Notions the properties are stated with *)

(** *** Well-formed file systems: sibling names are distinct, and a name is
    one path component. *)
Definition valid_name (x : jsstring) : bool :=
  negb (str_eqb x []) && negb (str_eqb x (lit ".")) && negb (str_eqb x (lit ".."))
  && negb (existsb (char_eqb slash) x).

Fixpoint distinct (l : list jsstring) : bool :=
  match l with
  | [] => true
  | x :: l' => negb (existsb (str_eqb x) l') && distinct l'
  end.

Definition wf_names (es : list (jsstring * node)) : bool :=
  distinct (map fst es) && forallb valid_name (map fst es).

Fixpoint wf_node (n : node) : bool :=
  match n with
  | File _ => true
  | Dir es =>
      wf_names es
      && (fix all (l : list (jsstring * node)) : bool :=
            match l with
            | [] => true
            | (_, c) :: l' => wf_node c && all l'
            end) es
  end.

(** *** The two fixed levels of a skills root with listing [es]. *)
Definition is_dir (n : node) : bool :=
  match n with
  | Dir _ => true
  | File _ => false
  end.

Definition children (n : node) : list (jsstring * node) :=
  match n with
  | Dir es => es
  | File _ => []
  end.

(** The second-level directories of one first-level entry. *)
Definition skill_dirs (e : jsstring * node) : list (jsstring * jsstring * node) :=
  if is_dir (snd e) && startsWith at_sign (fst e)
  then map (fun c => (fst e, fst c, snd c))
         (filter (fun c => is_dir (snd c)) (children (snd e)))
  else [].

Definition candidates (es : list (jsstring * node))
    : list (jsstring * jsstring * node) :=
  flat_map skill_dirs es.

(** The candidate directory holds an entry named [SKILL.md]. *)
Definition has_marker (c : jsstring * jsstring * node) : bool :=
  match assoc_node SKILL_md (children (snd c)) with
  | Some _ => true
  | None => false
  end.

(** The entry named [SKILL.md], when there is one, is a regular file. *)
Definition marker_is_file (c : jsstring * jsstring * node) : bool :=
  match assoc_node SKILL_md (children (snd c)) with
  | Some (Dir _) => false
  | _ => true
  end.

Definition entry_path (skillsDir : path) (c : jsstring * jsstring * node)
    : path :=
  skillsDir ++ [fst (fst c); snd (fst c); SKILL_md].

Definition broken_of (skillsDir : path) (c : jsstring * jsstring * node)
    : broken_dir :=
  {| b_source := slice1 (fst (fst c)); b_id := snd (fst c);
     b_dir := skillsDir ++ [fst (fst c); snd (fst c)] |}.

(** The first-level directories that count as a source. *)
Definition is_counted_source (e : jsstring * node) : bool :=
  existsb has_marker (skill_dirs e).

(** No own key of [o] is the name of a member of [Object.prototype]. *)
Definition own_plain {V : Type} (o : obj V) : Prop :=
  forall k, In k (obj_keys o) -> inherited k = false.

(** The source of a marked candidate is no name of a member of
    [Object.prototype]. *)
Definition plain_source (c : jsstring * jsstring * node) : bool :=
  negb (has_marker c && inherited (slice1 (fst (fst c)))).

(** *** Frontmatter *)
Fixpoint contains (p s : jsstring) : bool :=
  startsWith p s
  || match s with
     | [] => false
     | _ :: s' => contains p s'
     end.

Definition fm_open : jsstring := lit "---" ++ [LF].
Definition fm_close : jsstring := LF :: lit "---".

(** The text begins with a block between [---] lines. *)
Definition has_frontmatter_block (content : jsstring) : bool :=
  startsWith fm_open content && contains fm_close (skipn 4 content).

(** The text in front of the first occurrence of [p]. *)
Fixpoint before_first (p s : jsstring) : jsstring :=
  if startsWith p s then []
  else match s with
       | [] => []
       | c :: s' => c :: before_first p s'
       end.

(** The body of the first block. *)
Definition frontmatter_of (content : jsstring) : jsstring :=
  before_first fm_close (skipn 4 content).








(** *** Regular expressions *)

(** Some atom of [r] consumes [c]. *)
Fixpoint accepts (r : re) (c : char) : bool :=
  match r with
  | Eps | Bol | Eol => false
  | Chr x => char_eqb x c
  | Cls p | Opt p | Star _ p => p c
  | Grp r1 => accepts r1 c
  | Seq r1 r2 => accepts r1 c || accepts r2 c
  end.

Fixpoint anchor_free (r : re) : bool :=
  match r with
  | Bol | Eol => false
  | Grp r1 => anchor_free r1
  | Seq r1 r2 => anchor_free r1 && anchor_free r2
  | _ => true
  end.

(** [r] generates the text [u] with the captures [cs]. *)
Fixpoint parses (r : re) (u : jsstring) (cs : list jsstring) : Prop :=
  match r with
  | Eps | Bol | Eol => u = [] /\ cs = []
  | Chr c => u = [c] /\ cs = []
  | Cls p => (exists c, u = [c] /\ p c = true) /\ cs = []
  | Opt p => (u = [] \/ exists c, u = [c] /\ p c = true) /\ cs = []
  | Star _ p => forallb p u = true /\ cs = []
  | Grp r1 => exists cs1, parses r1 u cs1 /\ cs = cs1 ++ [u]
  | Seq r1 r2 =>
      exists u1 u2 c1 c2,
        u = u1 ++ u2 /\ cs = c1 ++ c2 /\ parses r1 u1 c1 /\ parses r2 u2 c2
  end.

(** The text [nxt] does not begin with a character of the class [p]. *)
Definition not_next (p : char -> bool) (nxt : jsstring) : Prop :=
  match nxt with
  | [] => True
  | c :: _ => p c = false
  end.

(** [r] generates [u] in front of [nxt] with every greedy star taking all
    it can: the parse the matcher tries first. *)
Fixpoint greedy_parse (r : re) (u : jsstring) (cs : list jsstring)
    (nxt : jsstring) : Prop :=
  match r with
  | Eps => u = [] /\ cs = []
  | Bol | Eol | Opt _ => False
  | Chr c => u = [c] /\ cs = []
  | Cls p => (exists c, u = [c] /\ p c = true) /\ cs = []
  | Star g p => g = true /\ forallb p u = true /\ not_next p nxt /\ cs = []
  | Grp r1 => exists cs1, greedy_parse r1 u cs1 nxt /\ cs = cs1 ++ [u]
  | Seq r1 r2 =>
      exists u1 u2 c1 c2,
        u = u1 ++ u2 /\ cs = c1 ++ c2
        /\ greedy_parse r1 u1 c1 (u2 ++ nxt) /\ greedy_parse r2 u2 c2 nxt
  end.

(** The text a segment stands for. *)
Definition seg_source (g : segment) : jsstring :=
  match g with
  | Keep c => [c]
  | Hit m _ => m
  end.

(** Every number the [g] regex [r] captures in [s] is [count]. *)
Definition counts_agree (r : re) (count : N) (s : jsstring) : bool :=
  forallb (fun g => match g with
                    | Keep _ => true
                    | Hit _ caps => negb (differs (group1 caps) count)
                    end)
    (scan false r 0 None s).

(** A replacement by [f] over [s] changes nothing. *)
Definition stable (r : re) (f : jsstring -> list jsstring -> jsstring * bool)
    (s : jsstring) : Prop :=
  snd (replace_g r f s) = false.

(** What the rewrite relies on for a [g] regex [r] whose matches begin with
    the character [a], and its callback [f]: an attempt fails on the empty
    text and on another first character, a match does not depend on the text
    behind it, and what the callback returns is matched again, this time
    without a change. *)
Definition well_behaved (r : re)
    (f : jsstring -> list jsstring -> jsstring * bool) (a : char) : Prop :=
  anchor_free r = true
  /\ exec_at false None r [] = None
  /\ (forall x s, x <> a -> exec_at false None r (x :: s) = None)
  /\ (forall s m caps t,
        exec_at false None r s = Some (m, caps) ->
        exec_at false None r (m ++ t) = Some (m, caps))
  /\ (forall m caps, snd (f m caps) = false -> fst (f m caps) = m)
  /\ (forall m caps t,
        snd (f m caps) = true ->
        exists caps',
          exec_at false None r (fst (f m caps) ++ t)
          = Some (fst (f m caps), caps')
          /\ snd (f (fst (f m caps)) caps') = false).

(** An attempt that fails keeps failing when the text behind its first
    character is rewritten. *)
Definition self_stable (r : re)
    (f : jsstring -> list jsstring -> jsstring * bool) : Prop :=
  forall c s,
    exec_at false None r (c :: s) = None ->
    exec_at false None r (c :: fst (replace_g r f s)) = None.

(** The word that ends three of the count phrases. *)
Definition skills_word : jsstring := lit "Skills".

(** *** Reconciliation *)

(** The two tables when no source is the name of a member of
    [Object.prototype]. *)
Definition table_add (ix : obj (list index_entry) * obj index_entry)
    (e : index_entry) : obj (list index_entry) * obj index_entry :=
  let bySource1 :=
    match obj_get (e_source e) (fst ix) with
    | None => obj_set (e_source e) [] (fst ix)
    | Some _ => fst ix
    end in
  (obj_set (e_source e) (get_or_empty (e_source e) bySource1 ++ [e])
     bySource1,
   if str_eqb (e_path e) proto_key then snd ix
   else obj_set (e_path e) e (snd ix)).

Definition tables_of (entries : list index_entry) : index :=
  let ix := fold_left table_add entries ([], []) in
  {| ix_entries := entries; ix_bySource := fst ix; ix_byPath := snd ix |}.

(** No record names a source that [Object.prototype] has a member for. *)
Definition plain_records (entries : list index_entry) : bool :=
  forallb (fun e => negb (inherited (e_source e))) entries.

(** [o[k]] is a member of [Object.prototype]. *)
Definition proto_at {V : Type} (k : jsstring) (o : obj V) : bool :=
  match js_get k o with
  | Proto => true
  | _ => false
  end.

(** The entries of the translations as pass 3 walks them. *)
Definition enumerated (tr : translations) : list (jsstring * obj unit) :=
  map (fun kv => (fst kv, js_entries (snd kv))) (js_entries tr).

(** The own property [translations[source][id]]: what the translation file
    holds. *)
Definition in_manifest (tr : translations) (source id : jsstring) : bool :=
  match obj_get source tr with
  | Some ids => match obj_get id ids with
                | Some _ => true
                | None => false
                end
  | None => false
  end.

(** What pass 3 adds for one source whose ids are listed in insertion order,
    when [indexBySource[source]] is an own property or [undefined]. *)
Definition orphans_from (indexBySource : obj (list index_entry))
    (orphaned : list finding) (kv : jsstring * obj unit) : list finding :=
  check_ids (map e_id (get_or_empty (fst kv) indexBySource)) (fst kv)
    (obj_keys (snd kv)) orphaned.

(** The lists of the four passes over the entries [st] of the statistics and
    [trs] of the translations, when pass 3 does not raise. *)
Definition four_passes (fs : node) (SKILLS_DIR : path)
    (st : list (jsstring * list skill)) (broken : list broken_dir)
    (tr : translations) (trs : list (jsstring * obj unit)) (ix : index)
    : verification :=
  let m1 := pass_scanned tr (ix_byPath ix) st [] in
  let m2 := fold_left (check_entry fs SKILLS_DIR) (ix_entries ix) m1 in
  let orphaned := fold_left (orphans_from (ix_bySource ix)) trs [] in
  let m4 := fold_left check_broken broken m2 in
  {| v_missing := m4; v_orphaned := orphaned;
     v_translations := tr; v_indexEntries := ix_entries ix |}.

Definition scanned_pairs (st : stats) : list (jsstring * jsstring) :=
  flat_map (fun kv => map (fun sk => (fst kv, s_id sk)) (snd kv)) st.

Definition translation_pairs (tr : translations)
    : list (jsstring * jsstring) :=
  flat_map (fun kv => map (fun id => (fst kv, id)) (obj_keys (snd kv))) tr.

Definition opt_str_eqb (a b : option jsstring) : bool :=
  match a, b with
  | Some x, Some y => str_eqb x y
  | None, None => true
  | _, _ => false
  end.

Definition mtype_eqb (a b : mtype) : bool :=
  match a, b with
  | T_index, T_index => true
  | T_translation, T_translation => true
  | T_skillDir, T_skillDir => true
  | T_missingSkillMd, T_missingSkillMd => true
  | _, _ => false
  end.

Definition finding_eqb (a b : finding) : bool :=
  str_eqb (f_source a) (f_source b) && str_eqb (f_id a) (f_id b)
  && mtype_eqb (f_type a) (f_type b) && opt_str_eqb (f_path a) (f_path b).

(** How many times a finding is reported. *)
Definition count_finding (f : finding) (l : list finding) : nat :=
  length (filter (finding_eqb f) l).

Definition index_finding (source id : jsstring) : finding :=
  {| f_source := source; f_id := id; f_type := T_index;
     f_path := Some (expected_path source id) |}.

Definition translation_finding (source id path : jsstring) : finding :=
  {| f_source := source; f_id := id; f_type := T_translation;
     f_path := Some path |}.

Definition orphan_finding (source id : jsstring) : finding :=
  {| f_source := source; f_id := id; f_type := T_translation;
     f_path := None |}.

(** What pass 1 reports for one scanned skill. *)
Definition skill_findings (tr : translations) (indexByPath : obj index_entry)
    (source : jsstring) (sk : skill) : list finding :=
  check_skill tr indexByPath source [] sk.

(** Every key of the parsed translation file occurs once. *)
Definition tidy (tr : translations) : Prop :=
  NoDup (obj_keys tr)
  /\ forall k o, In (k, o) tr -> NoDup (obj_keys o).

(** A skill known by its id only. *)
Definition skill_of_id (id : jsstring) : skill :=
  {| s_id := id; s_path := []; s_name := []; s_description := [] |}.

(** The skill pushed for a candidate whose marker is a regular file. *)
Definition marker_text (c : jsstring * jsstring * node) : jsstring :=
  match assoc_node SKILL_md (children (snd c)) with
  | Some (File t) => t
  | _ => []
  end.

Definition skill_of (skillsDir : path) (c : jsstring * jsstring * node)
    : skill :=
  let md := metadata_of_text (entry_path skillsDir c) (marker_text c) in
  {| s_id := snd (fst c); s_path := entry_path skillsDir c;
     s_name := m_name md; s_description := m_description md |}.

(** The statistics of a root with listing [es]: one key per counted source,
    in the order of the listing. *)
Definition stats_of (skillsDir : path) (es : list (jsstring * node)) : stats :=
  map (fun e => (slice1 (fst e),
                 map (skill_of skillsDir) (filter has_marker (skill_dirs e))))
    (filter is_counted_source es).

(** *** The findings of the four passes *)

(** What pass 1 reports for the scanned pair [q]. *)
Definition pair_findings (tr : translations) (indexByPath : obj index_entry)
    (q : jsstring * jsstring) : list finding :=
  match obj_get (expected_path (fst q) (snd q)) indexByPath with
  | None => [index_finding (fst q) (snd q)]
  | Some e =>
      if hasTranslation tr (fst q) (e_id e) then []
      else [translation_finding (fst q) (e_id e)
              (expected_path (fst q) (snd q))]
  end.

(** What pass 2 reports for an index record, and when. *)
Definition skillDir_finding (e : index_entry) : finding :=
  {| f_source := e_source e; f_id := e_id e; f_type := T_skillDir;
     f_path := Some (e_path e) |}.

Definition marker_missing (fs : node) (SKILLS_DIR : path) (e : index_entry)
    : bool :=
  negb (existsSync fs (path_join SKILLS_DIR [e_path e; SKILL_md])).

(** What pass 4 reports for a broken directory. *)
Definition missingSkillMd_finding (b : broken_dir) : finding :=
  {| f_source := b_source b; f_id := b_id b; f_type := T_missingSkillMd;
     f_path := None |}.

(** *** What a run leaves of the file system *)

(** The file system [fs'] shows what [fs] shows, except for the text of the
    regular files [ps]: the same paths exist, every directory lists the same
    entries, and every other file reads the same. *)
Definition same_but (ps : list path) (fs fs' : node) : Prop :=
  forall q,
    existsSync fs' q = existsSync fs q
    /\ readdirSync fs' q = readdirSync fs q
    /\ (~ In q ps -> readFileSync fs' q = readFileSync fs q).

(** A text the rewrite leaves as it is, without setting the flag. *)
Definition settled (totalCount sourceCount : N) (x : jsstring) : Prop :=
  rewrite_counts totalCount sourceCount x = (x, false).

(** *** Sample tree: two sources, one broken directory, a marker nested one
    level too deep and a marker under a directory without the at sign. *)
Definition sample_marker : jsstring :=
  lit "---" ++ [LF] ++ lit "name: one" ++ [LF]
  ++ lit "description: first skill" ++ [LF] ++ lit "---" ++ [LF].

Definition sample_skills : list (jsstring * node) :=
  [(lit "@a",
    Dir [(lit "s1",
          Dir [(SKILL_md, File sample_marker);
               (lit "examples",
                Dir [(lit "nested", Dir [(SKILL_md, File [])])])]);
         (lit "s2", Dir [(lit "notes.md", File [])]);
         (lit "README.md", File [])]);
   (lit "plain", Dir [(lit "s3", Dir [(SKILL_md, File [])])]);
   (lit "@b", Dir [(lit "t1", Dir [(SKILL_md, File (lit "no frontmatter"))])]);
   (lit "notes.txt", File [])].

Definition sample_fs : node :=
  Dir [(lit "repo",
        Dir [(lit "skills", Dir sample_skills);
             (lit "README.md", File (lit "x"))])].

Definition sample_root : path := [lit "repo"; lit "skills"].

(** *** Sample document: the four phrases with the counts 42 and 9. *)
Definition sample_doc : jsstring :=
  cp_gong :: lit " 42 " ++ cp_ge :: lit " Skills, " ++ cp_lai :: cp_zi
  :: lit " 9 " ++ cp_ge :: cp_yuan :: lit " **42 " ++ cp_ge
  :: lit " Skills** " ++ cp_cha :: cp_kan :: cp_quan :: cp_bu
  :: lit " 42 " ++ cp_ge :: lit " Skills".

Definition sample_doc_fs : node :=
  Dir [(lit "repo", Dir [(lit "README.md", File sample_doc)])].

(** *** Sample registry: a scanned skill [@foo/bar] whose index record names
    another source. *)
Definition sample_foo : jsstring := lit "foo".
Definition sample_bar : jsstring := lit "bar".

Definition sample_stats : stats :=
  [(sample_foo,
    [{| s_id := sample_bar;
        s_path := [lit "skills"; lit "@foo"; sample_bar; SKILL_md];
        s_name := sample_bar; s_description := [] |}])].

Definition sample_index_text : jsstring :=
  lit "skills:" ++ [LF] ++ lit "  - id: bar" ++ [LF]
  ++ lit "    source: other" ++ [LF] ++ lit "    path: '@foo/bar'" ++ [LF].

Definition sample_translation_text : jsstring :=
  lit "zh-CN:" ++ [LF] ++ lit "  other:" ++ [LF] ++ lit "    bar:" ++ [LF]
  ++ lit "      name: x" ++ [LF].

Definition sample_index : index :=
  tables_of (entries_of_text sample_index_text).

Definition sample_verification : verification :=
  four_passes (Dir []) [lit "skills"] sample_stats []
    (translations_of_text sample_translation_text)
    (translations_of_text sample_translation_text) sample_index.

(** *** The translation file *)

(** The two key lines of the translation file share one shape: an indent, a
    group of one [[a-z]] and any number of characters of a class, a colon,
    the end. *)
Definition key_line_re (indent : jsstring) (tail : char -> bool) : re :=
  Seq Bol
   (Seq (Str indent)
     (Seq (Grp (Seq (Cls is_lower) (Star true tail)))
       (Seq (Chr colon) Eol))).

(** A name such a line carries. *)
Definition key_name (tail : char -> bool) (s : jsstring) : bool :=
  match s with
  | c :: r => is_lower c && forallb tail r
  | [] => false
  end.

Definition source_name : jsstring -> bool := key_name is_src_char.
Definition id_name : jsstring -> bool := key_name is_id_char.

(** A translation file in the layout the script expects, without the values:
    one line per source and, below it, one line per skill id. *)
Definition render_ids (ids : obj unit) : jsstring :=
  flat_map (fun kv => lit "    " ++ fst kv ++ [colon; LF]) ids.

Definition render_translations (tr : obj (obj unit)) : jsstring :=
  flat_map (fun kv => lit "  " ++ fst kv ++ [colon; LF] ++ render_ids (snd kv))
    tr.

(** The sources and, under each source, the ids are well-formed names and
    occur once. *)
Definition wf_translations (tr : obj (obj unit)) : Prop :=
  NoDup (obj_keys tr)
  /\ forall s ids, In (s, ids) tr ->
       source_name s = true /\ NoDup (obj_keys ids)
       /\ forall id, In id (obj_keys ids) -> id_name id = true.

(** The last character of the line is a colon. *)
Definition ends_in_colon (l : jsstring) : bool := char_eqb (last l LF) colon.

(** A translation file saved with carriage returns. *)
Definition crlf_manifest : jsstring :=
  lit "  foo:" ++ [13%N; LF] ++ lit "    bar:" ++ [13%N; LF].

(** The keys read so far, and the current source, are well-formed. *)
Definition names_ok (st : tr_state) : Prop :=
  (forall s ids, In (s, ids) (fst st) ->
     source_name s = true
     /\ forall id, In id (obj_keys ids) -> id_name id = true)
  /\ (forall cs, snd st = Some cs -> source_name cs = true).


(** *** The index file *)

(** A value as it stands in a line: not empty, without a line terminator,
    with no white space at either end. *)
Definition plain_line (v : jsstring) : bool :=
  match v with
  | [] => false
  | c :: _ =>
      negb (is_space c) && forallb is_dot v && negb (is_space (last v c))
  end.

(** A value written without quotes. *)
Definition bare_value (v : jsstring) : bool :=
  plain_line v && negb (is_quote (hd 0%N v)).

Definition bare_entry (e : index_entry) : bool :=
  bare_value (e_id e) && bare_value (e_source e) && bare_value (e_path e).

(** An index file in the layout the script expects. *)
Definition render_entry (e : index_entry) : jsstring :=
  lit "  - id: " ++ e_id e ++ [LF]
  ++ lit "    source: " ++ e_source e ++ [LF]
  ++ lit "    path: " ++ e_path e ++ [LF].

Definition render_index (entries : list index_entry) : jsstring :=
  lit "skills:" ++ [LF] ++ flat_map render_entry entries.

(** The regexes of [parseIndex] without their anchors. *)
Definition value_re : re :=
  Seq (Grp (Plus true is_dot)) (Star true is_space).

Definition id_body_re : re :=
  Seq (Star true is_space)
   (Seq (Chr 45%N)
     (Seq (Star true is_space)
       (Seq (Str (lit "id:")) (Seq (Star true is_space) value_re)))).

Definition field_body_re (key : jsstring) : re :=
  Seq (Star true is_space)
   (Seq (Str (key ++ [colon])) (Seq (Star true is_space) value_re)).

(** *** The marker file *)

(** Nothing, or one quote character. *)
Definition opt_quote (q : jsstring) : bool :=
  match q with
  | [] => true
  | [c] => is_quote c
  | _ => false
  end.

(** A value that neither begins nor ends with a quote. *)
Definition unquoted_text (v : jsstring) : bool :=
  bare_value v && negb (is_quote (last v 0%N)).

(** A marker file in the usual layout: the name, then the description with
    the quotes [q1] and [q2] around it. *)
Definition canonical_frontmatter (n q1 body q2 : jsstring) : jsstring :=
  lit "name: " ++ n ++ LF :: lit "description: " ++ q1 ++ body ++ q2.

Definition canonical_marker (n q1 body q2 rest : jsstring) : jsstring :=
  fm_open ++ canonical_frontmatter n q1 body q2 ++ fm_close ++ rest.

(** The name and description regexes without their anchors. *)
Definition name_body_re : re :=
  Seq (Str (lit "name:")) (Seq (Star true is_space) (Grp (Plus true is_dot))).

Definition quote_tail_re : re := Seq (Opt is_quote) (Star true is_space).

(** *** Count phrases *)

(** The characters one of the four count patterns begins with. *)
Definition is_trigger (c : char) : bool :=
  char_eqb c cp_gong || char_eqb c cp_lai || char_eqb c star_c
  || char_eqb c cp_cha.

(** A text in which no count phrase can begin. *)
Definition quiet (x : jsstring) : bool :=
  forallb (fun c => negb (is_trigger c)) x.

(** The skill count phrase with the white space [w1], [w2], [w3] and the
    digits [d], and the phrase the callback builds for the count [n]. *)
Definition skill_phrase (w1 d w2 w3 : jsstring) : jsstring :=
  cp_gong :: w1 ++ d ++ w2 ++ cp_ge :: w3 ++ skills_word.

Definition skill_phrase_of (n : N) : jsstring :=
  cp_gong :: sp :: to_string n ++ sp :: cp_ge :: sp :: skills_word.

(** *** Sample repository: the sample tree with its two documents. *)
Definition sample_repo (readme docs : jsstring) : node :=
  Dir [(lit "repo",
        Dir [(lit "skills", Dir sample_skills);
             (lit "README.md", File readme);
             (lit "docs", Dir [(lit "skills.md", File docs)])])].

Definition stale_readme : jsstring :=
  cp_gong :: lit " 7 " ++ cp_ge :: lit " Skills".

Definition stale_docs : jsstring :=
  cp_lai :: cp_zi :: lit " 9 " ++ [cp_ge; cp_yuan].

Definition fixed_readme : jsstring :=
  cp_gong :: lit " 2 " ++ cp_ge :: lit " Skills".

Definition fixed_docs : jsstring :=
  cp_lai :: cp_zi :: lit " 2 " ++ [cp_ge; cp_yuan].

Definition sample_README : path := [lit "repo"; lit "README.md"].
Definition sample_DOCS : path := [lit "repo"; lit "docs"; lit "skills.md"].

(** *** Sample tree whose marker is a directory. *)
Definition marker_dir_fs : node :=
  Dir [(lit "skills",
        Dir [(lit "@a", Dir [(lit "s1", Dir [(SKILL_md, Dir [])])])])].

(** *** Sample tree with a source named [constructor]. *)
Definition constructor_skills : list (jsstring * node) :=
  [(lit "@a", Dir [(lit "s1", Dir [(SKILL_md, File sample_marker)])]);
   (lit "@constructor",
    Dir [(lit "s2", Dir [(SKILL_md, File sample_marker)])])].

Definition constructor_fs : node :=
  Dir [(lit "skills", Dir constructor_skills)].

(** *** Sample tree with the sources [10], [b] and [2]. *)
Definition numeric_skills : list (jsstring * node) :=
  [(lit "@10", Dir [(lit "s1", Dir [(SKILL_md, File sample_marker)])]);
   (lit "@b", Dir [(lit "s2", Dir [(SKILL_md, File sample_marker)])]);
   (lit "@2", Dir [(lit "s3", Dir [(SKILL_md, File sample_marker)])])].

Definition numeric_fs : node := Dir [(lit "skills", Dir numeric_skills)].

(** *** Sample registry whose translation file has the source
    [constructor]. *)
Definition constructor_manifest : jsstring :=
  lit "zh-CN:" ++ [LF] ++ lit "  constructor:" ++ [LF] ++ lit "    pdf:"
  ++ [LF].

Definition constructor_registry : node :=
  Dir [(lit "registry",
        Dir [(lit "i18n",
              Dir [(lit "zh-CN.yaml", File constructor_manifest)]);
             (lit "index.yaml", File sample_index_text)])].

(* ================================================================== *)
(** * Properties *)

Unset Implicit Arguments.

Arguments expected_path : simpl never.

(** ** Strings *)

Lemma char_eqb_eq (a b : char) : char_eqb a b = true <-> a = b.
Proof. apply N.eqb_eq. Qed.

Lemma str_eqb_refl (a : jsstring) : str_eqb a a = true.
Proof.
  induction a as [|x a IH]; simpl; [reflexivity|].
  unfold char_eqb; rewrite N.eqb_refl; exact IH.
Qed.

Lemma str_eqb_eq (a b : jsstring) : str_eqb a b = true <-> a = b.
Proof.
  split.
  - revert b; induction a as [|x a IH]; intros [|y b] H; simpl in H;
      try discriminate; [reflexivity|].
    apply andb_true_iff in H as [H1 H2].
    apply char_eqb_eq in H1; apply IH in H2; congruence.
  - intros ->; apply str_eqb_refl.
Qed.

Lemma str_eqb_neq (a b : jsstring) : str_eqb a b = false <-> a <> b.
Proof.
  split.
  - intros H E; apply str_eqb_eq in E; congruence.
  - intros H; destruct (str_eqb a b) eqn:E; [|reflexivity].
    apply str_eqb_eq in E; contradiction.
Qed.

Lemma str_eqb_sym (a b : jsstring) : str_eqb a b = str_eqb b a.
Proof.
  destruct (str_eqb a b) eqn:E.
  - apply str_eqb_eq in E; subst; symmetry; apply str_eqb_refl.
  - symmetry; apply str_eqb_neq; apply str_eqb_neq in E; congruence.
Qed.

(* ================================================================== *)
(** ** The scan of a missing root *)

Lemma existsb_str_eqb_In (x : jsstring) (l : list jsstring) :
  existsb (str_eqb x) l = true <-> In x l.
Proof.
  rewrite existsb_exists; split.
  - intros [y [Hy E]]; apply str_eqb_eq in E; subst; exact Hy.
  - intros H; exists x; split; [exact H | apply str_eqb_refl].
Qed.

Lemma existsb_str_eqb_not_In (x : jsstring) (l : list jsstring) :
  ~ In x l -> existsb (str_eqb x) l = false.
Proof.
  intros H; destruct (existsb (str_eqb x) l) eqn:E; [|reflexivity].
  apply existsb_str_eqb_In in E; contradiction.
Qed.

(** C8. When the skills root does not exist the scanner returns no entry and
    no broken directory without raising; the statistics built from that scan
    have [totalCount] and [sourceCount] 0; and a read-only run without a
    registry ends normally with the report of these two counts. *)
Theorem missing_root_scans_empty (fs : node) (skillsDir : path) :
  existsSync fs skillsDir = false ->
  scanSkillDirs fs skillsDir = Ok ([], [])
  /\ (exists st,
        collectStats fs skillsDir = Ok (st, [])
        /\ totalCount_of st = 0%nat /\ sourceCount_of st = 0%nat)
  /\ (forall ROOT_DIR args,
        skillsDir = path_join ROOT_DIR [lit "skills"] ->
        existsSync fs
          (path_join ROOT_DIR [lit ".."; lit "skillwisp-cli"; lit "registry"])
        = false ->
        ~ In fix_flag args ->
        main ROOT_DIR args fs
        = (fs, Ok {| r_totalCount := 0; r_sourceCount := 0;
                     r_registry := None; r_updated := [] |})).
Proof.
  intros H.
  assert (Sc : scanSkillDirs fs skillsDir = Ok ([], [])).
  { unfold scanSkillDirs; rewrite H; reflexivity. }
  assert (C : collectStats fs skillsDir = Ok ([], [])).
  { unfold collectStats; rewrite Sc; reflexivity. }
  split; [exact Sc|]; split.
  - exists []; repeat split; exact C.
  - intros ROOT_DIR args -> Reg Fix; unfold main.
    rewrite C, Reg, (existsb_str_eqb_not_In _ _ Fix); reflexivity.
Qed.

Lemma missing_root_scans_empty_witness :
  existsSync (Dir [(lit "README.md", File [])]) [lit "skills"] = false
  /\ scanSkillDirs (Dir [(lit "README.md", File [])]) [lit "skills"]
     = Ok ([], []).
Proof.
  split; [reflexivity|].
  apply (missing_root_scans_empty (Dir [(lit "README.md", File [])])
           [lit "skills"]).
  reflexivity.
Defined.

(* ================================================================== *)
(** ** Read-only runs *)

(** C9. A run whose arguments do not contain [--fix] writes no file: the file
    system when [main] ends, normally or by an exception, is the one it
    started with, whatever the other arguments and the registry are. *)
Theorem no_fix_no_write (ROOT_DIR : path) (args : list jsstring) (fs : node) :
  ~ In fix_flag args ->
  fst (main ROOT_DIR args fs) = fs.
Proof.
  intros H; apply existsb_str_eqb_not_In in H.
  unfold main; rewrite H; simpl negb.
  destruct (collectStats fs (path_join ROOT_DIR [lit "skills"]))
    as [[st broken]|e]; [|reflexivity].
  match goal with
  | |- fst (match ?r with Ok _ => _ | Throw _ => _ end) = _ =>
      destruct r; reflexivity
  end.
Qed.

Lemma no_fix_no_write_witness :
  ~ In fix_flag [lit "--i18n"; lit "--all"]
  /\ fst (main [lit "repo"] [lit "--i18n"; lit "--all"]
            (Dir [(lit "repo", Dir [(lit "README.md", File (lit "x"))])]))
     = Dir [(lit "repo", Dir [(lit "README.md", File (lit "x"))])].
Proof.
  assert (H : ~ In fix_flag [lit "--i18n"; lit "--all"]).
  { intros [E|[E|[]]]; vm_compute in E; discriminate. }
  split; [exact H|].
  apply (no_fix_no_write [lit "repo"] [lit "--i18n"; lit "--all"]
           (Dir [(lit "repo", Dir [(lit "README.md", File (lit "x"))])]) H).
Defined.

(* ================================================================== *)
(** ** Dictionaries *)

Section Objects.
Context {V : Type}.
Implicit Types (o : obj V) (k x : jsstring) (v w : V).

Lemma obj_get_set_same k v o : obj_get k (obj_set k v o) = Some v.
Proof.
  induction o as [|[x w] o IH]; simpl.
  - rewrite str_eqb_refl; reflexivity.
  - destruct (str_eqb x k) eqn:E; simpl; rewrite E; [reflexivity | exact IH].
Qed.

Lemma obj_get_set_other k x v o :
  x <> k -> obj_get x (obj_set k v o) = obj_get x o.
Proof.
  intros H; induction o as [|[y w] o IH]; simpl.
  - replace (str_eqb k x) with false; [reflexivity|].
    symmetry; apply str_eqb_neq; congruence.
  - destruct (str_eqb y k) eqn:E; simpl.
    + apply str_eqb_eq in E; subst y.
      replace (str_eqb k x) with false; [reflexivity|].
      symmetry; apply str_eqb_neq; congruence.
    + destruct (str_eqb y x); [reflexivity | exact IH].
Qed.

Lemma obj_get_In k v o : obj_get k o = Some v -> In (k, v) o.
Proof.
  induction o as [|[x w] o IH]; simpl; [discriminate|].
  destruct (str_eqb x k) eqn:E.
  - intros [= ->]; apply str_eqb_eq in E; subst; left; reflexivity.
  - intros H; right; exact (IH H).
Qed.

Lemma obj_get_NoDup_In k v o :
  NoDup (obj_keys o) -> In (k, v) o -> obj_get k o = Some v.
Proof.
  induction o as [|[x w] o IH]; simpl; [intros _ []|].
  intros ND [E|H].
  - injection E as -> ->; rewrite str_eqb_refl; reflexivity.
  - inversion ND as [|? ? Hx ND']; subst.
    destruct (str_eqb x k) eqn:E.
    + apply str_eqb_eq in E; subst; exfalso; apply Hx.
      change k with (fst (k, v)); apply in_map; exact H.
    + apply IH; assumption.
Qed.

Lemma obj_set_keys k v o :
  obj_keys (obj_set k v o)
  = if existsb (str_eqb k) (obj_keys o) then obj_keys o
    else obj_keys o ++ [k].
Proof.
  unfold obj_keys.
  induction o as [|[x w] o IH]; simpl; [reflexivity|].
  rewrite (str_eqb_sym k x).
  destruct (str_eqb x k) eqn:E; simpl; [reflexivity|].
  rewrite IH.
  destruct (existsb (str_eqb k) (map fst o)); reflexivity.
Qed.

Lemma obj_set_NoDup k v o :
  NoDup (obj_keys o) -> NoDup (obj_keys (obj_set k v o)).
Proof.
  intros ND; rewrite obj_set_keys.
  destruct (existsb (str_eqb k) (obj_keys o)) eqn:E; [exact ND|].
  apply NoDup_app; [exact ND | repeat constructor; intros [] | ].
  intros x Hx [<-|[]].
  apply existsb_str_eqb_In in Hx; congruence.
Qed.

Lemma obj_set_In x w k v o :
  In (x, w) (obj_set k v o) -> (x = k /\ w = v) \/ In (x, w) o.
Proof.
  induction o as [|[y u] o IH]; simpl.
  - intros [[= <- <-]|[]]; left; split; reflexivity.
  - destruct (str_eqb y k) eqn:E.
    + apply str_eqb_eq in E; subst y.
      intros [[= <- <-]|H]; [left; split; reflexivity | right; right; exact H].
    + intros [H|H]; [right; left; exact H|].
      destruct (IH H) as [F|F]; [left; exact F | right; right; exact F].
Qed.
End Objects.

Lemma obj_keys_set_In {V : Type} (x k : jsstring) (v : V) (o : obj V) :
  In x (obj_keys (obj_set k v o)) -> x = k \/ In x (obj_keys o).
Proof.
  rewrite obj_set_keys; destruct (existsb (str_eqb k) (obj_keys o));
    [right; assumption|].
  intros H; apply in_app_or in H as [H|[<-|[]]]; [right | left]; auto.
Qed.

Lemma obj_get_not_In {V : Type} (k : jsstring) (o : obj V) :
  ~ In k (obj_keys o) -> obj_get k o = None.
Proof.
  intros H; destruct (obj_get k o) as [v|] eqn:G; [|reflexivity].
  exfalso; apply H; apply obj_get_In in G.
  change k with (fst (k, v)); apply in_map, G.
Qed.

(* ================================================================== *)
(** ** Loops that only push *)

Lemma fold_left_push {A B : Type} (g : B -> list A) (l : list B) (m : list A) :
  fold_left (fun acc x => acc ++ g x) l m = m ++ flat_map g l.
Proof.
  revert m; induction l as [|x l IH]; intros m; simpl.
  - rewrite app_nil_r; reflexivity.
  - rewrite IH, app_assoc; reflexivity.
Qed.

Lemma fold_left_ext_in {A B : Type} (f g : A -> B -> A) (l : list B) (a : A) :
  (forall acc x, f acc x = g acc x) -> fold_left f l a = fold_left g l a.
Proof.
  intros H; revert a; induction l as [|x l IH]; intros a; simpl;
    [reflexivity | rewrite H; apply IH].
Qed.

Lemma check_skill_push tr ix source missing sk :
  check_skill tr ix source missing sk
  = missing ++ skill_findings tr ix source sk.
Proof.
  unfold skill_findings, check_skill.
  destruct (obj_get _ ix) as [e|]; [|reflexivity].
  destruct (negb _); [reflexivity | rewrite app_nil_r; reflexivity].
Qed.

Lemma pass_scanned_push tr ix (st : stats) missing :
  pass_scanned tr ix st missing
  = missing
    ++ flat_map (fun kv => flat_map (skill_findings tr ix (fst kv)) (snd kv)) st.
Proof.
  unfold pass_scanned.
  rewrite <- fold_left_push; apply fold_left_ext_in; intros acc kv.
  rewrite <- fold_left_push; apply fold_left_ext_in; intros acc' sk.
  apply check_skill_push.
Qed.

Lemma check_entry_prefix fs dir (l : list index_entry) missing :
  exists extra, fold_left (check_entry fs dir) l missing = missing ++ extra
    /\ forall f, In f extra -> f_type f = T_skillDir.
Proof.
  revert missing; induction l as [|e l IH]; intros missing; simpl.
  - exists []; split; [rewrite app_nil_r; reflexivity | intros f []].
  - destruct (IH (check_entry fs dir missing e)) as [extra [E T]].
    unfold check_entry in *; destruct (negb _).
    + eexists; split; [rewrite E, <- app_assoc; reflexivity|].
      intros f [<-|H]; [reflexivity | exact (T f H)].
    + exists extra; split; assumption.
Qed.

Lemma check_broken_prefix (l : list broken_dir) missing :
  exists extra, fold_left check_broken l missing = missing ++ extra
    /\ forall f, In f extra -> f_type f = T_missingSkillMd.
Proof.
  revert missing; induction l as [|e l IH]; intros missing; simpl.
  - exists []; split; [rewrite app_nil_r; reflexivity | intros f []].
  - destruct (IH (check_broken missing e)) as [extra [E T]].
    unfold check_broken in *.
    eexists; split; [rewrite E, <- app_assoc; reflexivity|].
    intros f [<-|H]; [reflexivity | exact (T f H)].
Qed.

(** The missing list: the findings of pass 1, then findings of the types
    [skillDir] and [missingSkillMd]. *)
Lemma missing_shape fs dir (st : stats) broken tr trs ix :
  exists extra,
    v_missing (four_passes fs dir st broken tr trs ix)
    = flat_map (fun kv => flat_map (skill_findings tr (ix_byPath ix) (fst kv))
                            (snd kv)) st ++ extra
    /\ forall f, In f extra ->
         f_type f = T_skillDir \/ f_type f = T_missingSkillMd.
Proof.
  unfold four_passes; simpl.
  rewrite pass_scanned_push; simpl.
  destruct (check_entry_prefix fs dir (ix_entries ix)
              (flat_map (fun kv => flat_map
                 (skill_findings tr (ix_byPath ix) (fst kv)) (snd kv)) st))
    as [x2 [E2 T2]].
  rewrite E2.
  destruct (check_broken_prefix broken
              (flat_map (fun kv => flat_map
                 (skill_findings tr (ix_byPath ix) (fst kv)) (snd kv)) st ++ x2))
    as [x4 [E4 T4]].
  rewrite E4, <- app_assoc.
  eexists; split; [reflexivity|].
  intros f H; apply in_app_or in H as [H|H];
    [left; exact (T2 f H) | right; exact (T4 f H)].
Qed.

(* ================================================================== *)
(** ** The index by path *)

Lemma byPath_step (ix : obj (list index_entry) * obj index_entry)
    (e : index_entry) :
  snd (table_add ix e)
  = if str_eqb (e_path e) proto_key then snd ix
    else obj_set (e_path e) e (snd ix).
Proof. reflexivity. Qed.


Lemma byPath_Some (entries : list index_entry) ix0 (p : jsstring) e :
  obj_get p (snd (fold_left table_add entries ix0)) = Some e ->
  (In e entries /\ e_path e = p) \/ obj_get p (snd ix0) = Some e.
Proof.
  revert ix0; induction entries as [|x l IH]; intros ix0 H; simpl in *;
    [right; exact H|].
  apply IH in H as [[H1 H2]|H]; [left; split; [right|]; assumption|].
  rewrite byPath_step in H.
  destruct (str_eqb (e_path x) proto_key); [right; exact H|].
  destruct (str_eqb p (e_path x)) eqn:E.
  - apply str_eqb_eq in E; subst p.
    rewrite obj_get_set_same in H; injection H as <-.
    left; split; [left|]; reflexivity.
  - apply str_eqb_neq in E; rewrite obj_get_set_other in H by exact E.
    right; exact H.
Qed.

Lemma byPath_keeps (entries : list index_entry) ix0 (p : jsstring) :
  obj_get p (snd ix0) <> None ->
  obj_get p (snd (fold_left table_add entries ix0)) <> None.
Proof.
  revert ix0; induction entries as [|x l IH]; intros ix0 H; simpl;
    [exact H|].
  apply IH; rewrite byPath_step.
  destruct (str_eqb (e_path x) proto_key); [exact H|].
  destruct (str_eqb p (e_path x)) eqn:E.
  - apply str_eqb_eq in E; subst p; rewrite obj_get_set_same; discriminate.
  - apply str_eqb_neq in E; rewrite obj_get_set_other by exact E; exact H.
Qed.

Lemma byPath_is_some (entries : list index_entry) ix0 (p : jsstring) :
  p <> proto_key ->
  (exists e, In e entries /\ e_path e = p) ->
  obj_get p (snd (fold_left table_add entries ix0)) <> None.
Proof.
  intros NP; revert ix0; induction entries as [|x l IH];
    intros ix0 [e [He Hp]]; [destruct He|].
  simpl; destruct He as [<-|He].
  - apply byPath_keeps; rewrite byPath_step; subst p.
    destruct (str_eqb (e_path x) proto_key) eqn:E;
      [apply str_eqb_eq in E; contradiction|].
    rewrite obj_get_set_same; discriminate.
  - apply IH; exists e; split; assumption.
Qed.


Lemma index_byPath_Some (entries : list index_entry) (p : jsstring) e :
  obj_get p (ix_byPath (tables_of entries)) = Some e ->
  In e entries /\ e_path e = p.
Proof.
  intros H; apply byPath_Some in H as [H|H]; [exact H | discriminate].
Qed.

Lemma index_byPath_found (entries : list index_entry) (p : jsstring) :
  p <> proto_key ->
  (exists e, In e entries /\ e_path e = p) ->
  exists e, obj_get p (ix_byPath (tables_of entries)) = Some e.
Proof.
  intros NP H; apply (byPath_is_some entries ([], []) p NP) in H.
  simpl; destruct (obj_get p _) as [e|]; [exists e; reflexivity | congruence].
Qed.

Lemma expected_path_plain (s i : jsstring) : expected_path s i <> proto_key.
Proof. unfold expected_path; discriminate. Qed.

(* ================================================================== *)
(** ** Findings of the reconciliation *)

Lemma mtype_eqb_eq (a b : mtype) : mtype_eqb a b = true <-> a = b.
Proof. destruct a, b; simpl; split; congruence. Qed.

Lemma opt_str_eqb_eq (a b : option jsstring) :
  opt_str_eqb a b = true <-> a = b.
Proof.
  destruct a as [x|], b as [y|]; simpl; try (split; congruence).
  rewrite str_eqb_eq; split; congruence.
Qed.

Lemma finding_eqb_eq (a b : finding) : finding_eqb a b = true <-> a = b.
Proof.
  unfold finding_eqb; rewrite !andb_true_iff, !str_eqb_eq, mtype_eqb_eq,
    opt_str_eqb_eq.
  destruct a, b; simpl; split.
  - intros [[[-> ->] ->] ->]; reflexivity.
  - intros [= -> -> -> ->]; repeat split.
Qed.

Lemma count_finding_app f l1 l2 :
  count_finding f (l1 ++ l2) = (count_finding f l1 + count_finding f l2)%nat.
Proof. unfold count_finding; rewrite filter_app, length_app; reflexivity. Qed.

Lemma count_finding_zero f l :
  (forall g, In g l -> g <> f) -> count_finding f l = 0%nat.
Proof.
  intros H; unfold count_finding; induction l as [|g l IH]; simpl;
    [reflexivity|].
  destruct (finding_eqb f g) eqn:E.
  - apply finding_eqb_eq in E; exfalso; apply (H g); [left|]; congruence.
  - apply IH; intros g' Hg'; apply H; right; exact Hg'.
Qed.

(** Counting in a list built pair by pair from a duplicate-free list. *)
Lemma count_flat_map_once {X : Type} (g : X -> list finding) (l : list X)
    (f : finding) (x : X) :
  NoDup l -> In x l ->
  count_finding f (g x) = 1%nat ->
  (forall y, In y l -> y <> x -> count_finding f (g y) = 0%nat) ->
  count_finding f (flat_map g l) = 1%nat.
Proof.
  intros ND; induction ND as [|y l Hy ND IH]; intros Hin H1 H0;
    [destruct Hin|].
  simpl; rewrite count_finding_app.
  assert (Z : forall l', (forall z, In z l' -> count_finding f (g z) = 0%nat) ->
                         count_finding f (flat_map g l') = 0%nat).
  { induction l' as [|z l' IHl]; intros Hz; simpl; [reflexivity|].
    rewrite count_finding_app, Hz by (left; reflexivity).
    apply IHl; intros z' Hz'; apply Hz; right; exact Hz'. }
  destruct Hin as [->|Hin].
  - rewrite H1, Z; [reflexivity|].
    intros z Hz; apply H0; [right; exact Hz | intros ->; contradiction].
  - rewrite (H0 y); [|left; reflexivity | intros ->; contradiction].
    apply IH; [exact Hin | exact H1|].
    intros z Hz; apply H0; right; exact Hz.
Qed.

Lemma findings_by_pair tr ix (st : obj (list skill)) :
  flat_map (fun kv => flat_map (skill_findings tr ix (fst kv)) (snd kv)) st
  = flat_map (fun q => skill_findings tr ix (fst q) (skill_of_id (snd q)))
      (scanned_pairs st).
Proof.
  unfold scanned_pairs; induction st as [|[src sks] st IH]; simpl;
    [reflexivity|].
  rewrite flat_map_app, IH; f_equal.
  clear IH; induction sks as [|sk sks IH]; simpl; [reflexivity|].
  rewrite IH; reflexivity.
Qed.

Lemma expected_path_inj (s i i' : jsstring) :
  expected_path s i = expected_path s i' -> i = i'.
Proof.
  unfold expected_path; intros H.
  apply app_inv_head in H; apply app_inv_head in H.
  injection H as H; exact H.
Qed.


Lemma skill_findings_Some tr ix source sk e :
  obj_get (expected_path source (s_id sk)) ix = Some e ->
  skill_findings tr ix source sk
  = if hasTranslation tr source (e_id e) then []
    else [translation_finding source (e_id e)
            (expected_path source (s_id sk))].
Proof.
  intros H; unfold skill_findings, check_skill; rewrite H.
  destruct (hasTranslation tr source (e_id e)); reflexivity.
Qed.


(** For a scanned pair whose path an index record carries, the record found
    by that path decides the id looked up, and the source looked up is the
    scanned one. *)
Lemma translation_finding_iff (fs : node) (SKILLS_DIR : path)
    (st : list (jsstring * list skill)) (broken : list broken_dir)
    (tr : translations) (trs : list (jsstring * obj unit))
    (entries : list index_entry) (s i : jsstring) :
  In (s, i) (scanned_pairs st) ->
  (exists e0, In e0 entries /\ e_path e0 = expected_path s i) ->
  exists e,
    obj_get (expected_path s i) (ix_byPath (tables_of entries)) = Some e
    /\ In e entries /\ e_path e = expected_path s i
    /\ (In (translation_finding s (e_id e) (expected_path s i))
          (v_missing (four_passes fs SKILLS_DIR st broken tr trs
                        (tables_of entries)))
        <-> hasTranslation tr s (e_id e) = false).
Proof.
  intros Hin Hex.
  destruct (index_byPath_found entries _ (expected_path_plain s i) Hex)
    as [e G].
  destruct (index_byPath_Some entries _ e G) as [He Hp].
  exists e; repeat split; try assumption.
  - intros Hf.
    destruct (missing_shape fs SKILLS_DIR st broken tr trs (tables_of entries))
      as [extra [E T]].
    rewrite E, findings_by_pair in Hf.
    apply in_app_or in Hf as [Hf|Hf].
    2:{ destruct (T _ Hf) as [F|F]; discriminate F. }
    apply in_flat_map in Hf as [[s' i'] [_ Hf]].
    unfold skill_findings, check_skill in Hf;
      cbn [fst snd skill_of_id s_id] in Hf.
    destruct (obj_get (expected_path s' i') _) as [e'|] eqn:G'.
    + destruct (hasTranslation tr s' (e_id e')) eqn:HT; [destruct Hf|].
      destruct Hf as [Hf|[]].
      unfold translation_finding in Hf.
      assert (s' = s) by congruence; subst s'.
      assert (P : expected_path s i' = expected_path s i) by congruence.
      apply expected_path_inj in P; subst i'.
      congruence.
    + destruct Hf as [Hf|[]]; discriminate.
  - intros HT.
    destruct (missing_shape fs SKILLS_DIR st broken tr trs (tables_of entries))
      as [extra [E T]].
    rewrite E, findings_by_pair.
    apply in_or_app; left.
    apply in_flat_map; exists (s, i); split; [exact Hin|].
    cbn [fst snd].
    rewrite (skill_findings_Some tr _ s (skill_of_id i) e G), HT.
    left; reflexivity.
Qed.

(* ================================================================== *)
(** ** The index by source and the orphaned translations *)

Lemma get_or_empty_set_same {V : Type} (k : jsstring) (l : list V)
    (o : obj (list V)) :
  get_or_empty k (obj_set k l o) = l.
Proof. unfold get_or_empty; rewrite obj_get_set_same; reflexivity. Qed.

Lemma get_or_empty_set_other {V : Type} (k x : jsstring) (l : list V)
    (o : obj (list V)) :
  x <> k -> get_or_empty x (obj_set k l o) = get_or_empty x o.
Proof.
  intros H; unfold get_or_empty; rewrite obj_get_set_other by exact H.
  reflexivity.
Qed.

Lemma js_get_plain {V : Type} (k : jsstring) (o : obj V) :
  inherited k = false ->
  js_get k o = match obj_get k o with
               | Some v => Own v
               | None => Undefined
               end.
Proof. intros H; unfold js_get; rewrite H; reflexivity. Qed.

Lemma js_get_own {V : Type} (k : jsstring) (o : obj V) (v : V) :
  obj_get k o = Some v -> js_get k o = Own v.
Proof. intros H; unfold js_get; rewrite H; reflexivity. Qed.

Lemma js_get_proto {V : Type} (k : jsstring) (o : obj V) :
  obj_get k o = None -> inherited k = true -> js_get k o = Proto.
Proof. intros H I; unfold js_get; rewrite H, I; reflexivity. Qed.

Lemma get_or_empty_init {V : Type} (k x : jsstring) (o : obj (list V)) :
  get_or_empty x (match obj_get k o with
                  | None => obj_set k [] o
                  | Some _ => o
                  end)
  = get_or_empty x o.
Proof.
  destruct (obj_get k o) eqn:E; [reflexivity|].
  destruct (str_eqb x k) eqn:X.
  - apply str_eqb_eq in X; subst x.
    rewrite get_or_empty_set_same; unfold get_or_empty; rewrite E; reflexivity.
  - apply str_eqb_neq in X; apply get_or_empty_set_other; exact X.
Qed.

Lemma bySource_step ix (e : index_entry) (s : jsstring) :
  get_or_empty s (fst (table_add ix e))
  = get_or_empty s (fst ix)
    ++ (if str_eqb (e_source e) s then [e] else []).
Proof.
  unfold table_add; cbn [fst].
  destruct (str_eqb (e_source e) s) eqn:X.
  - apply str_eqb_eq in X; subst s.
    rewrite get_or_empty_set_same, get_or_empty_init; reflexivity.
  - apply str_eqb_neq in X.
    rewrite get_or_empty_set_other, get_or_empty_init, app_nil_r by congruence.
    reflexivity.
Qed.

Lemma bySource_fold (entries : list index_entry) ix0 (s : jsstring) :
  get_or_empty s (fst (fold_left table_add entries ix0))
  = get_or_empty s (fst ix0)
    ++ filter (fun e => str_eqb (e_source e) s) entries.
Proof.
  revert ix0; induction entries as [|e l IH]; intros ix0; simpl.
  - rewrite app_nil_r; reflexivity.
  - rewrite IH, bySource_step, <- app_assoc.
    destruct (str_eqb (e_source e) s); reflexivity.
Qed.

(** The records grouped under a source are the records of that source. *)
Lemma index_bySource (entries : list index_entry) (s : jsstring) :
  get_or_empty s (ix_bySource (tables_of entries))
  = filter (fun e => str_eqb (e_source e) s) entries.
Proof. apply (bySource_fold entries ([], []) s). Qed.

Lemma valid_id_iff (entries : list index_entry) (s i : jsstring) :
  existsb (str_eqb i)
    (map e_id (get_or_empty s (ix_bySource (tables_of entries)))) = true
  <-> exists e, In e entries /\ e_source e = s /\ e_id e = i.
Proof.
  rewrite index_bySource, existsb_str_eqb_In, in_map_iff; split.
  - intros [e [E H]]; apply filter_In in H as [H1 H2].
    apply str_eqb_eq in H2; exists e; auto.
  - intros [e [H1 [H2 H3]]]; exists e; split; [exact H3|].
    apply filter_In; split; [exact H1 | apply str_eqb_eq; exact H2].
Qed.

Lemma check_source_push bySource orphaned (kv : jsstring * obj unit) :
  orphans_from bySource orphaned kv
  = orphaned
    ++ flat_map
         (fun id =>
            if existsb (str_eqb id) (map e_id (get_or_empty (fst kv) bySource))
            then [] else [orphan_finding (fst kv) id])
         (obj_keys (snd kv)).
Proof.
  unfold orphans_from; rewrite <- fold_left_push.
  apply fold_left_ext_in; intros acc id.
  destruct (existsb _ _); simpl; [rewrite app_nil_r|]; reflexivity.
Qed.

Lemma orphaned_by_pair bySource (tr : translations) :
  fold_left (orphans_from bySource) tr []
  = flat_map
      (fun q =>
         if existsb (str_eqb (snd q)) (map e_id (get_or_empty (fst q) bySource))
         then [] else [orphan_finding (fst q) (snd q)])
      (translation_pairs tr).
Proof.
  transitivity
    (flat_map
       (fun kv =>
          flat_map
            (fun id =>
               if existsb (str_eqb id)
                    (map e_id (get_or_empty (fst kv) bySource))
               then [] else [orphan_finding (fst kv) id])
            (obj_keys (snd kv))) tr).
  - change (flat_map ?g tr) with ([] ++ flat_map g tr).
    rewrite <- fold_left_push; apply fold_left_ext_in; intros acc kv.
    apply check_source_push.
  - unfold translation_pairs; induction tr as [|[k o] tr IH]; simpl;
      [reflexivity|].
    rewrite flat_map_app, IH; f_equal.
    clear IH; induction (obj_keys o) as [|id ids IH]; simpl; [reflexivity|].
    rewrite IH; reflexivity.
Qed.

Lemma get_or_empty_In {V : Type} (k : jsstring) (o : obj (list V)) :
  get_or_empty k o = [] \/ In (k, get_or_empty k o) o.
Proof.
  unfold get_or_empty; destruct (obj_get k o) as [l|] eqn:G;
    [right; apply obj_get_In; exact G | left; reflexivity].
Qed.

Lemma tidy_line (st : tr_state) (line : jsstring) :
  tidy (fst st) -> tidy (fst (translation_line st line)).
Proof.
  intros [ND NI]; unfold translation_line.
  destruct (js_match false source_line_re line) as [[m caps]|].
  - cbn [fst]; split; [apply obj_set_NoDup; exact ND|].
    intros k o H; apply obj_set_In in H as [[_ ->]|H];
      [constructor | exact (NI k o H)].
  - destruct (js_match false skill_line_re line) as [[m caps]|];
      [|split; assumption].
    destruct (snd st) as [cs|]; [|split; assumption].
    cbn [fst]; split; [apply obj_set_NoDup; exact ND|].
    intros k o H; apply obj_set_In in H as [[_ ->]|H]; [|exact (NI k o H)].
    apply obj_set_NoDup.
    destruct (get_or_empty_In cs (fst st)) as [G|G];
      [rewrite G; constructor | exact (NI _ _ G)].
Qed.

Lemma tidy_parsed (content : jsstring) : tidy (translations_of_text content).
Proof.
  unfold translations_of_text.
  assert (G : forall l st, tidy (fst st) ->
                tidy (fst (fold_left translation_line l st))).
  { induction l as [|x l IH]; intros st H; simpl; [exact H|].
    apply IH, tidy_line, H. }
  apply G; split; [constructor | intros k o []].
Qed.

Lemma tidy_pairs (tr : translations) :
  tidy tr -> NoDup (translation_pairs tr).
Proof.
  unfold translation_pairs; induction tr as [|[k o] tr IH]; intros [ND NI];
    simpl; [constructor|].
  inversion ND as [|? ? Hk ND']; subst.
  apply NoDup_app.
  - apply Finite.Injective_map_NoDup; [intros a b [= ->]; reflexivity|].
    apply (NI k o); left; reflexivity.
  - apply IH; split; [exact ND'|].
    intros k' o' H; apply (NI k' o'); right; exact H.
  - intros [a b] H1 H2.
    apply in_map_iff in H1 as [x [[= <- <-] _]].
    apply in_flat_map in H2 as [[k' o'] [H2 H3]].
    apply in_map_iff in H3 as [y [[= -> _] _]].
    apply Hk; change k with (fst (k, o')); apply in_map; exact H2.
Qed.

(** The orphaned list of the four passes over a parsed translation file. *)
Lemma orphans_exact (fs : node) (SKILLS_DIR : path)
    (st : list (jsstring * list skill)) (broken : list broken_dir)
    (content : jsstring) (entries : list index_entry) :
  let tr := translations_of_text content in
  let v := four_passes fs SKILLS_DIR st broken tr tr (tables_of entries) in
  (forall s i,
     In (s, i) (translation_pairs tr) ->
     (forall e, In e entries -> e_source e = s -> e_id e <> i) ->
     count_finding (orphan_finding s i) (v_orphaned v) = 1%nat)
  /\ (forall s i,
        (exists e, In e entries /\ e_source e = s /\ e_id e = i) ->
        ~ In (orphan_finding s i) (v_orphaned v))
  /\ (forall f, In f (v_orphaned v) ->
        exists s i, f = orphan_finding s i
          /\ In (s, i) (translation_pairs tr)
          /\ forall e, In e entries -> e_source e = s -> e_id e <> i).
Proof.
  intros tr v.
  assert (E : v_orphaned v
              = flat_map
                  (fun q =>
                     if existsb (str_eqb (snd q))
                          (map e_id (get_or_empty (fst q)
                                       (ix_bySource (tables_of entries))))
                     then [] else [orphan_finding (fst q) (snd q)])
                  (translation_pairs tr)).
  { apply orphaned_by_pair. }
  assert (V : forall s i,
             (forall e, In e entries -> e_source e = s -> e_id e <> i) ->
             existsb (str_eqb i)
               (map e_id (get_or_empty s (ix_bySource (tables_of entries))))
             = false).
  { intros s i H; destruct (existsb _ _) eqn:X; [|reflexivity].
    apply valid_id_iff in X as [e [H1 [H2 H3]]].
    exfalso; exact (H e H1 H2 H3). }
  rewrite E; repeat split.
  - intros s i Hin Hno.
    apply (count_flat_map_once _ _ _ (s, i) (tidy_pairs tr (tidy_parsed content))
             Hin).
    + cbn [fst snd]; rewrite (V s i Hno).
      unfold count_finding; simpl.
      replace (finding_eqb (orphan_finding s i) (orphan_finding s i))
        with true; [reflexivity|].
      symmetry; apply finding_eqb_eq; reflexivity.
    + intros [s' i'] _ Hne; apply count_finding_zero; intros g Hg ->.
      cbn [fst snd] in Hg; destruct (existsb _ _); [destruct Hg|].
      destruct Hg as [Hg|[]]; injection Hg as -> ->; congruence.
  - intros s i Hex Hf.
    apply in_flat_map in Hf as [[s' i'] [_ Hf]]; cbn [fst snd] in Hf.
    destruct (existsb _ _) eqn:X; [destruct Hf|].
    destruct Hf as [Hf|[]]; injection Hf as -> ->.
    apply valid_id_iff in Hex; congruence.
  - intros f Hf.
    apply in_flat_map in Hf as [[s i] [Hin Hf]]; cbn [fst snd] in Hf.
    destruct (existsb _ _) eqn:X; [destruct Hf|].
    destruct Hf as [<-|[]]; exists s, i; repeat split; [exact Hin|].
    intros e H1 H2 H3.
    assert (Y : existsb (str_eqb i)
                  (map e_id (get_or_empty s
                     (ix_bySource (tables_of entries)))) = true).
    { apply valid_id_iff; exists e; auto. }
    congruence.
Qed.

(* ================================================================== *)
(** ** Paths in a well-formed file system *)

Lemma wf_node_Dir (es : list (jsstring * node)) :
  wf_node (Dir es) = true ->
  wf_names es = true /\ forall x n, In (x, n) es -> wf_node n = true.
Proof.
  simpl; intros H; apply andb_true_iff in H as [H1 H2]; split; [exact H1|].
  clear H1; induction es as [|[y c] es IH]; intros x n; [intros []|].
  apply andb_true_iff in H2 as [Hc H2].
  intros [[= <- <-]|H]; [exact Hc | exact (IH H2 x n H)].
Qed.

Lemma assoc_node_In (x : jsstring) (es : list (jsstring * node)) (n : node) :
  assoc_node x es = Some n -> In (x, n) es.
Proof.
  induction es as [|[y c] es IH]; simpl; [discriminate|].
  destruct (str_eqb y x) eqn:E.
  - intros [= ->]; apply str_eqb_eq in E; subst; left; reflexivity.
  - intros H; right; exact (IH H).
Qed.

Lemma assoc_node_distinct (x : jsstring) (es : list (jsstring * node))
    (n : node) :
  distinct (map fst es) = true -> In (x, n) es -> assoc_node x es = Some n.
Proof.
  induction es as [|[y c] es IH]; simpl; [intros _ []|].
  intros D; apply andb_true_iff in D as [D1 D2].
  intros [[= -> ->]|H]; [rewrite str_eqb_refl; reflexivity|].
  destruct (str_eqb y x) eqn:E; [|exact (IH D2 H)].
  apply str_eqb_eq in E; subst y.
  apply negb_true_iff in D1.
  assert (F : existsb (str_eqb x) (map fst es) = true).
  { apply existsb_str_eqb_In; change x with (fst (x, n)); apply in_map, H. }
  congruence.
Qed.

Lemma wf_lookup (p : path) (fs n : node) :
  wf_node fs = true -> lookup fs p = Some n -> wf_node n = true.
Proof.
  revert fs; induction p as [|c p IH]; intros fs W; simpl.
  - intros [= <-]; exact W.
  - destruct fs as [?|es]; [discriminate|].
    destruct (assoc_node c es) as [n'|] eqn:A; [|discriminate].
    apply IH; apply wf_node_Dir in W as [_ W].
    apply (W c n'), assoc_node_In, A.
Qed.

Lemma lookup_app (p q : path) (fs n : node) :
  lookup fs p = Some n -> lookup fs (p ++ q) = lookup n q.
Proof.
  revert fs; induction p as [|c p IH]; intros fs; simpl.
  - intros [= <-]; reflexivity.
  - destruct fs as [?|es]; [discriminate|].
    destruct (assoc_node c es) as [n'|]; [apply IH | discriminate].
Qed.

Lemma split_on_no_sep (sep : char) (x : jsstring) :
  existsb (char_eqb sep) x = false -> split_on sep x = [x].
Proof.
  induction x as [|c x IH]; simpl; [reflexivity|].
  intros H; apply orb_false_iff in H as [H1 H2].
  unfold char_eqb in *; rewrite N.eqb_sym, H1, (IH H2); reflexivity.
Qed.

Lemma path_join_name (p : path) (x : jsstring) :
  valid_name x = true -> path_join p [x] = p ++ [x].
Proof.
  unfold valid_name; rewrite !andb_true_iff, !negb_true_iff.
  intros [[[H1 H2] H3] H4].
  unfold path_join; simpl; rewrite app_nil_r, (split_on_no_sep _ _ H4); simpl.
  unfold push_component; rewrite H1, H2, H3; reflexivity.
Qed.

Lemma wf_names_In (es : list (jsstring * node)) (x : jsstring) (n : node) :
  wf_names es = true -> In (x, n) es ->
  valid_name x = true /\ assoc_node x es = Some n.
Proof.
  unfold wf_names; intros H Hin; apply andb_true_iff in H as [D V]; split.
  - rewrite forallb_forall in V; apply V.
    change x with (fst (x, n)); apply in_map, Hin.
  - apply assoc_node_distinct; assumption.
Qed.

Lemma SKILL_md_valid : valid_name SKILL_md = true.
Proof. reflexivity. Qed.

(* ================================================================== *)
(** ** The scanner on an existing root *)

Section Scanner.
Variables (fs : node) (skillsDir : path) (es : list (jsstring * node)).
Hypothesis fs_wf : wf_node fs = true.
Hypothesis root : lookup fs skillsDir = Some (Dir es).

Lemma root_wf : wf_names es = true
  /\ forall x n, In (x, n) es -> wf_node n = true.
Proof. apply wf_node_Dir, (wf_lookup skillsDir fs); assumption. Qed.

Lemma source_lookup (x : jsstring) (n : node) :
  In (x, n) es ->
  path_join skillsDir [x] = skillsDir ++ [x]
  /\ lookup fs (skillsDir ++ [x]) = Some n.
Proof.
  intros H; destruct root_wf as [W _].
  destruct (wf_names_In es x n W H) as [V A]; split.
  - apply path_join_name, V.
  - rewrite (lookup_app skillsDir [x] fs (Dir es) root); simpl.
    rewrite A; reflexivity.
Qed.

Lemma skill_lookup (x : jsstring) (sub : list (jsstring * node))
    (y : jsstring) (n : node) :
  In (x, Dir sub) es -> In (y, n) sub ->
  path_join (skillsDir ++ [x]) [y] = skillsDir ++ [x; y]
  /\ path_join (skillsDir ++ [x; y]) [SKILL_md]
     = skillsDir ++ [x; y; SKILL_md]
  /\ lookup fs (skillsDir ++ [x; y]) = Some n.
Proof.
  intros Hx Hy; destruct root_wf as [_ W].
  destruct (source_lookup x (Dir sub) Hx) as [_ L].
  destruct (wf_node_Dir sub (W x _ Hx)) as [Ws _].
  destruct (wf_names_In sub y n Ws Hy) as [V A].
  repeat split.
  - rewrite (path_join_name _ y V), <- app_assoc; reflexivity.
  - rewrite (path_join_name _ SKILL_md SKILL_md_valid), <- app_assoc.
    reflexivity.
  - change (skillsDir ++ [x; y]) with (skillsDir ++ [x] ++ [y]).
    rewrite app_assoc, (lookup_app _ [y] fs (Dir sub) L); simpl.
    rewrite A; reflexivity.
Qed.

Lemma marker_exists (x : jsstring) (sub : list (jsstring * node))
    (y : jsstring) (n : node) :
  In (x, Dir sub) es -> In (y, n) sub -> is_dir n = true ->
  existsSync fs (skillsDir ++ [x; y; SKILL_md]) = has_marker (x, y, n).
Proof.
  intros Hx Hy Hd; destruct (skill_lookup x sub y n Hx Hy) as [_ [_ L]].
  unfold existsSync, has_marker.
  change (skillsDir ++ [x; y; SKILL_md])
    with (skillsDir ++ [x; y] ++ [SKILL_md]).
  rewrite app_assoc, (lookup_app _ [SKILL_md] fs n L).
  destruct n as [?|kids]; [discriminate|]; simpl.
  destruct (assoc_node SKILL_md kids); reflexivity.
Qed.

(** The inner loop over a part [l] of the listing of one source. *)
Lemma scan_skill_fold (x : jsstring) (sub l : list (jsstring * node))
    (acc : scan_acc) :
  In (x, Dir sub) es -> incl l sub ->
  let cs := map (fun c => (x, fst c, snd c))
              (filter (fun c => is_dir (snd c)) l) in
  fold_left (scan_skill fs x (skillsDir ++ [x])) (map dirent_of l) acc
  = (fst acc ++ map (entry_path skillsDir) (filter has_marker cs),
     snd acc
     ++ map (broken_of skillsDir) (filter (fun c => negb (has_marker c)) cs)).
Proof.
  intros Hx; revert acc; induction l as [|[y n] l IH]; intros acc Hl; simpl.
  - rewrite !app_nil_r; destruct acc; reflexivity.
  - assert (Hy : In (y, n) sub) by (apply Hl; left; reflexivity).
    assert (Hl' : incl l sub) by (intros z Hz; apply Hl; right; exact Hz).
    rewrite (IH _ Hl'); clear IH.
    unfold scan_skill at 1 2; cbn [d_isDirectory d_name dirent_of fst snd].
    destruct (skill_lookup x sub y n Hx Hy) as [P1 [P2 _]].
    destruct n as [?|kids]; cbn [is_dir negb]; [reflexivity|].
    rewrite P1, P2, (marker_exists x sub y (Dir kids) Hx Hy eq_refl).
    cbn [map filter fst snd is_dir].
    destruct (has_marker (x, y, Dir kids)); cbn [negb fst snd map];
      rewrite <- !app_assoc; reflexivity.
Qed.

(** The outer loop over a part [l] of the listing of the root. *)
Lemma scan_source_fold (l : list (jsstring * node)) (acc : scan_acc) :
  incl l es ->
  foldM (scan_source fs skillsDir) (map dirent_of l) acc
  = Ok (fst acc
        ++ map (entry_path skillsDir) (filter has_marker (candidates l)),
        snd acc
        ++ map (broken_of skillsDir)
             (filter (fun c => negb (has_marker c)) (candidates l))).
Proof.
  revert acc; induction l as [|[x n] l IH]; intros acc Hl; simpl.
  - rewrite !app_nil_r; destruct acc; reflexivity.
  - assert (Hx : In (x, n) es) by (apply Hl; left; reflexivity).
    assert (Hl' : incl l es) by (intros z Hz; apply Hl; right; exact Hz).
    unfold candidates in *; cbn [flat_map].
    rewrite !filter_app, !map_app.
    unfold scan_source at 1; cbn [d_isDirectory d_name dirent_of fst snd].
    unfold skill_dirs at 1 3; cbn [fst snd].
    destruct n as [?|sub]; cbn [is_dir negb andb bind].
    { rewrite (IH _ Hl'); reflexivity. }
    destruct (startsWith at_sign x) eqn:A; cbn [negb bind].
    2:{ rewrite (IH _ Hl'); reflexivity. }
    destruct (source_lookup x (Dir sub) Hx) as [P L].
    rewrite P; unfold readdirSync; rewrite L; cbn [bind children].
    rewrite (scan_skill_fold x sub sub acc Hx (incl_refl sub)).
    rewrite (IH _ Hl'); cbn [fst snd]; rewrite <- !app_assoc; reflexivity.
Qed.

Lemma scanSkillDirs_exact :
  scanSkillDirs fs skillsDir
  = Ok (map (entry_path skillsDir) (filter has_marker (candidates es)),
        map (broken_of skillsDir)
          (filter (fun c => negb (has_marker c)) (candidates es))).
Proof.
  unfold scanSkillDirs, existsSync, readdirSync; rewrite root; cbn [negb bind].
  apply (scan_source_fold es ([], []) (incl_refl es)).
Qed.

End Scanner.

(* ================================================================== *)
(** ** The partition of the candidate directories *)

Lemma candidates_In (es : list (jsstring * node)) (x y : jsstring) (n : node) :
  In (x, y, n) (candidates es)
  <-> exists sub, In (x, Dir sub) es /\ startsWith at_sign x = true
                  /\ In (y, n) sub /\ is_dir n = true.
Proof.
  unfold candidates; rewrite in_flat_map; split.
  - intros [[x' n'] [He Hc]]; unfold skill_dirs in Hc; cbn [fst snd] in Hc.
    destruct n' as [?|sub]; [destruct Hc|]; cbn [is_dir andb children] in Hc.
    destruct (startsWith at_sign x') eqn:A; [|destruct Hc].
    apply in_map_iff in Hc as [[y' n''] [[= <- <- <-] Hf]].
    apply filter_In in Hf as [Hf Hd]; exists sub; auto.
  - intros [sub [He [A [Hy Hd]]]]; exists (x, Dir sub); split; [exact He|].
    unfold skill_dirs; cbn [fst snd is_dir andb children]; rewrite A.
    apply in_map_iff; exists (y, n); split; [reflexivity|].
    apply filter_In; split; assumption.
Qed.

Lemma filter_split_length {A : Type} (f : A -> bool) (l : list A) :
  (length (filter f l) + length (filter (fun x => negb (f x)) l))%nat
  = length l.
Proof.
  induction l as [|x l IH]; simpl; [reflexivity|].
  destruct (f x); simpl; lia.
Qed.

Section Partition.
Variables (fs : node) (skillsDir : path) (es : list (jsstring * node)).
Hypothesis fs_wf : wf_node fs = true.
Hypothesis root : lookup fs skillsDir = Some (Dir es).

(** Two candidates of the same source and id are the same directory. *)
Lemma candidates_functional (x y : jsstring) (n n' : node) :
  In (x, y, n) (candidates es) -> In (x, y, n') (candidates es) -> n = n'.
Proof.
  intros H H'.
  apply candidates_In in H as [sub [He [_ [Hy _]]]].
  apply candidates_In in H' as [sub' [He' [_ [Hy' _]]]].
  destruct (root_wf fs skillsDir es fs_wf root) as [W Wc].
  destruct (wf_names_In es x _ W He) as [_ A].
  destruct (wf_names_In es x _ W He') as [_ A'].
  assert (sub' = sub) by congruence; subst sub'.
  destruct (wf_node_Dir sub (Wc x _ He)) as [Ws _].
  destruct (wf_names_In sub y _ Ws Hy) as [_ B].
  destruct (wf_names_In sub y _ Ws Hy') as [_ B'].
  congruence.
Qed.

Lemma entry_path_inj (c c' : jsstring * jsstring * node) :
  entry_path skillsDir c = entry_path skillsDir c' -> fst c = fst c'.
Proof.
  destruct c as [[x y] n], c' as [[x' y'] n']; unfold entry_path; simpl.
  intros H; apply app_inv_head in H; congruence.
Qed.

Lemma broken_of_inj (c c' : jsstring * jsstring * node) :
  broken_of skillsDir c = broken_of skillsDir c' -> fst c = fst c'.
Proof.
  destruct c as [[x y] n], c' as [[x' y'] n']; unfold broken_of; simpl.
  intros [= _ _ H]; apply app_inv_head in H; congruence.
Qed.

Lemma same_key_same_candidate (c c' : jsstring * jsstring * node) :
  In c (candidates es) -> In c' (candidates es) -> fst c = fst c' -> c = c'.
Proof.
  destruct c as [[x y] n], c' as [[x' y'] n']; simpl.
  intros H H' [= <- <-]; f_equal.
  exact (candidates_functional x y n n' H H').
Qed.

(** C10. On an existing root the scanner returns without raising, and
    every second-level directory of an at-sign first-level directory lands in
    exactly one of the two lists: the entries when it holds [SKILL.md], the
    broken directories when it does not.  Both lists hold nothing else, so a
    file at either level and a first-level name without the at sign are in
    neither, and together they are as long as the list of candidates. *)
Theorem scan_partitions_candidates :
  exists results broken,
    scanSkillDirs fs skillsDir = Ok (results, broken)
    /\ (forall c, In c (candidates es) ->
          if has_marker c
          then In (entry_path skillsDir c) results
               /\ ~ In (broken_of skillsDir c) broken
          else In (broken_of skillsDir c) broken
               /\ ~ In (entry_path skillsDir c) results)
    /\ (forall p, In p results ->
          exists c, In c (candidates es) /\ has_marker c = true
                    /\ p = entry_path skillsDir c)
    /\ (forall b, In b broken ->
          exists c, In c (candidates es) /\ has_marker c = false
                    /\ b = broken_of skillsDir c)
    /\ (length results + length broken)%nat = length (candidates es)
    /\ (forall x y n,
          In (x, y, n) (candidates es)
          <-> exists sub, In (x, Dir sub) es /\ startsWith at_sign x = true
                          /\ In (y, n) sub /\ is_dir n = true).
Proof.
  eexists; eexists; split;
    [exact (scanSkillDirs_exact fs skillsDir es fs_wf root)|].
  assert (R : forall p,
             In p (map (entry_path skillsDir)
                     (filter has_marker (candidates es))) ->
             exists c, In c (candidates es) /\ has_marker c = true
                       /\ p = entry_path skillsDir c).
  { intros p H; apply in_map_iff in H as [c [<- H]].
    apply filter_In in H as [H1 H2]; exists c; auto. }
  assert (B : forall b,
             In b (map (broken_of skillsDir)
                     (filter (fun c => negb (has_marker c)) (candidates es))) ->
             exists c, In c (candidates es) /\ has_marker c = false
                       /\ b = broken_of skillsDir c).
  { intros b H; apply in_map_iff in H as [c [<- H]].
    apply filter_In in H as [H1 H2]; apply negb_true_iff in H2.
    exists c; auto. }
  repeat split.
  - intros c Hc; destruct (has_marker c) eqn:M; split.
    + apply in_map, filter_In; split; assumption.
    + intros H; apply B in H as [c' [Hc' [M' E]]].
      apply broken_of_inj in E.
      rewrite (same_key_same_candidate c c' Hc Hc' E) in M; congruence.
    + apply in_map, filter_In; split; [exact Hc | rewrite M; reflexivity].
    + intros H; apply R in H as [c' [Hc' [M' E]]].
      apply entry_path_inj in E.
      rewrite (same_key_same_candidate c c' Hc Hc' E) in M; congruence.
  - exact R.
  - exact B.
  - rewrite !length_map; apply filter_split_length.
  - apply candidates_In.
  - apply candidates_In.
Qed.

End Partition.

Lemma scan_partitions_candidates_witness :
  exists results broken,
    scanSkillDirs sample_fs sample_root = Ok (results, broken)
    /\ length results = 2%nat /\ length broken = 1%nat.
Proof.
  destruct (scan_partitions_candidates sample_fs sample_root sample_skills
              eq_refl eq_refl) as [results [broken [E _]]].
  exists results, broken; split; [exact E|].
  vm_compute in E; injection E as <- <-; split; reflexivity.
Defined.

(* ================================================================== *)
(** ** The statistics of an existing root *)

Lemma obj_get_app_None {V : Type} (k x : jsstring) (v : V) (o : obj V) :
  obj_get x (o ++ [(k, v)])
  = match obj_get x o with
    | Some w => Some w
    | None => if str_eqb k x then Some v else None
    end.
Proof.
  induction o as [|[y w] o IH]; simpl; [reflexivity|].
  destruct (str_eqb y x); [reflexivity | exact IH].
Qed.

Lemma obj_set_fresh {V : Type} (k : jsstring) (v : V) (o : obj V) :
  obj_get k o = None -> obj_set k v o = o ++ [(k, v)].
Proof.
  induction o as [|[y w] o IH]; simpl; [reflexivity|].
  destruct (str_eqb y k); [discriminate|].
  intros H; rewrite (IH H); reflexivity.
Qed.

Lemma obj_set_last {V : Type} (k : jsstring) (v w : V) (o : obj V) :
  obj_get k o = None -> obj_set k v (o ++ [(k, w)]) = o ++ [(k, v)].
Proof.
  induction o as [|[y u] o IH]; simpl.
  - rewrite str_eqb_refl; reflexivity.
  - destruct (str_eqb y k); [discriminate|].
    intros H; rewrite (IH H); reflexivity.
Qed.

Lemma foldM_app {A B : Type} (f : A -> B -> result A) (l1 l2 : list B) (a : A) :
  foldM f (l1 ++ l2) a = bind (foldM f l1 a) (foldM f l2).
Proof.
  revert a; induction l1 as [|x l1 IH]; intros a; simpl; [reflexivity|].
  destruct (f a x) as [a'|e]; simpl; [apply IH | reflexivity].
Qed.

Lemma relative_parts_app (p l : path) : relative_parts p (p ++ l) = l.
Proof.
  induction p as [|c p IH]; simpl; [destruct l; reflexivity|].
  rewrite str_eqb_refl; exact IH.
Qed.

Lemma slice1_at_inj (a b : jsstring) :
  startsWith at_sign a = true -> startsWith at_sign b = true ->
  slice1 a = slice1 b -> a = b.
Proof.
  change at_sign with [64%N].
  destruct a as [|x a], b as [|y b]; cbn [startsWith]; try discriminate.
  rewrite !andb_true_r; intros H1 H2 E.
  apply char_eqb_eq in H1, H2; unfold slice1 in E; cbn [tl] in E; congruence.
Qed.

Lemma distinct_NoDup (l : list jsstring) : distinct l = true -> NoDup l.
Proof.
  induction l as [|x l IH]; simpl; [constructor|].
  intros H; apply andb_true_iff in H as [H1 H2]; constructor; [|exact (IH H2)].
  intros F; apply existsb_str_eqb_In in F.
  apply negb_true_iff in H1; congruence.
Qed.

Lemma counted_has_at (e : jsstring * node) :
  is_counted_source e = true -> startsWith at_sign (fst e) = true.
Proof.
  unfold is_counted_source, skill_dirs.
  destruct (is_dir (snd e)); [|discriminate].
  destruct (startsWith at_sign (fst e)); [reflexivity | discriminate].
Qed.

Lemma skill_dirs_source (e : jsstring * node) (c : jsstring * jsstring * node) :
  In c (skill_dirs e) -> fst (fst c) = fst e.
Proof.
  unfold skill_dirs; destruct (_ && _); [|intros []].
  intros H; apply in_map_iff in H as [y [<- _]]; reflexivity.
Qed.

Section Statistics.
Variables (fs : node) (skillsDir : path) (es : list (jsstring * node)).
Hypothesis fs_wf : wf_node fs = true.
Hypothesis root : lookup fs skillsDir = Some (Dir es).
Hypothesis markers : forallb marker_is_file (candidates es) = true.
Hypothesis sources : forallb plain_source (candidates es) = true.

Lemma marker_read (c : jsstring * jsstring * node) :
  In c (candidates es) -> has_marker c = true ->
  parseSkillMetadata fs (entry_path skillsDir c)
  = Ok (metadata_of_text (entry_path skillsDir c) (marker_text c)).
Proof.
  intros Hc M.
  assert (F : marker_is_file c = true).
  { rewrite forallb_forall in markers; exact (markers c Hc). }
  destruct c as [[x y] n].
  apply candidates_In in Hc as [sub [Hx [_ [Hy Hd]]]].
  destruct (skill_lookup fs skillsDir es fs_wf root x sub y n Hx Hy)
    as [_ [_ L]].
  unfold parseSkillMetadata, readFileSync, entry_path; cbn [fst snd].
  change (skillsDir ++ [x; y; SKILL_md])
    with (skillsDir ++ [x; y] ++ [SKILL_md]).
  rewrite app_assoc, (lookup_app _ [SKILL_md] fs n L).
  unfold has_marker, marker_is_file, marker_text in *; cbn [snd] in *.
  destruct n as [?|kids]; [discriminate|]; cbn [children lookup] in *.
  destruct (assoc_node SKILL_md kids) as [[t|?]|]; try discriminate.
  reflexivity.
Qed.

(** One marker file of the source [x]. *)
Lemma collect_file_step (c : jsstring * jsstring * node) (st : stats) :
  In c (candidates es) -> has_marker c = true ->
  let k := slice1 (fst (fst c)) in
  collect_file fs skillsDir st (entry_path skillsDir c)
  = Ok (obj_set k (get_or_empty k st ++ [skill_of skillsDir c])
          (match obj_get k st with
           | None => obj_set k [] st
           | Some _ => st
           end)).
Proof.
  intros Hc M k; unfold collect_file.
  rewrite (marker_read c Hc M).
  assert (P : inherited k = false).
  { rewrite forallb_forall in sources; specialize (sources c Hc).
    unfold plain_source in sources; rewrite M in sources.
    apply negb_true_iff in sources; exact sources. }
  destruct c as [[x y] n]; subst k; cbn [fst snd] in *.
  assert (A : startsWith at_sign x = true).
  { apply candidates_In in Hc as [sub [_ [A _]]]; exact A. }
  unfold path_relative_split, entry_path; cbn [fst snd].
  rewrite relative_parts_app; cbn [length Nat.eqb negb nth].
  rewrite A, str_eqb_refl; cbn [negb bind].
  rewrite (js_get_plain _ _ P).
  destruct (obj_get (slice1 x) st) as [l|] eqn:G; cbn [bind].
  - reflexivity.
  - unfold get_or_empty at 1; rewrite obj_get_set_same.
    unfold get_or_empty; rewrite G; reflexivity.
Qed.

(** The marker files of one source, once its key exists. *)
Lemma collect_block (k : jsstring) (cs : list (jsstring * jsstring * node)) :
  (forall c, In c cs ->
     In c (candidates es) /\ has_marker c = true
     /\ slice1 (fst (fst c)) = k) ->
  forall (st : stats) (l : list skill),
    obj_get k st = None ->
    foldM (collect_file fs skillsDir) (map (entry_path skillsDir) cs)
      (st ++ [(k, l)])
    = Ok (st ++ [(k, l ++ map (skill_of skillsDir) cs)]).
Proof.
  induction cs as [|c cs IH]; intros H st l F; simpl.
  - rewrite app_nil_r; reflexivity.
  - destruct (H c (or_introl eq_refl)) as [Hc [M K]].
    rewrite (collect_file_step c (st ++ [(k, l)]) Hc M); rewrite K.
    unfold get_or_empty; rewrite obj_get_app_None, F, str_eqb_refl.
    rewrite (obj_set_last k _ l st F); cbn [bind].
    rewrite IH; [rewrite <- app_assoc; reflexivity | | exact F].
    intros c' Hc'; apply H; right; exact Hc'.
Qed.

(** The marker files of one source, from statistics without its key. *)
Lemma collect_source (k : jsstring) (cs : list (jsstring * jsstring * node))
    (st : stats) :
  (forall c, In c cs ->
     In c (candidates es) /\ has_marker c = true
     /\ slice1 (fst (fst c)) = k) ->
  obj_get k st = None ->
  foldM (collect_file fs skillsDir) (map (entry_path skillsDir) cs) st
  = Ok (match cs with
        | [] => st
        | _ :: _ => st ++ [(k, map (skill_of skillsDir) cs)]
        end).
Proof.
  destruct cs as [|c cs]; intros H F; [reflexivity|].
  cbn [map foldM].
  destruct (H c (or_introl eq_refl)) as [Hc [M K]].
  rewrite (collect_file_step c st Hc M); rewrite K.
  unfold get_or_empty; rewrite F.
  rewrite (obj_set_fresh k [] st F), (obj_set_last k _ [] st F); cbn [bind app].
  apply collect_block; [|exact F].
  intros c' Hc'; apply H; right; exact Hc'.
Qed.

Lemma counted_filter_nonempty (e : jsstring * node) :
  is_counted_source e = true <-> filter has_marker (skill_dirs e) <> [].
Proof.
  unfold is_counted_source.
  induction (skill_dirs e) as [|c l IH]; simpl.
  - split; [discriminate | congruence].
  - destruct (has_marker c); simpl; [split; [discriminate | reflexivity]|].
    exact IH.
Qed.

(** The loop of [collectStats] over a part [l] of the listing. *)
Lemma collect_fold (l : list (jsstring * node)) (st : stats) :
  incl l es -> NoDup (map fst l) ->
  (forall e, In e l -> is_counted_source e = true ->
     obj_get (slice1 (fst e)) st = None) ->
  foldM (collect_file fs skillsDir)
    (map (entry_path skillsDir) (filter has_marker (candidates l))) st
  = Ok (st ++ stats_of skillsDir l).
Proof.
  revert st; induction l as [|e l IH]; intros st Hl ND F.
  - simpl; rewrite app_nil_r; reflexivity.
  - assert (He : In e es) by (apply Hl; left; reflexivity).
    assert (Hl' : incl l es) by (intros z Hz; apply Hl; right; exact Hz).
    inversion ND as [|? ? Hn ND']; subst.
    unfold candidates; cbn [flat_map]; fold (candidates l).
    rewrite filter_app, map_app, foldM_app.
    assert (B : forall c, In c (filter has_marker (skill_dirs e)) ->
                  In c (candidates es) /\ has_marker c = true
                  /\ slice1 (fst (fst c)) = slice1 (fst e)).
    { intros c Hc; apply filter_In in Hc as [H1 H2]; repeat split.
      - apply in_flat_map; exists e; split; assumption.
      - exact H2.
      - rewrite (skill_dirs_source e c H1); reflexivity. }
    unfold stats_of; cbn [filter].
    destruct (is_counted_source e) eqn:C.
    + rewrite (collect_source (slice1 (fst e)) _ st B
                 (F e (or_introl eq_refl) C)).
      cbn [map]; fold (stats_of skillsDir l).
      destruct (filter has_marker (skill_dirs e)) as [|c0 cs0] eqn:X.
      { apply counted_filter_nonempty in C; contradiction. }
      cbn [bind map]; fold (stats_of skillsDir l).
      rewrite (IH _ Hl' ND'); [rewrite <- app_assoc; reflexivity|].
      intros e' He' C'; rewrite obj_get_app_None.
      rewrite (F e' (or_intror He') C').
      destruct (str_eqb (slice1 (fst e)) (slice1 (fst e'))) eqn:S;
        [|reflexivity].
      apply str_eqb_eq in S.
      apply slice1_at_inj in S; try (apply counted_has_at; assumption).
      exfalso; apply Hn; rewrite S; apply in_map, He'.
    + assert (X : filter has_marker (skill_dirs e) = []).
      { destruct (filter has_marker (skill_dirs e)) eqn:X; [reflexivity|].
        assert (C' : is_counted_source e = true)
          by (apply counted_filter_nonempty; rewrite X; discriminate).
        congruence. }
      rewrite X; cbn [map foldM bind]; fold (stats_of skillsDir l).
      apply (IH _ Hl' ND').
      intros e' He' C'; apply F; [right; exact He' | exact C'].
Qed.

Lemma collectStats_exact :
  collectStats fs skillsDir
  = Ok (stats_of skillsDir es,
        map (broken_of skillsDir)
          (filter (fun c => negb (has_marker c)) (candidates es))).
Proof.
  unfold collectStats.
  rewrite (scanSkillDirs_exact fs skillsDir es fs_wf root); cbn [bind fst snd].
  rewrite (collect_fold es [] (incl_refl es)); [reflexivity | |].
  - destruct (root_wf fs skillsDir es fs_wf root) as [W _].
    apply andb_true_iff in W as [D _]; apply distinct_NoDup, D.
  - intros; reflexivity.
Qed.

End Statistics.

(** The same loop without the two premises: what makes it raise. *)
Section Markers.
Variables (fs : node) (skillsDir : path) (es : list (jsstring * node)).
Hypothesis fs_wf : wf_node fs = true.
Hypothesis root : lookup fs skillsDir = Some (Dir es).

Lemma marker_lookup (c : jsstring * jsstring * node) :
  In c (candidates es) ->
  lookup fs (entry_path skillsDir c) = assoc_node SKILL_md (children (snd c)).
Proof.
  destruct c as [[x y] n]; intros Hc.
  apply candidates_In in Hc as [sub [Hx [_ [Hy Hd]]]].
  destruct (skill_lookup fs skillsDir es fs_wf root x sub y n Hx Hy)
    as [_ [_ L]].
  unfold entry_path; cbn [fst snd].
  change (skillsDir ++ [x; y; SKILL_md])
    with (skillsDir ++ [x; y] ++ [SKILL_md]).
  rewrite app_assoc, (lookup_app _ [SKILL_md] fs n L).
  destruct n as [?|kids]; [discriminate|]; cbn [children lookup].
  destruct (assoc_node SKILL_md kids); reflexivity.
Qed.

(** What the loop of [collectStats] does with one scanned marker: a marker
    that is a directory cannot be read, and after a marker that was read the
    push fails for a source that [Object.prototype] has a member for. *)
Lemma collect_file_cases (c : jsstring * jsstring * node)
    (st : obj (list skill)) :
  In c (candidates es) -> has_marker c = true -> own_plain st ->
  match collect_file fs skillsDir st (entry_path skillsDir c) with
  | Ok st' =>
      marker_is_file c = true /\ plain_source c = true /\ own_plain st'
  | Throw e =>
      (e = EISDIR /\ marker_is_file c = false)
      \/ (e = TypeError /\ marker_is_file c = true
          /\ plain_source c = false)
  end.
Proof.
  intros Hc M P; pose proof (marker_lookup c Hc) as L.
  assert (A : startsWith at_sign (fst (fst c)) = true).
  { destruct c as [[x y] n].
    apply candidates_In in Hc as [sub [_ [A _]]]; exact A. }
  unfold collect_file, parseSkillMetadata, readFileSync; rewrite L.
  unfold path_relative_split, entry_path.
  rewrite relative_parts_app; cbn [length Nat.eqb negb nth].
  rewrite A, str_eqb_refl; cbn [negb].
  unfold plain_source; rewrite M; cbn [andb].
  unfold has_marker in M; unfold marker_is_file.
  destruct (assoc_node SKILL_md (children (snd c))) as [[t|kids]|];
    [|left; split; reflexivity | discriminate].
  cbn [bind]; unfold js_get.
  destruct (obj_get (slice1 (fst (fst c))) st) as [l|] eqn:G.
  - assert (I : inherited (slice1 (fst (fst c))) = false).
    { apply P; apply obj_get_In in G.
      change (slice1 (fst (fst c))) with (fst (slice1 (fst (fst c)), l)).
      apply in_map, G. }
    rewrite I; repeat split.
    intros k Hk; apply obj_keys_set_In in Hk as [->|Hk];
      [exact I | exact (P k Hk)].
  - destruct (inherited (slice1 (fst (fst c)))) eqn:I.
    + right; repeat split.
    + repeat split.
      intros k Hk; apply obj_keys_set_In in Hk as [->|Hk]; [exact I|].
      apply obj_keys_set_In in Hk as [->|Hk]; [exact I | exact (P k Hk)].
Qed.

Lemma collect_fold_cases (cs : list (jsstring * jsstring * node))
    (st : obj (list skill)) :
  (forall c, In c cs -> In c (candidates es) /\ has_marker c = true) ->
  own_plain st ->
  match foldM (collect_file fs skillsDir) (map (entry_path skillsDir) cs) st
  with
  | Ok st' =>
      forallb marker_is_file cs = true /\ forallb plain_source cs = true
      /\ own_plain st'
  | Throw e =>
      (e = EISDIR /\ forallb marker_is_file cs = false)
      \/ (e = TypeError /\ forallb plain_source cs = false)
  end.
Proof.
  revert st; induction cs as [|c cs IH]; intros st H P; cbn [map foldM].
  - repeat split; exact P.
  - destruct (H c (or_introl eq_refl)) as [Hc M].
    pose proof (collect_file_cases c st Hc M P) as K.
    destruct (collect_file fs skillsDir st (entry_path skillsDir c))
      as [st1|e]; cbn [bind forallb].
    + destruct K as (K1 & K2 & K3); rewrite K1, K2; cbn [andb].
      apply IH; [intros c' Hc'; apply H; right; exact Hc' | exact K3].
    + destruct K as [[-> K]|[-> [_ K]]]; rewrite K;
        [left | right]; split; reflexivity.
Qed.

Lemma forallb_marked (p : jsstring * jsstring * node -> bool)
    (l : list (jsstring * jsstring * node)) :
  (forall c, has_marker c = false -> p c = true) ->
  forallb p (filter has_marker l) = forallb p l.
Proof.
  intros H; induction l as [|c l IH]; [reflexivity|].
  cbn [filter forallb].
  destruct (has_marker c) eqn:M; cbn [forallb]; rewrite IH;
    [reflexivity | rewrite (H c M); reflexivity].
Qed.

(** How [collectStats] ends on an existing root. *)
Lemma collectStats_cases :
  match collectStats fs skillsDir with
  | Ok _ =>
      forallb marker_is_file (candidates es) = true
      /\ forallb plain_source (candidates es) = true
  | Throw e =>
      (e = EISDIR /\ forallb marker_is_file (candidates es) = false)
      \/ (e = TypeError /\ forallb plain_source (candidates es) = false)
  end.
Proof.
  unfold collectStats.
  rewrite (scanSkillDirs_exact fs skillsDir es fs_wf root); cbn [bind fst snd].
  pose proof (collect_fold_cases (filter has_marker (candidates es)) []) as K.
  rewrite (forallb_marked marker_is_file) in K.
  2:{ intros c M; unfold has_marker in M; unfold marker_is_file.
      destruct (assoc_node SKILL_md (children (snd c)));
        [discriminate | reflexivity]. }
  rewrite (forallb_marked plain_source) in K.
  2:{ intros c M; unfold plain_source; rewrite M; reflexivity. }
  assert (H : forall c, In c (filter has_marker (candidates es)) ->
                In c (candidates es) /\ has_marker c = true).
  { intros c Hc; apply filter_In in Hc; exact Hc. }
  specialize (K H (fun k (F : In k (@obj_keys (list skill) [])) =>
                     match F with end)).
  destruct (foldM _ _ _) as [st|e]; cbn [bind];
    [destruct K as (K1 & K2 & _); split; assumption | exact K].
Qed.

Lemma collectStats_plain (st : obj (list skill)) (broken : list broken_dir) :
  collectStats fs skillsDir = Ok (st, broken) ->
  forallb plain_source (candidates es) = true.
Proof.
  intros E; pose proof collectStats_cases as K; rewrite E in K; apply K.
Qed.

End Markers.

(* ================================================================== *)
(** ** The order of the own keys *)

Lemma insert_index_perm {A : Type} (n : N) (a : A) (l : list (N * A)) :
  Permutation (insert_index n a l) ((n, a) :: l).
Proof.
  induction l as [|[m b] l IH]; simpl; [apply Permutation_refl|].
  destruct (n <? m)%N; [apply Permutation_refl|].
  eapply Permutation_trans; [apply perm_skip, IH | apply perm_swap].
Qed.

Lemma own_order_cons {A : Type} (key : A -> jsstring) (a : A) (l : list A) :
  array_index (key a) = None ->
  (forall b, In b l -> array_index (key b) = None) ->
  own_order key (a :: l) = a :: own_order key l.
Proof.
  intros Ha Hl; unfold own_order, is_index; cbn [fold_right filter].
  rewrite Ha; cbn [negb].
  replace (fold_right _ [] l) with (@nil (N * A)); [reflexivity|].
  clear Ha; induction l as [|b l IH]; [reflexivity|].
  cbn [fold_right]; rewrite (Hl b (or_introl eq_refl)).
  apply IH; intros c Hc; apply Hl; right; exact Hc.
Qed.

(** Without array indices the own keys are listed as they were added. *)
Lemma own_order_plain {A : Type} (key : A -> jsstring) (l : list A) :
  (forall a, In a l -> array_index (key a) = None) -> own_order key l = l.
Proof.
  induction l as [|a l IH]; intros H; [reflexivity|].
  rewrite own_order_cons;
    [f_equal; apply IH; intros b Hb; apply H; right; exact Hb
    | apply H; left; reflexivity
    | intros b Hb; apply H; right; exact Hb].
Qed.

Lemma own_order_perm {A : Type} (key : A -> jsstring) (l : list A) :
  Permutation (own_order key l) l.
Proof.
  unfold own_order, is_index; induction l as [|a l IH];
    [apply Permutation_refl|].
  cbn [fold_right filter].
  destruct (array_index (key a)) as [n|]; cbn [negb].
  - eapply Permutation_trans;
      [apply Permutation_app_tail, Permutation_map, insert_index_perm|].
    cbn [map snd app]; apply perm_skip, IH.
  - eapply Permutation_trans; [apply Permutation_sym, Permutation_middle|].
    apply perm_skip, IH.
Qed.

Lemma insert_index_map {A B : Type} (f : A -> B) (n : N) (a : A)
    (l : list (N * A)) :
  map (fun q => (fst q, f (snd q))) (insert_index n a l)
  = insert_index n (f a) (map (fun q => (fst q, f (snd q))) l).
Proof.
  induction l as [|[m b] l IH]; cbn [insert_index map fst snd];
    [reflexivity|].
  destruct (n <? m)%N; cbn [map fst snd]; [|rewrite IH]; reflexivity.
Qed.

(** The order of the keys does not depend on what the keys carry. *)
Lemma own_order_map {A B : Type} (f : A -> B) (key : A -> jsstring)
    (key' : B -> jsstring) (l : list A) :
  (forall a, key' (f a) = key a) ->
  own_order key' (map f l) = map f (own_order key l).
Proof.
  intros K; unfold own_order; rewrite map_app; f_equal.
  - transitivity
      (map snd
         (map (fun q : N * A => (fst q, f (snd q)))
            (fold_right
               (fun a acc =>
                  match array_index (key a) with
                  | Some n => insert_index n a acc
                  | None => acc
                  end) [] l))).
    + f_equal; induction l as [|a l IH]; [reflexivity|].
      cbn [map fold_right]; rewrite IH, K.
      destruct (array_index (key a)); [|reflexivity].
      symmetry; apply insert_index_map.
    + rewrite !map_map; reflexivity.
  - induction l as [|a l IH]; [reflexivity|].
    cbn [map filter]; rewrite IH, K.
    destruct (negb (is_index (key a))); reflexivity.
Qed.

Lemma js_keys_order {V : Type} (o : obj V) :
  js_keys o = own_order (fun k => k) (obj_keys o).
Proof.
  unfold js_keys, js_entries, obj_keys; symmetry.
  apply own_order_map; reflexivity.
Qed.

Lemma js_entries_perm {V : Type} (o : obj V) : Permutation (js_entries o) o.
Proof. apply own_order_perm. Qed.

Lemma js_keys_perm {V : Type} (o : obj V) :
  Permutation (js_keys o) (obj_keys o).
Proof. apply Permutation_map, js_entries_perm. Qed.

Lemma js_entries_In {V : Type} (o : obj V) (kv : jsstring * V) :
  In kv (js_entries o) <-> In kv o.
Proof.
  split; apply Permutation_in;
    [apply js_entries_perm | apply Permutation_sym, js_entries_perm].
Qed.

Lemma js_entries_plain {V : Type} (o : obj V) :
  (forall k, In k (obj_keys o) -> array_index k = None) -> js_entries o = o.
Proof.
  intros H; apply own_order_plain; intros a Ha; apply H.
  apply in_map, Ha.
Qed.

(* ================================================================== *)
(** ** The two counts *)

Lemma insert_sorted_perm (x : jsstring) (l : list jsstring) :
  Permutation (insert_sorted x l) (x :: l).
Proof.
  induction l as [|y l IH]; simpl; [apply Permutation_refl|].
  destruct (str_leb x y); [apply Permutation_refl|].
  eapply Permutation_trans; [apply perm_skip, IH | apply perm_swap].
Qed.

Lemma sort_keys_perm (l : list jsstring) : Permutation (sort_keys l) l.
Proof.
  induction l as [|x l IH]; simpl; [constructor|].
  eapply Permutation_trans; [apply insert_sorted_perm | apply perm_skip, IH].
Qed.

Lemma fold_left_add (f : jsstring -> nat) (l : list jsstring) (a : nat) :
  fold_left (fun t k => (t + f k)%nat) l a = (a + list_sum (map f l))%nat.
Proof.
  revert a; induction l as [|x l IH]; intros a; simpl; [lia|].
  rewrite IH; lia.
Qed.

Lemma list_sum_perm (l l' : list nat) :
  Permutation l l' -> list_sum l = list_sum l'.
Proof.
  induction 1; simpl; lia.
Qed.

Lemma totalCount_of_sum (st : obj (list skill)) :
  NoDup (obj_keys st) ->
  totalCount_of st = list_sum (map (fun kv => length (snd kv)) st).
Proof.
  intros ND; unfold totalCount_of; rewrite fold_left_add; simpl.
  rewrite (list_sum_perm _ _
             (Permutation_map _
                (Permutation_trans (sort_keys_perm (js_keys st))
                   (js_keys_perm st)))).
  unfold obj_keys; rewrite map_map; f_equal.
  apply map_ext_in; intros [k l] H; cbn [fst snd].
  unfold get_or_empty; rewrite (obj_get_NoDup_In k l st ND H); reflexivity.
Qed.

Lemma sourceCount_of_length (st : obj (list skill)) :
  sourceCount_of st = length st.
Proof.
  unfold sourceCount_of.
  rewrite (Permutation_length (sort_keys_perm (js_keys st))).
  rewrite (Permutation_length (js_keys_perm st)).
  apply length_map.
Qed.

Lemma stats_of_keys_NoDup (skillsDir : path) (es : list (jsstring * node)) :
  NoDup (map fst es) -> NoDup (obj_keys (stats_of skillsDir es)).
Proof.
  unfold obj_keys, stats_of; rewrite map_map; cbn [fst].
  induction es as [|e es IH]; intros ND; simpl; [constructor|].
  inversion ND as [|? ? Hn ND']; subst.
  destruct (is_counted_source e) eqn:C; [|exact (IH ND')].
  simpl; constructor; [|exact (IH ND')].
  intros H; apply in_map_iff in H as [e' [E H]].
  apply filter_In in H as [H1 H2].
  apply slice1_at_inj in E; try (apply counted_has_at; assumption).
  apply Hn; rewrite <- E; apply in_map, H1.
Qed.

Lemma stats_of_total (skillsDir : path) (es : list (jsstring * node)) :
  list_sum (map (fun kv => length (snd kv)) (stats_of skillsDir es))
  = length (filter has_marker (candidates es)).
Proof.
  unfold stats_of, candidates; rewrite map_map; cbn [snd].
  induction es as [|e es IH]; simpl; [reflexivity|].
  rewrite filter_app, length_app, <- IH.
  destruct (is_counted_source e) eqn:C; simpl.
  - rewrite length_map; reflexivity.
  - destruct (filter has_marker (skill_dirs e)) eqn:X; [reflexivity|].
    assert (C' : is_counted_source e = true).
    { unfold is_counted_source; apply existsb_exists; exists p.
      assert (H : In p (filter has_marker (skill_dirs e)))
        by (rewrite X; left; reflexivity).
      apply filter_In in H; exact H. }
    congruence.
Qed.

Lemma marked_candidate_iff (es : list (jsstring * node))
    (c : jsstring * jsstring * node) :
  In c (filter has_marker (candidates es))
  <-> exists x y sub kids m,
        c = (x, y, Dir kids)
        /\ In (x, Dir sub) es /\ startsWith at_sign x = true
        /\ In (y, Dir kids) sub /\ assoc_node SKILL_md kids = Some m.
Proof.
  rewrite filter_In; split.
  - intros [H M]; destruct c as [[x y] n].
    apply candidates_In in H as [sub [Hx [A [Hy Hd]]]].
    destruct n as [?|kids]; [discriminate|].
    unfold has_marker in M; cbn [snd children] in M.
    destruct (assoc_node SKILL_md kids) as [m|] eqn:G; [|discriminate].
    exists x, y, sub, kids, m; auto.
  - intros [x [y [sub [kids [m [-> [Hx [A [Hy G]]]]]]]]]; split.
    + apply candidates_In; exists sub; auto.
    + unfold has_marker; cbn [snd children]; rewrite G; reflexivity.
Qed.

(** X22. For a skills tree whose markers are regular files and whose counted
    sources are no names of members of [Object.prototype], the statistics
    are built without raising; [totalCount] is the number of candidate
    directories holding [SKILL.md], [sourceCount] the number of first-level
    entries with at least one of them, and a marker is counted exactly when it
    lies in a directory inside a first-level directory whose name starts with
    the at sign: anything deeper, or under another first-level name, is not
    looked at. *)
Theorem counts_follow_two_levels (fs : node) (skillsDir : path)
    (es : list (jsstring * node)) :
  wf_node fs = true ->
  lookup fs skillsDir = Some (Dir es) ->
  forallb marker_is_file (candidates es) = true ->
  forallb plain_source (candidates es) = true ->
  exists st broken,
    collectStats fs skillsDir = Ok (st, broken)
    /\ totalCount_of st = length (filter has_marker (candidates es))
    /\ sourceCount_of st = length (filter is_counted_source es)
    /\ (forall c,
          In c (filter has_marker (candidates es))
          <-> exists x y sub kids m,
                c = (x, y, Dir kids)
                /\ In (x, Dir sub) es /\ startsWith at_sign x = true
                /\ In (y, Dir kids) sub
                /\ assoc_node SKILL_md kids = Some m)
    /\ (forall e,
          In e (filter is_counted_source es)
          <-> In e es
              /\ exists c, In c (skill_dirs e) /\ has_marker c = true).
Proof.
  intros W R M P.
  eexists; eexists; split;
    [exact (collectStats_exact fs skillsDir es W R M P)|].
  assert (ND : NoDup (map fst es)).
  { destruct (root_wf fs skillsDir es W R) as [N _].
    apply andb_true_iff in N as [D _]; apply distinct_NoDup, D. }
  repeat split.
  - rewrite (totalCount_of_sum _ (stats_of_keys_NoDup skillsDir es ND)).
    apply stats_of_total.
  - rewrite sourceCount_of_length; unfold stats_of; apply length_map.
  - apply marked_candidate_iff.
  - apply marked_candidate_iff.
  - apply filter_In in H; apply H.
  - apply filter_In in H as [_ H]; unfold is_counted_source in H.
    apply existsb_exists in H; exact H.
  - intros [H [c Hc]]; apply filter_In; split; [exact H|].
    unfold is_counted_source; apply existsb_exists; exists c; exact Hc.
Qed.

Lemma counts_follow_two_levels_witness :
  exists st broken,
    collectStats sample_fs sample_root = Ok (st, broken)
    /\ totalCount_of st = 2%nat /\ sourceCount_of st = 2%nat.
Proof.
  destruct (counts_follow_two_levels sample_fs sample_root sample_skills
              eq_refl eq_refl eq_refl eq_refl) as [st [broken [E [T [S _]]]]].
  exists st, broken; split; [exact E|].
  split; [rewrite T | rewrite S]; reflexivity.
Defined.

(* ================================================================== *)
(** ** The matcher *)

Lemma mt_Str {A : Type} (ml : bool) (b : option char) (l acc s : jsstring)
    (caps : list jsstring) (k : cont A) :
  mt ml b (Str l) acc s caps k
  = if startsWith l s then k (rev l ++ acc) (skipn (length l) s) caps
    else None.
Proof.
  revert acc s; induction l as [|c l IH]; intros acc s;
    cbn [Str mt startsWith]; [reflexivity|].
  destruct s as [|x s]; [reflexivity|].
  replace (char_eqb c x) with (char_eqb x c) by apply N.eqb_sym.
  destruct (char_eqb x c) eqn:E; cbn [andb]; [|reflexivity].
  apply char_eqb_eq in E; subst x.
  rewrite IH; cbn [rev length skipn]; rewrite <- app_assoc; reflexivity.
Qed.

Lemma mt_ext {A : Type} (ml : bool) (b : option char) (r : re) :
  forall (acc s : jsstring) (caps : list jsstring) (k k' : cont A),
    (forall acc' s' caps', k acc' s' caps' = k' acc' s' caps') ->
    mt ml b r acc s caps k = mt ml b r acc s caps k'.
Proof.
  induction r as [| | |c|p|p|g p|r IH|r1 IH1 r2 IH2];
    intros acc s caps k k' H; simpl.
  - apply H.
  - rewrite H; reflexivity.
  - rewrite H; reflexivity.
  - destruct s as [|x s]; [reflexivity|]; rewrite H; reflexivity.
  - destruct s as [|x s]; [reflexivity|]; rewrite H; reflexivity.
  - destruct s as [|x s]; [apply H|]; rewrite !H; reflexivity.
  - destruct g.
    + revert acc; induction s as [|x s IHs]; intros acc; simpl; [apply H|].
      rewrite IHs, H; reflexivity.
    + revert acc; induction s as [|x s IHs]; intros acc; simpl;
        rewrite H; [reflexivity|].
      rewrite IHs; reflexivity.
  - apply IH; intros; apply H.
  - apply IH1; intros; apply IH2, H.
Qed.

(** Without the [m] flag an attempt anchored by [^] fails after the first
    character. *)
Lemma search_anchored_later (r : re) (c : char) (s : jsstring) :
  search_from false (Some c) (Seq Bol r) s = None.
Proof.
  revert c; induction s as [|x s IH]; intros c; simpl; [reflexivity|].
  apply IH.
Qed.

Lemma js_match_anchored (r : re) (s : jsstring) :
  js_match false (Seq Bol r) s = exec_at false None (Seq Bol r) s.
Proof.
  unfold js_match; destruct s as [|x s]; simpl.
  - destruct (exec_at false None (Seq Bol r) []); reflexivity.
  - destruct (exec_at false None (Seq Bol r) (x :: s)); [reflexivity|].
    apply search_anchored_later.
Qed.

(** A lazy star over every character stops in front of the first place
    where its continuation, which wants the text [p], succeeds. *)
Lemma star_lazy_any_first {A : Type} (p : jsstring) (k : cont A) :
  (forall acc s caps, startsWith p s = false -> k acc s caps = None) ->
  (forall acc s caps, startsWith p s = true -> k acc s caps <> None) ->
  forall (s acc : jsstring) (caps : list jsstring),
    star_lazy is_any acc s caps k
    = if contains p s
      then k (rev (before_first p s) ++ acc)
             (skipn (length (before_first p s)) s) caps
      else None.
Proof.
  intros K0 K1; induction s as [|c s IH]; intros acc caps.
  - cbn [star_lazy contains before_first].
    destruct (startsWith p []) eqn:E; cbn [orb rev app length skipn].
    + destruct (k acc [] caps) eqn:G; [reflexivity|].
      exfalso; exact (K1 acc [] caps E G).
    + rewrite (K0 acc [] caps E); reflexivity.
  - cbn [star_lazy contains before_first is_any].
    destruct (startsWith p (c :: s)) eqn:E; cbn [orb rev app length skipn].
    + destruct (k acc (c :: s) caps) eqn:G; [reflexivity|].
      exfalso; exact (K1 acc (c :: s) caps E G).
    + rewrite (K0 acc (c :: s) caps E), IH.
      cbn [length skipn rev]; rewrite <- app_assoc; reflexivity.
Qed.

Lemma contains_first (p s : jsstring) :
  contains p s = true ->
  startsWith p (skipn (length (before_first p s)) s) = true.
Proof.
  induction s as [|c s IH]; cbn [contains before_first].
  - destruct (startsWith p []) eqn:E; [intros _; exact E | discriminate].
  - destruct (startsWith p (c :: s)) eqn:E; cbn [orb length skipn];
      [intros _; exact E | exact IH].
Qed.

Lemma firstn_rev_app (u acc : jsstring) :
  rev (firstn (length (rev u ++ acc) - length acc) (rev u ++ acc)) = u.
Proof.
  rewrite length_app, Nat.add_sub, firstn_app, Nat.sub_diag, firstn_all.
  cbn [firstn]; rewrite app_nil_r; apply rev_involutive.
Qed.

(** The frontmatter regex finds the block exactly when the text begins with
    one, and captures its body. *)
Lemma frontmatter_match (content : jsstring) :
  js_match false frontmatter_re content
  = if has_frontmatter_block content
    then Some (fm_open ++ frontmatter_of content ++ fm_close,
               [frontmatter_of content])
    else None.
Proof.
  unfold frontmatter_re; rewrite js_match_anchored.
  unfold exec_at, has_frontmatter_block, frontmatter_of.
  cbn [mt at_bol]; fold fm_open; fold fm_close.
  rewrite mt_Str.
  destruct (startsWith fm_open content) eqn:O; [|reflexivity].
  cbn [andb]; change (length fm_open) with 4%nat.
  set (s := skipn 4 content).
  rewrite (star_lazy_any_first fm_close).
  - destruct (contains fm_close s) eqn:C; [|reflexivity].
    rewrite mt_Str, (contains_first fm_close s C); f_equal; f_equal.
    + rewrite !rev_app_distr, !rev_involutive, <- app_assoc; reflexivity.
    + cbn [app length Nat.sub]; f_equal.
      change (rev fm_open ++ []) with (rev fm_open).
      apply firstn_rev_app.
  - intros acc' s' caps' H; rewrite mt_Str, H; reflexivity.
  - intros acc' s' caps' H; rewrite mt_Str, H; discriminate.
Qed.






(** C5, on the code.  A quoted name keeps its quotes, while the quotes of a
    quoted description are stripped: the name regex has no quote class. *)
Theorem quoted_name_keeps_quotes :
  metadata_of_text [lit "skills"; lit "@a"; lit "s1"; SKILL_md]
    (lit "---" ++ [LF] ++ lit "name: " ++ dquote ++ lit "foo" ++ dquote
     ++ [LF] ++ lit "description: " ++ dquote ++ lit "bar" ++ dquote
     ++ [LF] ++ lit "---" ++ [LF])
  = {| m_name := dquote ++ lit "foo" ++ dquote; m_description := lit "bar" |}.
Proof. vm_compute; reflexivity. Qed.

(* ================================================================== *)
(** ** Decimal numerals *)

Lemma digits_value_app (ds : jsstring) (d : char) :
  digits_value (ds ++ [d]) = (10 * digits_value ds + (d - 48))%N.
Proof. unfold digits_value; rewrite fold_left_app; reflexivity. Qed.

Lemma digit_char (n : N) : (n < 10)%N -> is_digit (48 + n)%N = true.
Proof.
  intros H; unfold is_digit; apply andb_true_iff; split; apply N.leb_le; lia.
Qed.

Lemma digits_fuel_spec (f : nat) :
  forall (n : N) (acc : jsstring),
    (0 < f)%nat -> (n < 2 ^ N.of_nat f)%N ->
    exists ds, digits_fuel f n acc = ds ++ acc
               /\ ds <> [] /\ forallb is_digit ds = true
               /\ digits_value ds = n.
Proof.
  induction f as [|f IH]; intros n acc Hf Hn; [lia|].
  cbn [digits_fuel].
  assert (M : (n mod 10 < 10)%N) by (apply N.mod_lt; lia).
  destruct (n <? 10)%N eqn:L.
  - apply N.ltb_lt in L; exists [(48 + n mod 10)%N]; repeat split.
    + discriminate.
    + cbn [forallb]; rewrite (digit_char _ M); reflexivity.
    + unfold digits_value; cbn [fold_left]; rewrite N.mod_small by exact L.
      lia.
  - apply N.ltb_ge in L.
    assert (D : (n / 10 < 2 ^ N.of_nat f)%N).
    { apply N.Div0.div_lt_upper_bound.
      rewrite Nat2N.inj_succ, N.pow_succ_r' in Hn; lia. }
    assert (F : (0 < f)%nat).
    { destruct f; [|lia]. simpl in Hn; lia. }
    destruct (IH (n / 10)%N ((48 + n mod 10)%N :: acc) F D)
      as [ds [E [NE [A V]]]].
    exists (ds ++ [(48 + n mod 10)%N]); repeat split.
    + rewrite E, <- app_assoc; reflexivity.
    + destruct ds; discriminate.
    + rewrite forallb_app, A; cbn [forallb]; rewrite (digit_char _ M).
      reflexivity.
    + rewrite digits_value_app, V.
      replace (48 + n mod 10 - 48)%N with (n mod 10)%N
        by (clear; generalize (n mod 10)%N; intros; lia).
      symmetry; apply N.div_mod; discriminate.
Qed.

Lemma to_string_spec (n : N) :
  to_string n <> [] /\ forallb is_digit (to_string n) = true
  /\ digits_value (to_string n) = n.
Proof.
  unfold to_string.
  destruct (digits_fuel_spec (S (N.to_nat (N.log2 n))) n []) as [ds [E H]].
  - lia.
  - rewrite Nat2N.inj_succ, N2Nat.id.
    destruct n as [|p]; [reflexivity|].
    apply N.log2_spec; lia.
  - rewrite E, app_nil_r; exact H.
Qed.

Lemma takeWhile_all (p : char -> bool) (s : jsstring) :
  forallb p s = true -> takeWhile p s = s.
Proof.
  induction s as [|c s IH]; simpl; [reflexivity|].
  intros H; apply andb_true_iff in H as [H1 H2].
  rewrite H1, (IH H2); reflexivity.
Qed.

(** [parseInt(String(n))] is [n], so a rewritten count does not differ. *)
Lemma to_string_same (n : N) : differs (to_string n) n = false.
Proof.
  destruct (to_string_spec n) as [NE [A V]].
  unfold differs, parseInt; rewrite (takeWhile_all _ _ A).
  destruct (to_string n) eqn:E; [contradiction|].
  rewrite V, N.eqb_refl; reflexivity.
Qed.

(** A text that does not begin with a digit is no array index. *)
Lemma array_index_digit (k : jsstring) (n : N) :
  array_index k = Some n ->
  exists d ds, k = d :: ds /\ is_digit d = true.
Proof.
  unfold array_index; intros H.
  destruct (str_eqb (to_string (digits_value k)) k && _) eqn:E;
    [|discriminate].
  apply andb_true_iff in E as [E _]; apply str_eqb_eq in E.
  destruct (to_string_spec (digits_value k)) as (NE & D & _).
  rewrite E in NE, D; destruct k as [|d ds]; [contradiction|].
  cbn [forallb] in D; apply andb_true_iff in D as [D _].
  exists d, ds; split; [reflexivity | exact D].
Qed.

Lemma array_index_none (c : char) (r : jsstring) :
  is_digit c = false -> array_index (c :: r) = None.
Proof.
  intros H; destruct (array_index (c :: r)) as [n|] eqn:E; [|reflexivity].
  apply array_index_digit in E as (d & ds & [= <- _] & D); congruence.
Qed.

(* ================================================================== *)
(** ** What a successful attempt consumed *)

Lemma star_greedy_sound {A : Type} (p : char -> bool) (k : cont A) (res : A) :
  forall (s acc : jsstring) (caps : list jsstring),
    star_greedy p acc s caps k = Some res ->
    exists u s', s = u ++ s' /\ forallb p u = true
                 /\ k (rev u ++ acc) s' caps = Some res.
Proof.
  induction s as [|c s IH]; intros acc caps H; cbn [star_greedy] in H.
  - exists [], []; auto.
  - destruct (p c) eqn:P; [|exists [], (c :: s); auto].
    destruct (star_greedy p (c :: acc) s caps k) as [r|] eqn:G.
    + injection H as ->.
      destruct (IH _ _ G) as [u [s' [-> [F K]]]].
      exists (c :: u), s'; cbn [forallb rev]; rewrite P, <- app_assoc; auto.
    + exists [], (c :: s); auto.
Qed.

Lemma star_lazy_sound {A : Type} (p : char -> bool) (k : cont A) (res : A) :
  forall (s acc : jsstring) (caps : list jsstring),
    star_lazy p acc s caps k = Some res ->
    exists u s', s = u ++ s' /\ forallb p u = true
                 /\ k (rev u ++ acc) s' caps = Some res.
Proof.
  induction s as [|c s IH]; intros acc caps H; cbn [star_lazy] in H;
    destruct (k acc _ caps) as [r|] eqn:K;
    try (injection H as ->; eexists [], _; repeat split; exact K);
    try discriminate.
  destruct (p c) eqn:P; [|discriminate].
  destruct (IH _ _ H) as [u [s' [-> [F K']]]].
  exists (c :: u), s'; cbn [forallb rev]; rewrite P, <- app_assoc; auto.
Qed.

(** A successful attempt consumed a text that [r] generates, and handed the
    rest to its continuation. *)
Lemma mt_sound {A : Type} (ml : bool) (b : option char) (r : re) :
  forall (acc s : jsstring) (caps : list jsstring) (k : cont A) (res : A),
    mt ml b r acc s caps k = Some res ->
    exists u cs s',
      s = u ++ s' /\ parses r u cs
      /\ k (rev u ++ acc) s' (caps ++ cs) = Some res.
Proof.
  induction r as [| | |c|p|p|g p|r IH|r1 IH1 r2 IH2];
    intros acc s caps k res H; cbn [mt] in H.
  - exists [], [], s; rewrite app_nil_r; cbn; auto.
  - destruct (at_bol ml b acc); [|discriminate].
    exists [], [], s; rewrite app_nil_r; cbn; auto.
  - destruct (at_eol ml s); [|discriminate].
    exists [], [], s; rewrite app_nil_r; cbn; auto.
  - destruct s as [|x s]; [discriminate|].
    destruct (char_eqb x c) eqn:E; [|discriminate].
    apply char_eqb_eq in E; subst x.
    exists [c], [], s; rewrite app_nil_r; cbn; auto.
  - destruct s as [|x s]; [discriminate|].
    destruct (p x) eqn:E; [|discriminate].
    exists [x], [], s; rewrite app_nil_r; cbn; repeat split; eauto.
  - assert (Z : forall t, k acc t caps = Some res ->
                 exists u cs s', t = u ++ s' /\ parses (Opt p) u cs
                   /\ k (rev u ++ acc) s' (caps ++ cs) = Some res).
    { intros t Ht; exists [], [], t; rewrite app_nil_r; cbn.
      repeat split; [left; reflexivity | exact Ht]. }
    destruct s as [|x s]; [exact (Z _ H)|].
    destruct (p x) eqn:E; [|exact (Z _ H)].
    destruct (k (x :: acc) s caps) as [r|] eqn:K; [|exact (Z _ H)].
    injection H as ->.
    exists [x], [], s; rewrite app_nil_r; cbn.
    repeat split; [right; exists x; auto | exact K].
  - destruct g.
    + destruct (star_greedy_sound p k res _ _ _ H) as [u [s' [-> [F K]]]].
      exists u, [], s'; rewrite app_nil_r; cbn; auto.
    + destruct (star_lazy_sound p k res _ _ _ H) as [u [s' [-> [F K]]]].
      exists u, [], s'; rewrite app_nil_r; cbn; auto.
  - destruct (IH _ _ _ _ _ H) as [u [cs [s' [-> [P K]]]]].
    rewrite firstn_rev_app in K.
    exists u, (cs ++ [u]), s'; rewrite app_assoc; cbn; repeat split; eauto.
  - destruct (IH1 _ _ _ _ _ H) as [u1 [c1 [s1 [-> [P1 K1]]]]].
    destruct (IH2 _ _ _ _ _ K1) as [u2 [c2 [s2 [-> [P2 K2]]]]].
    exists (u1 ++ u2), (c1 ++ c2), s2.
    split; [rewrite app_assoc; reflexivity|].
    split; [cbn; exists u1, u2, c1, c2; auto|].
    rewrite rev_app_distr, <- app_assoc, (app_assoc caps); exact K2.
Qed.

Lemma parses_accepts (r : re) :
  forall (u : jsstring) (cs : list jsstring),
    parses r u cs -> forallb (accepts r) u = true.
Proof.
  induction r as [| | |c|p|p|g p|r IH|r1 IH1 r2 IH2]; intros u cs H;
    cbn [parses accepts] in *.
  - destruct H as [-> _]; reflexivity.
  - destruct H as [-> _]; reflexivity.
  - destruct H as [-> _]; reflexivity.
  - destruct H as [-> _]; cbn [forallb]; unfold char_eqb.
    rewrite N.eqb_refl; reflexivity.
  - destruct H as [[x [-> P]] _]; cbn; rewrite P; reflexivity.
  - destruct H as [[->|[x [-> P]]] _]; cbn; [|rewrite P]; reflexivity.
  - destruct H as [H _]; exact H.
  - destruct H as [cs1 [H _]]; exact (IH _ _ H).
  - destruct H as [u1 [u2 [c1 [c2 [-> [_ [H1 H2]]]]]]].
    rewrite forallb_app; apply andb_true_iff; split.
    + apply forallb_forall; intros x Hx.
      pose proof (IH1 _ _ H1) as F; rewrite forallb_forall in F.
      rewrite (F x Hx); reflexivity.
    + apply forallb_forall; intros x Hx.
      pose proof (IH2 _ _ H2) as F; rewrite forallb_forall in F.
      rewrite (F x Hx); apply orb_true_r.
Qed.

(** The matched text is a prefix of the input and made of accepted
    characters. *)
Lemma exec_at_prefix (ml : bool) (b : option char) (r : re) (s m : jsstring)
    (caps : list jsstring) :
  exec_at ml b r s = Some (m, caps) ->
  parses r m caps /\ exists rest, s = m ++ rest.
Proof.
  unfold exec_at; intros H.
  destruct (mt_sound ml b r _ _ _ _ _ H) as [u [cs [s' [-> [P K]]]]].
  injection K as <- <-.
  rewrite app_nil_r, rev_involutive; split; [exact P | exists s'; reflexivity].
Qed.

(* ================================================================== *)
(** ** Attempts of a regex without anchors *)

Lemma mt_before {A : Type} (ml : bool) (b b' : option char) (r : re) :
  anchor_free r = true ->
  forall (acc s : jsstring) (caps : list jsstring) (k : cont A),
    mt ml b r acc s caps k = mt ml b' r acc s caps k.
Proof.
  induction r as [| | |c|p|p|g p|r IH|r1 IH1 r2 IH2]; intros F acc s caps k;
    cbn [mt anchor_free] in *; try reflexivity; try discriminate.
  - apply IH, F.
  - apply andb_true_iff in F as [F1 F2].
    rewrite (IH1 F1); apply mt_ext; intros; apply IH2, F2.
Qed.

Lemma exec_at_before (b : option char) (r : re) (s : jsstring) :
  anchor_free r = true -> exec_at false b r s = exec_at false None r s.
Proof. intros F; apply mt_before, F. Qed.

(** A character [c] that no atom of [r] consumes stops every attempt: the
    text behind it does not matter. *)
Lemma mt_stopper {A : Type} (ml : bool) (bf : option char) (c : char)
    (b b' : jsstring) (r : re) :
  anchor_free r = true -> accepts r c = false ->
  forall (k k' : cont A),
    (forall acc a caps, k acc (a ++ c :: b) caps = k' acc (a ++ c :: b') caps) ->
    forall acc a caps,
      mt ml bf r acc (a ++ c :: b) caps k
      = mt ml bf r acc (a ++ c :: b') caps k'.
Proof.
  induction r as [| | |x|p|p|g p|r IH|r1 IH1 r2 IH2];
    intros F N k k' H acc a caps; cbn [mt anchor_free accepts] in *;
    try discriminate.
  - apply H.
  - destruct a as [|y a]; cbn [app].
    + rewrite N.eqb_sym in N; unfold char_eqb; rewrite N; reflexivity.
    + destruct (char_eqb y x); [apply H | reflexivity].
  - destruct a as [|y a]; cbn [app].
    + rewrite N; reflexivity.
    + destruct (p y); [apply H | reflexivity].
  - destruct a as [|y a]; cbn [app].
    + rewrite N; apply (H acc []).
    + rewrite (H (y :: acc) a), (H acc (y :: a)); reflexivity.
  - destruct g.
    + revert acc; induction a as [|y a IHa]; intros acc;
        cbn [app star_greedy].
      * rewrite N; apply (H acc []).
      * rewrite IHa, (H acc (y :: a)); reflexivity.
    + revert acc; induction a as [|y a IHa]; intros acc;
        cbn [app star_lazy].
      * rewrite N, (H acc []); reflexivity.
      * rewrite IHa, (H acc (y :: a)); reflexivity.
  - apply IH; [exact F | exact N|]; intros; apply H.
  - apply andb_true_iff in F as [F1 F2].
    apply orb_false_iff in N as [N1 N2].
    apply IH1; [exact F1 | exact N1|].
    intros; apply IH2; [exact F2 | exact N2 | exact H].
Qed.

Lemma exec_at_stopper (c : char) (a b b' : jsstring) (r : re) :
  anchor_free r = true -> accepts r c = false ->
  exec_at false None r (a ++ c :: b) = exec_at false None r (a ++ c :: b').
Proof.
  intros F N; unfold exec_at.
  apply (mt_stopper false None c b b' r F N); reflexivity.
Qed.

(** A greedy star takes all it can when its continuation then succeeds. *)
Lemma star_greedy_munch {A : Type} (p : char -> bool) (k : cont A) (res : A)
    (nxt : jsstring) (caps : list jsstring) :
  not_next p nxt ->
  forall (u acc : jsstring),
    forallb p u = true ->
    k (rev u ++ acc) nxt caps = Some res ->
    star_greedy p acc (u ++ nxt) caps k = Some res.
Proof.
  intros N; induction u as [|c u IH]; intros acc F K; cbn [app rev] in *.
  - destruct nxt as [|x nxt]; cbn [star_greedy]; [exact K|].
    cbn [not_next] in N; rewrite N; exact K.
  - cbn [forallb] in F; apply andb_true_iff in F as [F1 F2].
    cbn [star_greedy]; rewrite F1, (IH (c :: acc) F2); [reflexivity|].
    rewrite <- app_assoc in K; exact K.
Qed.

(** The matcher returns the greedy parse when the continuation accepts it. *)
Lemma mt_greedy {A : Type} (ml : bool) (b : option char) (r : re) :
  forall (u : jsstring) (cs : list jsstring) (nxt : jsstring),
    greedy_parse r u cs nxt ->
    forall (acc : jsstring) (caps : list jsstring) (k : cont A) (res : A),
      k (rev u ++ acc) nxt (caps ++ cs) = Some res ->
      mt ml b r acc (u ++ nxt) caps k = Some res.
Proof.
  induction r as [| | |c|p|p|g p|r IH|r1 IH1 r2 IH2];
    intros u cs nxt G acc caps k res K; cbn [greedy_parse mt] in *;
    try contradiction.
  - destruct G as [-> ->]; rewrite app_nil_r in K; exact K.
  - destruct G as [-> ->]; rewrite app_nil_r in K; cbn [app].
    unfold char_eqb; rewrite N.eqb_refl; exact K.
  - destruct G as [[x [-> P]] ->]; rewrite app_nil_r in K; cbn [app].
    rewrite P; exact K.
  - destruct G as [-> [F [N ->]]]; rewrite app_nil_r in K.
    apply star_greedy_munch; assumption.
  - destruct G as [cs1 [G ->]].
    apply (IH u cs1 nxt G); rewrite firstn_rev_app, <- app_assoc; exact K.
  - destruct G as [u1 [u2 [c1 [c2 [-> [-> [G1 G2]]]]]]].
    rewrite <- app_assoc; apply (IH1 u1 c1 (u2 ++ nxt) G1).
    apply (IH2 u2 c2 nxt G2).
    rewrite rev_app_distr, <- app_assoc, (app_assoc caps) in K; exact K.
Qed.

Lemma exec_at_greedy (r : re) (u : jsstring) (cs : list jsstring)
    (nxt : jsstring) :
  greedy_parse r u cs nxt ->
  exec_at false None r (u ++ nxt) = Some (u, cs).
Proof.
  intros G; unfold exec_at; apply (mt_greedy false None r u cs nxt G).
  rewrite app_nil_r, rev_involutive; reflexivity.
Qed.

(* ================================================================== *)
(** ** Global replacement *)

Section Replace.
Variable r : re.
Variable f : jsstring -> list jsstring -> jsstring * bool.
Hypothesis r_free : anchor_free r = true.

Lemma scan_before (s : jsstring) :
  forall (n : nat) (b b' : option char),
    scan false r n b s = scan false r n b' s.
Proof.
  induction s as [|c s IH]; intros [|n] b b'; cbn [scan]; try reflexivity;
    rewrite (exec_at_before b r _ r_free), (exec_at_before b' r _ r_free);
    reflexivity.
Qed.

Lemma scan_skip (n : nat) :
  forall (s : jsstring) (b : option char),
    (n <= length s)%nat ->
    scan false r n b s = scan false r 0 b (skipn n s).
Proof.
  induction n as [|n IH]; intros s b H; [reflexivity|].
  destruct s as [|c s]; cbn [length] in H; [lia|].
  cbn [scan skipn]; rewrite IH by lia; apply scan_before.
Qed.

Lemma replace_nil :
  exec_at false None r [] = None -> replace_g r f [] = ([], false).
Proof. intros H; unfold replace_g; cbn [scan]; rewrite H; reflexivity. Qed.

Lemma replace_keep (c : char) (s : jsstring) :
  exec_at false None r (c :: s) = None ->
  replace_g r f (c :: s)
  = (c :: fst (replace_g r f s), snd (replace_g r f s)).
Proof.
  intros H; unfold replace_g; cbn [scan]; rewrite H.
  rewrite (scan_before s 0 (Some c) None); reflexivity.
Qed.

Lemma replace_hit (s m : jsstring) (caps : list jsstring) :
  exec_at false None r s = Some (m, caps) -> m <> [] ->
  replace_g r f s
  = (fst (f m caps) ++ fst (replace_g r f (skipn (length m) s)),
     snd (f m caps) || snd (replace_g r f (skipn (length m) s))).
Proof.
  intros H NE.
  destruct (exec_at_prefix false None r s m caps H) as [_ [rest E]].
  destruct m as [|x m]; [contradiction|]; subst s.
  unfold replace_g; cbn [app scan]; cbn [app] in H; rewrite H.
  rewrite scan_skip by (rewrite length_app; lia).
  rewrite (scan_before _ 0 (Some x) None).
  cbn [length skipn flat_map existsb seg_text seg_flag]; reflexivity.
Qed.

(** The segments of a scan spell the text scanned. *)
Lemma scan_spells (s : jsstring) :
  forall (n : nat) (b : option char),
    (n <= length s)%nat ->
    flat_map seg_source (scan false r n b s) = skipn n s.
Proof.
  induction s as [|c s IH]; intros n b Hn.
  - cbn [length] in Hn; assert (n = 0%nat) by lia; subst n; cbn [scan skipn].
    destruct (exec_at false b r []) as [[m caps]|] eqn:E; [|reflexivity].
    destruct (exec_at_prefix false b r [] m caps E) as [_ [rest X]].
    destruct m; [reflexivity | discriminate].
  - destruct n as [|n]; cbn [scan skipn].
    2:{ apply IH; cbn [length] in Hn; lia. }
    destruct (exec_at false b r (c :: s)) as [[m caps]|] eqn:E.
    + destruct (exec_at_prefix false b r (c :: s) m caps E) as [_ [rest X]].
      destruct m as [|x m]; cbn [flat_map seg_source app].
      * rewrite (IH 0%nat) by lia; reflexivity.
      * injection X as -> ->.
        rewrite IH by (rewrite length_app; lia).
        rewrite skipn_app, Nat.sub_diag, skipn_all; reflexivity.
    + cbn [flat_map seg_source app]; rewrite (IH 0%nat) by lia; reflexivity.
Qed.

End Replace.

(* ================================================================== *)
(** ** One count pattern *)

Section Single.
Variable r : re.
Variable f : jsstring -> list jsstring -> jsstring * bool.
Variable a : char.
Hypothesis W : well_behaved r f a.

Lemma wb_nonempty (s m : jsstring) (caps : list jsstring) :
  exec_at false None r s = Some (m, caps) -> m <> [].
Proof.
  destruct W as (_ & Hnil & _ & Hloc & _).
  intros H ->; specialize (Hloc s [] caps [] H); cbn [app] in Hloc.
  congruence.
Qed.

Lemma wb_head (s m : jsstring) (caps : list jsstring) :
  exec_at false None r s = Some (m, caps) -> exists m', m = a :: m'.
Proof.
  intros H; pose proof (wb_nonempty s m caps H) as NE.
  destruct W as (_ & _ & Hfirst & _).
  destruct (exec_at_prefix false None r s m caps H) as [_ [rest E]].
  destruct m as [|x m]; [contradiction|].
  destruct (N.eq_dec x a) as [->|D]; [exists m; reflexivity|].
  subst s; cbn [app] in H; rewrite (Hfirst x _ D) in H; discriminate.
Qed.

Lemma wb_out_head (s m : jsstring) (caps : list jsstring) :
  exec_at false None r s = Some (m, caps) ->
  exists o, fst (f m caps) = a :: o.
Proof.
  intros H; destruct (snd (f m caps)) eqn:Fl.
  - destruct W as (_ & _ & _ & _ & _ & Hnew).
    destruct (Hnew m caps [] Fl) as [caps' [E _]].
    destruct (wb_head _ _ _ E) as [o O]; exists o; exact O.
  - destruct W as (_ & _ & _ & _ & Hsame & _).
    rewrite (Hsame m caps Fl); exact (wb_head s m caps H).
Qed.

Lemma wb_free : anchor_free r = true.
Proof. destruct W as (F & _); exact F. Qed.

Lemma stable_nil : stable r f [].
Proof.
  destruct W as (F & Hnil & _); unfold stable.
  rewrite (replace_nil r f Hnil); reflexivity.
Qed.

Lemma stable_keep (c : char) (s : jsstring) :
  exec_at false None r (c :: s) = None ->
  (stable r f (c :: s) <-> stable r f s).
Proof.
  intros H; unfold stable; rewrite (replace_keep r f wb_free c s H).
  reflexivity.
Qed.

Lemma stable_hit (s m : jsstring) (caps : list jsstring) :
  exec_at false None r s = Some (m, caps) ->
  (stable r f s
   <-> snd (f m caps) = false /\ stable r f (skipn (length m) s)).
Proof.
  intros H; unfold stable.
  rewrite (replace_hit r f wb_free s m caps H (wb_nonempty s m caps H)).
  cbn [snd]; apply orb_false_iff.
Qed.

(** What the rewrite leaves in front of the first character [a]. *)
Lemma rewrite_prefix (s : jsstring) :
  fst (replace_g r f s) = s
  \/ exists u b b',
       s = u ++ a :: b /\ fst (replace_g r f s) = u ++ a :: b'.
Proof.
  induction s as [|c s IH].
  - left; destruct W as (F & Hnil & _).
    rewrite (replace_nil r f Hnil); reflexivity.
  - destruct (exec_at false None r (c :: s)) as [[m caps]|] eqn:E.
    + right.
      rewrite (replace_hit r f wb_free _ m caps E (wb_nonempty _ m caps E)).
      destruct (wb_head _ _ _ E) as [m' ->].
      destruct (wb_out_head _ _ _ E) as [o ->].
      destruct (exec_at_prefix false None r _ _ caps E) as [_ [rest X]].
      exists [], (m' ++ rest); eexists; split; [exact X | reflexivity].
    + rewrite (replace_keep r f wb_free c s E); cbn [fst].
      destruct IH as [->|[u [b [b' [-> ->]]]]]; [left; reflexivity|].
      right; exists (c :: u), b, b'; split; reflexivity.
Qed.

Lemma skipn_length_app (u t : jsstring) : skipn (length u) (u ++ t) = t.
Proof.
  rewrite skipn_app, Nat.sub_diag, skipn_all; reflexivity.
Qed.

(** The rewrite of a text is stable. *)
Lemma rewrite_stable :
  self_stable r f -> forall z, stable r f (fst (replace_g r f z)).
Proof.
  intros Hself z.
  assert (G : forall n z, (length z <= n)%nat ->
                stable r f (fst (replace_g r f z))).
  { clear z; induction n as [|n IH]; intros z Hz.
    - destruct z; [|cbn [length] in Hz; lia].
      destruct W as (F & Hnil & _).
      rewrite (replace_nil r f Hnil); exact stable_nil.
    - destruct z as [|c s].
      { destruct W as (F & Hnil & _).
        rewrite (replace_nil r f Hnil); exact stable_nil. }
      cbn [length] in Hz.
      destruct (exec_at false None r (c :: s)) as [[m caps]|] eqn:E.
      + rewrite (replace_hit r f wb_free _ m caps E (wb_nonempty _ m caps E)).
        cbn [fst].
        set (rest := skipn (length m) (c :: s)).
        assert (L : (length rest <= n)%nat).
        { subst rest; rewrite length_skipn.
          pose proof (wb_nonempty _ _ _ E); destruct m; [contradiction|].
          cbn [length]; lia. }
        set (X := fst (replace_g r f rest)).
        destruct W as (_ & _ & _ & Hloc & Hsame & Hnew).
        destruct (snd (f m caps)) eqn:Fl.
        * destruct (Hnew m caps X Fl) as [caps' [E' Fl']].
          apply (stable_hit _ _ _ E'); split; [exact Fl'|].
          rewrite skipn_length_app; exact (IH rest L).
        * rewrite (Hsame m caps Fl).
          pose proof (Hloc _ m caps X E) as E'.
          apply (stable_hit _ _ _ E'); split; [exact Fl|].
          rewrite skipn_length_app; exact (IH rest L).
      + rewrite (replace_keep r f wb_free c s E); cbn [fst].
        apply stable_keep; [apply Hself, E | apply IH; lia]. }
  exact (G (length z) z (le_n _)).
Qed.

(** A stable text is left as it is. *)
Lemma stable_unchanged :
  forall z, stable r f z -> fst (replace_g r f z) = z.
Proof.
  assert (G : forall n z, (length z <= n)%nat -> stable r f z ->
                fst (replace_g r f z) = z).
  { induction n as [|n IH]; intros z Hz St.
    - destruct z; [|cbn [length] in Hz; lia].
      destruct W as (F & Hnil & _); rewrite (replace_nil r f Hnil).
      reflexivity.
    - destruct z as [|c s].
      { destruct W as (F & Hnil & _); rewrite (replace_nil r f Hnil).
        reflexivity. }
      cbn [length] in Hz.
      destruct (exec_at false None r (c :: s)) as [[m caps]|] eqn:E.
      + pose proof (proj1 (stable_hit _ _ _ E) St) as [Fl St'].
        rewrite (replace_hit r f wb_free _ m caps E (wb_nonempty _ m caps E)).
        cbn [fst].
        destruct W as (_ & _ & _ & _ & Hsame & _).
        rewrite (Hsame m caps Fl), IH; [| |exact St'].
        * destruct (exec_at_prefix false None r _ _ caps E) as [_ [rest X]].
          rewrite X, skipn_length_app; reflexivity.
        * rewrite length_skipn.
          pose proof (wb_nonempty _ _ _ E); destruct m; [contradiction|].
          cbn [length]; lia.
      + pose proof (proj1 (stable_keep c s E) St) as St'.
        rewrite (replace_keep r f wb_free c s E); cbn [fst].
        rewrite IH; [reflexivity | lia | exact St']. }
  intros z; exact (G (length z) z (le_n _)).
Qed.

(** The text in front of a character that is not [a] is copied. *)
Lemma replace_skip (u t : jsstring) :
  forallb (fun x => negb (char_eqb x a)) u = true ->
  replace_g r f (u ++ t)
  = (u ++ fst (replace_g r f t), snd (replace_g r f t)).
Proof.
  destruct W as (_ & _ & Hfirst & _).
  induction u as [|x u IH]; intros H; cbn [app forallb] in *.
  - destruct (replace_g r f t); reflexivity.
  - apply andb_true_iff in H as [H1 H2].
    apply negb_true_iff in H1.
    assert (D : x <> a) by (intros ->; unfold char_eqb in H1;
                            rewrite N.eqb_refl in H1; discriminate).
    rewrite (replace_keep r f wb_free x _ (Hfirst x _ D)), (IH H2).
    reflexivity.
Qed.

End Single.

(* ================================================================== *)
(** ** Two count patterns *)

Lemma match_avoids (r : re) (s m : jsstring) (caps : list jsstring) (a : char) :
  exec_at false None r s = Some (m, caps) -> accepts r a = false ->
  forallb (fun x => negb (char_eqb x a)) m = true.
Proof.
  intros H N; destruct (exec_at_prefix false None r s m caps H) as [P _].
  pose proof (parses_accepts r m caps P) as F.
  rewrite forallb_forall in *; intros x Hx; specialize (F x Hx).
  apply negb_true_iff; destruct (char_eqb x a) eqn:E; [|reflexivity].
  apply char_eqb_eq in E; subst x; congruence.
Qed.

Section Pair.
Variables ri rj : re.
Variables fi fj : jsstring -> list jsstring -> jsstring * bool.
Variables ai aj : char.
Hypothesis Wi : well_behaved ri fi ai.
Hypothesis Wj : well_behaved rj fj aj.
Hypothesis Xij : accepts ri aj = false.
Hypothesis Xji : accepts rj ai = false.

(** An attempt of the first pattern does not see what the second rewrote. *)
Lemma rewrite_unseen (c : char) (s : jsstring) :
  exec_at false None ri (c :: fst (replace_g rj fj s))
  = exec_at false None ri (c :: s).
Proof.
  destruct (rewrite_prefix rj fj aj Wj s) as [->|[u [b [b' [-> ->]]]]];
    [reflexivity|].
  apply (exec_at_stopper aj (c :: u) b' b ri (wb_free ri fi ai Wi) Xij).
Qed.

Lemma out_avoids (s m : jsstring) (caps : list jsstring) :
  exec_at false None rj s = Some (m, caps) ->
  forallb (fun x => negb (char_eqb x ai)) (fst (fj m caps)) = true.
Proof.
  intros H; destruct (snd (fj m caps)) eqn:Fl.
  - destruct Wj as (_ & _ & _ & _ & _ & Hnew).
    destruct (Hnew m caps [] Fl) as [caps' [E _]].
    exact (match_avoids rj _ _ caps' ai E Xji).
  - destruct Wj as (_ & _ & _ & _ & Hsame & _).
    rewrite (Hsame m caps Fl); exact (match_avoids rj s m caps ai H Xji).
Qed.

Lemma stable_skip (u t : jsstring) :
  forallb (fun x => negb (char_eqb x ai)) u = true ->
  (stable ri fi (u ++ t) <-> stable ri fi t).
Proof.
  intros H; unfold stable; rewrite (replace_skip ri fi ai Wi u t H).
  reflexivity.
Qed.

(** The second rewrite keeps a text stable for the first. *)
Lemma rewrite_keeps_stable :
  forall z, stable ri fi z -> stable ri fi (fst (replace_g rj fj z)).
Proof.
  assert (G : forall n z, (length z <= n)%nat -> stable ri fi z ->
                stable ri fi (fst (replace_g rj fj z))).
  { induction n as [|n IH]; intros z Hz St.
    - destruct z; [|cbn [length] in Hz; lia].
      destruct Wj as (F & Hnil & _); rewrite (replace_nil rj fj Hnil).
      exact St.
    - destruct z as [|c s].
      { destruct Wj as (F & Hnil & _); rewrite (replace_nil rj fj Hnil).
        exact St. }
      cbn [length] in Hz.
      destruct (exec_at false None rj (c :: s)) as [[mj cj]|] eqn:Ej.
      + pose proof (wb_nonempty rj fj aj Wj _ _ _ Ej) as NE.
        rewrite (replace_hit rj fj (wb_free rj fj aj Wj) _ mj cj Ej NE).
        cbn [fst].
        destruct (exec_at_prefix false None rj _ _ cj Ej) as [_ [rest X]].
        rewrite X, skipn_length_app.
        rewrite X in St.
        apply (stable_skip mj rest (match_avoids rj _ _ cj ai Ej Xji)) in St.
        apply (stable_skip _ _ (out_avoids _ _ _ Ej)).
        apply IH; [|exact St].
        assert (L : length (c :: s) = length (mj ++ rest)) by (rewrite X; reflexivity).
        rewrite length_app in L; cbn [length] in L.
        destruct mj; [contradiction | cbn [length] in L; lia].
      + destruct (exec_at false None ri (c :: s)) as [[mi ci]|] eqn:Ei.
        * pose proof (proj1 (stable_hit ri fi ai Wi _ _ _ Ei) St) as [Fl St'].
          destruct (exec_at_prefix false None ri _ _ ci Ei) as [_ [rest X]].
          rewrite X in St'; rewrite skipn_length_app in St'.
          rewrite X.
          rewrite (replace_skip rj fj aj Wj mi rest
                     (match_avoids ri _ _ ci aj Ei Xij)); cbn [fst].
          destruct Wi as (_ & _ & _ & Hloc & _).
          pose proof (Hloc _ mi ci (fst (replace_g rj fj rest)) Ei) as E'.
          apply (stable_hit ri fi ai Wi _ _ _ E'); split; [exact Fl|].
          rewrite skipn_length_app; apply IH; [|exact St'].
          assert (L : length (c :: s) = length (mi ++ rest))
            by (rewrite X; reflexivity).
          rewrite length_app in L; cbn [length] in L.
          pose proof (wb_nonempty ri fi ai Wi _ _ _ Ei).
          destruct mi; [contradiction | cbn [length] in L; lia].
        * pose proof (proj1 (stable_keep ri fi ai Wi c s Ei) St) as St'.
          rewrite (replace_keep rj fj (wb_free rj fj aj Wj) c s Ej).
          cbn [fst]; apply (stable_keep ri fi ai Wi).
          -- rewrite rewrite_unseen; exact Ei.
          -- apply IH; [lia | exact St']. }
  intros z; exact (G (length z) z (le_n _)).
Qed.

End Pair.

(* ================================================================== *)
(** ** The shape of a count phrase *)

Lemma digit_not_space (c : char) : is_digit c = true -> is_space c = false.
Proof.
  unfold is_digit, is_space; intros H.
  apply andb_true_iff in H as [H1 H2].
  apply N.leb_le in H1, H2.
  repeat match goal with
         | |- _ || _ = false => apply orb_false_iff; split
         | |- _ && _ = false => apply andb_false_iff
         | |- (_ =? _)%N = false => apply N.eqb_neq; lia
         end.
  - right; apply N.leb_gt; lia.
  - left; apply N.leb_gt; lia.
Qed.

Lemma space_not_digit (c : char) : is_space c = true -> is_digit c = false.
Proof.
  intros H; destruct (is_digit c) eqn:D; [|reflexivity].
  rewrite (digit_not_space c D) in H; discriminate.
Qed.

(** A text of the class [q] followed by [x] does not begin with a character
    of the class [p] when [q] and [p] are disjoint and [x] is not in [p]. *)
Lemma not_next_after (p q : char -> bool) (w : jsstring) (x : char)
    (rest : jsstring) :
  forallb q w = true -> (forall c, q c = true -> p c = false) ->
  p x = false -> not_next p (w ++ x :: rest).
Proof.
  intros F D N; destruct w as [|c w]; cbn [app not_next]; [exact N|].
  cbn [forallb] in F; apply andb_true_iff in F as [F _]; exact (D c F).
Qed.

Lemma parses_Str (l u : jsstring) (cs : list jsstring) :
  parses (Str l) u cs -> u = l /\ cs = [].
Proof.
  revert u cs; induction l as [|c l IH]; intros u cs H; cbn [Str parses] in H.
  - exact H.
  - destruct H as [u1 [u2 [c1 [c2 [-> [-> [[-> ->] H]]]]]]].
    destruct (IH _ _ H) as [-> ->]; split; reflexivity.
Qed.

Lemma greedy_Str (l nxt : jsstring) : greedy_parse (Str l) l [] nxt.
Proof.
  induction l as [|c l IH]; cbn [Str greedy_parse]; [split; reflexivity|].
  exists [c], l, [], []; repeat split; exact IH.
Qed.

(** The text and capture of [count_of_skills]. *)
Lemma count_shape (u : jsstring) (cs : list jsstring) :
  parses count_of_skills u cs ->
  exists d ds w2 w3,
    is_digit d = true /\ forallb is_digit ds = true
    /\ forallb is_space w2 = true /\ forallb is_space w3 = true
    /\ u = (d :: ds) ++ w2 ++ cp_ge :: w3 ++ skills_word
    /\ cs = [d :: ds].
Proof.
  unfold count_of_skills, Plus; cbn [parses]; intros H.
  destruct H as (u1 & u2 & c1 & c2 & -> & -> & H1 & H2).
  destruct H1 as (cs1 & (v1 & v2 & d1 & d2 & -> & -> & [[d [-> D]] ->]
                         & [Ds ->]) & ->).
  destruct H2 as (u3 & u4 & c3 & c4 & -> & -> & [W2 ->] & H4).
  destruct H4 as (u5 & u6 & c5 & c6 & -> & -> & [-> ->] & H6).
  destruct H6 as (u7 & u8 & c7 & c8 & -> & -> & [W3 ->] & H8).
  apply parses_Str in H8 as [-> ->].
  exists d, v2, u3, u7; repeat split; assumption.
Qed.

Lemma count_greedy (d : char) (ds w2 w3 nxt : jsstring) :
  is_digit d = true -> forallb is_digit ds = true ->
  forallb is_space w2 = true -> forallb is_space w3 = true ->
  greedy_parse count_of_skills
    ((d :: ds) ++ w2 ++ cp_ge :: w3 ++ skills_word) [d :: ds] nxt.
Proof.
  intros D Ds W2 W3; unfold count_of_skills, Plus; cbn [greedy_parse].
  exists (d :: ds), (w2 ++ cp_ge :: w3 ++ skills_word), [d :: ds], [].
  split; [reflexivity|]; split; [reflexivity|]; split.
  - exists []; split; [|reflexivity].
    exists [d], ds, [], []; repeat split; eauto.
    rewrite <- app_assoc; cbn [app].
    apply (not_next_after is_digit is_space); auto using space_not_digit.
  - exists w2, (cp_ge :: w3 ++ skills_word), [], []; repeat split; auto.
    exists [cp_ge], (w3 ++ skills_word), [], []; repeat split; auto.
    exists w3, skills_word, [], []; repeat split; auto.
    apply greedy_Str.
Qed.

Lemma count_callback_same (pre post : jsstring) (n : N) (m : jsstring)
    (caps : list jsstring) :
  snd (count_callback pre post n m caps) = false ->
  fst (count_callback pre post n m caps) = m.
Proof.
  unfold count_callback; destruct (differs (group1 caps) n);
    [discriminate | reflexivity].
Qed.

Lemma count_callback_new (pre post : jsstring) (n : N) (m : jsstring)
    (caps : list jsstring) :
  snd (count_callback pre post n m caps) = true ->
  fst (count_callback pre post n m caps) = pre ++ to_string n ++ post.
Proof.
  unfold count_callback; destruct (differs (group1 caps) n);
    [reflexivity | discriminate].
Qed.

Lemma exec_at_first (a : char) (rest : re) (x : char) (s : jsstring) :
  x <> a -> exec_at false None (Seq (Chr a) rest) (x :: s) = None.
Proof.
  intros D; unfold exec_at; cbn [mt].
  destruct (char_eqb x a) eqn:E; [|reflexivity].
  apply char_eqb_eq in E; contradiction.
Qed.

(** A pattern that begins with the literal [a], whose parses are greedy and
    which parses the phrase its callback builds, is well behaved. *)
Lemma count_pattern_well_behaved (a : char) (rest : re) (pre post : jsstring)
    (n : N) :
  anchor_free rest = true ->
  (forall m caps, parses (Seq (Chr a) rest) m caps ->
     forall t, greedy_parse (Seq (Chr a) rest) m caps t) ->
  (forall t, greedy_parse (Seq (Chr a) rest) (pre ++ to_string n ++ post)
               [to_string n] t) ->
  well_behaved (Seq (Chr a) rest) (count_callback pre post n) a.
Proof.
  intros F G R; repeat split.
  - exact F.
  - intros x s; apply exec_at_first.
  - intros s m caps t H.
    destruct (exec_at_prefix false None _ s m caps H) as [P _].
    apply exec_at_greedy, G, P.
  - apply count_callback_same.
  - intros m caps t Fl; rewrite (count_callback_new _ _ _ _ _ Fl).
    exists [to_string n]; split; [apply exec_at_greedy, R|].
    unfold count_callback; cbn [group1 nth].
    rewrite to_string_same; reflexivity.
Qed.

(** A pattern whose first literal occurs nowhere else in it fails the same
    way on a rewritten text. *)
Lemma first_literal_self_stable (a : char) (rest : re)
    (f : jsstring -> list jsstring -> jsstring * bool) :
  well_behaved (Seq (Chr a) rest) f a ->
  accepts rest a = false ->
  self_stable (Seq (Chr a) rest) f.
Proof.
  intros W N c s H.
  pose proof (wb_free _ _ _ W) as F; cbn [anchor_free] in F.
  destruct (rewrite_prefix _ f a W s) as [->|[u [b [b' [-> ->]]]]];
    [exact H|].
  rewrite <- H; unfold exec_at; cbn [mt].
  destruct (char_eqb c a); [|reflexivity].
  apply (mt_stopper false None a b' b rest F N); reflexivity.
Qed.

(* ================================================================== *)
(** ** The four count patterns *)

Lemma to_string_digits (n : N) :
  exists d ds, to_string n = d :: ds
               /\ is_digit d = true /\ forallb is_digit ds = true.
Proof.
  destruct (to_string_spec n) as [NE [A _]].
  destruct (to_string n) as [|d ds]; [contradiction|].
  cbn [forallb] in A; apply andb_true_iff in A as [A1 A2].
  exists d, ds; auto.
Qed.

Lemma skillCount_well_behaved (n : N) :
  well_behaved skillCountPattern (skillCount_cb n) cp_gong.
Proof.
  assert (G : forall w1 d ds w2 w3 t,
             forallb is_space w1 = true ->
             is_digit d = true -> forallb is_digit ds = true ->
             forallb is_space w2 = true -> forallb is_space w3 = true ->
             greedy_parse skillCountPattern
               (cp_gong :: w1 ++ (d :: ds) ++ w2 ++ cp_ge :: w3 ++ skills_word)
               [d :: ds] t).
  { intros w1 d ds w2 w3 t W1 D Ds W2 W3.
    unfold skillCountPattern; cbn [greedy_parse].
    exists [cp_gong], (w1 ++ (d :: ds) ++ w2 ++ cp_ge :: w3 ++ skills_word),
      [], [d :: ds]; repeat split.
    exists w1, ((d :: ds) ++ w2 ++ cp_ge :: w3 ++ skills_word), [], [d :: ds].
    repeat split; auto.
    - cbn [app not_next]; apply digit_not_space, D.
    - apply count_greedy; assumption. }
  apply count_pattern_well_behaved.
  - reflexivity.
  - intros m caps H t; unfold skillCountPattern in H; cbn [parses] in H.
    destruct H as (u1 & u2 & c1 & c2 & -> & -> & [-> ->] & H).
    destruct H as (u3 & u4 & c3 & c4 & -> & -> & [W1 ->] & H).
    destruct (count_shape _ _ H) as (d & ds & w2 & w3 & D & Ds & W2 & W3
                                      & -> & ->).
    apply (G u3 d ds w2 w3 t); assumption.
  - intros t; destruct (to_string_digits n) as (d & ds & -> & D & Ds).
    apply (G [sp] d ds [sp] [sp] t); auto.
Qed.

Lemma skillCount_self_stable (n : N) :
  self_stable skillCountPattern (skillCount_cb n).
Proof.
  apply (first_literal_self_stable cp_gong);
    [apply skillCount_well_behaved | reflexivity].
Qed.

Lemma viewAll_well_behaved (n : N) :
  well_behaved viewAllPattern (viewAll_cb n) cp_cha.
Proof.
  assert (G : forall w1 d ds w2 w3 t,
             forallb is_space w1 = true ->
             is_digit d = true -> forallb is_digit ds = true ->
             forallb is_space w2 = true -> forallb is_space w3 = true ->
             greedy_parse viewAllPattern
               (cp_cha :: [cp_kan; cp_quan; cp_bu]
                ++ w1 ++ (d :: ds) ++ w2 ++ cp_ge :: w3 ++ skills_word)
               [d :: ds] t).
  { intros w1 d ds w2 w3 t W1 D Ds W2 W3.
    unfold viewAllPattern; cbn [greedy_parse].
    exists [cp_cha],
      ([cp_kan; cp_quan; cp_bu]
       ++ w1 ++ (d :: ds) ++ w2 ++ cp_ge :: w3 ++ skills_word),
      [], [d :: ds]; repeat split.
    exists [cp_kan; cp_quan; cp_bu],
      (w1 ++ (d :: ds) ++ w2 ++ cp_ge :: w3 ++ skills_word), [], [d :: ds].
    repeat split; [apply greedy_Str|].
    exists w1, ((d :: ds) ++ w2 ++ cp_ge :: w3 ++ skills_word), [], [d :: ds].
    repeat split; auto.
    - cbn [app not_next]; apply digit_not_space, D.
    - apply count_greedy; assumption. }
  apply count_pattern_well_behaved.
  - reflexivity.
  - intros m caps H t; unfold viewAllPattern in H; cbn [parses] in H.
    destruct H as (u1 & u2 & c1 & c2 & -> & -> & [-> ->] & H).
    destruct H as (u3 & u4 & c3 & c4 & -> & -> & H3 & H).
    apply parses_Str in H3 as [-> ->].
    destruct H as (u5 & u6 & c5 & c6 & -> & -> & [W1 ->] & H).
    destruct (count_shape _ _ H) as (d & ds & w2 & w3 & D & Ds & W2 & W3
                                      & -> & ->).
    apply (G u5 d ds w2 w3 t); assumption.
  - intros t; destruct (to_string_digits n) as (d & ds & -> & D & Ds).
    apply (G [sp] d ds [sp] [sp] t); auto.
Qed.

Lemma viewAll_self_stable (n : N) :
  self_stable viewAllPattern (viewAll_cb n).
Proof.
  apply (first_literal_self_stable cp_cha);
    [apply viewAll_well_behaved | reflexivity].
Qed.

Lemma sourceCount_well_behaved (n : N) :
  well_behaved sourceCountPattern (sourceCount_cb n) cp_lai.
Proof.
  assert (G : forall w1 d ds w2 t,
             forallb is_space w1 = true ->
             is_digit d = true -> forallb is_digit ds = true ->
             forallb is_space w2 = true ->
             greedy_parse sourceCountPattern
               (cp_lai :: cp_zi :: w1 ++ (d :: ds) ++ w2 ++ [cp_ge; cp_yuan])
               [d :: ds] t).
  { intros w1 d ds w2 t W1 D Ds W2.
    unfold sourceCountPattern, Plus; cbn [greedy_parse].
    exists [cp_lai], (cp_zi :: w1 ++ (d :: ds) ++ w2 ++ [cp_ge; cp_yuan]),
      [], [d :: ds]; repeat split.
    exists [cp_zi], (w1 ++ (d :: ds) ++ w2 ++ [cp_ge; cp_yuan]),
      [], [d :: ds]; repeat split.
    exists w1, ((d :: ds) ++ w2 ++ [cp_ge; cp_yuan]), [], [d :: ds].
    repeat split; auto.
    { cbn [app not_next]; apply digit_not_space, D. }
    exists (d :: ds), (w2 ++ [cp_ge; cp_yuan]), [d :: ds], [].
    repeat split.
    - exists []; split; [|reflexivity].
      exists [d], ds, [], []; repeat split; eauto.
      rewrite <- app_assoc; cbn [app].
      apply (not_next_after is_digit is_space); auto using space_not_digit.
    - exists w2, [cp_ge; cp_yuan], [], []; repeat split; auto.
      apply (greedy_Str [cp_ge; cp_yuan]). }
  apply count_pattern_well_behaved.
  - reflexivity.
  - intros m caps H t; unfold sourceCountPattern, Plus in H;
      cbn [parses] in H.
    destruct H as (u1 & u2 & c1 & c2 & -> & -> & [-> ->] & H).
    destruct H as (u3 & u4 & c3 & c4 & -> & -> & [-> ->] & H).
    destruct H as (u5 & u6 & c5 & c6 & -> & -> & [W1 ->] & H).
    destruct H as (u7 & u8 & c7 & c8 & -> & -> & H7 & H).
    destruct H7 as (cs1 & (v1 & v2 & d1 & d2 & -> & -> & [[d [-> D]] ->]
                           & [Ds ->]) & ->).
    destruct H as (u9 & u10 & c9 & c10 & -> & -> & [W2 ->] & H).
    apply parses_Str in H as [-> ->].
    apply (G u5 d v2 u9 t); assumption.
  - intros t; destruct (to_string_digits n) as (d & ds & -> & D & Ds).
    apply (G [sp] d ds [sp] t); auto.
Qed.

Lemma sourceCount_self_stable (n : N) :
  self_stable sourceCountPattern (sourceCount_cb n).
Proof.
  apply (first_literal_self_stable cp_lai);
    [apply sourceCount_well_behaved | reflexivity].
Qed.

Lemma boldCount_well_behaved (n : N) :
  well_behaved boldCountPattern (boldCount_cb n) star_c.
Proof.
  assert (G : forall d ds w2 w3 t,
             is_digit d = true -> forallb is_digit ds = true ->
             forallb is_space w2 = true -> forallb is_space w3 = true ->
             greedy_parse boldCountPattern
               (star_c :: star_c
                :: ((d :: ds) ++ w2 ++ cp_ge :: w3 ++ skills_word)
                ++ [star_c; star_c])
               [d :: ds] t).
  { intros d ds w2 w3 t D Ds W2 W3.
    unfold boldCountPattern; cbn [greedy_parse].
    exists [star_c],
      (star_c :: ((d :: ds) ++ w2 ++ cp_ge :: w3 ++ skills_word)
       ++ [star_c; star_c]), [], [d :: ds]; repeat split.
    exists [star_c],
      (((d :: ds) ++ w2 ++ cp_ge :: w3 ++ skills_word) ++ [star_c; star_c]),
      [], [d :: ds]; repeat split.
    exists ((d :: ds) ++ w2 ++ cp_ge :: w3 ++ skills_word), [star_c; star_c],
      [d :: ds], []; repeat split.
    - apply count_greedy; assumption.
    - apply (greedy_Str [star_c; star_c]). }
  apply count_pattern_well_behaved.
  - reflexivity.
  - intros m caps H t; unfold boldCountPattern in H; cbn [parses] in H.
    destruct H as (u1 & u2 & c1 & c2 & -> & -> & [-> ->] & H).
    destruct H as (u3 & u4 & c3 & c4 & -> & -> & [-> ->] & H).
    destruct H as (u5 & u6 & c5 & c6 & -> & -> & H5 & H).
    apply parses_Str in H as [-> ->].
    destruct (count_shape _ _ H5) as (d & ds & w2 & w3 & D & Ds & W2 & W3
                                       & -> & ->).
    apply (G d ds w2 w3 t); assumption.
  - intros t; destruct (to_string_digits n) as (d & ds & -> & D & Ds).
    pose proof (G d ds [sp] [sp] t D Ds eq_refl eq_refl) as H.
    match goal with
    | |- greedy_parse _ ?u _ _ =>
        replace u with
          (star_c :: star_c
           :: ((d :: ds) ++ [sp] ++ cp_ge :: [sp] ++ skills_word)
           ++ [star_c; star_c]); [exact H|]
    end.
    cbn [app]; rewrite <- app_assoc; reflexivity.
Qed.

(** A bold count phrase begins with two stars and a digit, and so does what
    its callback returns. *)
Lemma bold_match_head (n : N) (s m : jsstring) (caps : list jsstring) :
  exec_at false None boldCountPattern s = Some (m, caps) ->
  (exists d m', m = star_c :: star_c :: d :: m' /\ is_digit d = true)
  /\ (exists d o, fst (boldCount_cb n m caps) = star_c :: star_c :: d :: o
                  /\ is_digit d = true).
Proof.
  intros H.
  assert (M : exists d m', m = star_c :: star_c :: d :: m'
                           /\ is_digit d = true).
  { destruct (exec_at_prefix false None _ s m caps H) as [P _].
    unfold boldCountPattern in P; cbn [parses] in P.
    destruct P as (u1 & u2 & c1 & c2 & -> & -> & [-> ->] & P).
    destruct P as (u3 & u4 & c3 & c4 & -> & -> & [-> ->] & P).
    destruct P as (u5 & u6 & c5 & c6 & -> & -> & H5 & P).
    destruct (count_shape _ _ H5) as (d & ds & w2 & w3 & D & _ & _ & _
                                       & -> & _).
    exists d; eexists; split; [reflexivity | exact D]. }
  split; [exact M|].
  destruct (snd (boldCount_cb n m caps)) eqn:Fl.
  - unfold boldCount_cb in *; rewrite (count_callback_new _ _ _ _ _ Fl).
    destruct (to_string_digits n) as (d & ds & -> & D & _).
    exists d; eexists; split; [reflexivity | exact D].
  - unfold boldCount_cb in *; rewrite (count_callback_same _ _ _ _ _ Fl).
    exact M.
Qed.

Lemma bold_rewrite_prefix (n : N) (s : jsstring) :
  fst (replace_g boldCountPattern (boldCount_cb n) s) = s
  \/ exists u d d' b b',
       s = u ++ star_c :: star_c :: d :: b
       /\ fst (replace_g boldCountPattern (boldCount_cb n) s)
          = u ++ star_c :: star_c :: d' :: b'
       /\ is_digit d = true /\ is_digit d' = true.
Proof.
  pose proof (boldCount_well_behaved n) as W.
  induction s as [|c s IH].
  - left; destruct W as (F & Hnil & _).
    rewrite (replace_nil _ _ Hnil); reflexivity.
  - destruct (exec_at false None boldCountPattern (c :: s))
      as [[m caps]|] eqn:E.
    + right.
      rewrite (replace_hit _ _ (wb_free _ _ _ W) _ m caps E
                 (wb_nonempty _ _ _ W _ m caps E)).
      destruct (bold_match_head n _ _ _ E)
        as [(d & m' & -> & D) (d' & o & -> & D')].
      destruct (exec_at_prefix false None _ _ _ caps E) as [_ [rest X]].
      exists [], d, d', (m' ++ rest); eexists.
      split; [exact X|]; split; [reflexivity|]; split; assumption.
    + rewrite (replace_keep _ _ (wb_free _ _ _ W) c s E); cbn [fst].
      destruct IH as [->|(u & d & d' & b & b' & -> & -> & D & D')];
        [left; reflexivity|].
      right; exists (c :: u), d, d', b, b'; repeat split; assumption.
Qed.

Lemma two_stars_ahead (a x y : jsstring) :
  startsWith [star_c; star_c] (a ++ star_c :: star_c :: x)
  = startsWith [star_c; star_c] (a ++ star_c :: star_c :: y).
Proof.
  destruct a as [|c1 [|c2 a]]; cbn [app startsWith]; reflexivity.
Qed.

Lemma boldCount_self_stable (n : N) :
  self_stable boldCountPattern (boldCount_cb n).
Proof.
  intros c s H.
  destruct (bold_rewrite_prefix n s)
    as [->|(u & d & d' & b & b' & -> & -> & D & D')]; [exact H|].
  rewrite <- H; unfold exec_at, boldCountPattern; cbn [mt].
  destruct (char_eqb c star_c); [|reflexivity].
  destruct u as [|x u]; cbn [app].
  - cbn [char_eqb]; unfold count_of_skills, Plus; cbn [mt].
    replace (char_eqb star_c star_c) with true by reflexivity.
    replace (is_digit star_c) with false by reflexivity; reflexivity.
  - destruct (char_eqb x star_c); [|reflexivity].
    apply (mt_stopper false None star_c (star_c :: d' :: b')
             (star_c :: d :: b) count_of_skills eq_refl eq_refl).
    intros acc a caps; rewrite !mt_Str, (two_stars_ahead a (d' :: b') (d :: b)).
    reflexivity.
Qed.

(* ================================================================== *)
(** ** The rewrite of a document *)

Lemma agree_stable (r : re) (pre post : jsstring) (n : N) (s : jsstring) :
  counts_agree r n s = true -> stable r (count_callback pre post n) s.
Proof.
  unfold counts_agree, stable, replace_g; cbn [snd].
  induction (scan false r 0 None s) as [|g l IH]; cbn [forallb existsb];
    [reflexivity|].
  intros H; apply andb_true_iff in H as [H1 H2].
  rewrite (IH H2), orb_false_r.
  destruct g as [c|m caps]; cbn [seg_flag]; [reflexivity|].
  unfold count_callback; apply negb_true_iff in H1; rewrite H1; reflexivity.
Qed.

Lemma stable_fixed (r : re) (f : jsstring -> list jsstring -> jsstring * bool)
    (a : char) (s : jsstring) :
  well_behaved r f a -> stable r f s -> replace_g r f s = (s, false).
Proof.
  intros W St; rewrite (surjective_pairing (replace_g r f s)).
  rewrite (stable_unchanged r f a W s St); unfold stable in St; rewrite St.
  reflexivity.
Qed.

Section Rewrite.
Variables totalCount sourceCount : N.

Let W1 := skillCount_well_behaved totalCount.
Let W2 := sourceCount_well_behaved sourceCount.
Let W3 := boldCount_well_behaved totalCount.
Let W4 := viewAll_well_behaved totalCount.

(** A text on which none of the four replacements changes anything. *)
Lemma rewrite_fixed (x : jsstring) :
  stable skillCountPattern (skillCount_cb totalCount) x ->
  stable sourceCountPattern (sourceCount_cb sourceCount) x ->
  stable boldCountPattern (boldCount_cb totalCount) x ->
  stable viewAllPattern (viewAll_cb totalCount) x ->
  rewrite_counts totalCount sourceCount x = (x, false).
Proof.
  intros S1 S2 S3 S4; unfold rewrite_counts.
  rewrite (stable_fixed _ _ _ x W1 S1); cbn [fst snd].
  rewrite (stable_fixed _ _ _ x W2 S2); cbn [fst snd].
  rewrite (stable_fixed _ _ _ x W3 S3); cbn [fst snd].
  rewrite (stable_fixed _ _ _ x W4 S4); reflexivity.
Qed.

Lemma rewrite_twice (x : jsstring) :
  rewrite_counts totalCount sourceCount
    (fst (rewrite_counts totalCount sourceCount x))
  = (fst (rewrite_counts totalCount sourceCount x), false).
Proof.
  unfold rewrite_counts at 2 3; cbn [fst].
  set (x1 := fst (replace_g skillCountPattern (skillCount_cb totalCount) x)).
  set (x2 := fst (replace_g sourceCountPattern (sourceCount_cb sourceCount) x1)).
  set (x3 := fst (replace_g boldCountPattern (boldCount_cb totalCount) x2)).
  set (x4 := fst (replace_g viewAllPattern (viewAll_cb totalCount) x3)).
  assert (A1 : stable skillCountPattern (skillCount_cb totalCount) x1)
    by apply (rewrite_stable _ _ _ W1 (skillCount_self_stable totalCount)).
  assert (A2 : stable sourceCountPattern (sourceCount_cb sourceCount) x2)
    by apply (rewrite_stable _ _ _ W2 (sourceCount_self_stable sourceCount)).
  assert (A3 : stable boldCountPattern (boldCount_cb totalCount) x3)
    by apply (rewrite_stable _ _ _ W3 (boldCount_self_stable totalCount)).
  assert (A4 : stable viewAllPattern (viewAll_cb totalCount) x4)
    by apply (rewrite_stable _ _ _ W4 (viewAll_self_stable totalCount)).
  apply rewrite_fixed.
  - apply (rewrite_keeps_stable _ _ _ _ _ _ W1 W4 eq_refl eq_refl).
    apply (rewrite_keeps_stable _ _ _ _ _ _ W1 W3 eq_refl eq_refl).
    apply (rewrite_keeps_stable _ _ _ _ _ _ W1 W2 eq_refl eq_refl).
    exact A1.
  - apply (rewrite_keeps_stable _ _ _ _ _ _ W2 W4 eq_refl eq_refl).
    apply (rewrite_keeps_stable _ _ _ _ _ _ W2 W3 eq_refl eq_refl).
    exact A2.
  - apply (rewrite_keeps_stable _ _ _ _ _ _ W3 W4 eq_refl eq_refl).
    exact A3.
  - exact A4.
Qed.

End Rewrite.

Lemma assoc_replace (c : jsstring) (n' : node) (es : list (jsstring * node)) :
  assoc_node c es <> None ->
  assoc_node c (replace_entry c n' es) = Some n'.
Proof.
  induction es as [|[x n] es IH]; cbn [assoc_node replace_entry];
    [congruence|].
  destruct (str_eqb x c) eqn:E; cbn [assoc_node]; rewrite E;
    [reflexivity | exact IH].
Qed.

Lemma write_then_read (p : path) :
  forall (fs : node) (old content : jsstring),
    lookup fs p = Some (File old) ->
    exists fs', writeFileSync fs p content = Ok fs'
                /\ lookup fs' p = Some (File content).
Proof.
  induction p as [|c p IH]; intros fs old content H; cbn [lookup] in H.
  - injection H as ->; exists (File content); split; reflexivity.
  - destruct fs as [?|es]; [discriminate|].
    destruct (assoc_node c es) as [child|] eqn:A; [|discriminate].
    destruct (IH child old content H) as [child' [Wr L]].
    exists (Dir (replace_entry c child' es)); cbn [writeFileSync lookup].
    rewrite A, Wr; cbn [bind]; split; [reflexivity|].
    rewrite assoc_replace by congruence; exact L.
Qed.

(** C6. Rewriting a document twice gives the text of rewriting it once, and
    the second pass reports no modification.  When every number captured by
    the four patterns is already the computed count, the text is returned as
    it is with the flag unset, and [updateStatsInFile] returns [false] without
    writing; after any run that returned, a second run returns [false] and
    leaves the file system as it is. *)
Theorem rewrite_idempotent_and_quiet (totalCount sourceCount : N)
    (content : jsstring) :
  let once := fst (rewrite_counts totalCount sourceCount content) in
  rewrite_counts totalCount sourceCount once = (once, false)
  /\ (counts_agree skillCountPattern totalCount content = true ->
      counts_agree sourceCountPattern sourceCount content = true ->
      counts_agree boldCountPattern totalCount content = true ->
      counts_agree viewAllPattern totalCount content = true ->
      rewrite_counts totalCount sourceCount content = (content, false)
      /\ forall fs filePath,
           readFileSync fs filePath = Ok content ->
           updateStatsInFile fs filePath totalCount sourceCount
           = (fs, Ok false))
  /\ (forall fs filePath fs1 b,
        readFileSync fs filePath = Ok content ->
        updateStatsInFile fs filePath totalCount sourceCount = (fs1, Ok b) ->
        updateStatsInFile fs1 filePath totalCount sourceCount
        = (fs1, Ok false)).
Proof.
  intros once; split; [apply rewrite_twice|]; split.
  - intros A1 A2 A3 A4.
    assert (Q : rewrite_counts totalCount sourceCount content
                = (content, false)).
    { apply rewrite_fixed; unfold skillCount_cb, sourceCount_cb, boldCount_cb,
        viewAll_cb; apply agree_stable; assumption. }
    split; [exact Q|].
    intros fs filePath R; unfold updateStatsInFile.
    assert (X : existsSync fs filePath = true).
    { unfold existsSync; unfold readFileSync in R.
      destruct (lookup fs filePath); [reflexivity | discriminate]. }
    rewrite X, R, Q; reflexivity.
  - intros fs filePath fs1 b R U; unfold updateStatsInFile in U.
    assert (X : existsSync fs filePath = true).
    { unfold existsSync; unfold readFileSync in R.
      destruct (lookup fs filePath); [reflexivity | discriminate]. }
    rewrite X, R in U; cbn [negb] in U.
    assert (L : lookup fs filePath = Some (File content)).
    { unfold readFileSync in R.
      destruct (lookup fs filePath) as [[?|?]|]; try discriminate.
      injection R as ->; reflexivity. }
    destruct (snd (rewrite_counts totalCount sourceCount content)) eqn:Fl.
    + destruct (write_then_read filePath fs content once L) as [fs' [Wr L']].
      fold once in U; rewrite Wr in U; injection U as <- <-.
      unfold updateStatsInFile, existsSync, readFileSync; rewrite L'.
      cbn [negb]; subst once; rewrite rewrite_twice; reflexivity.
    + injection U as <- <-.
      unfold updateStatsInFile; rewrite X, R, Fl; reflexivity.
Qed.

Lemma rewrite_idempotent_and_quiet_witness :
  rewrite_counts 42 9 sample_doc = (sample_doc, false)
  /\ updateStatsInFile sample_doc_fs [lit "repo"; lit "README.md"] 42 9
     = (sample_doc_fs, Ok false).
Proof.
  destruct (proj1 (proj2 (rewrite_idempotent_and_quiet 42 9 sample_doc))
              eq_refl eq_refl eq_refl eq_refl) as [Q U].
  split; [exact Q|].
  apply U; reflexivity.
Defined.

(* ================================================================== *)
(** ** The scanned pairs of a well-formed tree are distinct *)

Lemma NoDup_map_filter {A B : Type} (g : A -> B) (p : A -> bool) (l : list A) :
  NoDup (map g l) -> NoDup (map g (filter p l)).
Proof.
  induction l as [|x l IH]; cbn [map filter]; intros ND; [constructor|].
  inversion ND as [|? ? Hx ND']; subst.
  destruct (p x); cbn [map]; [|exact (IH ND')].
  constructor; [|exact (IH ND')].
  intros H; apply Hx; apply in_map_iff in H as [y [E Hy]].
  apply filter_In in Hy as [Hy _]; rewrite <- E; apply in_map, Hy.
Qed.

Lemma scanned_pairs_NoDup (st : obj (list skill)) :
  NoDup (obj_keys st) ->
  (forall k l, In (k, l) st -> NoDup (map s_id l)) ->
  NoDup (scanned_pairs st).
Proof.
  unfold scanned_pairs; induction st as [|[k l] st IH]; intros ND NI;
    cbn [flat_map fst snd]; [constructor|].
  inversion ND as [|? ? Hk ND']; subst.
  apply NoDup_app.
  - rewrite <- (map_map s_id (fun i => (k, i))).
    apply Finite.Injective_map_NoDup; [intros a b [= ->]; reflexivity|].
    apply (NI k l); left; reflexivity.
  - apply IH; [exact ND'|].
    intros k' l' H; apply (NI k' l'); right; exact H.
  - intros [a b] H1 H2.
    apply in_map_iff in H1 as [x [[= <- <-] _]].
    apply in_flat_map in H2 as [[k' l'] [H2 H3]].
    apply in_map_iff in H3 as [y [[= -> _] _]].
    apply Hk; change k with (fst (k, l')); apply in_map; exact H2.
Qed.

Lemma stats_of_pairs_NoDup (skillsDir : path) (es : list (jsstring * node)) :
  wf_names es = true ->
  (forall x n, In (x, n) es -> wf_node n = true) ->
  NoDup (scanned_pairs (stats_of skillsDir es)).
Proof.
  intros W Wc; apply andb_true_iff in W as [D _].
  apply scanned_pairs_NoDup.
  - apply stats_of_keys_NoDup, distinct_NoDup, D.
  - intros k l H; unfold stats_of in H.
    apply in_map_iff in H as [[x n] [[= <- <-] H]].
    apply filter_In in H as [H _]; cbn [fst snd].
    rewrite map_map; cbn [skill_of s_id].
    unfold skill_dirs; cbn [fst snd].
    destruct (is_dir n && startsWith at_sign x); [|constructor].
    apply (NoDup_map_filter
             (fun c : jsstring * jsstring * node => snd (fst c))).
    rewrite map_map; cbn [fst snd].
    apply (NoDup_map_filter (fun c : jsstring * node => fst c)).
    destruct n as [?|sub]; [constructor|]; cbn [children].
    destruct (wf_node_Dir sub (Wc x _ H)) as [Ws _].
    apply andb_true_iff in Ws as [Ds _]; apply distinct_NoDup, Ds.
Qed.

(** The statistics [collectStats] returns for a well-formed tree name every
    skill once: the premise under which a finding is counted. *)
Lemma collectStats_pairs_distinct (fs : node) (skillsDir : path)
    (es : list (jsstring * node)) (st : obj (list skill))
    (broken : list broken_dir) :
  wf_node fs = true ->
  lookup fs skillsDir = Some (Dir es) ->
  forallb marker_is_file (candidates es) = true ->
  collectStats fs skillsDir = Ok (st, broken) ->
  NoDup (scanned_pairs st).
Proof.
  intros W R M C.
  rewrite (collectStats_exact fs skillsDir es W R M
             (collectStats_plain fs skillsDir es W R st broken C)) in C.
  injection C as <- _.
  destruct (root_wf fs skillsDir es W R) as [Wn Wc].
  apply stats_of_pairs_NoDup; assumption.
Qed.

(* ================================================================== *)
(** ** The registry as [verifyTranslations] reads it *)

Lemma proto_at_plain {V : Type} (k : jsstring) (o : obj V) :
  own_plain o -> proto_at k o = inherited k.
Proof.
  intros P; unfold proto_at, js_get.
  destruct (obj_get k o) as [v|] eqn:G;
    [|destruct (inherited k); reflexivity].
  symmetry; apply P; apply obj_get_In in G.
  change k with (fst (k, v)); apply in_map, G.
Qed.

(** One record added to the tables. *)
Lemma index_add_cases (ix : obj (list index_entry) * obj index_entry)
    (e : index_entry) :
  own_plain (fst ix) ->
  if inherited (e_source e) then index_add ix e = Throw TypeError
  else index_add ix e = Ok (table_add ix e)
       /\ own_plain (fst (table_add ix e)).
Proof.
  intros P; unfold index_add, table_add, js_get.
  destruct (obj_get (e_source e) (fst ix)) as [l|] eqn:G.
  - assert (I : inherited (e_source e) = false).
    { apply P; apply obj_get_In in G.
      change (e_source e) with (fst (e_source e, l)); apply in_map, G. }
    rewrite I; split; [reflexivity|]; cbn [fst].
    intros k Hk; apply obj_keys_set_In in Hk as [->|Hk];
      [exact I | exact (P k Hk)].
  - destruct (inherited (e_source e)) eqn:I; [reflexivity|].
    split; [reflexivity|]; cbn [fst].
    intros k Hk; apply obj_keys_set_In in Hk as [->|Hk]; [exact I|].
    apply obj_keys_set_In in Hk as [->|Hk]; [exact I | exact (P k Hk)].
Qed.

Lemma index_fold_cases (entries : list index_entry)
    (ix : obj (list index_entry) * obj index_entry) :
  own_plain (fst ix) ->
  if plain_records entries
  then foldM index_add entries ix = Ok (fold_left table_add entries ix)
       /\ own_plain (fst (fold_left table_add entries ix))
  else foldM index_add entries ix = Throw TypeError.
Proof.
  revert ix; induction entries as [|e l IH]; intros ix P;
    cbn [plain_records forallb foldM fold_left].
  - split; [reflexivity | exact P].
  - pose proof (index_add_cases ix e P) as K.
    destruct (inherited (e_source e)); cbn [negb andb].
    + rewrite K; reflexivity.
    + destruct K as [-> K]; cbn [bind]; exact (IH _ K).
Qed.

(** The tables are built unless a record names a source that
    [Object.prototype] has a member for. *)
Lemma build_index_cases (entries : list index_entry) :
  build_index entries
  = if plain_records entries then Ok (tables_of entries)
    else Throw TypeError.
Proof.
  unfold build_index, tables_of.
  pose proof (index_fold_cases entries ([], [])
                (fun k (F : In k []) => match F with end)) as K.
  destruct (plain_records entries).
  - destruct K as [-> _]; reflexivity.
  - rewrite K; reflexivity.
Qed.

Lemma tables_own_plain (entries : list index_entry) :
  plain_records entries = true -> own_plain (ix_bySource (tables_of entries)).
Proof.
  intros H.
  pose proof (index_fold_cases entries ([], [])
                (fun k (F : In k []) => match F with end)) as K.
  rewrite H in K; apply K.
Qed.

Lemma build_index_inv (entries : list index_entry) (ix : index) :
  build_index entries = Ok ix ->
  ix = tables_of entries /\ plain_records entries = true.
Proof.
  rewrite build_index_cases; destruct (plain_records entries);
    [intros [= <-]; split; reflexivity | discriminate].
Qed.

(** A manifest that is missing reads as no translation at all, one that is
    there as the translations of its text. *)
Lemma parseTranslations_parsed (fs : node) (i18nPath : path)
    (tr : obj (obj unit)) :
  parseTranslations fs i18nPath = Ok tr ->
  exists content, tr = translations_of_text content.
Proof.
  unfold parseTranslations.
  destruct (negb (existsSync fs i18nPath)).
  - intros [= <-]; exists []; reflexivity.
  - destruct (readFileSync fs i18nPath) as [c|e]; cbn [bind];
      [intros [= <-]; exists c; reflexivity | discriminate].
Qed.

(** The same for the index. *)
Lemma parseIndex_parsed (fs : node) (indexPath : path) (ix : index) :
  parseIndex fs indexPath = Ok ix ->
  exists entries, ix = tables_of entries /\ plain_records entries = true.
Proof.
  unfold parseIndex.
  destruct (negb (existsSync fs indexPath)).
  - intros [= <-]; exists []; split; reflexivity.
  - destruct (readFileSync fs indexPath) as [c|e]; cbn [bind];
      [|discriminate].
    intros H; exists (entries_of_text c); apply build_index_inv, H.
Qed.

(** Pass 3, source by source. *)
Lemma check_source_cases (bySource : obj (list index_entry))
    (orphaned : list finding) (kv : jsstring * obj unit) :
  check_source bySource orphaned kv
  = if proto_at (fst kv) bySource then Throw TypeError
    else Ok (orphans_from bySource orphaned (fst kv, js_entries (snd kv))).
Proof.
  unfold check_source, proto_at, orphans_from, get_or_empty, js_keys, js_get.
  cbn [fst snd].
  destruct (obj_get (fst kv) bySource) as [es|];
    [|destruct (inherited (fst kv))]; reflexivity.
Qed.

Lemma pass3_cases (bySource : obj (list index_entry))
    (l : list (jsstring * obj unit)) (orphaned : list finding) :
  foldM (check_source bySource) l orphaned
  = if existsb (fun kv => proto_at (fst kv) bySource) l
    then Throw TypeError
    else Ok (fold_left (orphans_from bySource)
               (map (fun kv => (fst kv, js_entries (snd kv))) l) orphaned).
Proof.
  revert orphaned; induction l as [|kv l IH]; intros orphaned;
    cbn [foldM existsb map fold_left]; [reflexivity|].
  rewrite check_source_cases.
  destruct (proto_at (fst kv) bySource); cbn [bind orb];
    [reflexivity | apply IH].
Qed.

(** The reconciliation raises in pass 3, or returns the lists of the four
    passes. *)
Lemma reconcile_cases (fs : node) (SKILLS_DIR : path) (st : obj (list skill))
    (broken : list broken_dir) (tr : obj (obj unit)) (ix : index) :
  reconcile fs SKILLS_DIR st broken tr ix
  = if existsb (fun kv => proto_at (fst kv) (ix_bySource ix)) (js_entries tr)
    then Throw TypeError
    else Ok (four_passes fs SKILLS_DIR (js_entries st) broken tr
               (enumerated tr) ix).
Proof.
  unfold reconcile; rewrite pass3_cases.
  destruct (existsb _ (js_entries tr)); reflexivity.
Qed.

Lemma existsb_forall_false {A : Type} (p : A -> bool) (l : list A) :
  existsb p l = false <-> forall a, In a l -> p a = false.
Proof.
  split.
  - intros H a Ha; destruct (p a) eqn:E; [|reflexivity].
    assert (X : existsb p l = true) by (apply existsb_exists; eauto).
    congruence.
  - intros H; destruct (existsb p l) eqn:E; [|reflexivity].
    apply existsb_exists in E as [a [Ha Pa]]; rewrite (H a Ha) in Pa.
    discriminate.
Qed.

(** With tables whose keys are plain, the reconciliation returns exactly when
    no source of the translations has a member of [Object.prototype] for
    it. *)
Lemma reconcile_returns (fs : node) (SKILLS_DIR : path)
    (st : obj (list skill)) (broken : list broken_dir) (tr : obj (obj unit))
    (ix : index) :
  own_plain (ix_bySource ix) ->
  ((exists v, reconcile fs SKILLS_DIR st broken tr ix = Ok v)
   <-> forall src, In src (obj_keys tr) -> inherited src = false)
  /\ ((exists src, In src (obj_keys tr) /\ inherited src = true) ->
      reconcile fs SKILLS_DIR st broken tr ix = Throw TypeError).
Proof.
  intros P; rewrite reconcile_cases.
  destruct (existsb _ (js_entries tr)) eqn:E.
  - apply existsb_exists in E as [kv [Hkv Pk]].
    rewrite (proto_at_plain _ _ P) in Pk.
    apply (proj1 (js_entries_In _ _)) in Hkv.
    split; [split|reflexivity].
    + intros [v V]; discriminate.
    + intros H; rewrite (H (fst kv)) in Pk; [discriminate|].
      apply in_map, Hkv.
  - rewrite existsb_forall_false in E.
    assert (F : forall src, In src (obj_keys tr) -> inherited src = false).
    { intros src Hs; apply in_map_iff in Hs as [kv [<- Hkv]].
      rewrite <- (proto_at_plain _ (ix_bySource ix) P).
      apply E, (proj2 (js_entries_In _ _)), Hkv. }
    split; [split|].
    + intros _; exact F.
    + intros _; eexists; reflexivity.
    + intros [src [Hs I]]; rewrite (F src Hs) in I; discriminate.
Qed.

Lemma reconcile_inv (fs : node) (SKILLS_DIR : path) (st : obj (list skill))
    (broken : list broken_dir) (tr : obj (obj unit)) (ix : index)
    (v : verification) :
  reconcile fs SKILLS_DIR st broken tr ix = Ok v ->
  v = four_passes fs SKILLS_DIR (js_entries st) broken tr (enumerated tr) ix.
Proof.
  rewrite reconcile_cases; destruct (existsb _ _);
    [discriminate | intros [= <-]; reflexivity].
Qed.

(** The scanned pairs in the order of the entries. *)
Lemma scanned_pairs_perm (st : obj (list skill)) :
  Permutation (scanned_pairs (js_entries st)) (scanned_pairs st).
Proof.
  unfold scanned_pairs.
  apply Permutation_flat_map, js_entries_perm.
Qed.

(* ================================================================== *)
(** ** The missing list, pass by pass *)

Lemma pair_findings_skill tr ix (q : jsstring * jsstring) :
  skill_findings tr ix (fst q) (skill_of_id (snd q)) = pair_findings tr ix q.
Proof.
  unfold skill_findings, check_skill, pair_findings;
    cbn [skill_of_id s_id app].
  destruct (obj_get _ ix) as [e|]; [|reflexivity].
  destruct (hasTranslation tr (fst q) (e_id e)); reflexivity.
Qed.

Lemma check_entry_fold fs dir (l : list index_entry) missing :
  fold_left (check_entry fs dir) l missing
  = missing ++ map skillDir_finding (filter (marker_missing fs dir) l).
Proof.
  revert missing; induction l as [|e l IH]; intros missing; cbn [fold_left].
  - cbn; rewrite app_nil_r; reflexivity.
  - rewrite IH; unfold check_entry; cbn [filter]; unfold marker_missing at 2.
    destruct (negb (existsSync fs _)); cbn [map];
      [rewrite <- app_assoc|]; reflexivity.
Qed.

Lemma check_broken_fold (l : list broken_dir) missing :
  fold_left check_broken l missing = missing ++ map missingSkillMd_finding l.
Proof.
  revert missing; induction l as [|b l IH]; intros missing; cbn [fold_left map].
  - rewrite app_nil_r; reflexivity.
  - rewrite IH; unfold check_broken; rewrite <- app_assoc; reflexivity.
Qed.

Lemma missing_passes fs dir (st : obj (list skill)) broken tr trs ix :
  v_missing (four_passes fs dir st broken tr trs ix)
  = flat_map (pair_findings tr (ix_byPath ix)) (scanned_pairs st)
    ++ map skillDir_finding (filter (marker_missing fs dir) (ix_entries ix))
    ++ map missingSkillMd_finding broken.
Proof.
  unfold four_passes; cbn [v_missing].
  rewrite check_broken_fold, check_entry_fold, pass_scanned_push.
  cbn [app]; rewrite findings_by_pair, <- app_assoc; f_equal.
  apply flat_map_ext; intros q; apply pair_findings_skill.
Qed.

Lemma flat_map_nil_iff {A B : Type} (g : A -> list B) (l : list A) :
  flat_map g l = [] <-> forall x, In x l -> g x = [].
Proof.
  induction l as [|x l IH]; cbn [flat_map]; split.
  - intros _ y [].
  - reflexivity.
  - intros H; apply app_eq_nil in H as [H1 H2].
    intros y [<-|Hy]; [exact H1 | exact (proj1 IH H2 y Hy)].
  - intros H; rewrite (H x (or_introl eq_refl)); cbn [app].
    apply IH; intros y Hy; apply H; right; exact Hy.
Qed.

Lemma map_filter_nil_iff {A B : Type} (g : A -> B) (p : A -> bool)
    (l : list A) :
  map g (filter p l) = [] <-> forall x, In x l -> p x = false.
Proof.
  induction l as [|x l IH]; cbn [filter]; split.
  - intros _ y [].
  - reflexivity.
  - destruct (p x) eqn:P; cbn [map]; [discriminate|].
    intros H y [<-|Hy]; [exact P | exact (proj1 IH H y Hy)].
  - intros H; rewrite (H x (or_introl eq_refl)).
    apply IH; intros y Hy; apply H; right; exact Hy.
Qed.

(** When the four passes report nothing. *)
Lemma passes_clean_iff (fs : node) (SKILLS_DIR : path)
    (st : obj (list skill)) (broken : list broken_dir) (tr : translations)
    (trs : list (jsstring * obj unit)) (entries : list index_entry) :
  let v := four_passes fs SKILLS_DIR st broken tr trs (tables_of entries) in
  (v_missing v = [] /\ v_orphaned v = [])
  <-> ((forall s i, In (s, i) (scanned_pairs st) ->
          exists e,
            obj_get (expected_path s i) (ix_byPath (tables_of entries))
            = Some e
            /\ hasTranslation tr s (e_id e) = true)
       /\ (forall e, In e entries ->
             existsSync fs (path_join SKILLS_DIR [e_path e; SKILL_md]) = true)
       /\ broken = []
       /\ (forall s i, In (s, i) (translation_pairs trs) ->
             exists e, In e entries /\ e_source e = s /\ e_id e = i)).
Proof.
  intros v; subst v; rewrite missing_passes.
  assert (O : v_orphaned (four_passes fs SKILLS_DIR st broken tr trs
                            (tables_of entries))
              = flat_map
                  (fun q =>
                     if existsb (str_eqb (snd q))
                          (map e_id (get_or_empty (fst q)
                                       (ix_bySource (tables_of entries))))
                     then [] else [orphan_finding (fst q) (snd q)])
                  (translation_pairs trs)).
  { apply orphaned_by_pair. }
  rewrite O; clear O.
  change (ix_entries (tables_of entries)) with entries.
  split.
  - intros [M Or].
    apply app_eq_nil in M as [M1 M]; apply app_eq_nil in M as [M2 M3].
    repeat split.
    + intros s i Hin.
      pose proof (proj1 (flat_map_nil_iff _ _) M1 (s, i) Hin) as F.
      unfold pair_findings in F; cbn [fst snd] in F.
      destruct (obj_get (expected_path s i) _) as [e|]; [|discriminate].
      exists e; split; [reflexivity|].
      destruct (hasTranslation tr s (e_id e)); [reflexivity | discriminate].
    + intros e He.
      pose proof (proj1 (map_filter_nil_iff _ _ _) M2 e He) as F.
      unfold marker_missing in F; apply negb_false_iff in F; exact F.
    + destruct broken; [reflexivity | discriminate].
    + intros s i Hin.
      pose proof (proj1 (flat_map_nil_iff _ _) Or (s, i) Hin) as F.
      cbn [fst snd] in F.
      destruct (existsb _ _) eqn:X; [|discriminate].
      apply valid_id_iff in X; exact X.
  - intros (P1 & P2 & -> & P3); split.
    + replace (flat_map (pair_findings tr (ix_byPath (tables_of entries)))
                 (scanned_pairs st)) with (@nil finding).
      * replace (map skillDir_finding
                   (filter (marker_missing fs SKILLS_DIR) entries))
          with (@nil finding); [reflexivity|].
        symmetry; apply map_filter_nil_iff; intros e He; unfold marker_missing.
        rewrite (P2 e He); reflexivity.
      * symmetry; apply flat_map_nil_iff; intros [s i] Hin.
        destruct (P1 s i Hin) as [e [G T]].
        unfold pair_findings; cbn [fst snd]; rewrite G, T; reflexivity.
    + apply flat_map_nil_iff; intros [s i] Hin; cbn [fst snd].
      replace (existsb _ _) with true; [reflexivity|].
      symmetry; apply valid_id_iff, P3, Hin.
Qed.

Lemma flat_map_singleton {A B : Type} (g : A -> B) (l : list A) :
  flat_map (fun x => [g x]) l = map g l.
Proof. induction l as [|x l IH]; cbn; [|rewrite IH]; reflexivity. Qed.

(* ================================================================== *)
(** ** The records of the index *)

Lemma flush_complete (entries : list index_entry)
    (current : option index_entry) :
  Forall (fun e => complete (Some e) = true) entries ->
  Forall (fun e => complete (Some e) = true) (flush entries current).
Proof.
  intros H; unfold flush; destruct current as [c|]; [|exact H].
  destruct (complete (Some c)) eqn:C; [|exact H].
  apply Forall_app; split; [exact H | constructor; [exact C | constructor]].
Qed.

Lemma index_line_complete (st : ix_state) (line : jsstring) :
  Forall (fun e => complete (Some e) = true) (fst st) ->
  Forall (fun e => complete (Some e) = true) (fst (index_line st line)).
Proof.
  intros H; unfold index_line.
  destruct (js_match false id_line_re line) as [[m caps]|];
    [apply flush_complete, H|].
  destruct (snd st) as [current|]; [|exact H].
  destruct (js_match false (field_line_re (lit "source")) line) as [[m caps]|];
    [exact H|].
  destruct (js_match false (field_line_re (lit "path")) line) as [[m caps]|];
    exact H.
Qed.

Lemma entries_complete (content : jsstring) :
  Forall (fun e => complete (Some e) = true) (entries_of_text content).
Proof.
  unfold entries_of_text; apply flush_complete.
  assert (G : forall l st,
             Forall (fun e => complete (Some e) = true) (fst st) ->
             Forall (fun e => complete (Some e) = true)
               (fst (fold_left index_line l st))).
  { induction l as [|x l IH]; intros st H; cbn [fold_left]; [exact H|].
    apply IH, index_line_complete, H. }
  apply G; constructor.
Qed.

(** X8. Every record [parseIndex] keeps has a non-empty id, source and
    path: a record that lacks one of the three is dropped. *)
Theorem index_entries_complete (content : jsstring) (e : index_entry) :
  In e (entries_of_text content) ->
  e_id e <> [] /\ e_source e <> [] /\ e_path e <> [].
Proof.
  intros H; pose proof (entries_complete content) as F.
  rewrite Forall_forall in F; specialize (F e H).
  unfold complete, truthy in F.
  destruct (e_id e), (e_source e), (e_path e); try discriminate.
  repeat split; discriminate.
Qed.

Lemma index_entries_complete_witness :
  let e := {| e_id := lit "bar"; e_source := lit "other";
              e_path := lit "@foo/bar" |} in
  e_id e <> [] /\ e_source e <> [] /\ e_path e <> [].
Proof.
  intros e; apply (index_entries_complete sample_index_text e).
  vm_compute; left; reflexivity.
Defined.

Lemma find_app {A : Type} (f : A -> bool) (a b : list A) :
  find f (a ++ b) = match find f a with
                    | Some x => Some x
                    | None => find f b
                    end.
Proof.
  induction a as [|x a IH]; cbn [app find]; [reflexivity|].
  destruct (f x); [reflexivity | exact IH].
Qed.

Lemma byPath_fold (entries : list index_entry) ix0 (p : jsstring) :
  p <> proto_key ->
  obj_get p (snd (fold_left table_add entries ix0))
  = match find (fun e => str_eqb (e_path e) p) (rev entries) with
    | Some e => Some e
    | None => obj_get p (snd ix0)
    end.
Proof.
  intros NP; revert ix0; induction entries as [|x l IH]; intros ix0;
    cbn [fold_left rev find]; [reflexivity|].
  rewrite IH, find_app; cbn [find].
  destruct (find _ (rev l)) as [e|]; [reflexivity|].
  rewrite byPath_step.
  destruct (str_eqb (e_path x) p) eqn:E.
  - apply str_eqb_eq in E; subst p.
    destruct (str_eqb (e_path x) proto_key) eqn:K;
      [apply str_eqb_eq in K; contradiction | apply obj_get_set_same].
  - apply str_eqb_neq in E.
    destruct (str_eqb (e_path x) proto_key); [reflexivity|].
    apply obj_get_set_other; congruence.
Qed.

(** X9. The loop that fills the two tables of [parseIndex] ends exactly when
    no record names a source that [Object.prototype] has a member for, and
    raises [TypeError] otherwise.  When it ends, the table by path gives,
    for a path other than [__proto__], the last record of the file that
    carries it; the table by source gives the records of a source in the
    order of the file, and at a name of a member of [Object.prototype] that
    member; the entries are the records themselves. *)
Theorem index_tables (entries : list index_entry) :
  ((exists ix, build_index entries = Ok ix)
   <-> forall e, In e entries -> inherited (e_source e) = false)
  /\ ((exists e, In e entries /\ inherited (e_source e) = true) ->
      build_index entries = Throw TypeError)
  /\ (forall ix, build_index entries = Ok ix ->
        (forall p, p <> proto_key ->
           obj_get p (ix_byPath ix)
           = find (fun e => str_eqb (e_path e) p) (rev entries))
        /\ (forall s,
              get_or_empty s (ix_bySource ix)
              = filter (fun e => str_eqb (e_source e) s) entries)
        /\ (forall s, inherited s = true ->
              js_get s (ix_bySource ix) = Proto)
        /\ ix_entries ix = entries).
Proof.
  assert (R : plain_records entries = true
              <-> forall e, In e entries -> inherited (e_source e) = false).
  { unfold plain_records; rewrite forallb_forall; split; intros H e He.
    - apply negb_true_iff, H, He.
    - apply negb_true_iff, H, He. }
  rewrite build_index_cases; split; [|split].
  - rewrite <- R; destruct (plain_records entries); split;
      try discriminate; try reflexivity.
    + intros _; eexists; reflexivity.
    + intros [ix E]; discriminate.
  - intros [e [He I]]; destruct (plain_records entries) eqn:P;
      [|reflexivity].
    rewrite (proj1 R eq_refl e He) in I; discriminate.
  - intros ix; destruct (plain_records entries) eqn:P; [|discriminate].
    intros [= <-]; repeat split.
    + intros p NP; unfold tables_of; cbn [ix_byPath].
      rewrite (byPath_fold entries ([], []) p NP); cbn [snd obj_get].
      destruct (find _ (rev entries)); reflexivity.
    + intros s; apply (bySource_fold entries ([], []) s).
    + intros s I.
      pose proof (proto_at_plain s _ (tables_own_plain entries P)) as K.
      unfold proto_at in K; rewrite I in K.
      destruct (js_get s (ix_bySource (tables_of entries)));
        [discriminate | reflexivity | discriminate].
Qed.

Lemma dropWhile_app_stop (p : char -> bool) (u : jsstring) (c : char)
    (v : jsstring) :
  forallb p u = true -> p c = false ->
  dropWhile p (u ++ c :: v) = c :: v.
Proof.
  intros F N; induction u as [|x u IH]; cbn [app dropWhile forallb] in *.
  - rewrite N; reflexivity.
  - apply andb_true_iff in F as [F1 F2]; rewrite F1; exact (IH F2).
Qed.

Lemma forallb_rev {A : Type} (p : A -> bool) (l : list A) :
  forallb p (rev l) = forallb p l.
Proof.
  induction l as [|x l IH]; cbn [rev forallb]; [reflexivity|].
  rewrite forallb_app, IH; cbn [forallb]; rewrite andb_true_r.
  apply andb_comm.
Qed.

(** Trimming removes the white space around a text that begins and ends with
    other characters. *)
Lemma trim_around (ws1 ws2 : jsstring) (a : char) (s : jsstring) (b : char) :
  forallb is_space ws1 = true -> forallb is_space ws2 = true ->
  is_space a = false -> is_space b = false ->
  trim (ws1 ++ a :: s ++ b :: ws2) = a :: s ++ [b].
Proof.
  intros W1 W2 A B; unfold trim.
  rewrite (dropWhile_app_stop _ ws1 a _ W1 A).
  replace (rev (a :: s ++ b :: ws2)) with (rev ws2 ++ b :: rev (a :: s)).
  2:{ cbn [rev]; rewrite rev_app_distr; cbn [rev].
      rewrite <- !app_assoc; reflexivity. }
  rewrite (dropWhile_app_stop _ (rev ws2) b _); [| |exact B].
  2:{ rewrite forallb_rev; exact W2. }
  change (rev (b :: rev (a :: s))) with (rev (rev (a :: s)) ++ [b]).
  rewrite rev_involutive; reflexivity.
Qed.

Lemma quote_not_space (q : char) : is_quote q = true -> is_space q = false.
Proof.
  unfold is_quote; intros H; apply orb_true_iff in H as [H|H];
    apply N.eqb_eq in H; subst q; reflexivity.
Qed.

(** X10. [unquote] removes the white space around a value and then one pair
    of surrounding quotes, double or single, whatever lies between them. *)
Theorem unquote_strips_one_pair (q : char) (s ws1 ws2 : jsstring) :
  is_quote q = true ->
  forallb is_space ws1 = true -> forallb is_space ws2 = true ->
  unquote (ws1 ++ q :: s ++ q :: ws2) = s.
Proof.
  intros Q W1 W2; unfold unquote.
  rewrite (trim_around ws1 ws2 q s q W1 W2 (quote_not_space q Q)
             (quote_not_space q Q)).
  assert (E : forall x : char, endsWith [x] (x :: s ++ [x]) = true).
  { intros x; unfold endsWith; cbn [rev]; rewrite rev_app_distr.
    cbn [rev app startsWith]; unfold char_eqb; rewrite N.eqb_refl.
    reflexivity. }
  match goal with
  | |- (if ?c then _ else _) = _ => assert (C : c = true)
  end.
  { unfold is_quote in Q; apply orb_true_iff in Q as [Q|Q];
      apply N.eqb_eq in Q; subst q; apply orb_true_iff; [left | right];
      (apply andb_true_iff; split; [reflexivity | apply E]). }
  rewrite C; unfold slice_1_m1; cbn [tl]; apply removelast_last.
Qed.

Lemma unquote_strips_one_pair_witness :
  unquote (lit "  '@foo/bar' ") = lit "@foo/bar".
Proof.
  apply (unquote_strips_one_pair 39%N (lit "@foo/bar") (lit "  ") (lit " "));
    reflexivity.
Defined.

(* ================================================================== *)
(** ** The frame of a write *)

Lemma same_but_refl (ps : list path) (fs : node) : same_but ps fs fs.
Proof. intros q; repeat split. Qed.

Lemma same_but_trans (ps ps' : list path) (a b c : node) :
  same_but ps a b -> same_but ps' b c -> same_but (ps ++ ps') a c.
Proof.
  intros H1 H2 q; destruct (H1 q) as (E1 & D1 & R1), (H2 q) as (E2 & D2 & R2).
  repeat split; [congruence | congruence|].
  intros N; rewrite R2, R1; [reflexivity | |];
    intros F; apply N, in_or_app; [left | right]; exact F.
Qed.

Lemma assoc_replace_other (c x : jsstring) (n' : node)
    (es : list (jsstring * node)) :
  str_eqb x c = false ->
  assoc_node x (replace_entry c n' es) = assoc_node x es.
Proof.
  intros H; induction es as [|[y n] es IH]; cbn [replace_entry assoc_node];
    [reflexivity|].
  destruct (str_eqb y c) eqn:E; cbn [assoc_node].
  - apply str_eqb_eq in E; subst y.
    rewrite (str_eqb_sym c x), H; reflexivity.
  - destruct (str_eqb y x); [reflexivity | exact IH].
Qed.

Lemma replace_entry_listing (c : jsstring) (child child' : node)
    (es : list (jsstring * node)) :
  assoc_node c es = Some child -> is_dir child' = is_dir child ->
  map dirent_of (replace_entry c child' es) = map dirent_of es.
Proof.
  intros A K; induction es as [|[y n] es IH];
    cbn [replace_entry assoc_node map] in *; [reflexivity|].
  destruct (str_eqb y c) eqn:E; cbn [map].
  - injection A as ->; f_equal.
    unfold dirent_of; cbn [fst snd]; f_equal.
    destruct child, child'; cbn in K; congruence.
  - rewrite (IH A); reflexivity.
Qed.

Lemma lookup_cons (es : list (jsstring * node)) (c : jsstring) (q : path) :
  lookup (Dir es) (c :: q)
  = match assoc_node c es with
    | Some n => lookup n q
    | None => None
    end.
Proof. reflexivity. Qed.

Lemma write_kind (p : path) :
  forall (fs fs' : node) (old content : jsstring),
    lookup fs p = Some (File old) ->
    writeFileSync fs p content = Ok fs' -> is_dir fs' = is_dir fs.
Proof.
  destruct p as [|c p]; intros fs fs' old content L Wr;
    cbn [lookup writeFileSync] in *.
  - injection L as ->; injection Wr as <-; reflexivity.
  - destruct fs as [?|es]; [discriminate|].
    destruct (assoc_node c es) as [child|]; [|discriminate].
    destruct (writeFileSync child p content); cbn [bind] in Wr;
      [injection Wr as <-; reflexivity | discriminate].
Qed.

(** Writing a regular file that exists changes the text of that file only. *)
Lemma write_same_but (p : path) :
  forall (fs fs' : node) (old content : jsstring),
    lookup fs p = Some (File old) ->
    writeFileSync fs p content = Ok fs' -> same_but [p] fs fs'.
Proof.
  induction p as [|c p IH]; intros fs fs' old content L Wr.
  - cbn [lookup writeFileSync] in *; injection L as ->; injection Wr as <-.
    intros [|x q]; unfold existsSync, readdirSync, readFileSync;
      cbn [lookup]; repeat split.
    intros N; exfalso; apply N; left; reflexivity.
  - pose proof (write_kind (c :: p) fs fs' old content L Wr) as K.
    cbn [lookup writeFileSync] in L, Wr.
    destruct fs as [?|es]; [discriminate|].
    destruct (assoc_node c es) as [child|] eqn:A; [|discriminate].
    destruct (writeFileSync child p content) as [child'|] eqn:W;
      cbn [bind] in Wr; [|discriminate].
    injection Wr as <-.
    pose proof (IH child child' old content L W) as S.
    pose proof (write_kind p child child' old content L W) as Kc.
    intros [|x q].
    + unfold existsSync, readdirSync, readFileSync; cbn [lookup].
      rewrite (replace_entry_listing c child child' es A Kc).
      repeat split.
    + unfold existsSync, readdirSync, readFileSync; rewrite !lookup_cons.
      destruct (str_eqb x c) eqn:E.
      * apply str_eqb_eq in E; subst x.
        rewrite assoc_replace, A by congruence.
        destruct (S q) as (S1 & S2 & S3); repeat split;
          [exact S1 | exact S2|].
        intros N; apply S3; intros [F|[]]; apply N; left; congruence.
      * rewrite (assoc_replace_other c x child' es E); repeat split.
Qed.

(** [updateStatsInFile] changes at most the text of the file it is given. *)
Lemma update_same_but (fs : node) (p : path) (n s : N) :
  same_but [p] fs (fst (updateStatsInFile fs p n s)).
Proof.
  unfold updateStatsInFile.
  destruct (negb (existsSync fs p)); [apply same_but_refl|].
  unfold readFileSync.
  destruct (lookup fs p) as [[content|es]|] eqn:L; try apply same_but_refl.
  destruct (snd (rewrite_counts n s content)); [|apply same_but_refl].
  destruct (writeFileSync fs p (fst (rewrite_counts n s content)))
    as [fs'|e] eqn:Wr; [|apply same_but_refl].
  exact (write_same_but p fs fs' content _ L Wr).
Qed.

Lemma same_but_incl (ps ps' : list path) (fs fs' : node) :
  incl ps ps' -> same_but ps fs fs' -> same_but ps' fs fs'.
Proof.
  intros I H q; destruct (H q) as (E & D & R); repeat split;
    [exact E | exact D|].
  intros N; apply R; intros F; apply N, I, F.
Qed.

Lemma update_files_same_but (files : list path) (n s : N) :
  forall (fs : node) (done : list (path * bool)),
    same_but files fs (fst (update_files fs files n s done)).
Proof.
  induction files as [|f files IH]; intros fs done; cbn [update_files].
  - apply same_but_refl.
  - pose proof (update_same_but fs f n s) as U.
    destruct (updateStatsInFile fs f n s) as [fs' [b|e]]; cbn [fst] in U.
    + apply (same_but_trans [f] files fs fs' _ U (IH fs' _)).
    + cbn [fst]; apply (same_but_incl [f]); [|exact U].
      intros x [<-|[]]; left; reflexivity.
Qed.

Lemma main_same_but (ROOT_DIR : path) (args : list jsstring) (fs : node) :
  same_but [path_join ROOT_DIR [lit "README.md"];
            path_join ROOT_DIR [lit "docs"; lit "skills.md"]]
    fs (fst (main ROOT_DIR args fs)).
Proof.
  unfold main.
  destruct (collectStats fs _) as [[st broken]|e]; [|apply same_but_refl].
  match goal with
  | |- same_but _ _ (fst (match ?r with Ok _ => _ | Throw _ => _ end)) =>
      destruct r as [reg|e]; [|apply same_but_refl]
  end.
  destruct (negb _); [apply same_but_refl|].
  pose proof (update_files_same_but
                [path_join ROOT_DIR [lit "README.md"];
                 path_join ROOT_DIR [lit "docs"; lit "skills.md"]]
                (N.of_nat (totalCount_of st)) (N.of_nat (sourceCount_of st))
                fs []) as U.
  destruct (update_files fs _ _ _ _) as [fs' [done|e]]; exact U.
Qed.

(** X4. [updateStatsInFile] creates and deletes nothing and changes no other
    file: afterwards the same paths exist, the directories list the same
    entries, and every file but the one it was given reads as before. *)
Theorem update_touches_one_file (fs : node) (filePath : path)
    (totalCount sourceCount : N) (q : path) :
  let fs' := fst (updateStatsInFile fs filePath totalCount sourceCount) in
  existsSync fs' q = existsSync fs q
  /\ readdirSync fs' q = readdirSync fs q
  /\ (q <> filePath -> readFileSync fs' q = readFileSync fs q).
Proof.
  intros fs'; destruct (update_same_but fs filePath totalCount sourceCount q)
    as (E & D & R).
  repeat split; [exact E | exact D|].
  intros N; apply R; intros [F|[]]; congruence.
Qed.

Lemma update_touches_one_file_witness :
  readFileSync
    (fst (updateStatsInFile (sample_repo stale_readme stale_docs)
            sample_README 2 2)) sample_DOCS
  = Ok stale_docs.
Proof.
  refine (eq_trans
            (proj2 (proj2 (update_touches_one_file
                             (sample_repo stale_readme stale_docs)
                             sample_README 2 2 sample_DOCS)) _) _).
  - intros E; vm_compute in E; discriminate.
  - reflexivity.
Defined.

(** X7. Whatever its arguments, and whether it returns or raises, [main]
    creates and deletes nothing, and the only files whose text it can change
    are [README.md] and [docs/skills.md]. *)
Theorem main_preserves_tree (ROOT_DIR : path) (args : list jsstring)
    (fs : node) (q : path) :
  let fs' := fst (main ROOT_DIR args fs) in
  existsSync fs' q = existsSync fs q
  /\ readdirSync fs' q = readdirSync fs q
  /\ (q <> path_join ROOT_DIR [lit "README.md"] ->
      q <> path_join ROOT_DIR [lit "docs"; lit "skills.md"] ->
      readFileSync fs' q = readFileSync fs q).
Proof.
  intros fs'; destruct (main_same_but ROOT_DIR args fs q) as (E & D & R).
  repeat split; [exact E | exact D|].
  intros N1 N2; apply R; intros [F|[F|[]]]; congruence.
Qed.

Lemma main_preserves_tree_witness :
  readFileSync
    (fst (main [lit "repo"] [fix_flag] (sample_repo stale_readme stale_docs)))
    (sample_root ++ [lit "@a"; lit "s1"; SKILL_md])
  = Ok sample_marker.
Proof.
  refine (eq_trans
            (proj2 (proj2 (main_preserves_tree [lit "repo"] [fix_flag]
                             (sample_repo stale_readme stale_docs)
                             (sample_root ++ [lit "@a"; lit "s1"; SKILL_md])))
               _ _) _).
  - intros E; vm_compute in E; discriminate.
  - intros E; vm_compute in E; discriminate.
  - reflexivity.
Defined.

(* ================================================================== *)
(** ** The flag and the text *)

Lemma stable_agree (r : re) (pre post : jsstring) (n : N) (s : jsstring) :
  stable r (count_callback pre post n) s -> counts_agree r n s = true.
Proof.
  unfold counts_agree, stable, replace_g; cbn [snd].
  induction (scan false r 0 None s) as [|g l IH]; cbn [forallb existsb];
    [reflexivity|].
  intros H; apply orb_false_iff in H as [H1 H2].
  rewrite (IH H2), andb_true_r.
  destruct g as [c|m caps]; cbn [seg_flag] in *; [reflexivity|].
  unfold count_callback in H1.
  destruct (differs (group1 caps) n); [discriminate | reflexivity].
Qed.

(** The flag is unset exactly when the four replacements are stable, and
    then the text is returned as it is. *)
Lemma rewrite_quiet (n s : N) (x : jsstring) :
  snd (rewrite_counts n s x) = false ->
  fst (rewrite_counts n s x) = x
  /\ stable skillCountPattern (skillCount_cb n) x
  /\ stable sourceCountPattern (sourceCount_cb s) x
  /\ stable boldCountPattern (boldCount_cb n) x
  /\ stable viewAllPattern (viewAll_cb n) x.
Proof.
  unfold rewrite_counts; cbn [fst snd]; intros H.
  apply orb_false_iff in H as [H H4]; apply orb_false_iff in H as [H H3].
  apply orb_false_iff in H as [H1 H2].
  pose proof (stable_unchanged _ _ _ (skillCount_well_behaved n) x H1) as E1.
  rewrite E1 in *.
  pose proof (stable_unchanged _ _ _ (sourceCount_well_behaved s) x H2) as E2.
  rewrite E2 in *.
  pose proof (stable_unchanged _ _ _ (boldCount_well_behaved n) x H3) as E3.
  rewrite E3 in *.
  pose proof (stable_unchanged _ _ _ (viewAll_well_behaved n) x H4) as E4.
  repeat split; assumption.
Qed.

Lemma rewrite_flag_changed (n s : N) (x : jsstring) :
  snd (rewrite_counts n s x) = true <-> fst (rewrite_counts n s x) <> x.
Proof.
  split.
  - intros Fl E; pose proof (rewrite_twice n s x) as T.
    rewrite E in T.
    rewrite T in Fl; discriminate.
  - intros N; destruct (snd (rewrite_counts n s x)) eqn:Fl; [reflexivity|].
    exfalso; apply N; exact (proj1 (rewrite_quiet n s x Fl)).
Qed.

Lemma settled_agree (n s : N) (x : jsstring) :
  settled n s x ->
  counts_agree skillCountPattern n x = true
  /\ counts_agree sourceCountPattern s x = true
  /\ counts_agree boldCountPattern n x = true
  /\ counts_agree viewAllPattern n x = true.
Proof.
  intros H; unfold settled in H.
  assert (Fl : snd (rewrite_counts n s x) = false) by (rewrite H; reflexivity).
  destruct (rewrite_quiet n s x Fl) as (_ & S1 & S2 & S3 & S4).
  repeat split; eapply stable_agree; eassumption.
Qed.

Lemma read_lookup (fs : node) (p : path) (c : jsstring) :
  readFileSync fs p = Ok c <-> lookup fs p = Some (File c).
Proof.
  unfold readFileSync; destruct (lookup fs p) as [[x|es]|]; split;
    congruence.
Qed.

Lemma read_exists (fs : node) (p : path) (c : jsstring) :
  readFileSync fs p = Ok c -> existsSync fs p = true.
Proof.
  intros H; apply read_lookup in H; unfold existsSync; rewrite H; reflexivity.
Qed.

(** What [updateStatsInFile] does to a file that reads [content]. *)
Lemma update_of_text (fs : node) (p : path) (n s : N) (content : jsstring) :
  readFileSync fs p = Ok content ->
  exists fs',
    updateStatsInFile fs p n s = (fs', Ok (snd (rewrite_counts n s content)))
    /\ readFileSync fs' p = Ok (fst (rewrite_counts n s content))
    /\ (snd (rewrite_counts n s content) = false -> fs' = fs).
Proof.
  intros R; unfold updateStatsInFile.
  rewrite (read_exists fs p content R), R; cbn [negb].
  destruct (snd (rewrite_counts n s content)) eqn:Fl.
  - destruct (write_then_read p fs content (fst (rewrite_counts n s content))
                (proj1 (read_lookup fs p content) R)) as [fs' [Wr L]].
    rewrite Wr; exists fs'; split; [reflexivity|].
    split; [apply read_lookup, L | discriminate].
  - exists fs; split; [reflexivity|]; split; [|reflexivity].
    rewrite (proj1 (rewrite_quiet n s content Fl)); exact R.
Qed.

(** X3. For a file that can be read, [updateStatsInFile] returns [true]
    exactly when the text of the file has changed; the text afterwards is the
    rewritten one, and on [false] the file system is the one it started
    with. *)
Theorem update_true_iff_changed (fs : node) (filePath : path)
    (totalCount sourceCount : N) (content : jsstring) (fs' : node) (b : bool) :
  readFileSync fs filePath = Ok content ->
  updateStatsInFile fs filePath totalCount sourceCount = (fs', Ok b) ->
  readFileSync fs' filePath
  = Ok (fst (rewrite_counts totalCount sourceCount content))
  /\ (b = true <-> readFileSync fs' filePath <> Ok content)
  /\ (b = false -> fs' = fs).
Proof.
  intros R U.
  destruct (update_of_text fs filePath totalCount sourceCount content R)
    as [fs1 (U1 & R1 & Q1)].
  rewrite U1 in U; injection U as <- <-.
  split; [exact R1|]; split; [|exact Q1].
  split.
  - intros Fl E; rewrite R1 in E.
    apply (proj1 (rewrite_flag_changed totalCount sourceCount content) Fl).
    congruence.
  - intros N; apply rewrite_flag_changed; intros E; apply N.
    rewrite R1, E; reflexivity.
Qed.

Lemma update_true_iff_changed_witness :
  readFileSync (sample_repo fixed_readme stale_docs) sample_README
  = Ok (fst (rewrite_counts 2 2 stale_readme))
  /\ (true = true
      <-> readFileSync (sample_repo fixed_readme stale_docs) sample_README
          <> Ok stale_readme)
  /\ (true = false ->
      sample_repo fixed_readme stale_docs = sample_repo stale_readme stale_docs).
Proof.
  apply (update_true_iff_changed (sample_repo stale_readme stale_docs)
           sample_README 2 2 stale_readme (sample_repo fixed_readme stale_docs)
           true); reflexivity.
Defined.

(** The text [updateStatsInFile] leaves in the file is settled. *)
Lemma update_settles (fs : node) (p : path) (n s : N) (fs' : node) (b : bool) :
  updateStatsInFile fs p n s = (fs', Ok b) ->
  forall y, readFileSync fs' p = Ok y -> settled n s y.
Proof.
  intros U y R.
  destruct (existsSync fs p) eqn:X.
  - destruct (readFileSync fs p) as [content|e] eqn:R0.
    + destruct (update_of_text fs p n s content R0) as [fs1 (U1 & R1 & _)].
      rewrite U1 in U; injection U as <- <-.
      assert (y = fst (rewrite_counts n s content)) by congruence; subst y.
      apply rewrite_twice.
    + unfold updateStatsInFile in U; rewrite X, R0 in U; discriminate.
  - unfold updateStatsInFile in U; rewrite X in U; injection U as <- <-.
    apply read_exists in R; congruence.
Qed.

(** A settled file is left alone. *)
Lemma update_quiet (fs : node) (p : path) (n s : N) :
  (forall y, readFileSync fs p = Ok y -> settled n s y) ->
  (existsSync fs p = true -> exists y, readFileSync fs p = Ok y) ->
  updateStatsInFile fs p n s = (fs, Ok false).
Proof.
  intros S K; unfold updateStatsInFile.
  destruct (existsSync fs p); [|reflexivity]; cbn [negb].
  destruct (K eq_refl) as [y R]; rewrite R.
  rewrite (S y R); reflexivity.
Qed.

Lemma update_ok_file (fs : node) (p : path) (n s : N) (fs' : node) (b : bool) :
  updateStatsInFile fs p n s = (fs', Ok b) ->
  existsSync fs p = true -> exists y, readFileSync fs p = Ok y.
Proof.
  intros U X; unfold updateStatsInFile in U; rewrite X in U; cbn [negb] in U.
  destruct (readFileSync fs p) as [y|e]; [exists y; reflexivity|].
  discriminate.
Qed.

Lemma update_files_done (files : list path) (n s : N) :
  forall (fs fs1 : node) (done done1 : list (path * bool)),
    update_files fs files n s done = (fs1, Ok done1) ->
    NoDup files ->
    (forall p y, In p files -> readFileSync fs1 p = Ok y -> settled n s y)
    /\ (forall p, In p files -> existsSync fs1 p = true ->
          exists y, readFileSync fs1 p = Ok y).
Proof.
  induction files as [|f files IH]; intros fs fs1 done done1 U ND.
  - split; intros p; intros; contradiction.
  - cbn [update_files] in U.
    destruct (updateStatsInFile fs f n s) as [fsA [b|e]] eqn:UA;
      [|discriminate].
    inversion ND as [|? ? Hf ND']; subst.
    pose proof (update_files_same_but files n s fsA (done ++ [(f, b)])) as Fr.
    rewrite U in Fr; cbn [fst] in Fr.
    destruct (Fr f) as (E & _ & R); specialize (R Hf).
    destruct (IH fsA fs1 _ done1 U ND') as [I1 I2].
    pose proof (update_same_but fs f n s) as FrA.
    rewrite UA in FrA; cbn [fst] in FrA.
    split.
    + intros p y [<-|Hp] Rd; [|exact (I1 p y Hp Rd)].
      rewrite R in Rd; exact (update_settles fs f n s fsA b UA y Rd).
    + intros p [<-|Hp] X; [|exact (I2 p Hp X)].
      rewrite R; rewrite E in X.
      destruct (FrA f) as (EA & _ & _); rewrite EA in X.
      destruct (update_ok_file fs f n s fsA b UA X) as [c Rc].
      destruct (update_of_text fs f n s c Rc) as [fs2 (U2 & R2 & _)].
      rewrite U2 in UA; injection UA as <- <-.
      eexists; exact R2.
Qed.

Lemma update_files_quiet (files : list path) (n s : N) (fs : node) :
  (forall p y, In p files -> readFileSync fs p = Ok y -> settled n s y) ->
  (forall p, In p files -> existsSync fs p = true ->
     exists y, readFileSync fs p = Ok y) ->
  forall done,
    update_files fs files n s done
    = (fs, Ok (done ++ map (fun f => (f, false)) files)).
Proof.
  induction files as [|f files IH]; intros S K done; cbn [update_files map].
  - rewrite app_nil_r; reflexivity.
  - rewrite (update_quiet fs f n s).
    + rewrite IH; [rewrite <- app_assoc; reflexivity | |].
      * intros p y Hp; apply S; right; exact Hp.
      * intros p Hp; apply K; right; exact Hp.
    + intros y; apply S; left; reflexivity.
    + apply K; left; reflexivity.
Qed.

Lemma documents_differ (ROOT_DIR : path) :
  NoDup [path_join ROOT_DIR [lit "README.md"];
         path_join ROOT_DIR [lit "docs"; lit "skills.md"]].
Proof.
  constructor; [|constructor; [intros [] | constructor]].
  intros [H|[]].
  rewrite (path_join_name ROOT_DIR (lit "README.md") eq_refl) in H.
  assert (L : length (path_join ROOT_DIR [lit "docs"; lit "skills.md"])
              = S (S (length ROOT_DIR))).
  { unfold path_join; cbn -[lit]; unfold push_component; cbn.
    rewrite !length_app; cbn; lia. }
  rewrite H, length_app in L; cbn in L; lia.
Qed.

(** What [main] did when it returned under [--fix]. *)
Lemma main_fix_run (ROOT_DIR : path) (args : list jsstring) (fs fs1 : node)
    (r : report) :
  In fix_flag args ->
  main ROOT_DIR args fs = (fs1, Ok r) ->
  exists done,
    update_files fs
      [path_join ROOT_DIR [lit "README.md"];
       path_join ROOT_DIR [lit "docs"; lit "skills.md"]]
      (N.of_nat (r_totalCount r)) (N.of_nat (r_sourceCount r)) []
    = (fs1, Ok done).
Proof.
  intros Fix M; apply existsb_str_eqb_In in Fix.
  unfold main in M; rewrite Fix in M; cbn [negb] in M.
  destruct (collectStats fs _) as [[st broken]|e]; [|discriminate].
  match type of M with
  | match ?r with Ok _ => _ | Throw _ => _ end = _ =>
      destruct r as [reg|e]; [|discriminate]
  end.
  destruct (update_files fs _ _ _ _) as [fs' [done|e]] eqn:U; [|discriminate].
  injection M as <- <-; cbn [r_totalCount r_sourceCount].
  exists done; exact U.
Qed.

(** X5. After a run with [--fix] that returned, every number that one of the
    four patterns captures in [README.md] or [docs/skills.md] is the count the
    run reported: [totalCount] for the three skill phrases, [sourceCount] for
    the source phrase. *)
Theorem fix_makes_counts_agree (ROOT_DIR : path) (args : list jsstring)
    (fs fs1 : node) (r : report) (p : path) (y : jsstring) :
  In fix_flag args ->
  main ROOT_DIR args fs = (fs1, Ok r) ->
  In p [path_join ROOT_DIR [lit "README.md"];
        path_join ROOT_DIR [lit "docs"; lit "skills.md"]] ->
  readFileSync fs1 p = Ok y ->
  counts_agree skillCountPattern (N.of_nat (r_totalCount r)) y = true
  /\ counts_agree sourceCountPattern (N.of_nat (r_sourceCount r)) y = true
  /\ counts_agree boldCountPattern (N.of_nat (r_totalCount r)) y = true
  /\ counts_agree viewAllPattern (N.of_nat (r_totalCount r)) y = true.
Proof.
  intros Fix M Hp R.
  destruct (main_fix_run ROOT_DIR args fs fs1 r Fix M) as [done U].
  destruct (update_files_done _ _ _ _ _ _ _ U (documents_differ ROOT_DIR))
    as [S _].
  apply settled_agree, (S p y Hp R).
Qed.

Lemma fix_makes_counts_agree_witness :
  counts_agree skillCountPattern 2 fixed_readme = true
  /\ counts_agree sourceCountPattern 2 fixed_readme = true
  /\ counts_agree boldCountPattern 2 fixed_readme = true
  /\ counts_agree viewAllPattern 2 fixed_readme = true.
Proof.
  apply (fix_makes_counts_agree [lit "repo"] [fix_flag]
           (sample_repo stale_readme stale_docs)
           (sample_repo fixed_readme fixed_docs)
           {| r_totalCount := 2; r_sourceCount := 2; r_registry := None;
              r_updated := [(sample_README, true); (sample_DOCS, true)] |}
           sample_README fixed_readme).
  - left; reflexivity.
  - vm_compute; reflexivity.
  - left; reflexivity.
  - reflexivity.
Defined.

(* ================================================================== *)
(** ** What the analysis reads *)

Lemma foldM_ext_in {A B : Type} (f g : A -> B -> result A) (l : list B) :
  (forall a x, In x l -> f a x = g a x) ->
  forall a, foldM f l a = foldM g l a.
Proof.
  induction l as [|x l IH]; intros H a; cbn [foldM]; [reflexivity|].
  rewrite (H a x (or_introl eq_refl)).
  destruct (g a x) as [a'|e]; cbn [bind]; [|reflexivity].
  apply IH; intros a0 y Hy; apply H; right; exact Hy.
Qed.

Lemma scan_skill_same (ps : list path) (fs fs' : node) (x : jsstring)
    (dir : path) (acc : scan_acc) (e : dirent) :
  same_but ps fs fs' -> scan_skill fs' x dir acc e = scan_skill fs x dir acc e.
Proof.
  intros S; unfold scan_skill.
  destruct (S (path_join (path_join dir [d_name e]) [SKILL_md])) as (E & _).
  rewrite E; reflexivity.
Qed.

Lemma scan_source_same (ps : list path) (fs fs' : node) (d : path)
    (acc : scan_acc) (e : dirent) :
  same_but ps fs fs' -> scan_source fs' d acc e = scan_source fs d acc e.
Proof.
  intros S; unfold scan_source.
  destruct (S (path_join d [d_name e])) as (_ & D & _); rewrite D.
  destruct (negb (d_isDirectory e)); [reflexivity|].
  destruct (negb (startsWith at_sign (d_name e))); [reflexivity|].
  destruct (readdirSync fs _) as [l|err]; cbn [bind]; [|reflexivity].
  f_equal; apply fold_left_ext_in; intros a y.
  apply (scan_skill_same ps), S.
Qed.

Lemma scanSkillDirs_same (ps : list path) (fs fs' : node) (d : path) :
  same_but ps fs fs' -> scanSkillDirs fs' d = scanSkillDirs fs d.
Proof.
  intros S; unfold scanSkillDirs.
  destruct (S d) as (E & D & _); rewrite E, D.
  destruct (negb (existsSync fs d)); [reflexivity|].
  destruct (readdirSync fs d) as [l|err]; cbn [bind]; [|reflexivity].
  apply foldM_ext_in; intros a x _; apply (scan_source_same ps), S.
Qed.

(** Every path the scanner returns ends in [SKILL.md]. *)
Lemma last_join_marker (dir : path) : last (path_join dir [SKILL_md]) [] = SKILL_md.
Proof. rewrite (path_join_name dir SKILL_md SKILL_md_valid); apply last_last. Qed.

Lemma scan_skill_markers (fs : node) (x : jsstring) (dir : path)
    (acc : scan_acc) (e : dirent) :
  (forall p, In p (fst acc) -> last p [] = SKILL_md) ->
  forall p, In p (fst (scan_skill fs x dir acc e)) -> last p [] = SKILL_md.
Proof.
  intros H p; unfold scan_skill.
  destruct (negb (d_isDirectory e)); [apply H|].
  destruct (negb (existsSync fs _)); cbn [fst]; [apply H|].
  intros Hp; apply in_app_or in Hp as [Hp|[<-|[]]];
    [exact (H p Hp) | apply last_join_marker].
Qed.

Lemma scan_inner_markers (fs : node) (x : jsstring) (dir : path)
    (l : list dirent) :
  forall acc,
    (forall p, In p (fst acc) -> last p [] = SKILL_md) ->
    forall p, In p (fst (fold_left (scan_skill fs x dir) l acc)) ->
              last p [] = SKILL_md.
Proof.
  induction l as [|e l IH]; intros acc H; cbn [fold_left]; [exact H|].
  apply IH, scan_skill_markers, H.
Qed.

Lemma scan_outer_markers (fs : node) (d : path) (l : list dirent) :
  forall acc acc',
    (forall p, In p (fst acc) -> last p [] = SKILL_md) ->
    foldM (scan_source fs d) l acc = Ok acc' ->
    forall p, In p (fst acc') -> last p [] = SKILL_md.
Proof.
  induction l as [|e l IH]; intros acc acc' H F; cbn [foldM] in F.
  - injection F as <-; exact H.
  - destruct (scan_source fs d acc e) as [a1|err] eqn:S; cbn [bind] in F;
      [|discriminate].
    apply (IH a1 acc'); [|exact F].
    unfold scan_source in S.
    destruct (negb (d_isDirectory e)); [injection S as <-; exact H|].
    destruct (negb (startsWith at_sign (d_name e)));
      [injection S as <-; exact H|].
    destruct (readdirSync fs _) as [sub|err]; cbn [bind] in S; [|discriminate].
    injection S as <-; apply scan_inner_markers, H.
Qed.

Lemma scan_results_markers (fs : node) (d : path) (sc : scan_acc) :
  scanSkillDirs fs d = Ok sc ->
  forall p, In p (fst sc) -> last p [] = SKILL_md.
Proof.
  unfold scanSkillDirs.
  destruct (negb (existsSync fs d)); [intros [= <-] p []|].
  destruct (readdirSync fs d) as [l|err]; cbn [bind]; [|discriminate].
  apply scan_outer_markers; intros p [].
Qed.

Lemma collect_file_same (ps : list path) (fs fs' : node) (d : path)
    (st : obj (list skill)) (filePath : path) :
  same_but ps fs fs' -> ~ In filePath ps ->
  collect_file fs' d st filePath = collect_file fs d st filePath.
Proof.
  intros S N; unfold collect_file, parseSkillMetadata.
  destruct (S filePath) as (_ & _ & R); rewrite (R N); reflexivity.
Qed.

Lemma collectStats_same (ps : list path) (fs fs' : node) (d : path) :
  same_but ps fs fs' ->
  (forall p, In p ps -> last p [] <> SKILL_md) ->
  collectStats fs' d = collectStats fs d.
Proof.
  intros S N; unfold collectStats; rewrite (scanSkillDirs_same ps fs fs' d S).
  destruct (scanSkillDirs fs d) as [sc|err] eqn:Sc; cbn [bind]; [|reflexivity].
  rewrite (foldM_ext_in (collect_file fs' d) (collect_file fs d));
    [reflexivity|].
  intros a x Hx; apply (collect_file_same ps); [exact S|].
  intros F; apply (N x F), (scan_results_markers fs d sc Sc x Hx).
Qed.

Lemma parseTranslations_same (ps : list path) (fs fs' : node) (p : path) :
  same_but ps fs fs' -> ~ In p ps ->
  parseTranslations fs' p = parseTranslations fs p.
Proof.
  intros S N; unfold parseTranslations.
  destruct (S p) as (E & _ & R); rewrite E, (R N); reflexivity.
Qed.

Lemma parseIndex_same (ps : list path) (fs fs' : node) (p : path) :
  same_but ps fs fs' -> ~ In p ps -> parseIndex fs' p = parseIndex fs p.
Proof.
  intros S N; unfold parseIndex.
  destruct (S p) as (E & _ & R); rewrite E, (R N); reflexivity.
Qed.

Lemma reconcile_same (ps : list path) (fs fs' : node) (d : path)
    (st : obj (list skill)) (broken : list broken_dir) (tr : translations)
    (ix : index) :
  same_but ps fs fs' ->
  reconcile fs' d st broken tr ix = reconcile fs d st broken tr ix.
Proof.
  intros S; unfold reconcile.
  rewrite (fold_left_ext_in (check_entry fs' d) (check_entry fs d));
    [reflexivity|].
  intros acc e; unfold check_entry.
  destruct (S (path_join d [e_path e; SKILL_md])) as (E & _); rewrite E.
  reflexivity.
Qed.

Lemma verifyTranslations_same (ps : list path) (fs fs' : node) (d : path)
    (st : obj (list skill)) (broken : list broken_dir) (reg : path) :
  same_but ps fs fs' ->
  ~ In (path_join reg [lit "i18n"; lit "zh-CN.yaml"]) ps ->
  ~ In (path_join reg [lit "index.yaml"]) ps ->
  verifyTranslations fs' d st broken reg
  = verifyTranslations fs d st broken reg.
Proof.
  intros S N1 N2; unfold verifyTranslations.
  rewrite (parseTranslations_same ps fs fs' _ S N1),
    (parseIndex_same ps fs fs' _ S N2).
  destruct (parseTranslations fs _) as [tr|e]; cbn [bind]; [|reflexivity].
  destruct (parseIndex fs _) as [ix|e]; cbn [bind]; [|reflexivity].
  apply (reconcile_same ps fs fs' d st broken tr ix S).
Qed.

(** The last component of a path built by [path.join] from plain names. *)
Lemma path_join_two (base : path) (x y : jsstring) :
  valid_name x = true -> valid_name y = true ->
  path_join base [x; y] = base ++ [x; y].
Proof.
  intros X Y.
  transitivity (path_join (path_join base [x]) [y]).
  - unfold path_join; cbn [flat_map]; rewrite !app_nil_r, fold_left_app.
    reflexivity.
  - rewrite (path_join_name base x X), (path_join_name _ y Y), <- app_assoc.
    reflexivity.
Qed.

Lemma last_two (base : path) (x y : jsstring) : last (base ++ [x; y]) [] = y.
Proof.
  change (base ++ [x; y]) with (base ++ [x] ++ [y]).
  rewrite app_assoc; apply last_last.
Qed.

Lemma documents_last (ROOT_DIR : path) (p : path) :
  In p [path_join ROOT_DIR [lit "README.md"];
        path_join ROOT_DIR [lit "docs"; lit "skills.md"]] ->
  last p [] = lit "README.md" \/ last p [] = lit "skills.md".
Proof.
  intros [<-|[<-|[]]].
  - left; rewrite (path_join_name _ (lit "README.md") eq_refl).
    apply last_last.
  - right.
    rewrite (path_join_two _ (lit "docs") (lit "skills.md") eq_refl eq_refl).
    apply last_two.
Qed.

(** X6. A run with [--fix] that returned leaves a file system on which a
    second run with the same arguments returns the same counts and the same
    registry findings, updates neither document and changes nothing. *)
Theorem main_fix_twice (ROOT_DIR : path) (args : list jsstring)
    (fs fs1 : node) (r : report) :
  In fix_flag args ->
  main ROOT_DIR args fs = (fs1, Ok r) ->
  main ROOT_DIR args fs1
  = (fs1,
     Ok {| r_totalCount := r_totalCount r;
           r_sourceCount := r_sourceCount r;
           r_registry := r_registry r;
           r_updated :=
             [(path_join ROOT_DIR [lit "README.md"], false);
              (path_join ROOT_DIR [lit "docs"; lit "skills.md"], false)] |}).
Proof.
  intros Fix M.
  pose proof (main_same_but ROOT_DIR args fs) as S; rewrite M in S;
    cbn [fst] in S.
  destruct (main_fix_run ROOT_DIR args fs fs1 r Fix M) as [done U].
  destruct (update_files_done _ _ _ _ _ _ _ U (documents_differ ROOT_DIR))
    as [St K].
  pose proof (update_files_quiet _ _ _ fs1 St K []) as Q; cbn [app map] in Q.
  apply existsb_str_eqb_In in Fix.
  unfold main in M |- *; rewrite Fix in *; cbn [negb] in *.
  rewrite (collectStats_same _ fs fs1 _ S).
  2:{ intros p Hp E; destruct (documents_last ROOT_DIR p Hp) as [L|L];
        rewrite L in E; vm_compute in E; discriminate. }
  destruct (collectStats fs _) as [[st broken]|e]; [|discriminate].
  destruct (S (path_join ROOT_DIR
                 [lit ".."; lit "skillwisp-cli"; lit "registry"]))
    as (E & _); rewrite E.
  rewrite (verifyTranslations_same _ fs fs1 _ st broken _ S).
  2:{ intros Hp; destruct (documents_last ROOT_DIR _ Hp) as [L|L];
        rewrite (path_join_two _ (lit "i18n") (lit "zh-CN.yaml")
                   eq_refl eq_refl), last_two in L;
        vm_compute in L; discriminate. }
  2:{ intros Hp; destruct (documents_last ROOT_DIR _ Hp) as [L|L];
        rewrite (path_join_name _ (lit "index.yaml") eq_refl), last_last in L;
        vm_compute in L; discriminate. }
  match type of M with
  | match ?x with Ok _ => _ | Throw _ => _ end = _ =>
      destruct x as [reg|e]; [|discriminate]
  end.
  destruct (update_files fs _ _ _ _) as [fs' [done'|e]] eqn:U';
    [|discriminate].
  injection M as <- <-; cbn [r_totalCount r_sourceCount r_registry] in *.
  rewrite Q; reflexivity.
Qed.

Lemma main_fix_twice_witness :
  main [lit "repo"] [fix_flag] (sample_repo fixed_readme fixed_docs)
  = (sample_repo fixed_readme fixed_docs,
     Ok {| r_totalCount := 2; r_sourceCount := 2; r_registry := None;
           r_updated := [(sample_README, false); (sample_DOCS, false)] |}).
Proof.
  apply (main_fix_twice [lit "repo"] [fix_flag]
           (sample_repo stale_readme stale_docs)
           (sample_repo fixed_readme fixed_docs)
           {| r_totalCount := 2; r_sourceCount := 2; r_registry := None;
              r_updated := [(sample_README, true); (sample_DOCS, true)] |}).
  - left; reflexivity.
  - vm_compute; reflexivity.
Defined.

(* ================================================================== *)
(** ** A marker that is a directory *)

(** X2. On an existing root [collectStats] returns exactly when every
    [SKILL.md] of a candidate directory is a regular file and no counted
    source is the name of a member of [Object.prototype].  It raises nothing
    but [EISDIR], for a marker that is a directory, and [TypeError], for
    such a source; with one of the two defects alone, that one is raised. *)
Theorem collectStats_returns_iff (fs : node) (skillsDir : path)
    (es : list (jsstring * node)) :
  wf_node fs = true ->
  lookup fs skillsDir = Some (Dir es) ->
  ((exists st broken, collectStats fs skillsDir = Ok (st, broken))
   <-> forallb marker_is_file (candidates es) = true
       /\ forallb plain_source (candidates es) = true)
  /\ (forall e, collectStats fs skillsDir = Throw e ->
         (e = EISDIR /\ forallb marker_is_file (candidates es) = false)
         \/ (e = TypeError
             /\ forallb plain_source (candidates es) = false))
  /\ (forallb plain_source (candidates es) = true ->
      forallb marker_is_file (candidates es) = false ->
      collectStats fs skillsDir = Throw EISDIR)
  /\ (forallb marker_is_file (candidates es) = true ->
      forallb plain_source (candidates es) = false ->
      collectStats fs skillsDir = Throw TypeError).
Proof.
  intros W R; pose proof (collectStats_cases fs skillsDir es W R) as K.
  split; [|split; [|split]].
  - split.
    + intros [st [broken E]]; rewrite E in K; exact K.
    + intros [M P]; eexists; eexists.
      exact (collectStats_exact fs skillsDir es W R M P).
  - intros e E; rewrite E in K; exact K.
  - intros P M; destruct (collectStats fs skillsDir) as [x|e].
    + destruct K as [K _]; congruence.
    + destruct K as [[-> _]|[_ K]]; [reflexivity | congruence].
  - intros M P; destruct (collectStats fs skillsDir) as [x|e].
    + destruct K as [_ K]; congruence.
    + destruct K as [[_ K]|[-> _]]; [congruence | reflexivity].
Qed.

Lemma collectStats_returns_iff_witness :
  collectStats marker_dir_fs [lit "skills"] = Throw EISDIR
  /\ collectStats constructor_fs [lit "skills"] = Throw TypeError.
Proof.
  split.
  - apply (proj1 (proj2 (proj2 (collectStats_returns_iff marker_dir_fs
                                  [lit "skills"]
                                  [(lit "@a",
                                    Dir [(lit "s1",
                                          Dir [(SKILL_md, Dir [])])])]
                                  eq_refl eq_refl))));
      reflexivity.
  - apply (proj2 (proj2 (proj2 (collectStats_returns_iff constructor_fs
                                  [lit "skills"] constructor_skills
                                  eq_refl eq_refl))));
      reflexivity.
Defined.

(* ================================================================== *)
(** ** The statistics, skill by skill *)

Lemma at_sign_slice1 (x : jsstring) :
  startsWith at_sign x = true -> x = at_sign ++ slice1 x.
Proof.
  change at_sign with [64%N].
  destruct x as [|c x]; cbn [startsWith]; [discriminate|].
  rewrite andb_true_r; intros H; apply char_eqb_eq in H; subst c.
  reflexivity.
Qed.

Lemma stats_of_In (skillsDir : path) (es : list (jsstring * node))
    (k : jsstring) (l : list skill) :
  In (k, l) (stats_of skillsDir es) ->
  exists e, In e es /\ is_counted_source e = true /\ k = slice1 (fst e)
            /\ l = map (skill_of skillsDir) (filter has_marker (skill_dirs e)).
Proof.
  unfold stats_of; intros H; apply in_map_iff in H as [e [E H]].
  apply filter_In in H as [H1 H2]; injection E as <- <-.
  exists e; auto.
Qed.

Lemma stats_of_get (skillsDir : path) (es : list (jsstring * node))
    (e : jsstring * node) :
  NoDup (map fst es) -> In e es -> is_counted_source e = true ->
  get_or_empty (slice1 (fst e)) (stats_of skillsDir es)
  = map (skill_of skillsDir) (filter has_marker (skill_dirs e)).
Proof.
  intros ND He C; unfold get_or_empty.
  rewrite (obj_get_NoDup_In (slice1 (fst e))
             (map (skill_of skillsDir) (filter has_marker (skill_dirs e))));
    [reflexivity | apply stats_of_keys_NoDup, ND|].
  unfold stats_of; apply in_map_iff; exists e; split; [reflexivity|].
  apply filter_In; split; assumption.
Qed.

(** X1. For a tree whose markers are regular files and whose counted sources
    are no names of members of [Object.prototype], the statistics hold the
    sources that have a marker, without the at sign: added in the order of
    the root listing, and listed by [Object.keys] with the array indices
    first, ascending, and the other sources behind them in the order of the
    listing.  Under each source stand its skills in the order of the source
    listing.  The id of a skill is the name of its directory, its path is
    the marker [root/@source/id/SKILL.md], and its name and description are
    those parsed from the text of that file. *)
Theorem collectStats_lists_tree (fs : node) (skillsDir : path)
    (es : list (jsstring * node)) :
  wf_node fs = true ->
  lookup fs skillsDir = Some (Dir es) ->
  forallb marker_is_file (candidates es) = true ->
  forallb plain_source (candidates es) = true ->
  exists st broken,
    collectStats fs skillsDir = Ok (st, broken)
    /\ obj_keys st
       = map (fun e => slice1 (fst e)) (filter is_counted_source es)
    /\ js_keys st
       = own_order (fun k => k)
           (map (fun e => slice1 (fst e)) (filter is_counted_source es))
    /\ (forall e, In e es -> is_counted_source e = true ->
          map s_id (get_or_empty (slice1 (fst e)) st)
          = map (fun c => snd (fst c)) (filter has_marker (skill_dirs e)))
    /\ (forall k l sk, In (k, l) st -> In sk l ->
          s_path sk = skillsDir ++ [at_sign ++ k; s_id sk; SKILL_md]
          /\ exists text,
               readFileSync fs (s_path sk) = Ok text
               /\ s_name sk = m_name (metadata_of_text (s_path sk) text)
               /\ s_description sk
                  = m_description (metadata_of_text (s_path sk) text)).
Proof.
  intros W R M Pl.
  eexists; eexists; split;
    [exact (collectStats_exact fs skillsDir es W R M Pl)|].
  assert (ND : NoDup (map fst es)).
  { destruct (root_wf fs skillsDir es W R) as [N _].
    apply andb_true_iff in N as [D _]; apply distinct_NoDup, D. }
  assert (K : obj_keys (stats_of skillsDir es)
              = map (fun e => slice1 (fst e)) (filter is_counted_source es)).
  { unfold obj_keys, stats_of; rewrite map_map; reflexivity. }
  split; [exact K|]; split; [rewrite js_keys_order, K; reflexivity|].
  split.
  - intros e He C; rewrite (stats_of_get skillsDir es e ND He C), map_map.
    reflexivity.
  - intros k l sk Hkl Hsk.
    apply stats_of_In in Hkl as [e (He & C & -> & ->)].
    apply in_map_iff in Hsk as [c [<- Hc]].
    apply filter_In in Hc as [Hc Mc].
    assert (Hcand : In c (candidates es)).
    { apply in_flat_map; exists e; split; assumption. }
    pose proof (skill_dirs_source e c Hc) as Src.
    cbn [skill_of s_path s_id s_name s_description]; split.
    + unfold entry_path; rewrite Src at 1.
      rewrite <- (at_sign_slice1 (fst e) (counted_has_at e C)); reflexivity.
    + pose proof (marker_read fs skillsDir es W R M c Hcand Mc) as P.
      unfold parseSkillMetadata in P.
      destruct (readFileSync fs (entry_path skillsDir c)) as [text|err];
        cbn [bind] in P; [|discriminate].
      injection P as P; exists text; split; [reflexivity|].
      rewrite P; split; reflexivity.
Qed.

Lemma collectStats_lists_tree_witness :
  exists st broken,
    collectStats numeric_fs [lit "skills"] = Ok (st, broken)
    /\ obj_keys st = [lit "10"; lit "b"; lit "2"]
    /\ js_keys st = [lit "2"; lit "10"; lit "b"].
Proof.
  destruct (collectStats_lists_tree numeric_fs [lit "skills"] numeric_skills
              eq_refl eq_refl eq_refl eq_refl)
    as [st [broken [E [K [J _]]]]].
  exists st, broken; split; [exact E|]; split; [exact K | exact J].
Defined.

Lemma split_on_app (sep : char) (a b : jsstring) :
  existsb (char_eqb sep) a = false ->
  split_on sep (a ++ sep :: b) = a :: split_on sep b.
Proof.
  induction a as [|c a IH]; cbn [app split_on existsb]; intros H.
  - unfold char_eqb; rewrite N.eqb_refl; reflexivity.
  - apply orb_false_iff in H as [H1 H2].
    unfold char_eqb in *; rewrite N.eqb_sym, H1, (IH H2); reflexivity.
Qed.




Section Agreement.
Variables (fs : node) (skillsDir : path) (es : list (jsstring * node)).
Hypothesis fs_wf : wf_node fs = true.
Hypothesis root : lookup fs skillsDir = Some (Dir es).


End Agreement.



(* ================================================================== *)
(** ** The key lines of the translation file *)

Lemma mt_Seq {A : Type} (ml : bool) (b : option char) (r1 r2 : re)
    (acc s : jsstring) (caps : list jsstring) (k : cont A) :
  mt ml b (Seq r1 r2) acc s caps k
  = mt ml b r1 acc s caps (fun acc' s' caps' => mt ml b r2 acc' s' caps' k).
Proof. reflexivity. Qed.

Lemma mt_Bol_start {A : Type} (ml : bool) (s : jsstring)
    (caps : list jsstring) (k : cont A) :
  mt ml None Bol [] s caps k = k [] s caps.
Proof. reflexivity. Qed.

Lemma key_line_source : source_line_re = key_line_re (lit "  ") is_src_char.
Proof. reflexivity. Qed.

Lemma key_line_skill : skill_line_re = key_line_re (lit "    ") is_id_char.
Proof. reflexivity. Qed.

(** A match of a key line is the whole line. *)
Lemma key_line_sound (indent : jsstring) (tail : char -> bool)
    (line m : jsstring) (caps : list jsstring) :
  js_match false (key_line_re indent tail) line = Some (m, caps) ->
  exists name,
    key_name tail name = true
    /\ line = indent ++ name ++ [colon] /\ m = line /\ caps = [name].
Proof.
  unfold key_line_re; rewrite js_match_anchored; unfold exec_at.
  change (mt false None
            (Seq (Seq Bol
                   (Seq (Str indent)
                     (Seq (Grp (Seq (Cls is_lower) (Star true tail)))
                       (Chr colon)))) Eol)
            [] line [] (fun acc _ caps => Some (rev acc, caps))
          = Some (m, caps) -> 
          exists name,
            key_name tail name = true
            /\ line = indent ++ name ++ [colon] /\ m = line /\ caps = [name]).
  intros H; rewrite mt_Seq in H.
  apply mt_sound in H as (u & cs & s' & -> & P & K).
  cbn [mt] in K.
  destruct s' as [|x s']; unfold at_eol in K; cbn [andb] in K;
    [|discriminate].
  injection K as <- <-.
  rewrite !app_nil_r, rev_involutive.
  cbn [parses] in P.
  destruct P as (u1 & u2 & c1 & c2 & -> & -> & [-> ->] & P).
  destruct P as (u3 & u4 & c3 & c4 & -> & -> & P3 & P).
  apply parses_Str in P3 as [-> ->].
  destruct P as (u5 & u6 & c5 & c6 & -> & -> & P5 & [-> ->]).
  destruct P5 as (cs1 & (v1 & v2 & d1 & d2 & -> & -> & [[c [-> L]] ->]
                         & [T ->]) & ->).
  exists (c :: v2); cbn [app key_name]; rewrite L, T.
  repeat split.
Qed.

(** A key line is matched, and its name captured. *)
Lemma key_line_complete (indent : jsstring) (tail : char -> bool)
    (name : jsstring) :
  tail colon = false -> key_name tail name = true ->
  js_match false (key_line_re indent tail) (indent ++ name ++ [colon])
  = Some (indent ++ name ++ [colon], [name]).
Proof.
  intros C N; unfold key_line_re; rewrite js_match_anchored; unfold exec_at.
  destruct name as [|c rest]; [discriminate|].
  cbn [key_name] in N; apply andb_true_iff in N as [L T].
  rewrite mt_Seq, mt_Bol_start; cbv beta.
  pose proof (@mt_greedy (jsstring * list jsstring) false None
                (Seq (Str indent)
                   (Seq (Grp (Seq (Cls is_lower) (Star true tail)))
                      (Chr colon)))
                (indent ++ (c :: rest) ++ [colon]) [c :: rest] []) as G.
  rewrite app_nil_r in G.
  change (mt false None
            (Seq (Str indent)
               (Seq (Grp (Seq (Cls is_lower) (Star true tail)))
                  (Seq (Chr colon) Eol)))
            [] (indent ++ (c :: rest) ++ [colon]) []
            (fun acc _ caps => Some (rev acc, caps)))
    with (mt false None
            (Seq (Str indent)
               (Seq (Grp (Seq (Cls is_lower) (Star true tail)))
                  (Chr colon)))
            [] (indent ++ (c :: rest) ++ [colon]) []
            (fun acc s' caps =>
               mt false None Eol acc s' caps
                 (fun acc _ caps => Some (rev acc, caps)))).
  apply G.
  - cbn [greedy_parse].
    exists indent, ((c :: rest) ++ [colon]), [], [c :: rest].
    repeat split; [apply greedy_Str|].
    exists (c :: rest), [colon], [c :: rest], [].
    repeat split.
    exists []; split; [|reflexivity].
    exists [c], rest, [], []; repeat split; eauto.
  - cbn [mt at_eol app]; rewrite app_nil_r, rev_involutive; reflexivity.
Qed.

(** A line that does not end in a colon is no key line. *)
Lemma key_line_needs_colon (indent : jsstring) (tail : char -> bool)
    (line : jsstring) :
  last line LF <> colon ->
  js_match false (key_line_re indent tail) line = None.
Proof.
  intros H.
  destruct (js_match false (key_line_re indent tail) line) as [[m caps]|] eqn:E;
    [|reflexivity].
  apply key_line_sound in E as (name & _ & -> & _).
  exfalso; apply H.
  rewrite app_assoc; apply last_last.
Qed.

Lemma translation_line_skip (st : tr_state) (line : jsstring) :
  last line LF <> colon -> translation_line st line = st.
Proof.
  intros H; unfold translation_line.
  rewrite key_line_source, key_line_skill.
  rewrite !(key_line_needs_colon _ _ line H); reflexivity.
Qed.

(** *** the keys of the parsed file *)

Lemma names_ok_line (st : tr_state) (line : jsstring) :
  names_ok st -> names_ok (translation_line st line).
Proof.
  intros [N1 N2]; unfold translation_line.
  rewrite key_line_source, key_line_skill.
  destruct (js_match false (key_line_re (lit "  ") is_src_char) line)
    as [[m caps]|] eqn:E1.
  - apply key_line_sound in E1 as (name & K & _ & _ & ->).
    cbn [group1 nth]; split; cbn [fst snd].
    + intros s ids H; apply obj_set_In in H as [[-> ->]|H];
        [split; [exact K | intros id []] | exact (N1 s ids H)].
    + intros cs [= <-]; exact K.
  - assert (Same : names_ok st) by (split; assumption).
    destruct (js_match false (key_line_re (lit "    ") is_id_char) line)
      as [[m caps]|] eqn:E2;
      destruct (snd st) as [cs|] eqn:Cs; try exact Same.
    apply key_line_sound in E2 as (name & K & _ & _ & ->).
    cbn [group1 nth]; split; cbn [fst snd].
    + intros s ids H; apply obj_set_In in H as [[-> ->]|H];
        [|exact (N1 s ids H)].
      split; [apply N2; reflexivity|].
      intros id Hid; apply obj_keys_set_In in Hid as [->|Hid]; [exact K|].
      destruct (get_or_empty_In cs (fst st)) as [G|G].
      * rewrite G in Hid; destruct Hid.
      * exact (proj2 (N1 _ _ G) id Hid).
    + intros cs0 E; apply N2; exact E.
Qed.

(** X15. Every source [parseTranslations] returns is one lower-case letter
    followed by lower-case letters, digits and dashes, and every id under it
    one lower-case letter followed by lower-case letters, digits, dots and
    dashes: a key of another shape is never recorded. *)
Theorem translation_keys_wellformed (content : jsstring) (s : jsstring)
    (ids : obj unit) :
  In (s, ids) (translations_of_text content) ->
  source_name s = true
  /\ forall id, In id (obj_keys ids) -> id_name id = true.
Proof.
  unfold translations_of_text.
  assert (G : forall lines st, names_ok st ->
                names_ok (fold_left translation_line lines st)).
  { induction lines as [|l lines IH]; intros st H; cbn [fold_left];
      [exact H | apply IH, names_ok_line, H]. }
  assert (I : names_ok ([], None)).
  { split; [intros ? ? [] | discriminate]. }
  intros H; exact (proj1 (G (split_on LF content) _ I) s ids H).
Qed.

Lemma translation_keys_wellformed_witness :
  source_name (lit "other") = true
  /\ forall id, In id (obj_keys [(lit "bar", tt)]) -> id_name id = true.
Proof.
  apply (translation_keys_wellformed sample_translation_text (lit "other")
           [(lit "bar", tt)]).
  vm_compute; left; reflexivity.
Defined.

(** The names of the parsed translation file are no array indices, so that
    its entries are walked in the order of the file. *)
Lemma key_name_plain (tail : char -> bool) (s : jsstring) :
  key_name tail s = true -> array_index s = None.
Proof.
  destruct s as [|c r]; [discriminate|]; cbn [key_name]; intros H.
  apply andb_true_iff in H as [H _]; apply array_index_none.
  unfold is_lower in H; unfold is_digit.
  apply andb_true_iff in H as [H _]; apply N.leb_le in H.
  apply andb_false_iff; right; apply N.leb_gt; lia.
Qed.

Lemma parsed_names_ok (content : jsstring) :
  names_ok (fold_left translation_line (split_on LF content) ([], None)).
Proof.
  assert (G : forall lines st, names_ok st ->
                names_ok (fold_left translation_line lines st)).
  { induction lines as [|l lines IH]; intros st H; cbn [fold_left];
      [exact H | apply IH, names_ok_line, H]. }
  apply G; split; [intros ? ? [] | discriminate].
Qed.

Lemma parsed_enumerated (content : jsstring) :
  enumerated (translations_of_text content) = translations_of_text content.
Proof.
  pose proof (parsed_names_ok content) as [N _].
  fold (translations_of_text content) in N.
  unfold enumerated; rewrite js_entries_plain.
  - rewrite <- (map_id (translations_of_text content)) at 2.
    apply map_ext_in; intros [k ids] H; cbn [fst snd].
    rewrite js_entries_plain; [reflexivity|].
    intros id Hid; apply (key_name_plain is_id_char).
    exact (proj2 (N k ids H) id Hid).
  - intros k Hk; apply in_map_iff in Hk as [[k' ids] [<- H]].
    apply (key_name_plain is_src_char); exact (proj1 (N k' ids H)).
Qed.

(** Of the names [Object.prototype] has members for, a source of the parsed
    translation file can be [constructor] only. *)
Lemma source_name_inherited (s : jsstring) :
  source_name s = true -> inherited s = str_eqb s (lit "constructor").
Proof.
  intros H; unfold inherited, proto_names, proto_key; cbn [existsb].
  repeat match goal with
         | |- context [str_eqb s (lit ?n)] =>
             lazymatch n with
             | "constructor"%string => fail
             | _ =>
                 let E := fresh "E" in
                 destruct (str_eqb s (lit n)) eqn:E;
                 [apply str_eqb_eq in E; subst s; vm_compute in H;
                  discriminate|]
             end
         end.
  rewrite orb_false_r; reflexivity.
Qed.

(* ================================================================== *)
(** ** A translation file read back *)

(** *** the round trip of a translation file *)

Lemma get_or_empty_last {V : Type} (k : jsstring) (l : list V)
    (o : obj (list V)) :
  obj_get k o = None -> get_or_empty k (o ++ [(k, l)]) = l.
Proof.
  intros H; unfold get_or_empty.
  rewrite obj_get_app_None, H, str_eqb_refl; reflexivity.
Qed.

Lemma tr_update_last (tr0 : obj (obj unit)) (s : jsstring) (ids0 : obj unit)
    (id : jsstring) :
  ~ In s (obj_keys tr0) -> ~ In id (obj_keys ids0) ->
  obj_set s (obj_set id tt (get_or_empty s (tr0 ++ [(s, ids0)])))
    (tr0 ++ [(s, ids0)])
  = tr0 ++ [(s, ids0 ++ [(id, tt)])].
Proof.
  intros F G.
  assert (E1 : get_or_empty s (tr0 ++ [(s, ids0)]) = ids0)
    by (apply get_or_empty_last, obj_get_not_In, F).
  assert (E2 : obj_set id tt ids0 = ids0 ++ [(id, tt)])
    by (apply obj_set_fresh, obj_get_not_In, G).
  assert (E3 : obj_set s (ids0 ++ [(id, tt)]) (tr0 ++ [(s, ids0)])
               = tr0 ++ [(s, ids0 ++ [(id, tt)])])
    by (apply obj_set_last, obj_get_not_In, F).
  rewrite E1, E2; exact E3.
Qed.

Lemma fold_split_line {S : Type} (f : S -> jsstring -> S) (st : S)
    (line rest : jsstring) :
  existsb (char_eqb LF) line = false ->
  fold_left f (split_on LF (line ++ LF :: rest)) st
  = fold_left f (split_on LF rest) (f st line).
Proof.
  intros H; rewrite (split_on_app LF line rest H); reflexivity.
Qed.

Lemma key_name_no_LF (tail : char -> bool) (name : jsstring) :
  tail LF = false -> key_name tail name = true ->
  existsb (char_eqb LF) name = false.
Proof.
  intros T K; destruct name as [|c r]; [reflexivity|].
  cbn [key_name] in K; apply andb_true_iff in K as [L F].
  cbn [existsb]; apply orb_false_iff; split.
  - destruct (char_eqb LF c) eqn:E; [|reflexivity].
    apply char_eqb_eq in E; subst c; discriminate.
  - clear L; induction r as [|x r IH]; [reflexivity|].
    cbn [forallb existsb] in *; apply andb_true_iff in F as [F1 F2].
    rewrite (IH F2), orb_false_r.
    destruct (char_eqb LF x) eqn:E; [|reflexivity].
    apply char_eqb_eq in E; subst x; congruence.
Qed.

Lemma key_line_no_LF (indent : jsstring) (tail : char -> bool)
    (name : jsstring) :
  existsb (char_eqb LF) indent = false ->
  tail LF = false -> key_name tail name = true ->
  existsb (char_eqb LF) (indent ++ name ++ [colon]) = false.
Proof.
  intros I T K; rewrite !existsb_app, I, (key_name_no_LF tail name T K).
  reflexivity.
Qed.

(** A skill line is no source line. *)
Lemma skill_line_not_source (id : jsstring) :
  js_match false source_line_re (lit "    " ++ id ++ [colon]) = None.
Proof.
  rewrite key_line_source.
  destruct (js_match false _ _) as [[m caps]|] eqn:E; [|reflexivity].
  apply key_line_sound in E as (name & K & E & _).
  destruct name as [|c r]; [discriminate|].
  cbn [key_name] in K; apply andb_true_iff in K as [L _].
  cbn in E; injection E as <- _; discriminate.
Qed.

Lemma source_step (tr0 : obj (obj unit)) (cur : option jsstring)
    (s : jsstring) :
  source_name s = true -> ~ In s (obj_keys tr0) ->
  translation_line (tr0, cur) (lit "  " ++ s ++ [colon])
  = (tr0 ++ [(s, [])], Some s).
Proof.
  intros K F; unfold translation_line.
  rewrite key_line_source, (key_line_complete _ _ s eq_refl K).
  cbn [group1 nth fst].
  f_equal; apply obj_set_fresh, obj_get_not_In, F.
Qed.

Lemma skill_step (tr0 : obj (obj unit)) (s : jsstring) (ids0 : obj unit)
    (id : jsstring) :
  id_name id = true -> ~ In s (obj_keys tr0) -> ~ In id (obj_keys ids0) ->
  translation_line (tr0 ++ [(s, ids0)], Some s) (lit "    " ++ id ++ [colon])
  = (tr0 ++ [(s, ids0 ++ [(id, tt)])], Some s).
Proof.
  intros K F G; unfold translation_line.
  rewrite skill_line_not_source.
  rewrite key_line_skill, (key_line_complete _ _ id eq_refl K).
  cbn [group1 nth fst snd].
  f_equal; apply tr_update_last; assumption.
Qed.

Lemma ids_block (tr0 : obj (obj unit)) (s : jsstring) (ids : obj unit) :
  ~ In s (obj_keys tr0) ->
  forall (ids0 : obj unit) (rest : jsstring),
    NoDup (obj_keys (ids0 ++ ids)) ->
    (forall id, In id (obj_keys ids) -> id_name id = true) ->
    fold_left translation_line (split_on LF (render_ids ids ++ rest))
      (tr0 ++ [(s, ids0)], Some s)
    = fold_left translation_line (split_on LF rest)
        (tr0 ++ [(s, ids0 ++ ids)], Some s).
Proof.
  intros F; induction ids as [|[id []] ids IH]; intros ids0 rest ND K.
  - cbn [render_ids flat_map app]; rewrite app_nil_r; reflexivity.
  - assert (Kid : id_name id = true) by (apply K; left; reflexivity).
    cbn [render_ids flat_map fst]; fold (render_ids ids).
    match goal with
    | |- context [split_on LF ?t] =>
        replace t
          with ((lit "    " ++ id ++ [colon]) ++ LF :: render_ids ids ++ rest)
          by (rewrite <- !app_assoc; reflexivity)
    end.
    rewrite fold_split_line
      by (apply (key_line_no_LF (lit "    ") is_id_char id);
          [reflexivity | reflexivity | exact Kid]).
    rewrite (skill_step tr0 s ids0 id Kid F).
    2:{ unfold obj_keys in ND; rewrite map_app in ND; cbn [map fst] in ND.
        apply NoDup_remove_2 in ND; intros H; apply ND, in_or_app; left.
        exact H. }
    etransitivity; [apply (IH (ids0 ++ [(id, tt)]) rest)|].
    + rewrite <- app_assoc; exact ND.
    + intros id' H; apply K; right; exact H.
    + rewrite <- app_assoc; reflexivity.
Qed.

Lemma sources_block (tr : obj (obj unit)) :
  forall (tr0 : obj (obj unit)) (cur : option jsstring) (rest : jsstring),
    NoDup (obj_keys (tr0 ++ tr)) ->
    (forall s ids, In (s, ids) tr ->
       source_name s = true /\ NoDup (obj_keys ids)
       /\ forall id, In id (obj_keys ids) -> id_name id = true) ->
    exists cur',
      fold_left translation_line
        (split_on LF (render_translations tr ++ rest)) (tr0, cur)
      = fold_left translation_line (split_on LF rest) (tr0 ++ tr, cur').
Proof.
  induction tr as [|[s ids] tr IH]; intros tr0 cur rest ND W.
  - exists cur; cbn [render_translations flat_map app]; rewrite app_nil_r.
    reflexivity.
  - destruct (W s ids (or_introl eq_refl)) as (Ks & NDi & Ki).
    assert (F : ~ In s (obj_keys tr0)).
    { unfold obj_keys in ND; rewrite map_app in ND; cbn [map fst] in ND.
      apply NoDup_remove_2 in ND; intros H; apply ND, in_or_app; left.
      exact H. }
    cbn [render_translations flat_map fst snd]; fold (render_translations tr).
    match goal with
    | |- context [split_on LF ?t] =>
        replace t
          with ((lit "  " ++ s ++ [colon])
                ++ LF :: render_ids ids ++ render_translations tr ++ rest)
          by (rewrite <- !app_assoc; reflexivity)
    end.
    rewrite fold_split_line
      by (apply (key_line_no_LF (lit "  ") is_src_char s);
          [reflexivity | reflexivity | exact Ks]).
    rewrite (source_step tr0 cur s Ks F).
    destruct (IH (tr0 ++ [(s, ids)]) (Some s) rest) as [cur' E].
    + rewrite <- app_assoc; exact ND.
    + intros s' ids' H; apply W; right; exact H.
    + exists cur'.
      etransitivity;
        [apply (ids_block tr0 s ids F [] _ NDi Ki)|].
      cbn [app]; etransitivity; [exact E|].
      rewrite <- app_assoc; reflexivity.
Qed.

(** X17. A translation file written in the layout the script expects, one
    line per source with one line per id below it, is read back as it was
    written: the same sources in the same order, and under each the same ids
    in the same order. *)
Theorem translations_round_trip (tr : obj (obj unit)) :
  wf_translations tr ->
  translations_of_text (render_translations tr) = tr.
Proof.
  intros [ND W]; unfold translations_of_text.
  destruct (sources_block tr [] None [] ND W) as [cur' E].
  rewrite app_nil_r in E.
  transitivity (fst (fold_left translation_line (split_on LF []) (tr, cur')));
    [f_equal; exact E|].
  cbn [split_on fold_left].
  rewrite translation_line_skip; [reflexivity | discriminate].
Qed.

Lemma translations_round_trip_witness :
  translations_of_text
    (render_translations
       [(lit "anthropic", [(lit "pdf", tt); (lit "claude.ai", tt)]);
        (lit "aws-skills", [])])
  = [(lit "anthropic", [(lit "pdf", tt); (lit "claude.ai", tt)]);
     (lit "aws-skills", [])].
Proof.
  apply (translations_round_trip
           [(lit "anthropic", [(lit "pdf", tt); (lit "claude.ai", tt)]);
            (lit "aws-skills", [])]).
  split.
  - repeat constructor; cbn; intros H;
      repeat (destruct H as [H|H]; [vm_compute in H; discriminate|]);
      exact H.
  - intros s ids H.
    destruct H as [H|[H|[]]]; injection H as <- <-;
      (split; [reflexivity|]); split.
    + repeat constructor; cbn; intros H;
        repeat (destruct H as [H|H]; [vm_compute in H; discriminate|]);
        exact H.
    + intros id H; repeat (destruct H as [<-|H]; [reflexivity|]);
        destruct H.
    + constructor.
    + intros id [].
Defined.

(* ================================================================== *)
(** ** An index file read back *)

Lemma id_line_body (s : jsstring) :
  exec_at false None id_line_re s
  = mt false None id_body_re [] s []
      (fun acc s' caps =>
         mt false None Eol acc s' caps
           (fun acc _ caps => Some (rev acc, caps))).
Proof. reflexivity. Qed.

Lemma field_line_body (key s : jsstring) :
  exec_at false None (field_line_re key) s
  = mt false None (field_body_re key) [] s []
      (fun acc s' caps =>
         mt false None Eol acc s' caps
           (fun acc _ caps => Some (rev acc, caps))).
Proof. reflexivity. Qed.

Lemma plain_line_parts (v : jsstring) :
  plain_line v = true ->
  exists c r, v = c :: r /\ is_space c = false /\ is_dot c = true
              /\ forallb is_dot r = true /\ is_space (last v c) = false.
Proof.
  destruct v as [|c r]; [discriminate|]; unfold plain_line.
  rewrite !andb_true_iff, !negb_true_iff; cbn [forallb].
  rewrite andb_true_iff; intros [[H1 [H2 H3]] H4].
  exists c, r; auto.
Qed.

Lemma value_greedy (v : jsstring) :
  plain_line v = true -> greedy_parse value_re v [v] [].
Proof.
  intros P; destruct (plain_line_parts v P) as (c & r & -> & _ & D & Dr & _).
  unfold value_re, Plus; cbn [greedy_parse].
  exists (c :: r), [], [c :: r], []; rewrite app_nil_r; repeat split.
  exists []; split; [|reflexivity].
  exists [c], r, [], []; repeat split; eauto.
Qed.

Lemma not_next_plain (v rest : jsstring) :
  plain_line v = true -> not_next is_space (v ++ rest).
Proof.
  intros P; destruct (plain_line_parts v P) as (c & r & -> & S & _).
  exact S.
Qed.

(** An id line is matched, and its value captured. *)
Lemma id_line_match (v : jsstring) :
  plain_line v = true ->
  js_match false id_line_re (lit "  - id: " ++ v)
  = Some (lit "  - id: " ++ v, [v]).
Proof.
  intros P; unfold id_line_re; rewrite js_match_anchored; fold id_line_re.
  rewrite id_line_body.
  pose proof (@mt_greedy (jsstring * list jsstring) false None id_body_re
                (lit "  - id: " ++ v) [v] []) as G.
  rewrite app_nil_r in G; apply G.
  - unfold id_body_re; cbn [greedy_parse].
    exists (lit "  "), (lit "- id: " ++ v), [], [v]; repeat split.
    exists [45%N], (lit " id: " ++ v), [], [v]; repeat split.
    exists (lit " "), (lit "id: " ++ v), [], [v]; repeat split.
    exists (lit "id:"), (lit " " ++ v), [], [v]; repeat split.
    { apply (greedy_Str (lit "id:")). }
    exists (lit " "), v, [], [v]; repeat split.
    + apply (not_next_plain v []), P.
    + apply value_greedy, P.
  - cbn [mt at_eol app]; rewrite app_nil_r, rev_involutive; reflexivity.
Qed.

(** A field line is matched, and its value captured. *)
Lemma field_line_match (key v : jsstring) :
  not_next is_space (key ++ [colon]) -> plain_line v = true ->
  js_match false (field_line_re key) (lit "    " ++ key ++ lit ": " ++ v)
  = Some (lit "    " ++ key ++ lit ": " ++ v, [v]).
Proof.
  intros K P; unfold field_line_re; rewrite js_match_anchored;
    fold (field_line_re key).
  rewrite field_line_body.
  pose proof (@mt_greedy (jsstring * list jsstring) false None
                (field_body_re key)
                (lit "    " ++ key ++ lit ": " ++ v) [v] []) as G.
  rewrite app_nil_r in G; apply G.
  - unfold field_body_re; cbn [greedy_parse].
    exists (lit "    "), (key ++ lit ": " ++ v), [], [v]; repeat split.
    { destruct key as [|k key]; exact K. }
    exists (key ++ [colon]), (lit " " ++ v), [], [v]; repeat split.
    { rewrite <- app_assoc; reflexivity. }
    { apply greedy_Str. }
    exists (lit " "), v, [], [v]; repeat split.
    + apply (not_next_plain v []), P.
    + apply value_greedy, P.
  - cbn [mt at_eol app]; rewrite app_nil_r, rev_involutive; reflexivity.
Qed.

(** A field line is no id line, and a path line no source line. *)
Lemma source_line_not_id (v : jsstring) :
  js_match false id_line_re (lit "    source: " ++ v) = None.
Proof.
  unfold id_line_re; rewrite js_match_anchored; reflexivity.
Qed.

Lemma path_line_not_id (v : jsstring) :
  js_match false id_line_re (lit "    path: " ++ v) = None.
Proof.
  unfold id_line_re; rewrite js_match_anchored; reflexivity.
Qed.

Lemma path_line_not_source (v : jsstring) :
  js_match false (field_line_re (lit "source")) (lit "    path: " ++ v)
  = None.
Proof.
  unfold field_line_re; rewrite js_match_anchored; reflexivity.
Qed.

(** *** values *)

Lemma rev_last_cons (v : jsstring) (d : char) :
  v <> [] -> rev v = last v d :: rev (removelast v).
Proof.
  intros H; rewrite (app_removelast_last d H) at 1.
  rewrite rev_app_distr; reflexivity.
Qed.

Lemma trim_plain (v : jsstring) : plain_line v = true -> trim v = v.
Proof.
  intros P; destruct (plain_line_parts v P) as (c & r & -> & S & _ & _ & L).
  unfold trim; cbn [dropWhile]; rewrite S.
  rewrite (rev_last_cons (c :: r) c) by discriminate.
  cbn [dropWhile]; rewrite L.
  rewrite <- (rev_last_cons (c :: r) c) by discriminate.
  apply rev_involutive.
Qed.

Lemma unquote_bare (v : jsstring) : bare_value v = true -> unquote v = v.
Proof.
  unfold bare_value; intros H; apply andb_true_iff in H as [P Q].
  unfold unquote; rewrite (trim_plain v P).
  destruct v as [|c r]; [discriminate|]; cbn [hd] in Q.
  apply negb_true_iff in Q; unfold is_quote in Q.
  apply orb_false_iff in Q as [Q1 Q2].
  change dquote with [34%N]; change squote with [39%N].
  cbn [startsWith]; unfold char_eqb.
  rewrite (N.eqb_sym 34 c), (N.eqb_sym 39 c), Q1, Q2; reflexivity.
Qed.

Lemma bare_nonempty (v : jsstring) : bare_value v = true -> truthy v = true.
Proof. destruct v; [discriminate | reflexivity]. Qed.

Lemma bare_plain (v : jsstring) : bare_value v = true -> plain_line v = true.
Proof. unfold bare_value; intros H; apply andb_true_iff in H; apply H. Qed.

Lemma dot_no_LF (v : jsstring) :
  forallb is_dot v = true -> existsb (char_eqb LF) v = false.
Proof.
  induction v as [|c v IH]; cbn [forallb existsb]; [reflexivity|].
  intros H; apply andb_true_iff in H as [H1 H2]; rewrite (IH H2), orb_false_r.
  destruct (char_eqb LF c) eqn:E; [|reflexivity].
  apply char_eqb_eq in E; subst c; discriminate.
Qed.

Lemma plain_no_LF (pre v : jsstring) :
  existsb (char_eqb LF) pre = false -> plain_line v = true ->
  existsb (char_eqb LF) (pre ++ v) = false.
Proof.
  intros H P; rewrite existsb_app, H.
  destruct (plain_line_parts v P) as (c & r & -> & _ & D & Dr & _).
  apply (dot_no_LF (c :: r)); cbn [forallb]; rewrite D, Dr; reflexivity.
Qed.

(** *** the loop of parseIndex *)

Lemma id_step (st : ix_state) (v : jsstring) :
  bare_value v = true ->
  index_line st (lit "  - id: " ++ v)
  = (flush (fst st) (snd st),
     Some {| e_id := v; e_source := []; e_path := [] |}).
Proof.
  intros B; unfold index_line.
  rewrite (id_line_match v (bare_plain v B)); cbn [group1 nth].
  rewrite (unquote_bare v B); reflexivity.
Qed.

Lemma source_step_ix (done : list index_entry) (c : index_entry)
    (v : jsstring) :
  bare_value v = true ->
  index_line (done, Some c) (lit "    source: " ++ v)
  = (done, Some {| e_id := e_id c; e_source := v; e_path := e_path c |}).
Proof.
  intros B; unfold index_line.
  rewrite source_line_not_id; cbn [snd fst].
  pose proof (field_line_match (lit "source") v eq_refl (bare_plain v B)) as M.
  change (lit "    " ++ lit "source" ++ lit ": " ++ v)
    with (lit "    source: " ++ v) in M.
  rewrite M; cbn [group1 nth]; rewrite (unquote_bare v B); reflexivity.
Qed.

Lemma path_step_ix (done : list index_entry) (c : index_entry)
    (v : jsstring) :
  bare_value v = true ->
  index_line (done, Some c) (lit "    path: " ++ v)
  = (done, Some {| e_id := e_id c; e_source := e_source c; e_path := v |}).
Proof.
  intros B; unfold index_line.
  rewrite path_line_not_id, path_line_not_source; cbn [snd fst].
  pose proof (field_line_match (lit "path") v eq_refl (bare_plain v B)) as M.
  change (lit "    " ++ lit "path" ++ lit ": " ++ v)
    with (lit "    path: " ++ v) in M.
  rewrite M; cbn [group1 nth]; rewrite (unquote_bare v B); reflexivity.
Qed.

Lemma empty_step_ix (st : ix_state) : index_line st [] = st.
Proof.
  unfold index_line.
  replace (js_match false id_line_re []) with (@None (jsstring * list jsstring))
    by reflexivity.
  destruct (snd st) as [c|]; [|reflexivity].
  replace (js_match false (field_line_re (lit "source")) [])
    with (@None (jsstring * list jsstring)) by reflexivity.
  replace (js_match false (field_line_re (lit "path")) [])
    with (@None (jsstring * list jsstring)) by reflexivity.
  reflexivity.
Qed.

Lemma entry_block (e : index_entry) (st : ix_state) (rest : jsstring) :
  bare_entry e = true ->
  fold_left index_line (split_on LF (render_entry e ++ rest)) st
  = fold_left index_line (split_on LF rest)
      (flush (fst st) (snd st), Some e).
Proof.
  unfold bare_entry; intros B; apply andb_true_iff in B as [B B3].
  apply andb_true_iff in B as [B1 B2].
  unfold render_entry.
  replace ((lit "  - id: " ++ e_id e ++ [LF]
            ++ lit "    source: " ++ e_source e ++ [LF]
            ++ lit "    path: " ++ e_path e ++ [LF]) ++ rest)
    with ((lit "  - id: " ++ e_id e) ++ LF
          :: (lit "    source: " ++ e_source e) ++ LF
          :: (lit "    path: " ++ e_path e) ++ LF :: rest)
    by (rewrite <- !app_assoc; reflexivity).
  rewrite fold_split_line
    by (apply plain_no_LF; [reflexivity | apply bare_plain, B1]).
  rewrite (id_step st (e_id e) B1).
  rewrite fold_split_line
    by (apply plain_no_LF; [reflexivity | apply bare_plain, B2]).
  rewrite (source_step_ix _ _ (e_source e) B2); cbn [e_id e_path].
  rewrite fold_split_line
    by (apply plain_no_LF; [reflexivity | apply bare_plain, B3]).
  rewrite (path_step_ix _ _ (e_path e) B3); cbn [e_id e_source].
  destruct e; reflexivity.
Qed.

Lemma entries_block (entries : list index_entry) :
  forall st : ix_state,
    forallb bare_entry entries = true ->
    (snd st = None \/ complete (snd st) = true) ->
    let st' := fold_left index_line
                 (split_on LF (flat_map render_entry entries)) st in
    flush (fst st') (snd st') = flush (fst st) (snd st) ++ entries.
Proof.
  induction entries as [|e entries IH]; intros st B C st'; subst st'.
  - cbn [flat_map split_on fold_left]; rewrite empty_step_ix, app_nil_r.
    reflexivity.
  - cbn [forallb] in B; apply andb_true_iff in B as [Be B].
    cbn [flat_map]; rewrite (entry_block e st _ Be).
    rewrite (IH _ B); cbn [fst snd].
    + unfold flush at 1.
      assert (Ce : complete (Some e) = true).
      { unfold bare_entry in Be; apply andb_true_iff in Be as [Be B3].
        apply andb_true_iff in Be as [B1 B2]; unfold complete.
        rewrite (bare_nonempty _ B1), (bare_nonempty _ B2),
          (bare_nonempty _ B3); reflexivity. }
      rewrite Ce, <- app_assoc; reflexivity.
    + right; unfold bare_entry in Be; apply andb_true_iff in Be as [Be B3].
      apply andb_true_iff in Be as [B1 B2]; unfold complete.
      rewrite (bare_nonempty _ B1), (bare_nonempty _ B2),
        (bare_nonempty _ B3); reflexivity.
Qed.

(** The records of an index file written in the layout the script expects
    are read back as they were written. *)
Lemma entries_round_trip (entries : list index_entry) :
  forallb bare_entry entries = true ->
  entries_of_text (render_index entries) = entries.
Proof.
  intros B; unfold entries_of_text, render_index.
  replace (lit "skills:" ++ [LF] ++ flat_map render_entry entries)
    with (lit "skills:" ++ LF :: flat_map render_entry entries)
    by reflexivity.
  rewrite fold_split_line by reflexivity.
  replace (index_line ([], None) (lit "skills:")) with (@nil index_entry, @None index_entry)
    by reflexivity.
  apply (entries_block entries ([], None) B); left; reflexivity.
Qed.

(* ================================================================== *)
(** ** The fields of a marker file *)

(** *** searching *)

Lemma search_from_hit (ml : bool) (b : option char) (r : re) (s : jsstring)
    (m : jsstring * list jsstring) :
  exec_at ml b r s = Some m -> search_from ml b r s = Some m.
Proof. intros H; destruct s; cbn [search_from]; rewrite H; reflexivity. Qed.

Lemma search_from_miss (ml : bool) (b : option char) (r : re) (c : char)
    (s : jsstring) :
  exec_at ml b r (c :: s) = None ->
  search_from ml b r (c :: s) = search_from ml (Some c) r s.
Proof. intros H; cbn [search_from]; rewrite H; reflexivity. Qed.

Lemma exec_bol_fail (c : char) (r : re) (s : jsstring) :
  is_line_terminator c = false -> exec_at true (Some c) (Seq Bol r) s = None.
Proof.
  intros H; unfold exec_at; rewrite mt_Seq.
  change (mt true (Some c) Bol [] s [] ?k)
    with (if at_bol true (Some c) [] then k [] s [] else None).
  unfold at_bol; rewrite H; reflexivity.
Qed.

(** Under the [m] flag a search anchored by [^] skips the rest of a line. *)
Lemma search_skip_line (r : re) (t : jsstring) :
  forall (u : jsstring) (c : char),
    is_line_terminator c = false -> forallb is_dot u = true ->
    search_from true (Some c) (Seq Bol r) (u ++ LF :: t)
    = search_from true (Some LF) (Seq Bol r) t.
Proof.
  induction u as [|x u IH]; intros c C D; cbn [app].
  - apply search_from_miss, exec_bol_fail, C.
  - cbn [forallb] in D; apply andb_true_iff in D as [D1 D2].
    rewrite (search_from_miss _ _ _ _ _ (exec_bol_fail c r _ C)).
    apply IH; [|exact D2].
    unfold is_dot in D1; apply negb_true_iff in D1; exact D1.
Qed.

(** *** the name *)

Lemma name_body (b : option char) (s : jsstring) :
  mt true b name_re [] s [] (fun acc _ caps => Some (rev acc, caps))
  = if at_bol true b []
    then mt true b name_body_re [] s []
           (fun acc s' caps =>
              mt true b Eol acc s' caps
                (fun acc _ caps => Some (rev acc, caps)))
    else None.
Proof. reflexivity. Qed.

(** The value of the first line that begins with [name:]: what stands behind
    the white space that follows the colon, up to the end of its line. *)
Lemma name_value (ws v tail : jsstring) :
  forallb is_space ws = true -> plain_line v = true ->
  at_eol true tail = true ->
  js_match true name_re (lit "name:" ++ ws ++ v ++ tail)
  = Some (lit "name:" ++ ws ++ v, [v]).
Proof.
  intros W P T; unfold js_match; apply search_from_hit; unfold exec_at.
  rewrite name_body; cbn [at_bol].
  destruct (plain_line_parts v P) as (c & r & -> & S & D & Dr & _).
  replace (lit "name:" ++ ws ++ (c :: r) ++ tail)
    with ((lit "name:" ++ ws ++ c :: r) ++ tail)
    by (rewrite <- !app_assoc; reflexivity).
  apply (mt_greedy true None name_body_re _ [c :: r] tail).
  - unfold name_body_re, Plus; cbn [greedy_parse].
    exists (lit "name:"), (ws ++ c :: r), [], [c :: r]; repeat split.
    { apply (greedy_Str (lit "name:")). }
    exists ws, (c :: r), [], [c :: r]; repeat split; [exact W | exact S|].
    exists []; split; [|reflexivity].
    exists [c], r, [], []; repeat split; eauto.
    destruct tail as [|x tail]; [exact I|].
    cbn [at_eol andb] in T; cbn [not_next]; unfold is_dot; rewrite T.
    reflexivity.
  - cbn [mt]; rewrite T, app_nil_r, rev_involutive; reflexivity.
Qed.

(** *** the description *)

(** A lazy star stops at the first place where its continuation succeeds. *)
Lemma star_lazy_until {A : Type} (p : char -> bool) (k : cont A)
    (caps : list jsstring) (rest : jsstring) (res : A) :
  forall (u acc : jsstring),
    forallb p u = true ->
    (forall u1 u2, u = u1 ++ u2 -> u2 <> [] ->
       k (rev u1 ++ acc) (u2 ++ rest) caps = None) ->
    k (rev u ++ acc) rest caps = Some res ->
    star_lazy p acc (u ++ rest) caps k = Some res.
Proof.
  induction u as [|c u IH]; intros acc F N K; cbn [app rev] in *.
  - destruct rest; cbn [star_lazy]; rewrite K; reflexivity.
  - cbn [forallb] in F; apply andb_true_iff in F as [F1 F2].
    cbn [star_lazy].
    assert (N0 : k acc (c :: u ++ rest) caps = None).
    { apply (N [] (c :: u) eq_refl); discriminate. }
    rewrite N0, F1; apply IH; [exact F2 | |].
    + intros u1 u2 E NE.
      specialize (N (c :: u1) u2); cbn [app rev] in N.
      rewrite <- app_assoc in N; apply N; [rewrite E; reflexivity | exact NE].
    + rewrite <- app_assoc in K; exact K.
Qed.

Lemma opt_quote_cases (q : jsstring) :
  opt_quote q = true -> q = [] \/ exists c, q = [c] /\ is_quote c = true.
Proof.
  destruct q as [|c [|d q]]; cbn [opt_quote]; intros H;
    [left; reflexivity | right; exists c; auto | discriminate].
Qed.

Lemma quote_is_dot (c : char) : is_quote c = true -> is_dot c = true.
Proof.
  unfold is_quote; intros H; apply orb_true_iff in H as [H|H];
    apply N.eqb_eq in H; subst c; reflexivity.
Qed.

(** What may stand between the description and the end of its line does not
    begin in the middle of a text that ends with another character. *)
Lemma quote_tail_rejects {A : Type} (b : option char) (u q : jsstring) (x : char)
    (acc : jsstring) (caps : list jsstring) (k : cont A) :
  forallb is_dot u = true -> is_space x = false -> is_quote x = false ->
  is_dot x = true -> opt_quote q = true ->
  mt true b quote_tail_re acc (u ++ x :: q) caps
    (fun acc' s' caps' => mt true b Eol acc' s' caps' k)
  = None.
Proof.
  intros D S Q Dx Oq.
  destruct (mt true b quote_tail_re acc (u ++ x :: q) caps _) as [res|] eqn:E;
    [|reflexivity].
  exfalso.
  apply mt_sound in E as (w & cs & s' & E & P & K).
  cbn [mt] in K.
  assert (Dots : forallb is_dot (u ++ x :: q) = true).
  { rewrite forallb_app, D; cbn [forallb]; rewrite Dx.
    destruct (opt_quote_cases q Oq) as [->|[c [-> Qc]]]; cbn [forallb];
      [|rewrite (quote_is_dot c Qc)]; reflexivity. }
  assert (s' = []).
  { destruct s' as [|t s']; [reflexivity|].
    cbn [at_eol andb] in K.
    destruct (is_line_terminator t) eqn:T; [|discriminate].
    rewrite E, forallb_app in Dots; apply andb_true_iff in Dots as [_ Dots].
    cbn [forallb] in Dots; unfold is_dot in Dots; rewrite T in Dots.
    discriminate. }
  subst s'; rewrite app_nil_r in E; subst w.
  unfold quote_tail_re in P; cbn [parses] in P.
  destruct P as (u1 & u2 & c1 & c2 & E & _ & [O _] & [W _]).
  assert (X : In x (u1 ++ u2)).
  { rewrite <- E; apply in_or_app; right; left; reflexivity. }
  apply in_app_or in X as [X|X].
  - destruct O as [->|[c [-> Qc]]]; [destruct X|].
    destruct X as [->|[]]; congruence.
  - rewrite forallb_forall in W; rewrite (W x X) in S; discriminate.
Qed.

Lemma description_body (b : option char) (s : jsstring) :
  mt true b description_re [] s [] (fun acc _ caps => Some (rev acc, caps))
  = if at_bol true b []
    then mt true b (Str (lit "description:")) [] s []
           (fun a1 s1 c1 =>
              mt true b (Star true is_space) a1 s1 c1
                (fun a2 s2 c2 =>
                   mt true b (Opt is_quote) a2 s2 c2
                     (fun a3 s3 c3 =>
                        mt true b (Cls is_dot) a3 s3 c3
                          (fun a4 s4 c4 =>
                             star_lazy is_dot a4 s4 c4
                               (fun a5 s5 c5 =>
                                  mt true b quote_tail_re a5 s5
                                    (c5 ++ [rev (firstn (length a5 - length a3)
                                                   a5)])
                                    (fun a6 s6 c6 =>
                                       mt true b Eol a6 s6 c6
                                         (fun acc _ caps =>
                                            Some (rev acc, caps))))))))
    else None.
Proof. reflexivity. Qed.

Lemma last_default (l : jsstring) (d d' : char) :
  l <> [] -> last l d = last l d'.
Proof.
  induction l as [|x [|y l] IH]; intros H; [contradiction | reflexivity|].
  change (last (y :: l) d = last (y :: l) d'); apply IH; discriminate.
Qed.

Lemma unquoted_parts (v : jsstring) :
  unquoted_text v = true ->
  exists c r,
    v = c :: r /\ is_space c = false /\ is_quote c = false
    /\ is_dot c = true /\ forallb is_dot r = true
    /\ is_space (last v c) = false /\ is_quote (last v c) = false.
Proof.
  unfold unquoted_text, bare_value; rewrite !andb_true_iff, !negb_true_iff.
  intros [[P Qh] Ql].
  destruct (plain_line_parts v P) as (c & r & -> & S & D & Dr & L).
  exists c, r; cbn [hd] in Qh; repeat split; try assumption.
  rewrite (last_default (c :: r) c 0%N) by discriminate; exact Ql.
Qed.

Lemma startsWith_app (l t : jsstring) : startsWith l (l ++ t) = true.
Proof.
  induction l as [|c l IH]; cbn [app startsWith]; [reflexivity|].
  unfold char_eqb; rewrite N.eqb_refl; exact IH.
Qed.

Lemma last_app_nonempty (a u : jsstring) (d : char) :
  u <> [] -> last (a ++ u) d = last u d.
Proof.
  intros H; induction a as [|x a IH]; [reflexivity|].
  cbn [app]; destruct (a ++ u) eqn:E; [|exact IH].
  destruct a; [cbn in E; contradiction | discriminate].
Qed.

Lemma forallb_removelast (p : char -> bool) (l : jsstring) :
  forallb p l = true -> forallb p (removelast l) = true.
Proof.
  induction l as [|x [|y l] IH]; intros H; try reflexivity.
  cbn [forallb] in H; apply andb_true_iff in H as [H1 H2].
  change (removelast (x :: y :: l)) with (x :: removelast (y :: l)).
  cbn [forallb]; rewrite H1; exact (IH H2).
Qed.

(** The end of a description line: the optional closing quote, then the end
    of the text. *)
Lemma quote_tail_end (b : option char) (q acc : jsstring)
    (caps : list jsstring) :
  opt_quote q = true ->
  mt true b quote_tail_re acc q caps
    (fun a6 s6 c6 =>
       mt true b Eol a6 s6 c6 (fun acc _ caps => Some (rev acc, caps)))
  = Some (rev (rev q ++ acc), caps).
Proof.
  intros O; destruct (opt_quote_cases q O) as [->|[c [-> Qc]]].
  - reflexivity.
  - unfold quote_tail_re; cbn [mt star_greedy at_eol]; rewrite Qc.
    reflexivity.
Qed.

(** The value of a description line that ends the frontmatter: the text
    between the optional quotes. *)
Lemma description_value (b : option char) (q1 body q2 : jsstring) :
  at_bol true b [] = true ->
  opt_quote q1 = true -> unquoted_text body = true -> opt_quote q2 = true ->
  exists m,
    exec_at true b description_re (lit "description: " ++ q1 ++ body ++ q2)
    = Some (m, [body]).
Proof.
  intros B O1 U O2; unfold exec_at; rewrite description_body, B.
  destruct (unquoted_parts body U) as (c & r & -> & S & Q & D & Dr & Ls & Lq).
  assert (Main : forall a3,
             star_lazy is_dot (c :: a3) (r ++ q2) []
               (fun a5 s5 c5 =>
                  mt true b quote_tail_re a5 s5
                    (c5 ++ [rev (firstn (length a5 - length a3) a5)])
                    (fun a6 s6 c6 =>
                       mt true b Eol a6 s6 c6
                         (fun acc _ caps => Some (rev acc, caps))))
             = Some (rev (rev q2 ++ rev r ++ c :: a3), [c :: r])).
  { intros a3; apply star_lazy_until; [exact Dr | |].
    - intros u1 u2 E NE.
      rewrite (app_removelast_last c NE), <- app_assoc; cbn [app].
      assert (Lx : last u2 c = last (c :: r) c).
      { rewrite E; change (c :: u1 ++ u2) with ((c :: u1) ++ u2).
        symmetry; apply last_app_nonempty, NE. }
      apply quote_tail_rejects.
      + apply forallb_removelast.
        rewrite E, forallb_app in Dr; apply andb_true_iff in Dr; apply Dr.
      + rewrite Lx; exact Ls.
      + rewrite Lx; exact Lq.
      + assert (Du : forallb is_dot u2 = true).
        { rewrite E, forallb_app in Dr; apply andb_true_iff in Dr; apply Dr. }
        rewrite forallb_forall in Du; apply Du.
        rewrite (app_removelast_last c NE) at 2.
        apply in_or_app; right; left; reflexivity.
      + exact O2.
    - rewrite (quote_tail_end b q2 _ _ O2); cbn [app]; f_equal; f_equal.
      f_equal.
      change (rev r ++ c :: a3) with (rev r ++ [c] ++ a3).
      rewrite app_assoc; change (rev r ++ [c]) with (rev (c :: r)).
      apply firstn_rev_app. }
  change (lit "description: " ++ q1 ++ (c :: r) ++ q2)
    with (lit "description:" ++ [sp] ++ q1 ++ (c :: r) ++ q2).
  rewrite mt_Str, startsWith_app, skipn_length_app.
  destruct (opt_quote_cases q1 O1) as [->|[x [-> Qx]]]; eexists; cbn [mt].
  - apply (star_greedy_munch is_space _ _ ((c :: r) ++ q2) [])
      with (u := [sp]); [exact S | reflexivity|].
    cbn [app]; rewrite Q, D; apply Main.
  - apply (star_greedy_munch is_space _ _ ([x] ++ (c :: r) ++ q2) [])
      with (u := [sp]); [apply quote_not_space, Qx | reflexivity|].
    cbn [app]; rewrite Qx, D, Main; reflexivity.
Qed.

(** *** the block *)

Lemma before_first_line (u t : jsstring) :
  existsb (char_eqb LF) u = false ->
  before_first fm_close (u ++ t) = u ++ before_first fm_close t
  /\ contains fm_close (u ++ t) = contains fm_close t.
Proof.
  induction u as [|c u IH]; intros H; cbn [app]; [split; reflexivity|].
  cbn [existsb] in H; apply orb_false_iff in H as [H1 H2].
  destruct (IH H2) as [I1 I2].
  cbn [before_first contains]; change fm_close with (LF :: lit "---").
  cbn [startsWith]; rewrite H1; cbn [andb orb].
  change (LF :: lit "---") with fm_close; rewrite I1, I2; split; reflexivity.
Qed.

(** A block of two lines, the second of which does not begin with three
    dashes, is cut out as it stands. *)
Lemma two_line_block (l1 l2 rest : jsstring) :
  existsb (char_eqb LF) l1 = false -> existsb (char_eqb LF) l2 = false ->
  startsWith (lit "---") (l2 ++ fm_close ++ rest) = false ->
  has_frontmatter_block (fm_open ++ (l1 ++ LF :: l2) ++ fm_close ++ rest) = true
  /\ frontmatter_of (fm_open ++ (l1 ++ LF :: l2) ++ fm_close ++ rest)
     = l1 ++ LF :: l2.
Proof.
  intros H1 H2 D; unfold has_frontmatter_block, frontmatter_of.
  rewrite startsWith_app.
  change 4%nat with (length fm_open); rewrite skipn_length_app.
  rewrite <- app_assoc; cbn [app].
  destruct (before_first_line l1 (LF :: l2 ++ fm_close ++ rest) H1) as [B1 C1].
  destruct (before_first_line l2 (fm_close ++ rest) H2) as [B2 C2].
  assert (S : startsWith fm_close (LF :: l2 ++ fm_close ++ rest) = false).
  { change fm_close with (LF :: lit "---") at 1; cbn [startsWith].
    rewrite D; reflexivity. }
  assert (E : startsWith fm_close (fm_close ++ rest) = true)
    by apply startsWith_app.
  rewrite B1, C1; cbn [before_first contains]; rewrite S, B2, C2; cbn [orb].
  assert (C3 : contains fm_close (fm_close ++ rest) = true).
  { destruct (fm_close ++ rest) eqn:X; cbn [contains]; rewrite E; reflexivity. }
  assert (B3 : before_first fm_close (fm_close ++ rest) = []).
  { destruct (fm_close ++ rest) eqn:X; cbn [before_first]; rewrite E;
      reflexivity. }
  rewrite C3, B3, app_nil_r; split; reflexivity.
Qed.

Lemma unquoted_plain (v : jsstring) :
  unquoted_text v = true -> plain_line v = true.
Proof.
  unfold unquoted_text; intros H; apply andb_true_iff in H as [H _].
  apply bare_plain, H.
Qed.

Lemma plain_dots (v : jsstring) : plain_line v = true -> forallb is_dot v = true.
Proof.
  intros P; destruct (plain_line_parts v P) as (c & r & -> & _ & D & Dr & _).
  cbn [forallb]; rewrite D, Dr; reflexivity.
Qed.

Lemma opt_quote_dots (q : jsstring) :
  opt_quote q = true -> forallb is_dot q = true.
Proof.
  intros O; destruct (opt_quote_cases q O) as [->|[c [-> Qc]]]; cbn [forallb];
    [|rewrite (quote_is_dot c Qc)]; reflexivity.
Qed.

(** X19. For a marker file in the usual layout, the name line followed by
    the description line, [parseSkillMetadata] returns the name as it is
    written and the description without the quote before it and the quote
    behind it, each of which may be there or not, independently of the
    other. *)
Theorem canonical_frontmatter_parsed (filePath : path)
    (n q1 body q2 rest : jsstring) :
  plain_line n = true -> opt_quote q1 = true ->
  unquoted_text body = true -> opt_quote q2 = true ->
  metadata_of_text filePath (canonical_marker n q1 body q2 rest)
  = {| m_name := n; m_description := body |}.
Proof.
  intros Pn O1 U O2.
  pose proof (unquoted_plain body U) as Pb.
  assert (Dl : forallb is_dot (lit "description: " ++ q1 ++ body ++ q2) = true).
  { rewrite !forallb_app, (opt_quote_dots q1 O1), (plain_dots body Pb),
      (opt_quote_dots q2 O2); reflexivity. }
  destruct (two_line_block (lit "name: " ++ n)
              (lit "description: " ++ q1 ++ body ++ q2) rest) as [Hb Hf].
  { apply plain_no_LF; [reflexivity | exact Pn]. }
  { apply dot_no_LF, Dl. }
  { reflexivity. }
  unfold metadata_of_text, canonical_marker, canonical_frontmatter.
  replace (fm_open
           ++ (lit "name: " ++ n
               ++ LF :: lit "description: " ++ q1 ++ body ++ q2)
           ++ fm_close ++ rest)
    with (fm_open
          ++ ((lit "name: " ++ n)
              ++ LF :: lit "description: " ++ q1 ++ body ++ q2)
          ++ fm_close ++ rest)
    by (rewrite <- !app_assoc; reflexivity).
  rewrite frontmatter_match, Hb, Hf; cbn [group1 nth].
  (* the name *)
  pose proof (name_value [sp] n
                (LF :: lit "description: " ++ q1 ++ body ++ q2)
                eq_refl Pn eq_refl) as Nm.
  replace ((lit "name: " ++ n)
           ++ LF :: lit "description: " ++ q1 ++ body ++ q2)
    with (lit "name:" ++ [sp] ++ n
          ++ LF :: lit "description: " ++ q1 ++ body ++ q2)
    by (rewrite <- !app_assoc; reflexivity).
  rewrite Nm; cbn [group1 nth]; rewrite (trim_plain n Pn).
  (* the description *)
  destruct (description_value (Some LF) q1 body q2 eq_refl O1 U O2) as [m Dm].
  assert (Ds : js_match true description_re
                 (lit "name:" ++ [sp] ++ n
                  ++ LF :: lit "description: " ++ q1 ++ body ++ q2)
               = Some (m, [body])).
  { unfold js_match.
    change (lit "name:" ++ [sp] ++ n
            ++ LF :: lit "description: " ++ q1 ++ body ++ q2)
      with (110%N :: (lit "ame: " ++ n)
            ++ LF :: lit "description: " ++ q1 ++ body ++ q2).
    rewrite search_from_miss by reflexivity.
    unfold description_re; rewrite search_skip_line.
    - apply search_from_hit, Dm.
    - reflexivity.
    - rewrite forallb_app, (plain_dots n Pn); reflexivity. }
  rewrite Ds; cbn [group1 nth]; rewrite (trim_plain body Pb); reflexivity.
Qed.

Lemma canonical_frontmatter_parsed_witness :
  metadata_of_text [lit "skills"; lit "@a"; lit "s1"; SKILL_md]
    (canonical_marker (lit "sqs") dquote (lit "AWS SQS message queue") []
       ([LF] ++ lit "# AWS SQS"))
  = {| m_name := lit "sqs"; m_description := lit "AWS SQS message queue" |}.
Proof.
  apply (canonical_frontmatter_parsed
           [lit "skills"; lit "@a"; lit "s1"; SKILL_md]
           (lit "sqs") dquote (lit "AWS SQS message queue") []
           ([LF] ++ lit "# AWS SQS")); reflexivity.
Defined.

(** X20. A name line with nothing behind the colon does not fall back to
    the directory name: the white space the regex skips includes the line
    feed, so the name is the whole next line. *)
Theorem empty_name_takes_next_line (filePath : path) (line rest : jsstring) :
  plain_line line = true -> hd 0%N line <> 45%N ->
  m_name (metadata_of_text filePath
            (fm_open ++ (lit "name:" ++ LF :: line) ++ fm_close ++ rest))
  = line.
Proof.
  intros P H.
  destruct (two_line_block (lit "name:") line rest) as [Hb Hf].
  { reflexivity. }
  { apply dot_no_LF, plain_dots, P. }
  { destruct (plain_line_parts line P) as (c & r & -> & _).
    cbn [hd] in H; cbn [app].
    change (lit "---") with [45%N; 45%N; 45%N]; cbn [startsWith].
    destruct (char_eqb 45%N c) eqn:E; [|reflexivity].
    apply char_eqb_eq in E; congruence. }
  unfold metadata_of_text; rewrite frontmatter_match, Hb, Hf.
  cbn [group1 nth m_name].
  pose proof (name_value [LF] line [] eq_refl P eq_refl) as Nm.
  rewrite app_nil_r in Nm.
  change (lit "name:" ++ [LF] ++ line) with (lit "name:" ++ LF :: line) in Nm.
  rewrite Nm; cbn [group1 nth]; apply trim_plain, P.
Qed.

Lemma empty_name_takes_next_line_witness :
  m_name (metadata_of_text [lit "skills"; lit "@a"; lit "s1"; SKILL_md]
            (fm_open ++ (lit "name:" ++ LF :: lit "description: queues")
             ++ fm_close ++ []))
  = lit "description: queues".
Proof.
  apply (empty_name_takes_next_line
           [lit "skills"; lit "@a"; lit "s1"; SKILL_md]
           (lit "description: queues") []).
  - reflexivity.
  - intros E; vm_compute in E; discriminate.
Defined.

(* ================================================================== *)
(** ** One count phrase in a text *)

Lemma skillCount_greedy (w1 : jsstring) (d : char) (ds w2 w3 t : jsstring) :
  forallb is_space w1 = true ->
  is_digit d = true -> forallb is_digit ds = true ->
  forallb is_space w2 = true -> forallb is_space w3 = true ->
  greedy_parse skillCountPattern
    (cp_gong :: w1 ++ (d :: ds) ++ w2 ++ cp_ge :: w3 ++ skills_word)
    [d :: ds] t.
Proof.
  intros W1 D Ds W2 W3.
  unfold skillCountPattern; cbn [greedy_parse].
  exists [cp_gong], (w1 ++ (d :: ds) ++ w2 ++ cp_ge :: w3 ++ skills_word),
    [], [d :: ds]; repeat split.
  exists w1, ((d :: ds) ++ w2 ++ cp_ge :: w3 ++ skills_word), [], [d :: ds].
  repeat split; auto.
  - cbn [app not_next]; apply digit_not_space, D.
  - apply count_greedy; assumption.
Qed.

Lemma class_avoids (p : char -> bool) (a : char) (w : jsstring) :
  forallb p w = true -> p a = false ->
  forallb (fun x => negb (char_eqb x a)) w = true.
Proof.
  intros F N; rewrite forallb_forall in *; intros x Hx.
  apply negb_true_iff; destruct (char_eqb x a) eqn:E; [|reflexivity].
  apply char_eqb_eq in E; subst x; rewrite (F a Hx) in N; discriminate.
Qed.

Lemma quiet_avoids (a : char) (x : jsstring) :
  is_trigger a = true -> quiet x = true ->
  forallb (fun c => negb (char_eqb c a)) x = true.
Proof.
  intros T Q; unfold quiet in Q; rewrite forallb_forall in *; intros c Hc.
  specialize (Q c Hc); apply negb_true_iff in Q; apply negb_true_iff.
  destruct (char_eqb c a) eqn:E; [|reflexivity].
  apply char_eqb_eq in E; subst c; congruence.
Qed.

(** A text without the first character of a pattern is left as it is. *)
Lemma replace_none (r : re) (f : jsstring -> list jsstring -> jsstring * bool)
    (a : char) (x : jsstring) :
  well_behaved r f a ->
  forallb (fun c => negb (char_eqb c a)) x = true ->
  replace_g r f x = (x, false).
Proof.
  intros W H; pose proof (replace_skip r f a W x [] H) as E.
  rewrite app_nil_r in E; rewrite E.
  destruct W as (_ & Hnil & _); rewrite (replace_nil r f Hnil).
  cbn [fst snd]; rewrite app_nil_r; reflexivity.
Qed.

Lemma phrase_avoids (a : char) (w1 d w2 w3 : jsstring) :
  is_space a = false -> is_digit a = false ->
  forallb (fun x => negb (char_eqb x a)) (cp_gong :: cp_ge :: skills_word)
  = true ->
  forallb is_space w1 = true -> forallb is_digit d = true ->
  forallb is_space w2 = true -> forallb is_space w3 = true ->
  forallb (fun x => negb (char_eqb x a)) (skill_phrase w1 d w2 w3) = true.
Proof.
  intros S D F W1 Dd W2 W3; unfold skill_phrase.
  cbn [forallb] in F |- *.
  apply andb_true_iff in F as [F1 F]; apply andb_true_iff in F as [F2 F3].
  rewrite F1; cbn [andb].
  rewrite forallb_app, (class_avoids is_space a w1 W1 S); cbn [andb].
  rewrite forallb_app, (class_avoids is_digit a d Dd D); cbn [andb].
  rewrite forallb_app, (class_avoids is_space a w2 W2 S); cbn [andb forallb].
  rewrite F2; cbn [andb].
  rewrite forallb_app, (class_avoids is_space a w3 W3 S); exact F3.
Qed.

Lemma phrase_of_is_phrase (n : N) :
  skill_phrase_of n = skill_phrase [sp] (to_string n) [sp] [sp].
Proof.
  reflexivity.
Qed.

Lemma parseInt_digits (d : jsstring) :
  d <> [] -> forallb is_digit d = true -> parseInt d = Some (digits_value d).
Proof.
  intros NE F; unfold parseInt; rewrite (takeWhile_all _ _ F).
  destruct d; [contradiction | reflexivity].
Qed.

(** The other three replacements pass over a text made of quiet parts around
    a skill count phrase. *)
Lemma others_pass (n s : N) (u x t : jsstring) :
  quiet u = true -> quiet t = true ->
  (forall a, is_space a = false -> is_digit a = false ->
     forallb (fun c => negb (char_eqb c a)) (cp_gong :: cp_ge :: skills_word)
     = true ->
     forallb (fun c => negb (char_eqb c a)) x = true) ->
  replace_g sourceCountPattern (sourceCount_cb s) (u ++ x ++ t)
  = (u ++ x ++ t, false)
  /\ replace_g boldCountPattern (boldCount_cb n) (u ++ x ++ t)
     = (u ++ x ++ t, false)
  /\ replace_g viewAllPattern (viewAll_cb n) (u ++ x ++ t)
     = (u ++ x ++ t, false).
Proof.
  intros Qu Qt X.
  assert (A : forall a, is_trigger a = true ->
                is_space a = false -> is_digit a = false ->
                forallb (fun c => negb (char_eqb c a))
                  (cp_gong :: cp_ge :: skills_word) = true ->
                forallb (fun c => negb (char_eqb c a)) (u ++ x ++ t) = true).
  { intros a T S D F; rewrite !forallb_app, (quiet_avoids a u T Qu),
      (quiet_avoids a t T Qt), (X a S D F); reflexivity. }
  split; [|split].
  - apply (replace_none _ _ cp_lai); [apply sourceCount_well_behaved|].
    apply A; reflexivity.
  - apply (replace_none _ _ star_c); [apply boldCount_well_behaved|].
    apply A; reflexivity.
  - apply (replace_none _ _ cp_cha); [apply viewAll_well_behaved|].
    apply A; reflexivity.
Qed.

(** X21. A skill count phrase between two texts in which no count phrase can
    begin is left as it is, spacing and leading zeros included, when its
    number is the total count; otherwise it is replaced by the phrase with
    single spaces around the count, and the flag is set.  Nothing else in the
    text changes. *)
Theorem skill_phrase_normalised (totalCount sourceCount : N)
    (u w1 d w2 w3 t : jsstring) :
  quiet u = true -> quiet t = true ->
  forallb is_space w1 = true -> forallb is_space w2 = true ->
  forallb is_space w3 = true ->
  d <> [] -> forallb is_digit d = true ->
  rewrite_counts totalCount sourceCount (u ++ skill_phrase w1 d w2 w3 ++ t)
  = if (digits_value d =? totalCount)%N
    then (u ++ skill_phrase w1 d w2 w3 ++ t, false)
    else (u ++ skill_phrase_of totalCount ++ t, true).
Proof.
  intros Qu Qt W1 W2 W3 NE Dd.
  pose proof (skillCount_well_behaved totalCount) as Wb.
  destruct d as [|d0 ds]; [contradiction|].
  pose proof Dd as Dd'; cbn [forallb] in Dd'.
  apply andb_true_iff in Dd' as [D0 Ds].
  assert (E : exec_at false None skillCountPattern
                (skill_phrase w1 (d0 :: ds) w2 w3 ++ t)
              = Some (skill_phrase w1 (d0 :: ds) w2 w3, [d0 :: ds])).
  { apply exec_at_greedy, skillCount_greedy; assumption. }
  assert (R1 : replace_g skillCountPattern (skillCount_cb totalCount)
                 (u ++ skill_phrase w1 (d0 :: ds) w2 w3 ++ t)
               = if (digits_value (d0 :: ds) =? totalCount)%N
                 then (u ++ skill_phrase w1 (d0 :: ds) w2 w3 ++ t, false)
                 else (u ++ skill_phrase_of totalCount ++ t, true)).
  { rewrite (replace_skip _ _ cp_gong Wb u _
               (quiet_avoids cp_gong u eq_refl Qu)).
    rewrite (replace_hit _ _ (wb_free _ _ _ Wb) _ _ _ E) by discriminate.
    rewrite skipn_length_app.
    rewrite (replace_none _ _ cp_gong t Wb
               (quiet_avoids cp_gong t eq_refl Qt)).
    cbn [fst snd]; rewrite orb_false_r.
    unfold skillCount_cb, count_callback, differs; cbn [group1 nth].
    rewrite (parseInt_digits (d0 :: ds) NE Dd).
    destruct (digits_value (d0 :: ds) =? totalCount)%N; cbn [negb fst snd];
      reflexivity. }
  unfold rewrite_counts; rewrite R1.
  destruct (digits_value (d0 :: ds) =? totalCount)%N; cbn [fst snd].
  - destruct (others_pass totalCount sourceCount u
                (skill_phrase w1 (d0 :: ds) w2 w3) t Qu Qt)
      as (P2 & P3 & P4).
    { intros a S D F; apply phrase_avoids; assumption. }
    rewrite P2; cbn [fst snd]; rewrite P3; cbn [fst snd]; rewrite P4.
    reflexivity.
  - destruct (others_pass totalCount sourceCount u
                (skill_phrase_of totalCount) t Qu Qt) as (P2 & P3 & P4).
    { intros a S D F; rewrite phrase_of_is_phrase.
      apply phrase_avoids; try assumption; try reflexivity.
      apply (proj1 (proj2 (to_string_spec totalCount))). }
    rewrite P2; cbn [fst snd]; rewrite P3; cbn [fst snd]; rewrite P4.
    reflexivity.
Qed.

Lemma skill_phrase_normalised_witness :
  rewrite_counts 7 3
    (lit "We have " ++ skill_phrase [] (lit "007") (lit "  ") [] ++ lit "!")
  = (lit "We have " ++ skill_phrase [] (lit "007") (lit "  ") [] ++ lit "!",
     false).
Proof.
  apply (skill_phrase_normalised 7 3 (lit "We have ") [] (lit "007")
           (lit "  ") [] (lit "!")); try reflexivity.
  discriminate.
Defined.

(* ================================================================== *)
(** ** The registry reconciled *)

(** In plain words, the expected path is the at sign, the source, a slash
    and the id. *)
Lemma expected_path_literal (s i : jsstring) :
  expected_path s i = lit "@" ++ s ++ lit "/" ++ i.
Proof. reflexivity. Qed.

Lemma scanned_pairs_In (st : obj (list skill)) (q : jsstring * jsstring) :
  In q (scanned_pairs (js_entries st)) <-> In q (scanned_pairs st).
Proof.
  split; apply Permutation_in;
    [apply scanned_pairs_perm | apply Permutation_sym, scanned_pairs_perm].
Qed.

Lemma enumerated_pairs_In (tr : obj (obj unit)) (q : jsstring * jsstring) :
  In q (translation_pairs (enumerated tr)) <-> In q (translation_pairs tr).
Proof.
  unfold translation_pairs, enumerated; rewrite !in_flat_map; split.
  - intros [kv' [H1 H2]]; apply in_map_iff in H1 as [kv [<- H1]].
    cbn [fst snd] in H2.
    exists kv; split; [apply js_entries_In, H1|].
    apply in_map_iff in H2 as [id [<- H2]]; apply in_map.
    apply (Permutation_in _ (js_keys_perm (snd kv))), H2.
  - intros [kv [H1 H2]].
    exists (fst kv, js_entries (snd kv)); split.
    + apply in_map_iff; exists kv; split;
        [reflexivity | apply js_entries_In, H1].
    + cbn [fst snd]; apply in_map_iff in H2 as [id [<- H2]]; apply in_map.
      apply (Permutation_in _ (Permutation_sym (js_keys_perm (snd kv)))), H2.
Qed.

(** For names that [Object.prototype] has no member for, the lookup of pass 1
    finds what the translation file holds. *)
Lemma hasTranslation_plain (tr : obj (obj unit)) (s id : jsstring) :
  inherited s = false -> inherited id = false ->
  hasTranslation tr s id = in_manifest tr s id.
Proof.
  intros Hs Hi; unfold hasTranslation, in_manifest.
  rewrite (js_get_plain s tr Hs).
  destruct (obj_get s tr) as [ids|]; [|reflexivity].
  rewrite (js_get_plain id ids Hi).
  destruct (obj_get id ids); reflexivity.
Qed.



(** C3, as the code has it.  For a scanned skill [(s, i)] whose path an index
    record carries, the record [e] found by that path decides the id looked
    up, and the source looked up is the scanned one: whenever the
    reconciliation returns, the missing-translation finding for the skill is
    reported if and only if [translations[s][e.id]] is falsy, which for an
    id that [Object.prototype] has no member for means that the translation
    file holds no such id under [s]. *)
Theorem missing_translation_by_scanned_source (fs : node) (SKILLS_DIR : path)
    (st : obj (list skill)) (broken : list broken_dir) (tr : obj (obj unit))
    (entries : list index_entry) (ix : index) (s i : jsstring) :
  In (s, i) (scanned_pairs st) ->
  (exists e0, In e0 entries /\ e_path e0 = lit "@" ++ s ++ lit "/" ++ i) ->
  inherited s = false ->
  build_index entries = Ok ix ->
  exists e,
    obj_get (lit "@" ++ s ++ lit "/" ++ i) (ix_byPath ix) = Some e
    /\ In e entries /\ e_path e = lit "@" ++ s ++ lit "/" ++ i
    /\ (inherited (e_id e) = false ->
        hasTranslation tr s (e_id e) = in_manifest tr s (e_id e))
    /\ ((exists v, reconcile fs SKILLS_DIR st broken tr ix = Ok v)
        <-> forall src, In src (obj_keys tr) -> inherited src = false)
    /\ forall v, reconcile fs SKILLS_DIR st broken tr ix = Ok v ->
         (In {| f_source := s; f_id := e_id e; f_type := T_translation;
                f_path := Some (lit "@" ++ s ++ lit "/" ++ i) |}
             (v_missing v)
          <-> hasTranslation tr s (e_id e) = false).
Proof.
  intros Hin Hex Hs B.
  apply build_index_inv in B as [-> P].
  destruct (translation_finding_iff fs SKILLS_DIR (js_entries st) broken tr
              (enumerated tr) entries s i
              (proj2 (scanned_pairs_In st (s, i)) Hin) Hex)
    as (e & G & He & Hp & F).
  exists e; split; [exact G|]; split; [exact He|]; split; [exact Hp|].
  split; [intros Hi; apply hasTranslation_plain; assumption|].
  split; [apply reconcile_returns, tables_own_plain, P|].
  intros v V; apply reconcile_inv in V; subst v; exact F.
Qed.

Lemma missing_translation_by_scanned_source_witness :
  exists e,
    obj_get (lit "@foo/bar") (ix_byPath sample_index) = Some e
    /\ e_id e = lit "bar"
    /\ forall v,
         reconcile (Dir []) [lit "skills"] sample_stats []
           (translations_of_text sample_translation_text) sample_index
         = Ok v ->
         (In {| f_source := lit "foo"; f_id := e_id e;
                f_type := T_translation; f_path := Some (lit "@foo/bar") |}
             (v_missing v)
          <-> hasTranslation (translations_of_text sample_translation_text)
                (lit "foo") (e_id e) = false).
Proof.
  destruct (missing_translation_by_scanned_source (Dir []) [lit "skills"]
              sample_stats [] (translations_of_text sample_translation_text)
              (entries_of_text sample_index_text) sample_index
              (lit "foo") (lit "bar"))
    as (e & G & _ & _ & _ & _ & F).
  - left; reflexivity.
  - exists {| e_id := lit "bar"; e_source := lit "other";
              e_path := lit "@foo/bar" |}.
    split; [vm_compute; left; reflexivity | reflexivity].
  - reflexivity.
  - vm_compute; reflexivity.
  - exists e; split; [exact G|]; split; [|exact F].
    vm_compute in G; injection G as <-; reflexivity.
Defined.

(** C3, as the claim words it, fails.  The index record of [@foo/bar] names
    the source [other] and the translation file holds [bar] under [other],
    yet the missing-translation finding for the skill is reported, because
    the code looks the source [foo] up. *)
Lemma translation_lookup_ignores_index_source :
  let e := {| e_id := lit "bar"; e_source := lit "other";
              e_path := lit "@foo/bar" |} in
  let tr := translations_of_text sample_translation_text in
  build_index (entries_of_text sample_index_text) = Ok sample_index
  /\ reconcile (Dir []) [lit "skills"] sample_stats [] tr sample_index
     = Ok sample_verification
  /\ obj_get (lit "@foo/bar") (ix_byPath sample_index) = Some e
  /\ In (lit "foo", lit "bar") (scanned_pairs sample_stats)
  /\ ~ (In {| f_source := lit "foo"; f_id := e_id e;
              f_type := T_translation; f_path := Some (lit "@foo/bar") |}
           (v_missing sample_verification)
        <-> in_manifest tr (e_source e) (e_id e) = false).
Proof.
  intros e tr.
  split; [vm_compute; reflexivity|].
  split; [vm_compute; reflexivity|].
  split; [vm_compute; reflexivity|].
  split; [left; reflexivity|].
  intros [H _].
  assert (F : in_manifest tr (e_source e) (e_id e) = false).
  { apply H; vm_compute; left; reflexivity. }
  vm_compute in F; discriminate.
Qed.

(** C4, on the code.  A translation file with the source [constructor] and
    the id [pdf] under it, which no index record carries, is not reported:
    pass 3 finds the member [constructor] of [Object.prototype] where it
    expects the records of the source, and the call of [map] raises, with
    the index file or without it. *)
Theorem constructor_translation_raises :
  translations_of_text constructor_manifest
  = [(lit "constructor", [(lit "pdf", tt)])]
  /\ (forall e, In e (entries_of_text sample_index_text) ->
        e_source e <> lit "constructor")
  /\ verifyTranslations constructor_registry [lit "skills"] sample_stats []
       [lit "registry"]
     = Throw TypeError
  /\ verifyTranslations
       (Dir [(lit "registry",
              Dir [(lit "i18n",
                    Dir [(lit "zh-CN.yaml", File constructor_manifest)])])])
       [lit "skills"] [] [] [lit "registry"]
     = Throw TypeError.
Proof.
  split; [vm_compute; reflexivity|].
  split; [|split; vm_compute; reflexivity].
  intros e H; vm_compute in H; destruct H as [<-|[]]; discriminate.
Qed.

(** X23. For a translation file without the source [constructor] the
    reconciliation returns, and its orphaned list is exact: a pair [(s, i)]
    of the file that no index record of source [s] carries as its id is
    reported exactly once; a pair whose id some index record of source [s]
    carries is not reported, whatever was scanned; and nothing else is
    reported. *)
Theorem orphaned_translations_exact (fs : node) (SKILLS_DIR : path)
    (st : obj (list skill)) (broken : list broken_dir) (content : jsstring)
    (entries : list index_entry) (ix : index) :
  let tr := translations_of_text content in
  build_index entries = Ok ix ->
  ~ In (lit "constructor") (obj_keys tr) ->
  exists v,
    reconcile fs SKILLS_DIR st broken tr ix = Ok v
    /\ (forall s i,
          In (s, i) (translation_pairs tr) ->
          (forall e, In e entries -> e_source e = s -> e_id e <> i) ->
          count_finding (orphan_finding s i) (v_orphaned v) = 1%nat)
    /\ (forall s i,
          (exists e, In e entries /\ e_source e = s /\ e_id e = i) ->
          ~ In (orphan_finding s i) (v_orphaned v))
    /\ (forall f, In f (v_orphaned v) ->
          exists s i, f = orphan_finding s i
            /\ In (s, i) (translation_pairs tr)
            /\ forall e, In e entries -> e_source e = s -> e_id e <> i).
Proof.
  intros tr B NC.
  apply build_index_inv in B as [-> P].
  assert (R : forall src, In src (obj_keys tr) -> inherited src = false).
  { intros src Hs.
    pose proof (parsed_names_ok content) as [N _].
    fold (translations_of_text content) in N; fold tr in N.
    pose proof Hs as Hs'.
    apply in_map_iff in Hs' as [[k ids] [<- H]]; cbn [fst] in *.
    rewrite (source_name_inherited k (proj1 (N k ids H))).
    destruct (str_eqb k (lit "constructor")) eqn:E; [|reflexivity].
    apply str_eqb_eq in E; subst k; contradiction. }
  destruct (proj2 (proj1 (reconcile_returns fs SKILLS_DIR st broken tr
                            (tables_of entries)
                            (tables_own_plain entries P))) R) as [v V].
  exists v; split; [exact V|].
  apply reconcile_inv in V; subst v.
  unfold tr; rewrite parsed_enumerated.
  apply (orphans_exact fs SKILLS_DIR (js_entries st) broken content entries).
Qed.

Lemma orphaned_translations_exact_witness :
  exists v,
    reconcile (Dir []) [lit "skills"] sample_stats []
      (translations_of_text sample_translation_text) (tables_of []) = Ok v
    /\ count_finding (orphan_finding (lit "other") (lit "bar"))
         (v_orphaned v) = 1%nat.
Proof.
  destruct (orphaned_translations_exact (Dir []) [lit "skills"] sample_stats
              [] sample_translation_text [] (tables_of []) eq_refl)
    as (v & V & O & _).
  - vm_compute; intros [H|[]]; discriminate.
  - exists v; split; [exact V|].
    apply O; [vm_compute; left; reflexivity | intros e []].
Defined.

(** X12. With names that [Object.prototype] has no member for, the
    reconciliation returns, and nothing is missing and nothing is orphaned
    exactly when every scanned skill has an index record by its path whose id
    the translation file holds under the scanned source, every index record
    has its [SKILL.md], no directory is broken and every translated id is
    the id of an index record of its source. *)
Theorem registry_clean_iff (fs : node) (SKILLS_DIR : path)
    (st : obj (list skill)) (broken : list broken_dir) (tr : obj (obj unit))
    (entries : list index_entry) (ix : index) :
  build_index entries = Ok ix ->
  (forall src, In src (obj_keys tr) -> inherited src = false) ->
  (forall s i, In (s, i) (scanned_pairs st) -> inherited s = false) ->
  (forall e, In e entries -> inherited (e_id e) = false) ->
  exists v,
    reconcile fs SKILLS_DIR st broken tr ix = Ok v
    /\ ((v_missing v = [] /\ v_orphaned v = [])
        <-> ((forall s i, In (s, i) (scanned_pairs st) ->
                exists e,
                  obj_get (lit "@" ++ s ++ lit "/" ++ i) (ix_byPath ix)
                  = Some e
                  /\ in_manifest tr s (e_id e) = true)
             /\ (forall e, In e entries ->
                   existsSync fs (path_join SKILLS_DIR [e_path e; SKILL_md])
                   = true)
             /\ broken = []
             /\ (forall s i, In (s, i) (translation_pairs tr) ->
                   exists e, In e entries /\ e_source e = s /\ e_id e = i))).
Proof.
  intros B R Hs Hi.
  apply build_index_inv in B as [-> P].
  destruct (proj2 (proj1 (reconcile_returns fs SKILLS_DIR st broken tr
                            (tables_of entries)
                            (tables_own_plain entries P))) R) as [v V].
  exists v; split; [exact V|].
  apply reconcile_inv in V; subst v.
  pose proof (passes_clean_iff fs SKILLS_DIR (js_entries st) broken tr
                (enumerated tr) entries) as K; cbn zeta in K.
  rewrite K; clear K.
  assert (T : forall s i e,
             In (s, i) (scanned_pairs st) ->
             obj_get (expected_path s i) (ix_byPath (tables_of entries))
             = Some e ->
             hasTranslation tr s (e_id e) = in_manifest tr s (e_id e)).
  { intros s i e Hin G; apply hasTranslation_plain; [exact (Hs s i Hin)|].
    apply Hi, (index_byPath_Some entries _ e G). }
  split.
  - intros (P1 & P2 & P3 & P4); repeat split; try assumption.
    + intros s i Hin.
      destruct (P1 s i (proj2 (scanned_pairs_In st (s, i)) Hin))
        as [e [G H]].
      exists e; split; [exact G|].
      rewrite <- (T s i e Hin G); exact H.
    + intros s i Hin; apply P4, (proj2 (enumerated_pairs_In tr (s, i))), Hin.
  - intros (P1 & P2 & P3 & P4); repeat split; try assumption.
    + intros s i Hin; apply (proj1 (scanned_pairs_In st (s, i))) in Hin.
      destruct (P1 s i Hin) as [e [G H]].
      exists e; split; [exact G|].
      rewrite (T s i e Hin G); exact H.
    + intros s i Hin; apply P4, (proj1 (enumerated_pairs_In tr (s, i))), Hin.
Qed.

Lemma registry_clean_iff_witness :
  exists v,
    reconcile (Dir []) [lit "skills"] sample_stats []
      (translations_of_text sample_translation_text) sample_index = Ok v
    /\ ~ (v_missing v = [] /\ v_orphaned v = []).
Proof.
  destruct (registry_clean_iff (Dir []) [lit "skills"] sample_stats []
              (translations_of_text sample_translation_text)
              (entries_of_text sample_index_text) sample_index)
    as (v & V & K).
  - vm_compute; reflexivity.
  - intros src Hs; vm_compute in Hs; destruct Hs as [<-|[]]; reflexivity.
  - intros s i Hin; vm_compute in Hin; destruct Hin as [[= <- <-]|[]].
    reflexivity.
  - intros e He; vm_compute in He; destruct He as [<-|[]]; reflexivity.
  - exists v; split; [exact V|].
    intros C; destruct (proj1 K C) as (_ & P2 & _).
    assert (He : In {| e_id := lit "bar"; e_source := lit "other";
                       e_path := lit "@foo/bar" |}
                   (entries_of_text sample_index_text)).
    { vm_compute; left; reflexivity. }
    specialize (P2 _ He); vm_compute in P2; discriminate.
Defined.

(** X13. When [index.yaml] does not exist in the registry, the verification
    raises [TypeError] for a translation file with the source [constructor]
    and returns otherwise: every scanned skill is then reported as missing
    from the index, in the order of [Object.entries], every broken directory
    as [missingSkillMd], every translation as orphaned, and nothing else. *)
Theorem missing_index_file_reports_all (fs : node) (SKILLS_DIR : path)
    (st : obj (list skill)) (broken : list broken_dir)
    (cliRegistryPath : path) (tr : obj (obj unit)) :
  existsSync fs (path_join cliRegistryPath [lit "index.yaml"]) = false ->
  parseTranslations fs
    (path_join cliRegistryPath [lit "i18n"; lit "zh-CN.yaml"]) = Ok tr ->
  (In (lit "constructor") (obj_keys tr) ->
   verifyTranslations fs SKILLS_DIR st broken cliRegistryPath
   = Throw TypeError)
  /\ (~ In (lit "constructor") (obj_keys tr) ->
      exists v,
        verifyTranslations fs SKILLS_DIR st broken cliRegistryPath = Ok v
        /\ v_missing v
           = map (fun q =>
                    {| f_source := fst q; f_id := snd q; f_type := T_index;
                       f_path := Some (lit "@" ++ fst q ++ lit "/" ++ snd q) |})
               (scanned_pairs (js_entries st))
             ++ map missingSkillMd_finding broken
        /\ v_orphaned v
           = map (fun q => orphan_finding (fst q) (snd q))
               (translation_pairs tr)
        /\ v_indexEntries v = []).
Proof.
  intros X T.
  destruct (parseTranslations_parsed _ _ _ T) as [content ->].
  unfold verifyTranslations, parseIndex; rewrite T, X; cbn [negb bind].
  assert (E : empty_index = tables_of []) by reflexivity.
  assert (P : own_plain (ix_bySource empty_index)) by (intros k []).
  split.
  - intros C.
    apply (proj2 (reconcile_returns fs SKILLS_DIR st broken _ empty_index P)).
    exists (lit "constructor"); split; [exact C | reflexivity].
  - intros NC.
    assert (R : forall src, In src (obj_keys (translations_of_text content)) ->
                  inherited src = false).
    { intros src Hs.
      pose proof (parsed_names_ok content) as [N _].
      fold (translations_of_text content) in N.
      pose proof Hs as Hs'.
      apply in_map_iff in Hs' as [[k ids] [<- H]]; cbn [fst] in *.
      rewrite (source_name_inherited k (proj1 (N k ids H))).
      destruct (str_eqb k (lit "constructor")) eqn:K; [|reflexivity].
      apply str_eqb_eq in K; subst k; contradiction. }
    destruct (proj2 (proj1 (reconcile_returns fs SKILLS_DIR st broken _
                              empty_index P)) R) as [v V].
    exists v; split; [exact V|].
    apply reconcile_inv in V; subst v; rewrite parsed_enumerated.
    split; [|split; [|reflexivity]].
    + rewrite missing_passes;
        cbn [empty_index ix_entries ix_byPath filter map app].
      rewrite <- (flat_map_singleton
                    (fun q : jsstring * jsstring =>
                       {| f_source := fst q; f_id := snd q; f_type := T_index;
                          f_path := Some (lit "@" ++ fst q ++ lit "/" ++ snd q) |})).
      reflexivity.
    + unfold four_passes; cbn [v_orphaned empty_index ix_bySource].
      rewrite orphaned_by_pair.
      rewrite <- (flat_map_singleton
                    (fun q : jsstring * jsstring =>
                       orphan_finding (fst q) (snd q))).
      reflexivity.
Qed.

Lemma missing_index_file_reports_all_witness :
  exists v,
    verifyTranslations (Dir [(lit "registry", Dir [])]) [lit "skills"]
      sample_stats [] [lit "registry"] = Ok v
    /\ v_missing v
       = [{| f_source := lit "foo"; f_id := lit "bar"; f_type := T_index;
             f_path := Some (lit "@foo/bar") |}].
Proof.
  destruct (missing_index_file_reports_all (Dir [(lit "registry", Dir [])])
              [lit "skills"] sample_stats [] [lit "registry"] []
              eq_refl eq_refl) as [_ K].
  destruct K as [v [E [M _]]]; [intros []|].
  exists v; split; [exact E | exact M].
Defined.

(* ================================================================== *)
(** ** A source named [constructor] *)

(** C1, on the code.  A tree with the sources [a] and [constructor], one
    marked skill under each, has two markers and two counted sources, but
    [collectStats] returns no counts: for the source [constructor] the test
    finds the member of [Object.prototype], nothing is assigned, and the call
    of [push] raises, with or without [--fix]. *)
Theorem constructor_source_raises :
  length (filter has_marker (candidates constructor_skills)) = 2%nat
  /\ length (filter is_counted_source constructor_skills) = 2%nat
  /\ collectStats constructor_fs [lit "skills"] = Throw TypeError
  /\ main [] [] constructor_fs = (constructor_fs, Throw TypeError)
  /\ main [] [fix_flag] constructor_fs = (constructor_fs, Throw TypeError).
Proof. repeat split; vm_compute; reflexivity. Qed.

(** *** what the statistics never hold *)

Lemma foldM_invariant {A B : Type} (I : A -> Prop) (f : A -> B -> result A)
    (l : list B) :
  (forall a b a', I a -> f a b = Ok a' -> I a') ->
  forall a a', I a -> foldM f l a = Ok a' -> I a'.
Proof.
  intros H; induction l as [|b l IH]; intros a a' Ia; cbn [foldM].
  - intros [= <-]; exact Ia.
  - destruct (f a b) as [a1|e] eqn:E; cbn [bind]; [|discriminate].
    apply IH, (H a b a1 Ia E).
Qed.

Lemma collect_file_plain (fs : node) (d : path) (st st' : obj (list skill))
    (p : path) :
  own_plain st -> collect_file fs d st p = Ok st' -> own_plain st'.
Proof.
  intros P; unfold collect_file.
  destruct (negb (length (path_relative_split d p) =? 3)%nat);
    [intros [= <-]; exact P|].
  destruct (negb (startsWith at_sign (nth 0 (path_relative_split d p) [])));
    [intros [= <-]; exact P|].
  destruct (negb (str_eqb (nth 2 (path_relative_split d p) []) SKILL_md));
    [intros [= <-]; exact P|].
  set (k := slice1 (nth 0 (path_relative_split d p) [])).
  destruct (parseSkillMetadata fs p) as [md|e]; cbn [bind]; [|discriminate].
  unfold js_get.
  destruct (obj_get k st) as [l|] eqn:G.
  - intros [= <-] x Hx; apply obj_keys_set_In in Hx as [->|Hx];
      [|exact (P x Hx)].
    apply P; apply obj_get_In in G.
    change k with (fst (k, l)); apply in_map, G.
  - destruct (inherited k) eqn:I; [discriminate|].
    intros [= <-] x Hx; apply obj_keys_set_In in Hx as [->|Hx]; [exact I|].
    apply obj_keys_set_In in Hx as [->|Hx]; [exact I | exact (P x Hx)].
Qed.

(** X24. The statistics [collectStats] returns have no source that
    [Object.prototype] has a member for, on any file system: such a source
    makes the loop raise.  So [verifyTranslations], which [main] calls with
    these statistics only, looks [translations[source]] up at sources for
    which the lookup finds an own property or nothing. *)
Theorem collectStats_keys_plain (fs : node) (SKILLS_DIR : path)
    (st : obj (list skill)) (broken : list broken_dir) :
  collectStats fs SKILLS_DIR = Ok (st, broken) ->
  forall source, In source (js_keys st) -> inherited source = false.
Proof.
  unfold collectStats.
  destruct (scanSkillDirs fs SKILLS_DIR) as [sc|e]; cbn [bind];
    [|discriminate].
  destruct (foldM (collect_file fs SKILLS_DIR) (fst sc) []) as [st1|e] eqn:F;
    cbn [bind]; [|discriminate].
  intros [= <- _] source Hs.
  apply (foldM_invariant own_plain (collect_file fs SKILLS_DIR) (fst sc)
           (fun a b a' => collect_file_plain fs SKILLS_DIR a a' b) [] st1);
    [intros k [] | exact F|].
  apply (Permutation_in _ (js_keys_perm st1)), Hs.
Qed.

Lemma collectStats_keys_plain_witness :
  collectStats sample_fs sample_root
  = Ok (stats_of sample_root sample_skills,
        map (broken_of sample_root)
          (filter (fun c => negb (has_marker c)) (candidates sample_skills)))
  /\ In (lit "a") (js_keys (stats_of sample_root sample_skills))
  /\ inherited (lit "a") = false.
Proof.
  assert (E : collectStats sample_fs sample_root
              = Ok (stats_of sample_root sample_skills,
                    map (broken_of sample_root)
                      (filter (fun c => negb (has_marker c))
                         (candidates sample_skills))))
    by (vm_compute; reflexivity).
  assert (H : In (lit "a") (js_keys (stats_of sample_root sample_skills)))
    by (vm_compute; left; reflexivity).
  split; [exact E|]; split; [exact H|].
  exact (collectStats_keys_plain sample_fs sample_root _ _ E (lit "a") H).
Defined.

(* ================================================================== *)
(** ** The block between the delimiter lines *)



Lemma contains_nil (p : jsstring) : p <> [] -> contains p [] = false.
Proof. destruct p; [contradiction | reflexivity]. Qed.








(* ================================================================== *)
(** ** The two registry files read whole *)

(** X16. A line of the translation file that does not end in a colon is
    ignored, whatever it holds: the file is read as the loop reads the lines
    that end in a colon alone.  A file none of whose lines ends in a colon,
    such as one saved with carriage returns before the line feeds, yields no
    translation at all. *)
Theorem manifest_lines_end_in_colon (content : jsstring) :
  translations_of_text content
  = fst (fold_left translation_line
           (filter ends_in_colon (split_on LF content)) ([], None))
  /\ ((forall l, In l (split_on LF content) -> last l LF <> colon) ->
      translations_of_text content = []).
Proof.
  assert (G : forall lines st,
             fold_left translation_line lines st
             = fold_left translation_line (filter ends_in_colon lines) st).
  { induction lines as [|l lines IH]; intros st; cbn [fold_left filter];
      [reflexivity|].
    unfold ends_in_colon at 1.
    destruct (char_eqb (last l LF) colon) eqn:E; cbn [fold_left];
      [apply IH|].
    rewrite translation_line_skip; [apply IH|].
    intros H; rewrite H in E; unfold char_eqb in E; rewrite N.eqb_refl in E.
    discriminate. }
  split.
  - unfold translations_of_text; rewrite G; reflexivity.
  - intros H; unfold translations_of_text; rewrite G.
    replace (filter ends_in_colon (split_on LF content))
      with (@nil jsstring); [reflexivity|].
    symmetry; induction (split_on LF content) as [|l ls IH];
      [reflexivity|].
    cbn [filter]; unfold ends_in_colon at 1.
    destruct (char_eqb (last l LF) colon) eqn:E.
    + apply char_eqb_eq in E; exfalso.
      exact (H l (or_introl eq_refl) E).
    + apply IH; intros l' Hl'; apply H; right; exact Hl'.
Qed.

Lemma manifest_lines_end_in_colon_witness :
  translations_of_text crlf_manifest = []
  /\ translations_of_text
       (lit "# translations" ++ [LF] ++ lit "  foo:" ++ [LF]
        ++ lit "    name: x" ++ [LF] ++ lit "    bar:" ++ [LF])
     = [(lit "foo", [(lit "bar", tt)])].
Proof.
  split.
  - apply (proj2 (manifest_lines_end_in_colon crlf_manifest)).
    intros l Hl; vm_compute in Hl.
    destruct Hl as [<-|[<-|[<-|[]]]]; intros E; vm_compute in E; discriminate.
  - rewrite (proj1 (manifest_lines_end_in_colon _)); reflexivity.
Defined.

(** X18. An index file written in the layout the script expects, with
    values without quotes, is read back by [parseIndex] as it was written:
    the same records in the same order, each with its id, source and path,
    and the two tables over them.  That is so unless a record names a source
    that [Object.prototype] has a member for: then the records are read, and
    the loop that fills the tables raises [TypeError]. *)
Theorem index_round_trip (fs : node) (filePath : path)
    (entries : list index_entry) :
  forallb bare_entry entries = true ->
  readFileSync fs filePath = Ok (render_index entries) ->
  entries_of_text (render_index entries) = entries
  /\ ((forall e, In e entries -> inherited (e_source e) = false) ->
      exists ix,
        parseIndex fs filePath = Ok ix
        /\ ix_entries ix = entries
        /\ (forall p, p <> proto_key ->
              obj_get p (ix_byPath ix)
              = find (fun e => str_eqb (e_path e) p) (rev entries))
        /\ (forall s,
              get_or_empty s (ix_bySource ix)
              = filter (fun e => str_eqb (e_source e) s) entries))
  /\ ((exists e, In e entries /\ inherited (e_source e) = true) ->
      parseIndex fs filePath = Throw TypeError).
Proof.
  intros B R.
  pose proof (entries_round_trip entries B) as E.
  assert (X : existsSync fs filePath = true).
  { unfold readFileSync in R; unfold existsSync.
    destruct (lookup fs filePath); [reflexivity | discriminate]. }
  assert (P : parseIndex fs filePath = build_index entries).
  { unfold parseIndex; rewrite X, R; cbn [negb bind]; rewrite E.
    reflexivity. }
  assert (Q : plain_records entries = true
              <-> forall e, In e entries -> inherited (e_source e) = false).
  { unfold plain_records; rewrite forallb_forall; split; intros H e He;
      apply negb_true_iff, H, He. }
  split; [exact E|]; rewrite P, build_index_cases; split.
  - intros H; rewrite (proj2 Q H).
    eexists; split; [reflexivity|]; split; [reflexivity|]; split.
    + intros p NP; unfold tables_of; cbn [ix_byPath].
      rewrite (byPath_fold entries ([], []) p NP); cbn [snd obj_get].
      destruct (find _ (rev entries)); reflexivity.
    + intros s; apply (bySource_fold entries ([], []) s).
  - intros [e [He I]]; destruct (plain_records entries) eqn:K;
      [|reflexivity].
    rewrite (proj1 Q eq_refl e He) in I; discriminate.
Qed.

Lemma index_round_trip_witness :
  exists ix,
    parseIndex
      (Dir [(lit "index.yaml",
             File (render_index
                     [{| e_id := lit "pdf"; e_source := lit "anthropic";
                         e_path := lit "@anthropic/pdf" |};
                      {| e_id := lit "s3"; e_source := lit "itsmostafa";
                         e_path := lit "@itsmostafa/s3" |}]))])
      [lit "index.yaml"] = Ok ix
    /\ ix_entries ix
       = [{| e_id := lit "pdf"; e_source := lit "anthropic";
             e_path := lit "@anthropic/pdf" |};
          {| e_id := lit "s3"; e_source := lit "itsmostafa";
             e_path := lit "@itsmostafa/s3" |}].
Proof.
  destruct (index_round_trip
              (Dir [(lit "index.yaml",
                     File (render_index
                             [{| e_id := lit "pdf";
                                 e_source := lit "anthropic";
                                 e_path := lit "@anthropic/pdf" |};
                              {| e_id := lit "s3";
                                 e_source := lit "itsmostafa";
                                 e_path := lit "@itsmostafa/s3" |}]))])
              [lit "index.yaml"]
              [{| e_id := lit "pdf"; e_source := lit "anthropic";
                  e_path := lit "@anthropic/pdf" |};
               {| e_id := lit "s3"; e_source := lit "itsmostafa";
                  e_path := lit "@itsmostafa/s3" |}]
              eq_refl eq_refl) as (_ & K & _).
  destruct K as (ix & P & E & _).
  - intros e [<-|[<-|[]]]; reflexivity.
  - exists ix; split; [exact P | exact E].
Defined.

(* ================================================================== *)
(** ** Examples *)

(** The spec's round trip: a document that says 41 where the count is 42. *)
Example rewrite_41_to_42 :
  rewrite_counts 42 9
    (cp_gong :: lit " 41 " ++ cp_ge :: lit " Skills (v1.41)")
  = (cp_gong :: lit " 42 " ++ cp_ge :: lit " Skills (v1.41)", true).
Proof. vm_compute; reflexivity. Qed.

(** Under [--fix] a stale document is written back. *)
Example fix_writes_stale_document :
  let stale :=
    Dir [(lit "repo",
          Dir [(lit "README.md",
                File (cp_gong :: lit " 7 " ++ cp_ge :: lit " Skills"))])] in
  fst (main [lit "repo"] [lit "--fix"] stale)
  = Dir [(lit "repo",
          Dir [(lit "README.md",
                File (cp_gong :: lit " 0 " ++ cp_ge :: lit " Skills"))])].
Proof. vm_compute; reflexivity. Qed.

(** The sample tree: two skills in two sources, one broken directory. *)
Example sample_tree_scan :
  scanSkillDirs sample_fs sample_root
  = Ok ([sample_root ++ [lit "@a"; lit "s1"; SKILL_md];
         sample_root ++ [lit "@b"; lit "t1"; SKILL_md]],
        [{| b_source := lit "a"; b_id := lit "s2";
            b_dir := sample_root ++ [lit "@a"; lit "s2"] |}]).
Proof. vm_compute; reflexivity. Qed.

(** A description in quotes loses them; an empty one keeps a quote. *)
Example quoted_descriptions :
  m_description
    (metadata_of_text [lit "s1"; SKILL_md]
       (lit "---" ++ [LF] ++ lit "description: 'bar baz'" ++ [LF]
        ++ lit "---"))
  = lit "bar baz"
  /\ m_description
       (metadata_of_text [lit "s1"; SKILL_md]
          (lit "---" ++ [LF] ++ lit "description: ''" ++ [LF] ++ lit "---"))
     = squote.
Proof. split; vm_compute; reflexivity. Qed.
